(** * The session server of the absorb-to-grow arena game

    A shallow embedding of the WebSocket game server (lobby registry, lobby
    life cycle, fixed-rate simulation tick, collision resolution and the
    broadcast layer) and the properties of its specification.

    Numbers.  JavaScript numbers are modelled as real numbers ([R]):
    [Math.sqrt] is [sqrt], [Math.cos]/[Math.sin] are [cos]/[sin]; rounding
    of IEEE doubles is not modelled, and the numeric fields of a message are
    taken to be finite numbers.  A statement about the real numbers is a
    statement about the doubles up to rounding only where no intermediate
    result overflows or underflows.  The normalisation of the input vector
    takes the numbers a client sends as they come; it is therefore also
    given in binary64 ([Double.normalise]), and the statements about it
    carry the range [in_double_range].  Millisecond time stamps and the
    countdown are integers ([Z]).

    Objects.  A JavaScript [Map] is an association list in insertion order.
    A lobby object is identified with its entry in the [lobbies] registry
    (timer callbacks find it by its code), which is exact as long as a lobby
    code is not generated twice: the teardown callback of the source works
    on the lobby object [endGame] had looked up, and after a second
    [create_lobby] with the same code that object is no longer the one the
    registry holds.  The statement about the sockets the teardown closes is
    made for sequences of events that generate no code twice
    ([created_codes]).

    Environment.  Values the server obtains from outside ([uuidv4],
    [generateLobbyCode], the elapsed time of a tick) are arguments of the
    functions that read them; [Math.random] and [Date.now] are two streams
    [rnd] and [clock], of which the server state records how many values
    were consumed.  A socket is open or not ([c_open]); [ws.close()] makes
    it not open, and its ['close'] event is an event of its own.

    Control.  The server is single-threaded: an event (a connection, a
    message, a socket leaving the open state, a ['close'] event, a timer
    firing) runs its handler to completion, [step].  No operation of the
    model throws, so the [try]/[catch] blocks of the source are transparent
    and the recovery branch of the tick callback is never taken.  Logging,
    the tick-rate report, the unused single-game handler [handleJoin],
    [broadcastToAll] and the shutdown hook are left out. *)

From Stdlib Require Import Reals Lra List String ZArith Bool Lia Arith.
From Stdlib Require PrimFloat.
Import ListNotations.
Open Scope string_scope.
Open Scope R_scope.

(** ** Insertion-ordered maps with string keys *)

Module JSMap.

Section Ops.
Context {V : Type}.

Fixpoint get (k : string) (m : list (string * V)) : option V :=
  match m with
  | [] => None
  | (k', v) :: r => if k' =? k then Some v else get k r
  end.

(** [Map.prototype.set]: an existing key keeps its position. *)
Fixpoint set (k : string) (v : V) (m : list (string * V)) : list (string * V) :=
  match m with
  | [] => [(k, v)]
  | (k', v') :: r => if k' =? k then (k, v) :: r else (k', v') :: set k v r
  end.

Definition delete (k : string) (m : list (string * V)) : list (string * V) :=
  filter (fun kv => negb (fst kv =? k)) m.

(** A write through a reference held on a value of the map: nothing
    happens when the key is no longer present. *)
Fixpoint update (k : string) (f : V -> V) (m : list (string * V)) : list (string * V) :=
  match m with
  | [] => []
  | (k', v) :: r => if k' =? k then (k', f v) :: r else (k', v) :: update k f r
  end.

Definition values (m : list (string * V)) : list V := map snd m.
Definition keys (m : list (string * V)) : list string := map fst m.
Definition size (m : list (string * V)) : nat := List.length m.
End Ops.

End JSMap.

(** ** Configuration *)

Module CONFIG.
Definition foodCount : nat := 100.
Definition playerStartSize : R := 1.
Definition foodSize : R := 3 / 10.
Definition growthRate : R := 5 / 100.
Definition absorptionThreshold : R := 12 / 10.
Definition forceMagnitude : R := 10.
Definition respawnThreshold : R := 3 / 10.
Definition respawnAmount : nat := 10.
Definition mapWidth : R := 20.
Definition mapHeight : R := 15.
Definition maxPlayers : nat := 5.
Definition minPlayersToStart : nat := 2.
Definition countdownTime : Z := 3.
End CONFIG.

(** ** The normalisation of the input vector in binary64

    The arithmetic of [handlePlayerInput] on IEEE doubles, as JavaScript
    computes it: [Math.sqrt(x * x + y * y)], the test [length > 0] and the
    two divisions. *)

Module Double.
Import PrimFloat.

Definition normalise (x y : float) : float * float :=
  let length := sqrt (x * x + y * y)%float in
  if (0 <? length)%float then ((x / length)%float, (y / length)%float)
  else (0%float, 0%float).

End Double.

Definition playerColors : list Z :=
  [0x44aa88; 0xaa4444; 0x4444aa; 0xaaaa44; 0xaa44aa]%Z.

(** ** Data model *)

Record vec2 := mkVec { vx : R; vy : R }.

Record player := mkPlayer {
  p_id : string;
  p_clientId : string;
  p_name : string;
  p_color : Z;
  p_ready : bool;
  p_x : R;
  p_y : R;
  p_size : R;
  p_input : vec2;
  p_lastUpdate : option Z   (* [undefined] until the first tick *)
}.

Inductive game_state := GLobby | GCountdown | GPlaying.

Definition game_state_eqb (a b : game_state) : bool :=
  match a, b with
  | GLobby, GLobby | GCountdown, GCountdown | GPlaying, GPlaying => true
  | _, _ => false
  end.

Record lobby := mkLobby {
  players : list (string * player);
  gameState : game_state;
  foodItems : list vec2;
  countdown : Z;
  countdownInterval : option nat;
  gameTickInterval : option nat
}.

(** [c_open] is [ws.readyState === WebSocket.OPEN]. *)
Record client := mkClient {
  c_id : string;
  c_open : bool;
  c_playerId : option string;
  c_lobbyId : option string
}.

(** Server-to-client messages. *)
Inductive msg :=
| error (message : string)
| lobby_created (lobbyId : string)
| welcome (clientId playerId lobbyId : string)
| lobby_update (roster : list (string * string * bool * Z))
| countdown_msg (count : Z)
| game_start (roster : list (string * R * R * R)) (food : list vec2)
| game_update (roster : list (string * R * R * R))
| food_eaten (x y : R) (by_ : string) (newFood : option vec2)
| player_eaten (eaten : string) (by_ : option string)
| you_were_eliminated
| player_disconnected (playerId : string)
| game_over (winner : option string) (size : R)
| force_lobby
| prepare_reconnect.

(** Pending timers: the two intervals of a lobby and the one-shot teardown
    scheduled by [endGame]. *)
Inductive timer :=
| CountdownTimer (lobbyId : string)
| TickTimer (lobbyId : string)
| TeardownTimer (lobbyId : string).

(** The whole server: the two registries, the pending timers with their
    handles, and the log of every [ws.send], oldest first. *)
Record server := mkServer {
  clients : list (string * client);
  lobbies : list (string * lobby);
  timers : list (nat * timer);
  nextHandle : nat;
  sent : list (string * msg);
  randomCalls : nat;   (* number of [Math.random] values consumed so far *)
  clockCalls : nat     (* number of [Date.now] readings consumed so far *)
}.

Definition DEFAULT_LOBBY : lobby :=
  mkLobby [] GLobby [] CONFIG.countdownTime None None.

Definition initial : server := mkServer [] [] [] 0 [] 0 0.

(** *** Field updates *)

Definition with_players (r : list (string * player)) (l : lobby) : lobby :=
  mkLobby r (gameState l) (foodItems l) (countdown l)
          (countdownInterval l) (gameTickInterval l).
Definition with_gameState (g : game_state) (l : lobby) : lobby :=
  mkLobby (players l) g (foodItems l) (countdown l)
          (countdownInterval l) (gameTickInterval l).
Definition with_foodItems (f : list vec2) (l : lobby) : lobby :=
  mkLobby (players l) (gameState l) f (countdown l)
          (countdownInterval l) (gameTickInterval l).
Definition with_countdown (c : Z) (l : lobby) : lobby :=
  mkLobby (players l) (gameState l) (foodItems l) c
          (countdownInterval l) (gameTickInterval l).
Definition with_countdownInterval (h : option nat) (l : lobby) : lobby :=
  mkLobby (players l) (gameState l) (foodItems l) (countdown l)
          h (gameTickInterval l).
Definition with_gameTickInterval (h : option nat) (l : lobby) : lobby :=
  mkLobby (players l) (gameState l) (foodItems l) (countdown l)
          (countdownInterval l) h.

Definition with_pos (x y : R) (p : player) : player :=
  mkPlayer (p_id p) (p_clientId p) (p_name p) (p_color p) (p_ready p)
           x y (p_size p) (p_input p) (p_lastUpdate p).
Definition with_size (s : R) (p : player) : player :=
  mkPlayer (p_id p) (p_clientId p) (p_name p) (p_color p) (p_ready p)
           (p_x p) (p_y p) s (p_input p) (p_lastUpdate p).
Definition with_input (i : vec2) (p : player) : player :=
  mkPlayer (p_id p) (p_clientId p) (p_name p) (p_color p) (p_ready p)
           (p_x p) (p_y p) (p_size p) i (p_lastUpdate p).
Definition with_ready (b : bool) (p : player) : player :=
  mkPlayer (p_id p) (p_clientId p) (p_name p) (p_color p) b
           (p_x p) (p_y p) (p_size p) (p_input p) (p_lastUpdate p).
Definition with_lastUpdate (t : option Z) (p : player) : player :=
  mkPlayer (p_id p) (p_clientId p) (p_name p) (p_color p) (p_ready p)
           (p_x p) (p_y p) (p_size p) (p_input p) t.

Definition with_clients (c : list (string * client)) (s : server) : server :=
  mkServer c (lobbies s) (timers s) (nextHandle s) (sent s)
           (randomCalls s) (clockCalls s).
Definition with_lobbies (l : list (string * lobby)) (s : server) : server :=
  mkServer (clients s) l (timers s) (nextHandle s) (sent s)
           (randomCalls s) (clockCalls s).
Definition with_timers (t : list (nat * timer)) (s : server) : server :=
  mkServer (clients s) (lobbies s) t (nextHandle s) (sent s)
           (randomCalls s) (clockCalls s).
Definition with_sent (o : list (string * msg)) (s : server) : server :=
  mkServer (clients s) (lobbies s) (timers s) (nextHandle s) o
           (randomCalls s) (clockCalls s).
Definition with_randomCalls (n : nat) (s : server) : server :=
  mkServer (clients s) (lobbies s) (timers s) (nextHandle s) (sent s)
           n (clockCalls s).
Definition with_clockCalls (n : nat) (s : server) : server :=
  mkServer (clients s) (lobbies s) (timers s) (nextHandle s) (sent s)
           (randomCalls s) n.

(** Mutation of the lobby object registered under [lobbyId]. *)
Definition update_lobby (lobbyId : string) (f : lobby -> lobby) (s : server) : server :=
  with_lobbies (JSMap.update lobbyId f (lobbies s)) s.

(** Mutation of the player object [playerId] of a lobby's roster. *)
Definition update_player (lobbyId playerId : string) (f : player -> player)
    (s : server) : server :=
  update_lobby lobbyId
    (fun l => with_players (JSMap.update playerId f (players l)) l) s.

(** JavaScript truthiness of an optional string field. *)
Definition truthy (o : option string) : bool :=
  match o with
  | Some v => negb (v =? "")
  | None => false
  end.

(** ** Timers *)

Definition setTimer (t : timer) (s : server) : nat * server :=
  (nextHandle s,
   mkServer (clients s) (lobbies s) (timers s ++ [(nextHandle s, t)])
            (S (nextHandle s)) (sent s) (randomCalls s) (clockCalls s)).

Definition clearTimer (h : nat) (s : server) : server :=
  with_timers (filter (fun ht => negb (fst ht =? h)%nat) (timers s)) s.

Definition timer_active (h : nat) (s : server) : option timer :=
  match find (fun ht => (fst ht =? h)%nat) (timers s) with
  | Some ht => Some (snd ht)
  | None => None
  end.

(** ** Broadcast layer *)

Definition sendToClient (clientId : string) (m : msg) (s : server) : server :=
  match JSMap.get clientId (clients s) with
  | Some c => if c_open c then with_sent (sent s ++ [(clientId, m)]) s else s
  | None => s
  end.

(** The connections a lobby multicast reaches, in roster order. *)
Definition recipients (cs : list (string * client)) (roster : list (string * player))
    : list string :=
  flat_map (fun kp =>
      match JSMap.get (p_clientId (snd kp)) cs with
      | Some c => if c_open c then [p_clientId (snd kp)] else []
      | None => []
      end) roster.

Definition broadcastToLobby (lobbyId : string) (m : msg) (s : server) : server :=
  match JSMap.get lobbyId (lobbies s) with
  | None => s
  | Some l =>
      with_sent (sent s ++ map (fun c => (c, m)) (recipients (clients s) (players l))) s
  end.

Definition broadcastLobbyUpdate (lobbyId : string) (s : server) : server :=
  match JSMap.get lobbyId (lobbies s) with
  | None => s
  | Some l =>
      broadcastToLobby lobbyId
        (lobby_update
           (map (fun p => (p_id p, p_name p, p_ready p, p_color p))
                (JSMap.values (players l)))) s
  end.

(** ** Lobby registry *)

(** [code] is the value returned by [generateLobbyCode]. *)
Definition createLobby (code : string) (s : server) : server :=
  with_lobbies (JSMap.set code DEFAULT_LOBBY (lobbies s)) s.

(** [uuid] is the value returned by [uuidv4]. *)
Definition handleJoinLobby (clientId lobbyId playerName uuid : string)
    (s : server) : server :=
  match JSMap.get lobbyId (lobbies s) with
  | None => sendToClient clientId (error "Lobby not found") s
  | Some l =>
      if negb (game_state_eqb (gameState l) GLobby) then
        sendToClient clientId (error "Game already in progress") s
      else if (CONFIG.maxPlayers <=? JSMap.size (players l))%nat then
        sendToClient clientId (error "Lobby is full") s
      else
        let playerId := uuid in
        let p :=
          mkPlayer playerId clientId playerName
            (nth (JSMap.size (players l) mod List.length playerColors) playerColors 0%Z)
            false 0 0 CONFIG.playerStartSize (mkVec 0 0) None in
        let s := update_lobby lobbyId
                   (fun l => with_players (JSMap.set playerId p (players l)) l) s in
        match JSMap.get clientId (clients s) with
        | None => s   (* unreachable from the dispatcher, which checks the client *)
        | Some c =>
            let s := with_clients
                       (JSMap.set clientId
                          (mkClient (c_id c) (c_open c) (Some playerId) (Some lobbyId))
                          (clients s)) s in
            let s := sendToClient clientId (welcome clientId playerId lobbyId) s in
            broadcastLobbyUpdate lobbyId s
        end
  end.

(** ** Lobby handlers *)

(** [endGame]: the guard is on [gameState], which [endGame] itself leaves
    at [GPlaying]. *)
Definition endGame (lobbyId : string) (winnerId : option string) (s : server) : server :=
  match JSMap.get lobbyId (lobbies s) with
  | None => s
  | Some l =>
      if negb (game_state_eqb (gameState l) GPlaying) then s
      else
        let s := match gameTickInterval l with
                 | Some h =>
                     update_lobby lobbyId (with_gameTickInterval None) (clearTimer h s)
                 | None => s
                 end in
        let winner := match winnerId with
                      | Some w => JSMap.get w (players l)
                      | None => None
                      end in
        let s := broadcastToLobby lobbyId
                   (game_over winnerId
                      (match winner with Some w => p_size w | None => 0 end)) s in
        snd (setTimer (TeardownTimer lobbyId) s)
  end.

(** The callback [endGame] schedules 3000 ms ahead.  The source iterates
    the roster of the lobby object captured by the closure; the model reads
    the roster registered under the code when the callback runs, which is
    the same object unless the code was generated again in the meantime.
    (When an earlier teardown has already removed the lobby, the sockets of
    its roster were closed then and the callback has no observable
    effect.) *)
Definition teardown (lobbyId : string) (s : server) : server :=
  match JSMap.get lobbyId (lobbies s) with
  | None => s
  | Some l =>
      let s :=
        fold_left (fun s kp =>
            match JSMap.get (p_clientId (snd kp)) (clients s) with
            | Some c =>
                let s := sendToClient (c_id c) prepare_reconnect s in
                (* [client.ws.close()] *)
                with_clients
                  (JSMap.update (p_clientId (snd kp))
                     (fun c => mkClient (c_id c) false (c_playerId c) (c_lobbyId c))
                     (clients s)) s
            | None => s
            end) (players l) s in
      with_lobbies (JSMap.delete lobbyId (lobbies s)) s
  end.

(** [remainingPlayers[0]?.id] *)
Definition firstId (roster : list (string * player)) : option string :=
  match JSMap.values roster with
  | p :: _ => Some (p_id p)
  | [] => None
  end.

Definition initializeGamePositions (lobbyId : string) (s : server) : server :=
  update_lobby lobbyId
    (fun l =>
       let n := List.length (players l) in
       let radius := Rmin CONFIG.mapWidth CONFIG.mapHeight / 3 in
       let angleStep := (2 * PI) / INR n in
       with_players
         (map (fun ikp : nat * (string * player) =>
                 let angle := angleStep * INR (fst ikp) in
                 let p := snd (snd ikp) in
                 (fst (snd ikp),
                  with_input (mkVec 0 0)
                    (with_size CONFIG.playerStartSize
                       (with_pos (cos angle * radius) (sin angle * radius) p))))
              (combine (seq 0 n) (players l))) l) s.

Definition startCountdown (lobbyId : string) (s : server) : server :=
  match JSMap.get lobbyId (lobbies s) with
  | None => s
  | Some _ =>
      let s := update_lobby lobbyId
                 (fun l => with_countdown CONFIG.countdownTime
                             (with_gameState GCountdown l)) s in
      let s := broadcastToLobby lobbyId (countdown_msg CONFIG.countdownTime) s in
      let (h, s) := setTimer (CountdownTimer lobbyId) s in
      update_lobby lobbyId (with_countdownInterval (Some h)) s
  end.

Definition checkGameStart (lobbyId : string) (s : server) : server :=
  match JSMap.get lobbyId (lobbies s) with
  | None => s
  | Some l =>
      if negb (game_state_eqb (gameState l) GLobby) then s
      else
        let playerList := JSMap.values (players l) in
        if (CONFIG.minPlayersToStart <=? List.length playerList)%nat
           && forallb p_ready playerList
        then startCountdown lobbyId s
        else s
  end.

Definition handleToggleReady (clientId lobbyId : string) (s : server) : server :=
  match JSMap.get clientId (clients s) with
  | None => s
  | Some c =>
      if negb (truthy (c_playerId c)) then s
      else
        match c_playerId c, JSMap.get lobbyId (lobbies s) with
        | Some playerId, Some l =>
            match JSMap.get playerId (players l) with
            | None => s
            | Some _ =>
                let s := update_player lobbyId playerId
                           (fun p => with_ready (negb (p_ready p)) p) s in
                let s := broadcastLobbyUpdate lobbyId s in
                checkGameStart lobbyId s
            end
        | _, _ => s
        end
  end.

Definition handlePlayerInput (clientId lobbyId : string) (input : vec2)
    (s : server) : server :=
  match JSMap.get lobbyId (lobbies s) with
  | None => s
  | Some l =>
      if negb (game_state_eqb (gameState l) GPlaying) then s
      else
        match JSMap.get clientId (clients s) with
        | None => s
        | Some c =>
            if negb (truthy (c_playerId c)) then s
            else
              match c_playerId c with
              | None => s
              | Some playerId =>
                  match JSMap.get playerId (players l) with
                  | None => s
                  | Some _ =>
                      (* normalise the input vector *)
                      let length := sqrt (vx input * vx input + vy input * vy input) in
                      if Rlt_dec 0 length then
                        update_player lobbyId playerId
                          (with_input (mkVec (vx input / length) (vy input / length))) s
                      else
                        update_player lobbyId playerId (with_input (mkVec 0 0)) s
                  end
              end
        end
  end.

Definition handleRequestLobby (clientId : string) (s : server) : server :=
  match JSMap.get clientId (clients s) with
  | None => s
  | Some c =>
      if negb (truthy (c_lobbyId c)) then s
      else
        match c_lobbyId c with
        | None => s
        | Some lobbyId =>
            match JSMap.get lobbyId (lobbies s) with
            | None => s
            | Some l =>
                let s := match countdownInterval l with
                         | Some h => update_lobby lobbyId (with_countdownInterval None)
                                       (clearTimer h s)
                         | None => s
                         end in
                let s := match gameTickInterval l with
                         | Some h => update_lobby lobbyId (with_gameTickInterval None)
                                       (clearTimer h s)
                         | None => s
                         end in
                let s := update_lobby lobbyId
                           (fun l =>
                              with_countdown CONFIG.countdownTime
                                (with_foodItems [] (with_gameState GLobby l))) s in
                let s := update_lobby lobbyId
                           (fun l =>
                              with_players
                                (map (fun kp : string * player =>
                                        (fst kp,
                                         with_input (mkVec 0 0)
                                           (with_ready false
                                              (with_size CONFIG.playerStartSize
                                                 (with_pos 0 0 (snd kp))))))
                                     (players l)) l) s in
                let s := broadcastToLobby lobbyId force_lobby s in
                broadcastLobbyUpdate lobbyId s
            end
        end
  end.

Definition handleClientDisconnect (clientId : string) (s : server) : server :=
  match JSMap.get clientId (clients s) with
  | None => s
  | Some c =>
      let s :=
        match c_lobbyId c with
        | None => s
        | Some lobbyId =>
            if negb (truthy (c_lobbyId c)) then s
            else
              match JSMap.get lobbyId (lobbies s), c_playerId c with
              | Some _, Some playerId =>
                  if negb (truthy (c_playerId c)) then s
                  else
                    let s := update_lobby lobbyId
                               (fun l => with_players (JSMap.delete playerId (players l)) l)
                               s in
                    let s := broadcastToLobby lobbyId (player_eaten playerId None) s in
                    match JSMap.get lobbyId (lobbies s) with
                    | Some l =>
                        if game_state_eqb (gameState l) GPlaying
                           && (JSMap.size (players l) <=? 1)%nat
                        then endGame lobbyId (firstId (players l)) s
                        else s
                    | None => s
                    end
              | _, _ => s
              end
        end in
      with_clients (JSMap.delete clientId (clients s)) s
  end.

(** [absorbPlayer]: the eliminated player's connection is the first
    connection whose [playerId] is the absorbed player. *)
Definition absorbPlayer (lobbyId absorberId absorbeId : string) (s : server) : server :=
  match JSMap.get lobbyId (lobbies s) with
  | None => s
  | Some _ =>
      let eliminatedClient :=
        find (fun kc : string * client =>
                match c_playerId (snd kc) with
                | Some q => q =? absorbeId
                | None => false
                end) (clients s) in
      let s :=
        match eliminatedClient with
        | Some (k, c) =>
            let s := update_lobby lobbyId
                       (fun l => with_players (JSMap.delete absorbeId (players l)) l) s in
            let s := with_clients
                       (JSMap.update k
                          (fun c => mkClient (c_id c) (c_open c) None (c_lobbyId c))
                          (clients s)) s in
            let s := broadcastToLobby lobbyId
                       (player_eaten absorbeId (Some absorberId)) s in
            sendToClient (c_id c) you_were_eliminated s
        | None => s
        end in
      match JSMap.get lobbyId (lobbies s) with
      | Some l =>
          if (JSMap.size (players l) <=? 1)%nat && game_state_eqb (gameState l) GPlaying
          then endGame lobbyId (firstId (players l)) s
          else s
      | None => s
      end
  end.

Definition broadcastGameState (lobbyId : string) (s : server) : server :=
  match JSMap.get lobbyId (lobbies s) with
  | None => s
  | Some l =>
      if negb (game_state_eqb (gameState l) GPlaying) then s
      else
        broadcastToLobby lobbyId
          (game_update
             (map (fun p => (p_id p, p_x p, p_y p, p_size p))
                  (JSMap.values (players l)))) s
  end.

(** ** Simulation *)

(** [Math.atan2] *)
Definition atan2 (y x : R) : R :=
  if Rlt_dec 0 x then atan (y / x)
  else if Rlt_dec x 0 then
         (if Rlt_dec y 0 then atan (y / x) - PI else atan (y / x) + PI)
  else if Rlt_dec 0 y then PI / 2
  else if Rlt_dec y 0 then - (PI / 2)
  else 0.

(** [Array.prototype.splice(i, 1)] *)
Fixpoint splice1 {A : Type} (i : nat) (l : list A) : list A :=
  match l, i with
  | [], _ => []
  | _ :: r, O => r
  | a :: r, S i' => a :: splice1 i' r
  end.

(** Assignment to the [i]-th cell of an array. *)
Fixpoint set_nth {A : Type} (i : nat) (a : A) (l : list A) : list A :=
  match l, i with
  | [], _ => []
  | _ :: r, O => a :: r
  | b :: r, S i' => b :: set_nth i' a r
  end.

(** The body of the movement [forEach] of [updateGameState], up to the
    refresh of [lastUpdate].  [Math.pow(1 / size, 0.5)] is a square root. *)
Definition movePlayer (deltaTime : R) (p : player) : player :=
  if (if Req_dec_T (vx (p_input p)) 0 then false else true)
     || (if Req_dec_T (vy (p_input p)) 0 then false else true)
  then
    let moveSpeed := CONFIG.forceMagnitude * sqrt (1 / p_size p) * deltaTime in
    let inputMagnitude :=
      sqrt (vx (p_input p) * vx (p_input p) + vy (p_input p) * vy (p_input p)) in
    let p :=
      if Rlt_dec 0 inputMagnitude then
        with_pos (p_x p + vx (p_input p) / inputMagnitude * moveSpeed)
                 (p_y p + vy (p_input p) / inputMagnitude * moveSpeed) p
      else p in
    let boundaryForce := 8 / 10 in
    let boundaryDistance := 2 in
    let p :=
      if Rlt_dec (p_x p) (- CONFIG.mapWidth + boundaryDistance) then
        with_input (mkVec (vx (p_input p) * - boundaryForce) (vy (p_input p)))
          (with_pos (Rmax (- CONFIG.mapWidth) (p_x p)) (p_y p) p)
      else if Rlt_dec (CONFIG.mapWidth - boundaryDistance) (p_x p) then
        with_input (mkVec (vx (p_input p) * - boundaryForce) (vy (p_input p)))
          (with_pos (Rmin CONFIG.mapWidth (p_x p)) (p_y p) p)
      else p in
    if Rlt_dec (p_y p) (- CONFIG.mapHeight + boundaryDistance) then
      with_input (mkVec (vx (p_input p)) (vy (p_input p) * - boundaryForce))
        (with_pos (p_x p) (Rmax (- CONFIG.mapHeight) (p_y p)) p)
    else if Rlt_dec (CONFIG.mapHeight - boundaryDistance) (p_y p) then
      with_input (mkVec (vx (p_input p)) (vy (p_input p) * - boundaryForce))
        (with_pos (p_x p) (Rmin CONFIG.mapHeight (p_y p)) p)
    else p
  else p.

Section Simulation.

(** The [k]-th value returned by [Math.random] and the [k]-th reading of
    [Date.now] made by the simulation. *)
Variable rnd : nat -> R.
Variable clock : nat -> Z.

Definition randomFood (k : nat) : vec2 :=
  mkVec ((rnd k * 2 - 1) * CONFIG.mapWidth)
        ((rnd (S k) * 2 - 1) * CONFIG.mapHeight).

Definition generateFood (lobbyId : string) (s : server) : server :=
  match JSMap.get lobbyId (lobbies s) with
  | None => s
  | Some _ =>
      let k := randomCalls s in
      let s := update_lobby lobbyId
                 (with_foodItems
                    (map (fun i => randomFood (k + 2 * i)) (seq 0 CONFIG.foodCount))) s in
      with_randomCalls (k + 2 * CONFIG.foodCount) s
  end.

Definition startGameTick (lobbyId : string) (s : server) : server :=
  match JSMap.get lobbyId (lobbies s) with
  | None => s
  | Some _ =>
      let (h, s) := setTimer (TickTimer lobbyId) s in
      update_lobby lobbyId (with_gameTickInterval (Some h)) s
  end.

Definition startGame (lobbyId : string) (s : server) : server :=
  match JSMap.get lobbyId (lobbies s) with
  | None => s
  | Some _ =>
      let s := update_lobby lobbyId (with_gameState GPlaying) s in
      let s := initializeGamePositions lobbyId s in
      let s := generateFood lobbyId s in
      let s := match JSMap.get lobbyId (lobbies s) with
               | Some l =>
                   broadcastToLobby lobbyId
                     (game_start
                        (map (fun p => (p_id p, p_x p, p_y p, p_size p))
                             (JSMap.values (players l)))
                        (foodItems l)) s
               | None => s
               end in
      startGameTick lobbyId s
  end.

(** The callback of the countdown interval.  (When the lobby has been
    removed from the registry the callback has no observable effect.) *)
Definition countdownTick (lobbyId : string) (s : server) : server :=
  match JSMap.get lobbyId (lobbies s) with
  | None => s
  | Some l =>
      let s := update_lobby lobbyId (with_countdown (countdown l - 1)) s in
      if (0 <? countdown l - 1)%Z then
        broadcastToLobby lobbyId (countdown_msg (countdown l - 1)) s
      else
        let s := match countdownInterval l with
                 | Some h => clearTimer h s
                 | None => s
                 end in
        startGame lobbyId s
  end.

(** *** Food *)

(** One iteration of the respawn loop after [food] was eaten by [eater]. *)
Definition respawnOne (lobbyId : string) (food : vec2) (eater : string)
    (s : server) : server :=
  let newFood := randomFood (randomCalls s) in
  let s := with_randomCalls (2 + randomCalls s) s in
  let s := update_lobby lobbyId (fun l => with_foodItems (foodItems l ++ [newFood]) l) s in
  broadcastToLobby lobbyId (food_eaten (vx food) (vy food) eater (Some newFood)) s.

(** The body of the inner loop of [checkFoodCollisions] for the player
    object registered under [playerId] and the food index [i]. *)
Definition foodStep (lobbyId playerId : string) (i : nat) (s : server) : server :=
  match JSMap.get lobbyId (lobbies s) with
  | None => s
  | Some l =>
      match JSMap.get playerId (players l), nth_error (foodItems l) i with
      | Some p, Some food =>
          let dx := p_x p - vx food in
          let dy := p_y p - vy food in
          let distance := sqrt (dx * dx + dy * dy) in
          if Rlt_dec distance (p_size p + CONFIG.foodSize) then
            let s := update_player lobbyId playerId
                       (fun p => with_size (p_size p + CONFIG.growthRate) p) s in
            let s := broadcastToLobby lobbyId
                       (food_eaten (vx food) (vy food) (p_id p) None) s in
            let s := update_lobby lobbyId
                       (fun l => with_foodItems (splice1 i (foodItems l)) l) s in
            if Rlt_dec (INR (List.length (splice1 i (foodItems l))))
                       (INR CONFIG.foodCount * CONFIG.respawnThreshold)
            then Nat.iter CONFIG.respawnAmount (respawnOne lobbyId food (p_id p)) s
            else s
          else s
      | _, _ => s
      end
  end.

(** [for (let i = k - 1; i >= 0; i--)] *)
Fixpoint foodLoop (lobbyId playerId : string) (k : nat) (s : server) : server :=
  match k with
  | O => s
  | S i => foodLoop lobbyId playerId i (foodStep lobbyId playerId i s)
  end.

Definition checkFoodCollisions (lobbyId : string) (s : server) : server :=
  match JSMap.get lobbyId (lobbies s) with
  | None => s
  | Some l =>
      fold_left (fun s playerId =>
          match JSMap.get lobbyId (lobbies s) with
          | Some l' => foodLoop lobbyId playerId (List.length (foodItems l')) s
          | None => s
          end) (JSMap.keys (players l)) s
  end.

(** *** Player against player

    [checkPlayerCollisions] works on [playerList], an array of references
    to the player objects taken from the roster when the pass starts.  The
    array is modelled by the list of the objects' current values; a write to
    the object in cell [i] is also a write to the roster entry of that
    player, if the player is still in the roster.  An object stays in the
    array after [absorbPlayer] removed it from the roster. *)

Definition writeObj (lobbyId : string) (i : nat) (f : player -> player)
    (st : list player * server) : list player * server :=
  match nth_error (fst st) i with
  | Some p => (set_nth i (f p) (fst st), update_player lobbyId (p_id p) f (snd st))
  | None => st
  end.

(** The larger player [big] (cell [i]) absorbs [small]. *)
Definition absorbInto (lobbyId : string) (i : nat) (big small : player)
    (st : list player * server) : list player * server :=
  let massRatio := p_size small / p_size big in
  let st := writeObj lobbyId i
              (fun p => with_size (p_size p + p_size small * (5 / 10)) p) st in
  let st := writeObj lobbyId i
              (fun p =>
                 with_input
                   (mkVec (vx (p_input p) + vx (p_input small) * massRatio * (5 / 10))
                          (vy (p_input p) + vy (p_input small) * massRatio * (5 / 10)))
                   p) st in
  (fst st, absorbPlayer lobbyId (p_id big) (p_id small) (snd st)).

Definition bounce (lobbyId : string) (i j : nat) (a b : player)
    (st : list player * server) : list player * server :=
  let dx := p_x a - p_x b in
  let dy := p_y a - p_y b in
  let distance := sqrt (dx * dx + dy * dy) in
  let touchDistance := p_size a + p_size b in
  let angle := atan2 dy dx in
  let overlap := touchDistance - distance in
  let totalMass := p_size a + p_size b in
  let massRatioA := p_size a / totalMass in
  let massRatioB := p_size b / totalMass in
  let separation := overlap * (5 / 10) in
  let separationX := cos angle * separation in
  let separationY := sin angle * separation in
  let st := writeObj lobbyId i
              (fun p => with_pos (p_x p + separationX * massRatioB)
                                 (p_y p + separationY * massRatioB) p) st in
  let st := writeObj lobbyId j
              (fun p => with_pos (p_x p - separationX * massRatioA)
                                 (p_y p - separationY * massRatioA) p) st in
  let tempX := vx (p_input a) in
  let tempY := vy (p_input a) in
  let st := writeObj lobbyId i
              (fun p =>
                 with_input
                   (mkVec ((vx (p_input p) * (massRatioA - massRatioB)
                            + 2 * massRatioB * vx (p_input b)) * (8 / 10))
                          ((vy (p_input p) * (massRatioA - massRatioB)
                            + 2 * massRatioB * vy (p_input b)) * (8 / 10))) p) st in
  writeObj lobbyId j
    (fun p =>
       with_input
         (mkVec ((vx (p_input p) * (massRatioB - massRatioA)
                  + 2 * massRatioA * tempX) * (8 / 10))
                ((vy (p_input p) * (massRatioB - massRatioA)
                  + 2 * massRatioA * tempY) * (8 / 10))) p) st.

(** The body of the pair loop for the cells [i < j] of [playerList]. *)
Definition collidePair (lobbyId : string) (i j : nat)
    (st : list player * server) : list player * server :=
  match nth_error (fst st) i, nth_error (fst st) j with
  | Some a, Some b =>
      if (p_id a =? "") || (p_id b =? "") then st
      else
        let dx := p_x a - p_x b in
        let dy := p_y a - p_y b in
        let distance := sqrt (dx * dx + dy * dy) in
        let touchDistance := p_size a + p_size b in
        if Rlt_dec distance touchDistance then
          if Rgt_dec (p_size a) (p_size b * CONFIG.absorptionThreshold) then
            absorbInto lobbyId i a b st
          else if Rgt_dec (p_size b) (p_size a * CONFIG.absorptionThreshold) then
            absorbInto lobbyId j b a st
          else bounce lobbyId i j a b st
        else st
  | _, _ => st
  end.

Definition checkPlayerCollisions (lobbyId : string) (s : server) : server :=
  match JSMap.get lobbyId (lobbies s) with
  | None => s
  | Some l =>
      let playerList := JSMap.values (players l) in
      let n := List.length playerList in
      snd (fold_left (fun st i =>
                        fold_left (fun st j => collidePair lobbyId i j st)
                                  (seq (S i) (n - S i)) st)
                     (seq 0 n) (playerList, s))
  end.

(** *** The tick *)

(** Movement of the whole roster; the [k]-th player visited reads the clock
    once. *)
Fixpoint movePlayers (deltaTime : R) (k : nat) (roster : list (string * player))
    : list (string * player) :=
  match roster with
  | [] => []
  | (playerId, p) :: r =>
      (playerId, with_lastUpdate (Some (clock k)) (movePlayer deltaTime p))
      :: movePlayers deltaTime (S k) r
  end.

Definition inactive (now : Z) (p : player) : bool :=
  match p_lastUpdate p with
  | Some t => (5000 <? now - t)%Z
  | None => false
  end.

(** The clean-up loop over the roster entries. *)
Definition reapInactive (lobbyId : string) (now : Z) (roster : list (string * player))
    (s : server) : server :=
  fold_left (fun s kp =>
      if inactive now (snd kp) then
        let s := update_lobby lobbyId
                   (fun l => with_players (JSMap.delete (fst kp) (players l)) l) s in
        broadcastToLobby lobbyId (player_disconnected (fst kp)) s
      else s) roster s.

(** The movement [forEach]: every player of the roster is moved and reads
    the clock once. *)
Definition moveAll (lobbyId : string) (deltaTime : R) (s : server) : server :=
  match JSMap.get lobbyId (lobbies s) with
  | None => s
  | Some l =>
      let s' := update_lobby lobbyId
                  (fun l => with_players
                              (movePlayers deltaTime (clockCalls s) (players l)) l) s in
      with_clockCalls (clockCalls s + JSMap.size (players l)) s'
  end.

(** "Clean up inactive players". *)
Definition cleanUp (lobbyId : string) (s : server) : server :=
  let now := clock (clockCalls s) in
  let s := with_clockCalls (S (clockCalls s)) s in
  match JSMap.get lobbyId (lobbies s) with
  | Some l => reapInactive lobbyId now (players l) s
  | None => s
  end.

(** "Check for game end condition". *)
Definition checkGameEnd (lobbyId : string) (s : server) : server :=
  match JSMap.get lobbyId (lobbies s) with
  | Some l =>
      if game_state_eqb (gameState l) GPlaying && (JSMap.size (players l) <=? 1)%nat
      then endGame lobbyId (firstId (players l)) s
      else s
  | None => s
  end.

Definition updateGameState (lobbyId : string) (deltaTime : R) (s : server) : server :=
  match JSMap.get lobbyId (lobbies s) with
  | None => s
  | Some l =>
      if negb (game_state_eqb (gameState l) GPlaying) then s
      else if (JSMap.size (players l) <? CONFIG.minPlayersToStart)%nat then
        endGame lobbyId None s
      else
        let s := moveAll lobbyId deltaTime s in
        let s := checkFoodCollisions lobbyId s in
        let s := checkPlayerCollisions lobbyId s in
        let s := cleanUp lobbyId s in
        checkGameEnd lobbyId s
  end.

(** The callback of the tick interval.  (On a lobby that has been removed
    from the registry [updateGameState] and [broadcastGameState] return at
    once.) *)
Definition gameTick (lobbyId : string) (deltaTime : R) (s : server) : server :=
  match JSMap.get lobbyId (lobbies s) with
  | None => s
  | Some l =>
      if negb (game_state_eqb (gameState l) GPlaying) then
        match gameTickInterval l with
        | Some h => clearTimer h s
        | None => s
        end
      else broadcastGameState lobbyId (updateGameState lobbyId deltaTime s)
  end.

(** ** Protocol dispatcher and events *)

Inductive request :=
| create_lobby
| join_lobby (lobbyId : option string) (name : option string)
| toggle_ready
| player_input (lobbyId : option string) (input : option vec2)
| request_lobby
| unknown_type
| no_type.

(** [fresh] is the lobby code or the player id generated while the message
    is handled. *)
Definition handleClientMessage (clientId : string) (message : request)
    (fresh : string) (s : server) : server :=
  match JSMap.get clientId (clients s) with
  | None => s
  | Some c =>
      match message with
      | no_type => s
      | create_lobby =>
          sendToClient clientId (lobby_created fresh) (createLobby fresh s)
      | join_lobby lobbyId name =>
          match lobbyId with
          | Some lid =>
              if truthy lobbyId then
                handleJoinLobby clientId lid
                  (match name with
                   | Some n => if truthy name then n else "Anonymous"
                   | None => "Anonymous"
                   end) fresh s
              else sendToClient clientId (error "Lobby ID is required") s
          | None => sendToClient clientId (error "Lobby ID is required") s
          end
      | toggle_ready =>
          match c_lobbyId c with
          | Some lid =>
              if truthy (c_lobbyId c) then handleToggleReady clientId lid s
              else sendToClient clientId (error "Not in a lobby") s
          | None => sendToClient clientId (error "Not in a lobby") s
          end
      | player_input lobbyId input =>
          match lobbyId, input with
          | Some lid, Some i =>
              if truthy lobbyId then handlePlayerInput clientId lid i s else s
          | _, _ => s
          end
      | request_lobby => handleRequestLobby clientId s
      | unknown_type => sendToClient clientId (error "Unknown message type") s
      end
  end.

Inductive event :=
| Connect (clientId : string)                              (* a new connection *)
| Receive (clientId : string) (m : request) (fresh : string)
| Unplug (clientId : string)            (* the socket leaves the OPEN state *)
| Close (clientId : string)                           (* the ['close'] event *)
| Fire (handle : nat) (deltaTime : R).               (* a pending timer fires *)

Definition setOpen (clientId : string) (b : bool) (s : server) : server :=
  with_clients
    (JSMap.update clientId
       (fun c => mkClient (c_id c) b (c_playerId c) (c_lobbyId c)) (clients s)) s.

Definition fire (handle : nat) (deltaTime : R) (s : server) : server :=
  match timer_active handle s with
  | Some (CountdownTimer lobbyId) => countdownTick lobbyId s
  | Some (TickTimer lobbyId) => gameTick lobbyId deltaTime s
  | Some (TeardownTimer lobbyId) => teardown lobbyId (clearTimer handle s)
  | None => s
  end.

Definition step (s : server) (e : event) : server :=
  match e with
  | Connect clientId =>
      with_clients (JSMap.set clientId (mkClient clientId true None None) (clients s)) s
  | Receive clientId m fresh => handleClientMessage clientId m fresh s
  | Unplug clientId => setOpen clientId false s
  | Close clientId => handleClientDisconnect clientId (setOpen clientId false s)
  | Fire handle deltaTime => fire handle deltaTime s
  end.

Definition run (s : server) (es : list event) : server := fold_left step es s.

End Simulation.

(** * Vocabulary of the statements *)

(** A message addressed to [clientId] is actually written to its socket. *)
Definition deliverable (clientId : string) (s : server) : bool :=
  match JSMap.get clientId (clients s) with
  | Some c => c_open c
  | None => false
  end.

(** [s'] differs from [s] by one message delivered to [clientId]. *)
Definition only_reports (clientId : string) (m : msg) (s s' : server) : Prop :=
  clients s' = clients s /\ lobbies s' = lobbies s /\ timers s' = timers s /\
  sent s' = (sent s ++ [(clientId, m)])%list.

(** The connections a multicast to the lobby reaches in state [s]. *)
Definition audience (lobbyId : string) (s : server) : list string :=
  match JSMap.get lobbyId (lobbies s) with
  | Some l => recipients (clients s) (players l)
  | None => []
  end.

(** One copy of [m] for each connection of [cs]. *)
Definition to_all (cs : list string) (m : msg) : list (string * msg) :=
  map (fun c => (c, m)) cs.

(** The messages of a log that went to the connection [k]. *)
Definition received_by (k : string) (log : list (string * msg)) : list msg :=
  map snd (filter (fun cm => fst cm =? k) log).

(** The entries of a log whose message satisfies [f]. *)
Definition of_kind (f : msg -> bool) (log : list (string * msg)) : list (string * msg) :=
  filter (fun cm => f (snd cm)) log.

Definition is_player_eaten (m : msg) : bool :=
  match m with player_eaten _ _ => true | _ => false end.

Definition is_you_were_eliminated (m : msg) : bool :=
  match m with you_were_eliminated => true | _ => false end.

Definition is_game_over (m : msg) : bool :=
  match m with game_over _ _ => true | _ => false end.

Definition is_player_disconnected (m : msg) : bool :=
  match m with player_disconnected _ => true | _ => false end.

Definition gameState_of (lobbyId : string) (s : server) : option game_state :=
  option_map gameState (JSMap.get lobbyId (lobbies s)).

(** The roster of a lobby, empty when the lobby is not registered. *)
Definition roster_of (lobbyId : string) (s : server) : list (string * player) :=
  match JSMap.get lobbyId (lobbies s) with
  | Some l => players l
  | None => []
  end.

(** The food of a lobby, empty when the lobby is not registered. *)
Definition food_of (lobbyId : string) (s : server) : list vec2 :=
  match JSMap.get lobbyId (lobbies s) with
  | Some l => foodItems l
  | None => []
  end.

(** The states the server can be in: those a sequence of events leads to
    from the initial state. *)
Definition reachable (rnd : nat -> R) (clock : nat -> Z) (s : server) : Prop :=
  exists es, s = run rnd clock initial es.

(** The colours of a roster, in roster order. *)
Definition roster_colors (roster : list (string * player)) : list Z :=
  map p_color (JSMap.values roster).

(** The roster lists its players in the order they joined and none has
    left: the [i]-th player holds the colour [playerColors[i % 5]] that
    [handleJoinLobby] gave it. *)
Definition colors_in_join_order (roster : list (string * player)) : Prop :=
  forall i p, nth_error (JSMap.values roster) i = Some p ->
              p_color p = nth (i mod List.length playerColors) playerColors 0%Z.

(** Timer handles are allocated in increasing order: every pending timer
    has a handle below the next one to be given out. *)
Definition handles_fresh (s : server) : Prop :=
  forall h t, In (h, t) (timers s) -> (h < nextHandle s)%nat.

(** The timer [handle] fires [k] times in a row. *)
Definition fireTimes (rnd : nat -> R) (clock : nat -> Z) (handle : nat) (k : nat)
    (s : server) : server :=
  Nat.iter k (fire rnd clock handle 0) s.

(** The lobby is counting down from [c] on the interval [h]. *)
Definition counting (lobbyId : string) (h : nat) (c : Z) (s : server) : Prop :=
  handles_fresh s /\
  timer_active h s = Some (CountdownTimer lobbyId) /\
  exists l, JSMap.get lobbyId (lobbies s) = Some l /\
            gameState l = GCountdown /\ countdown l = c /\
            countdownInterval l = Some h.

(** The food item is within the reach of the player. *)
Definition in_reach (p : player) (food : vec2) : Prop :=
  sqrt ((p_x p - vx food) * (p_x p - vx food) + (p_y p - vy food) * (p_y p - vy food))
  < p_size p + CONFIG.foodSize.

(** A position of the map: [(Math.random() * 2 - 1) * extent] on each
    axis. *)
Definition in_map_extents (f : vec2) : Prop :=
  - CONFIG.mapWidth <= vx f < CONFIG.mapWidth /\
  - CONFIG.mapHeight <= vy f < CONFIG.mapHeight.

Definition touching (a b : player) : Prop :=
  sqrt ((p_x a - p_x b) * (p_x a - p_x b) + (p_y a - p_y b) * (p_y a - p_y b))
  < p_size a + p_size b.

(** [k] is the connection [absorbPlayer] finds for the player [playerId]:
    the first registered connection whose [playerId] is that player; it is
    registered under its own id. *)
Definition connection_of (s : server) (playerId k : string) (c : client) : Prop :=
  find (fun kc : string * client =>
          match c_playerId (snd kc) with
          | Some q => q =? playerId
          | None => false
          end) (clients s) = Some (k, c) /\
  JSMap.get k (clients s) = Some c /\
  c_id c = k.

(** [eliminatedClient.playerId = null] *)
Definition detach (c : client) : client :=
  mkClient (c_id c) (c_open c) None (c_lobbyId c).

(** A stored input vector as the dispatcher leaves it. *)
Definition unit_or_zero (v : vec2) : Prop :=
  (vx v = 0 /\ vy v = 0) \/ sqrt (vx v * vx v + vy v * vy v) = 1.

(** The input vectors whose normalisation in doubles is the one in real
    numbers up to rounding: both components zero, or the larger magnitude
    between [2^-500] and [2^500], so that the sum of the squares neither
    overflows nor falls among the subnormal numbers. *)
Definition in_double_range (v : vec2) : Prop :=
  (vx v = 0 /\ vy v = 0) \/
  (/ 2 ^ 500 <= Rmax (Rabs (vx v)) (Rabs (vy v)) <= 2 ^ 500).

(** A property of player objects that the simulation keeps: it implies
    [size >= playerStartSize] and survives a change of position, a change
    of input and a growth. *)
Definition keeps (Q : player -> Prop) : Prop :=
  forall p, Q p ->
    CONFIG.playerStartSize <= p_size p /\
    (forall x y, Q (with_pos x y p)) /\
    (forall i, Q (with_input i p)) /\
    (forall z, p_size p <= z -> Q (with_size z p)).

Definition roster_all (Q : player -> Prop) (roster : list (string * player)) : Prop :=
  forall k p, In (k, p) roster -> Q p.

Definition lobby_all (Q : player -> Prop) (lobbyId : string) (s : server) : Prop :=
  forall l, JSMap.get lobbyId (lobbies s) = Some l -> roster_all Q (players l).

(** Every player of [r1] was in [r0] and was not larger there. *)
Definition evolves (r0 r1 : list (string * player)) : Prop :=
  forall k p1, JSMap.get k r1 = Some p1 ->
    exists p0, JSMap.get k r0 = Some p0 /\ p_size p0 <= p_size p1.

Definition lobby_evolves (lobbyId : string) (s s' : server) : Prop :=
  forall l', JSMap.get lobbyId (lobbies s') = Some l' ->
    exists l, JSMap.get lobbyId (lobbies s) = Some l /\ evolves (players l) (players l').

(** [s'] extends the log of [s] without any [player_disconnected]. *)
Definition quiet (s s' : server) : Prop :=
  exists delta, sent s' = (sent s ++ delta)%list /\
                of_kind is_player_disconnected delta = [].

(** What a phase of the tick of [lobbyId] may do to the server. *)
Definition sim (Q : player -> Prop) (lobbyId : string) (s s' : server) : Prop :=
  lobby_all Q lobbyId s ->
  (forall k, k <> lobbyId -> JSMap.get k (lobbies s') = JSMap.get k (lobbies s)) /\
  lobby_all Q lobbyId s' /\ lobby_evolves lobbyId s s' /\ quiet s s' /\
  clockCalls s' = clockCalls s.

(** The same, for the phases that may announce a removal or read the
    clock. *)
Definition grows_only (Q : player -> Prop) (lobbyId : string) (s s' : server) : Prop :=
  lobby_all Q lobbyId s ->
  (forall k, k <> lobbyId -> JSMap.get k (lobbies s') = JSMap.get k (lobbies s)) /\
  lobby_all Q lobbyId s' /\ lobby_evolves lobbyId s s'.

(** The state of the pair loop: the objects of [playerList] keep [Q] and
    the server is related to the one the pass started from. *)
Definition pass_ok (Q : player -> Prop) (lobbyId : string) (s0 : server)
    (st : list player * server) : Prop :=
  Forall Q (fst st) /\ sim Q lobbyId s0 (snd st).

(** The invariant of claim C4. *)
Definition size_ok (p : player) : Prop := CONFIG.playerStartSize <= p_size p.

Definition sizes_ok (s : server) : Prop := forall lobbyId, lobby_all size_ok lobbyId s.

(** A player whose [lastUpdate], once set, is at most 5000 ms before
    [now]. *)
Definition fresh_stamp (now : Z) (p : player) : Prop :=
  size_ok p /\ forall t, p_lastUpdate p = Some t -> (now - t <= 5000)%Z.

(** * Example states *)

(** Two players join, the first one leaves, a third one joins. *)
Definition color_clash_trace : list event :=
  [ Connect "c1"; Connect "c2"; Connect "c3";
    Receive "c1" create_lobby "LOBBY1";
    Receive "c1" (join_lobby (Some "LOBBY1") (Some "ann")) "p1";
    Receive "c2" (join_lobby (Some "LOBBY1") (Some "bob")) "p2";
    Close "c1";
    Receive "c3" (join_lobby (Some "LOBBY1") (Some "cat")) "p3" ].

(** Forty food items along the line [y = 10], from [x = 10] on. *)
Definition far_food : list vec2 :=
  map (fun i => mkVec (10 + INR i / 4) 10) (seq 0 40).

(** A playing lobby with two players in contact: [A] of size 2 at the
    origin and [B] of size 1 at distance 1, each owned by its own open
    connection; the food is out of reach. *)
Definition duel_A : player :=
  mkPlayer "A" "cA" "ann" 0x44aa88 true 0 0 2 (mkVec 0 0) (Some 0%Z).

Definition duel_B : player :=
  mkPlayer "B" "cB" "bob" 0xaa4444 true 1 0 1 (mkVec 0 0) (Some 0%Z).

Definition duel_lobby : lobby :=
  mkLobby [ ("A", duel_A); ("B", duel_B) ] GPlaying far_food 0 (Some 0%nat) (Some 1%nat).

Definition duel : server :=
  mkServer
    [ ("cA", mkClient "cA" true (Some "A") (Some "LOBBY1"));
      ("cB", mkClient "cB" true (Some "B") (Some "LOBBY1")) ]
    [ ("LOBBY1", duel_lobby) ]
    [ (1%nat, TickTimer "LOBBY1") ] 2 [] 200 2.

(** A playing lobby whose two players are far apart and were last stamped
    at time 0. *)
Definition idle_room : server :=
  mkServer
    [ ("cA", mkClient "cA" true (Some "A") (Some "LOBBY1"));
      ("cB", mkClient "cB" true (Some "B") (Some "LOBBY1")) ]
    [ ("LOBBY1",
       mkLobby
         [ ("A", mkPlayer "A" "cA" "ann" 0x44aa88 true (-5) 0 1 (mkVec 0 0) (Some 0%Z));
           ("B", mkPlayer "B" "cB" "bob" 0xaa4444 true 5 0 1 (mkVec 0 0) (Some 0%Z)) ]
         GPlaying far_food 0 (Some 0%nat) (Some 1%nat)) ]
    [ (1%nat, TickTimer "LOBBY1") ] 2 [] 200 2.

(** A playing lobby in which [A] heads left with a unit input, one unit
    away from the left edge of the map. *)
Definition edge_room : server :=
  mkServer
    [ ("cA", mkClient "cA" true (Some "A") (Some "LOBBY1"));
      ("cB", mkClient "cB" true (Some "B") (Some "LOBBY1")) ]
    [ ("LOBBY1",
       mkLobby
         [ ("A", mkPlayer "A" "cA" "ann" 0x44aa88 true (-19) 0 1 (mkVec (-1) 0)
                          (Some 0%Z));
           ("B", mkPlayer "B" "cB" "bob" 0xaa4444 true 5 0 1 (mkVec 0 0) (Some 0%Z)) ]
         GPlaying far_food 0 (Some 0%nat) (Some 1%nat)) ]
    [ (1%nat, TickTimer "LOBBY1") ] 2 [] 200 2.

(** A playing lobby after the connection [c1] joined twice: it owns the
    players [P1] and [P2], and its [playerId] is the later one, [P2]. *)
Definition twin_room : server :=
  mkServer
    [ ("cA", mkClient "cA" true (Some "A") (Some "LOBBY1"));
      ("c1", mkClient "c1" true (Some "P2") (Some "LOBBY1")) ]
    [ ("LOBBY1",
       mkLobby
         [ ("A", mkPlayer "A" "cA" "ann" 0x44aa88 true 0 0 2 (mkVec 0 0) (Some 0%Z));
           ("P1", mkPlayer "P1" "c1" "bob" 0xaa4444 true 1 0 1 (mkVec 0 0) (Some 0%Z));
           ("P2", mkPlayer "P2" "c1" "bob" 0x4444aa true 0 1 1 (mkVec 0 0) (Some 0%Z)) ]
         GPlaying far_food 0 (Some 0%nat) (Some 1%nat)) ]
    [ (1%nat, TickTimer "LOBBY1") ] 2 [] 200 2.

(** The events that lead to a playing lobby in which [c1] owns two
    players. *)
Definition twin_trace : list event :=
  [ Connect "cA"; Connect "c1";
    Receive "cA" create_lobby "LOBBY1";
    Receive "cA" (join_lobby (Some "LOBBY1") (Some "ann")) "A";
    Receive "c1" (join_lobby (Some "LOBBY1") (Some "bob")) "P1";
    Receive "c1" toggle_ready "";
    Receive "c1" (join_lobby (Some "LOBBY1") (Some "bob")) "P2";
    Receive "c1" toggle_ready "";
    Receive "cA" toggle_ready "";
    Fire 0 0; Fire 0 0; Fire 0 0 ].

(** A playing lobby with thirty food items, one of them under the player
    [A]. *)
Definition feast_A : player :=
  mkPlayer "A" "cA" "ann" 0x44aa88 true 0 0 1 (mkVec 0 0) (Some 0%Z).

Definition feast_lobby : lobby :=
  mkLobby
    [ ("A", feast_A);
      ("B", mkPlayer "B" "cB" "bob" 0xaa4444 true 5 0 1 (mkVec 0 0) (Some 0%Z)) ]
    GPlaying (mkVec 0 0 :: firstn 29 far_food) 0 (Some 0%nat) (Some 1%nat).

Definition feast : server :=
  mkServer
    [ ("cA", mkClient "cA" true (Some "A") (Some "LOBBY1"));
      ("cB", mkClient "cB" true (Some "B") (Some "LOBBY1")) ]
    [ ("LOBBY1", feast_lobby) ]
    [ (1%nat, TickTimer "LOBBY1") ] 2 [] 200 2.

(** Two connections and a lobby that holds one player and waits for
    more. *)
Definition waiting_lobby : lobby :=
  mkLobby
    [ ("A", mkPlayer "A" "cA" "ann" 0x44aa88 false 0 0 1 (mkVec 0 0) None) ]
    GLobby [] 3 None None.

Definition waiting_room : server :=
  mkServer
    [ ("cA", mkClient "cA" true (Some "A") (Some "LOBBY1"));
      ("cB", mkClient "cB" true None None) ]
    [ ("LOBBY1", waiting_lobby) ]
    [] 0 [] 0 0.

(** * Vocabulary of the further properties *)

(** The roster after the player [playerId] has flipped its ready flag. *)
Definition toggled (playerId : string) (roster : list (string * player))
    : list (string * player) :=
  JSMap.update playerId (fun p => with_ready (negb (p_ready p)) p) roster.

(** The test of [checkGameStart] on a roster. *)
Definition quorum (roster : list (string * player)) : bool :=
  (CONFIG.minPlayersToStart <=? JSMap.size roster)%nat
  && forallb p_ready (JSMap.values roster).

(** The lobby as [startCountdown] leaves it, with the interval [h]. *)
Definition counting_down (h : nat) (l : lobby) : lobby :=
  with_countdownInterval (Some h)
    (with_countdown CONFIG.countdownTime (with_gameState GCountdown l)).

(** A player put back to the start values by [handleRequestLobby]. *)
Definition reset_player (p : player) : player :=
  mkPlayer (p_id p) (p_clientId p) (p_name p) (p_color p) false
           0 0 CONFIG.playerStartSize (mkVec 0 0) (p_lastUpdate p).

(** The handle [h] is one of the two interval handles stored in the
    lobby. *)
Definition interval_of (l : lobby) (h : nat) : Prop :=
  countdownInterval l = Some h \/ gameTickInterval l = Some h.

(** The [game_over] message [endGame] sends when called with
    [remainingPlayers[0]?.id] on a roster. *)
Definition game_over_for (roster : list (string * player)) : msg :=
  game_over (firstId roster)
    (match firstId roster with
     | Some w => match JSMap.get w roster with Some p => p_size p | None => 0 end
     | None => 0
     end).

(** Every connection is registered under its own id. *)
Definition registry_ok (s : server) : Prop :=
  forall k c, JSMap.get k (clients s) = Some c -> c_id c = k.

(** The connection [k] owns a player of the roster. *)
Definition owner (k : string) (roster : list (string * player)) : bool :=
  existsb (fun kp => p_clientId (snd kp) =? k) roster.

(** The [i]-th of [n] players as [initializeGamePositions] places it: on
    the circle of radius [min(mapWidth, mapHeight) / 3 = 5] around the
    centre, at the angle [2 * PI / n * i]. *)
Definition start_position (n i : nat) (p : player) : player :=
  mkPlayer (p_id p) (p_clientId p) (p_name p) (p_color p) (p_ready p)
           (cos (2 * PI / INR n * INR i) * 5) (sin (2 * PI / INR n * INR i) * 5)
           CONFIG.playerStartSize (mkVec 0 0) (p_lastUpdate p).

(** The player lies within the map. *)
Definition inside_map (p : player) : Prop :=
  - CONFIG.mapWidth <= p_x p <= CONFIG.mapWidth /\
  - CONFIG.mapHeight <= p_y p <= CONFIG.mapHeight.

(** The separation vector of the elastic branch of [checkPlayerCollisions]:
    half the overlap of the two players, along [Math.atan2(dy, dx)]. *)
Definition separation (a b : player) : vec2 :=
  let dx := p_x a - p_x b in
  let dy := p_y a - p_y b in
  let angle := atan2 dy dx in
  let overlap := p_size a + p_size b - sqrt (dx * dx + dy * dy) in
  mkVec (cos angle * (overlap * (5 / 10))) (sin angle * (overlap * (5 / 10))).

(** The distance between the centres of two players. *)
Definition distance (a b : player) : R :=
  sqrt ((p_x a - p_x b) * (p_x a - p_x b) + (p_y a - p_y b) * (p_y a - p_y b)).

(** Neither player is large enough to absorb the other. *)
Definition similar_size (a b : player) : Prop :=
  p_size a <= p_size b * CONFIG.absorptionThreshold /\
  p_size b <= p_size a * CONFIG.absorptionThreshold.

(** The stock of food of a running game: never fewer than
    [foodCount * respawnThreshold = 30] items, never more than
    [foodCount]. *)
Definition stock_ok (l : lobby) : Prop :=
  (30 <= List.length (foodItems l) <= CONFIG.foodCount)%nat.

(** What may happen to a lobby while a game goes on: its state and its
    countdown are left alone, no player appears in the roster, and a stock
    of food that was in order stays in order. *)
Definition in_play (l l' : lobby) : Prop :=
  gameState l' = gameState l /\ countdown l' = countdown l /\
  countdownInterval l' = countdownInterval l /\
  incl (JSMap.keys (players l')) (JSMap.keys (players l)) /\
  (JSMap.size (players l') <= JSMap.size (players l))%nat /\
  (stock_ok l -> stock_ok l').

(** The same lobbies are registered in [s] and in [s'], and each of them
    has changed as [in_play] allows. *)
Definition steady (s s' : server) : Prop :=
  forall k, match JSMap.get k (lobbies s), JSMap.get k (lobbies s') with
            | Some l, Some l' => in_play l l'
            | None, None => True
            | _, _ => False
            end.

(** The invariant of the lobbies: the roster fits the player cap, and a
    lobby in state [playing] has its stock of food in order. *)
Definition lobby_ok (l : lobby) : Prop :=
  (JSMap.size (players l) <= CONFIG.maxPlayers)%nat /\
  (gameState l = GPlaying -> stock_ok l).

Definition lobbies_ok (s : server) : Prop :=
  forall k l, JSMap.get k (lobbies s) = Some l -> lobby_ok l.

(** The lobby [k] is registered. *)
Definition registered (k : string) (s : server) : Prop :=
  JSMap.get k (lobbies s) <> None.

(** The lobby [k] is neither unregistered nor taken out of the state
    [playing] between [s] and [s']. *)
Definition stays (k : string) (s s' : server) : Prop :=
  (registered k s -> registered k s') /\
  (gameState_of k s = Some GPlaying -> gameState_of k s' = Some GPlaying).

(** The players of the roster that the connection [k] owns. *)
Definition owned_by (k : string) (roster : list (string * player))
    : list (string * player) :=
  filter (fun kp => p_clientId (snd kp) =? k) roster.

(** The [game_update] message for a roster. *)
Definition game_update_for (roster : list (string * player)) : msg :=
  game_update (map (fun p => (p_id p, p_x p, p_y p, p_size p)) (JSMap.values roster)).

(** The same connections are registered in [s] and in [s'], in the same
    order, each with the id it had. *)
Definition same_connections (s s' : server) : Prop :=
  JSMap.keys (clients s') = JSMap.keys (clients s) /\
  forall k c', JSMap.get k (clients s') = Some c' ->
    exists c, JSMap.get k (clients s) = Some c /\ c_id c' = c_id c.

(** The lobby codes the events hand to [create_lobby] requests: the values
    [generateLobbyCode] returns, in order (and the codes of requests the
    dispatcher drops, which generate none). *)
Definition created_codes (es : list event) : list string :=
  flat_map (fun e => match e with
                     | Receive _ create_lobby code => [code]
                     | _ => []
                     end) es.

(** * Further example states *)

(** A playing lobby with two players of the same size in contact. *)
Definition clinch_A : player :=
  mkPlayer "A" "cA" "ann" 0x44aa88 true 0 0 1 (mkVec 0 0) (Some 0%Z).

Definition clinch_B : player :=
  mkPlayer "B" "cB" "bob" 0xaa4444 true 1 0 1 (mkVec 0 0) (Some 0%Z).

Definition clinch_lobby : lobby :=
  mkLobby [ ("A", clinch_A); ("B", clinch_B) ] GPlaying far_food 0
          (Some 0%nat) (Some 1%nat).

Definition clinch : server :=
  mkServer
    [ ("cA", mkClient "cA" true (Some "A") (Some "LOBBY1"));
      ("cB", mkClient "cB" true (Some "B") (Some "LOBBY1")) ]
    [ ("LOBBY1", clinch_lobby) ]
    [ (1%nat, TickTimer "LOBBY1") ] 2 [] 200 2.

(** A playing lobby in which one player is left. *)
Definition last_one_lobby : lobby :=
  mkLobby [ ("A", duel_A) ] GPlaying far_food 0 (Some 0%nat) (Some 1%nat).

Definition last_one : server :=
  mkServer
    [ ("cA", mkClient "cA" true (Some "A") (Some "LOBBY1")) ]
    [ ("LOBBY1", last_one_lobby) ]
    [ (1%nat, TickTimer "LOBBY1") ] 2 [] 200 2.

(** Two players start a game and [cB] leaves: the game is over and the
    teardown of the lobby is pending. *)
Definition over_trace : list event :=
  [ Connect "cA"; Connect "cB";
    Receive "cA" create_lobby "LOBBY1";
    Receive "cA" (join_lobby (Some "LOBBY1") (Some "ann")) "A";
    Receive "cB" (join_lobby (Some "LOBBY1") (Some "bob")) "B";
    Receive "cA" toggle_ready "";
    Receive "cB" toggle_ready "";
    Fire 0 0; Fire 0 0; Fire 0 0;
    Close "cB" ].
(** * Properties *)

(** ** Maps *)

Module JSMapFacts.
Import JSMap.

Section Facts.
Context {V : Type}.
Implicit Types (m : list (string * V)) (k : string).

Lemma get_set_same k (v : V) m : get k (set k v m) = Some v.
Proof.
  induction m as [|[k' v'] r IH]; simpl.
  - now rewrite String.eqb_refl.
  - destruct (k' =? k) eqn:E; simpl.
    + now rewrite String.eqb_refl.
    + now rewrite E.
Qed.

Lemma get_set_other k k' (v : V) m : k <> k' -> get k' (set k v m) = get k' m.
Proof.
  intros N. induction m as [|[k0 v0] r IH]; simpl.
  - destruct (k =? k') eqn:E; [apply String.eqb_eq in E; contradiction | reflexivity].
  - destruct (k0 =? k) eqn:E; simpl.
    + apply String.eqb_eq in E. subst k0.
      destruct (k =? k') eqn:E'; [apply String.eqb_eq in E'; contradiction | reflexivity].
    + destruct (k0 =? k'); [reflexivity | exact IH].
Qed.

Lemma get_update k k' (f : V -> V) m :
  get k' (update k f m) =
  if k =? k' then option_map f (get k' m) else get k' m.
Proof.
  induction m as [|[k0 v0] r IH]; simpl.
  - now destruct (k =? k').
  - destruct (k0 =? k) eqn:E; simpl.
    + apply String.eqb_eq in E. subst k0.
      destruct (k =? k'); reflexivity.
    + destruct (k0 =? k') eqn:E'.
      * apply String.eqb_eq in E'. subst k0.
        rewrite String.eqb_sym, E. reflexivity.
      * exact IH.
Qed.

Lemma get_update_same k (f : V -> V) m :
  get k (update k f m) = option_map f (get k m).
Proof. rewrite get_update. now rewrite String.eqb_refl. Qed.

Lemma get_delete k k' m :
  get k' (delete k m) = if k =? k' then None else get k' m.
Proof.
  unfold delete. induction m as [|[k0 v0] r IH]; simpl.
  - now destruct (k =? k').
  - destruct (k0 =? k) eqn:E; simpl.
    + apply String.eqb_eq in E. subst k0. rewrite IH.
      destruct (k =? k'); reflexivity.
    + rewrite IH. destruct (k0 =? k') eqn:E'; [|reflexivity].
      apply String.eqb_eq in E'. subst k0.
      rewrite String.eqb_sym, E. reflexivity.
Qed.

(** A key that is not bound is appended. *)
Lemma set_fresh k (v : V) m : get k m = None -> set k v m = (m ++ [(k, v)])%list.
Proof.
  induction m as [|[k0 v0] r IH]; simpl; [reflexivity|].
  destruct (k0 =? k); [discriminate|]. intros H. now rewrite IH.
Qed.

Lemma get_In k (v : V) m : get k m = Some v -> In (k, v) m.
Proof.
  induction m as [|[k0 v0] r IH]; simpl; [discriminate|].
  destruct (k0 =? k) eqn:E.
  - apply String.eqb_eq in E. intros [= ->]. subst. now left.
  - intros H. right. auto.
Qed.

Lemma In_update (P : string -> V -> Prop) k (f : V -> V) m :
  (forall k0 v, In (k0, v) m -> P k0 v) ->
  (forall v, In (k, v) m -> P k (f v)) ->
  forall k0 v, In (k0, v) (update k f m) -> P k0 v.
Proof.
  induction m as [|[k1 v1] r IH]; simpl; intros Hm Hf k0 v; [tauto|].
  destruct (k1 =? k) eqn:E; simpl.
  - apply String.eqb_eq in E. subst k1.
    intros [[= <- <-]|H]; [apply Hf; now left | apply Hm; now right].
  - intros [[= <- <-]|H]; [apply Hm; now left|].
    apply IH; auto.
Qed.

Lemma In_set (P : string -> V -> Prop) k (v : V) m :
  (forall k0 v0, In (k0, v0) m -> P k0 v0) -> P k v ->
  forall k0 v0, In (k0, v0) (set k v m) -> P k0 v0.
Proof.
  induction m as [|[k1 v1] r IH]; simpl; intros Hm Hv k0 v0.
  - intros [[= <- <-]|[]]. exact Hv.
  - destruct (k1 =? k); simpl.
    + intros [[= <- <-]|H]; [exact Hv | apply Hm; now right].
    + intros [[= <- <-]|H]; [apply Hm; now left|]. apply IH; auto.
Qed.

Lemma In_delete k m k0 (v : V) : In (k0, v) (delete k m) -> In (k0, v) m.
Proof. unfold delete. intros H. apply filter_In in H. tauto. Qed.

End Facts.
End JSMapFacts.
Import JSMapFacts.

(** ** The broadcast layer only writes the log *)

Lemma sendToClient_eq clientId m s :
  sendToClient clientId m s =
  if deliverable clientId s then with_sent (sent s ++ [(clientId, m)]) s else s.
Proof.
  unfold sendToClient, deliverable.
  destruct (JSMap.get clientId (clients s)); reflexivity.
Qed.

Lemma sendToClient_lobbies clientId m s : lobbies (sendToClient clientId m s) = lobbies s.
Proof. rewrite sendToClient_eq. now destruct (deliverable clientId s). Qed.

Lemma sendToClient_clients clientId m s : clients (sendToClient clientId m s) = clients s.
Proof. rewrite sendToClient_eq. now destruct (deliverable clientId s). Qed.

Lemma sendToClient_timers clientId m s : timers (sendToClient clientId m s) = timers s.
Proof. rewrite sendToClient_eq. now destruct (deliverable clientId s). Qed.

Lemma sendToClient_nextHandle clientId m s :
  nextHandle (sendToClient clientId m s) = nextHandle s.
Proof. rewrite sendToClient_eq. now destruct (deliverable clientId s). Qed.

Lemma broadcastToLobby_lobbies lobbyId m s :
  lobbies (broadcastToLobby lobbyId m s) = lobbies s.
Proof. unfold broadcastToLobby. now destruct (JSMap.get lobbyId (lobbies s)). Qed.

Lemma broadcastToLobby_clients lobbyId m s :
  clients (broadcastToLobby lobbyId m s) = clients s.
Proof. unfold broadcastToLobby. now destruct (JSMap.get lobbyId (lobbies s)). Qed.

Lemma broadcastToLobby_timers lobbyId m s :
  timers (broadcastToLobby lobbyId m s) = timers s.
Proof. unfold broadcastToLobby. now destruct (JSMap.get lobbyId (lobbies s)). Qed.

Lemma broadcastToLobby_nextHandle lobbyId m s :
  nextHandle (broadcastToLobby lobbyId m s) = nextHandle s.
Proof. unfold broadcastToLobby. now destruct (JSMap.get lobbyId (lobbies s)). Qed.

Lemma broadcastLobbyUpdate_lobbies lobbyId s :
  lobbies (broadcastLobbyUpdate lobbyId s) = lobbies s.
Proof.
  unfold broadcastLobbyUpdate.
  destruct (JSMap.get lobbyId (lobbies s)); [apply broadcastToLobby_lobbies | reflexivity].
Qed.

Lemma broadcastLobbyUpdate_clients lobbyId s :
  clients (broadcastLobbyUpdate lobbyId s) = clients s.
Proof.
  unfold broadcastLobbyUpdate.
  destruct (JSMap.get lobbyId (lobbies s)); [apply broadcastToLobby_clients | reflexivity].
Qed.

Lemma broadcastLobbyUpdate_timers lobbyId s :
  timers (broadcastLobbyUpdate lobbyId s) = timers s.
Proof.
  unfold broadcastLobbyUpdate.
  destruct (JSMap.get lobbyId (lobbies s)); [apply broadcastToLobby_timers | reflexivity].
Qed.

Lemma broadcastLobbyUpdate_nextHandle lobbyId s :
  nextHandle (broadcastLobbyUpdate lobbyId s) = nextHandle s.
Proof.
  unfold broadcastLobbyUpdate.
  destruct (JSMap.get lobbyId (lobbies s)); [apply broadcastToLobby_nextHandle | reflexivity].
Qed.

Create Rewrite HintDb frame.
#[export] Hint Rewrite
  sendToClient_lobbies sendToClient_clients sendToClient_timers sendToClient_nextHandle
  broadcastToLobby_lobbies broadcastToLobby_clients broadcastToLobby_timers
  broadcastToLobby_nextHandle
  broadcastLobbyUpdate_lobbies broadcastLobbyUpdate_clients broadcastLobbyUpdate_timers
  broadcastLobbyUpdate_nextHandle : frame.

Lemma get_update_lobby lobbyId lobbyId' f s :
  JSMap.get lobbyId' (lobbies (update_lobby lobbyId f s)) =
  if lobbyId =? lobbyId' then option_map f (JSMap.get lobbyId' (lobbies s))
  else JSMap.get lobbyId' (lobbies s).
Proof. apply get_update. Qed.

Lemma get_update_lobby_same lobbyId f s :
  JSMap.get lobbyId (lobbies (update_lobby lobbyId f s)) =
  option_map f (JSMap.get lobbyId (lobbies s)).
Proof. apply get_update_same. Qed.

(** ** Joining a lobby *)

Lemma sendToClient_only_reports clientId m s :
  deliverable clientId s = true -> only_reports clientId m s (sendToClient clientId m s).
Proof.
  intros D. rewrite sendToClient_eq, D. repeat split.
Qed.

(** C9. A [join_lobby] request fails with its own error message, delivered
    to the requester, in each of three cases: the lobby code is not
    registered, the lobby is not in state [lobby], the roster has reached
    [maxPlayers]; the three messages are pairwise different, and in each
    case the registries (connections, lobbies with all their fields) and
    the timers are unchanged. *)
Theorem join_lobby_failures clientId lobbyId playerName uuid s :
  deliverable clientId s = true ->
  let s' := handleJoinLobby clientId lobbyId playerName uuid s in
  (JSMap.get lobbyId (lobbies s) = None ->
   only_reports clientId (error "Lobby not found") s s') /\
  (forall l, JSMap.get lobbyId (lobbies s) = Some l -> gameState l <> GLobby ->
   only_reports clientId (error "Game already in progress") s s') /\
  (forall l, JSMap.get lobbyId (lobbies s) = Some l -> gameState l = GLobby ->
   (CONFIG.maxPlayers <= JSMap.size (players l))%nat ->
   only_reports clientId (error "Lobby is full") s s') /\
  "Lobby not found" <> "Game already in progress" /\
  "Lobby not found" <> "Lobby is full" /\
  "Game already in progress" <> "Lobby is full".
Proof.
  intros D s'. subst s'. unfold handleJoinLobby.
  split; [|split; [|split; [|repeat split; discriminate]]].
  - intros ->. now apply sendToClient_only_reports.
  - intros l -> G.
    destruct (gameState l); simpl; try contradiction;
      now apply sendToClient_only_reports.
  - intros l -> G Full. rewrite G. simpl negb. cbv iota.
    apply Nat.leb_le in Full. rewrite Full.
    now apply sendToClient_only_reports.
Qed.

Lemma playerColors_NoDup : NoDup playerColors.
Proof.
  unfold playerColors.
  repeat (constructor; [simpl; intuition discriminate|]). constructor.
Qed.

Lemma colors_in_join_order_NoDup roster :
  colors_in_join_order roster ->
  (JSMap.size roster <= List.length playerColors)%nat ->
  NoDup (roster_colors roster).
Proof.
  intros O Len. unfold roster_colors.
  apply (NoDup_nth _ 0%Z). rewrite length_map.
  assert (Hlen : List.length (JSMap.values roster) = JSMap.size roster)
    by apply length_map.
  rewrite Hlen. intros i j Hi Hj E.
  assert (Nth : forall k, (k < JSMap.size roster)%nat ->
                nth k (map p_color (JSMap.values roster)) 0%Z = nth k playerColors 0%Z).
  { intros k Hk.
    destruct (nth_error (JSMap.values roster) k) as [p|] eqn:Ek.
    - rewrite (nth_error_nth _ _ _ (map_nth_error p_color _ _ Ek)).
      rewrite (O _ _ Ek). rewrite Nat.mod_small by lia. reflexivity.
    - apply nth_error_None in Ek. lia. }
  rewrite !Nth in E by assumption.
  apply (proj1 (NoDup_nth playerColors 0%Z) playerColors_NoDup); try lia; exact E.
Qed.

Lemma colors_in_join_order_app roster playerId p :
  colors_in_join_order roster ->
  p_color p = nth (JSMap.size roster mod List.length playerColors) playerColors 0%Z ->
  colors_in_join_order (roster ++ [(playerId, p)]).
Proof.
  intros O C i q. unfold JSMap.values. rewrite map_app. simpl.
  destruct (Nat.lt_ge_cases i (List.length (map snd roster))) as [Lt|Ge].
  - rewrite nth_error_app1 by exact Lt. apply O.
  - rewrite nth_error_app2 by exact Ge.
    destruct (i - List.length (map snd roster))%nat as [|k] eqn:Ei; simpl.
    + intros [= <-]. rewrite C. rewrite length_map in *.
      replace i with (JSMap.size roster) by (unfold JSMap.size; lia).
      reflexivity.
    + destruct k; discriminate.
Qed.

(** C6 (amended). A successful join, with a player id that is not yet in
    the roster, makes the roster one player longer; and when the roster
    still lists the players in the order they joined, none having left, it
    does so afterwards and no two of its players hold the same colour.  The
    roster of a lobby just created is in that situation. *)
Theorem join_roster_and_colors clientId lobbyId playerName uuid s l :
  JSMap.get lobbyId (lobbies s) = Some l ->
  gameState l = GLobby ->
  (JSMap.size (players l) < CONFIG.maxPlayers)%nat ->
  JSMap.get uuid (players l) = None ->
  colors_in_join_order (players DEFAULT_LOBBY) /\
  exists l',
    JSMap.get lobbyId (lobbies (handleJoinLobby clientId lobbyId playerName uuid s))
      = Some l' /\
    JSMap.size (players l') = S (JSMap.size (players l)) /\
    (colors_in_join_order (players l) ->
     colors_in_join_order (players l') /\ NoDup (roster_colors (players l'))).
Proof.
  intros Hl G Room Fresh. split.
  { intros [|i] p; discriminate. }
  unfold handleJoinLobby. rewrite Hl, G. simpl negb. cbv iota.
  assert (F : (CONFIG.maxPlayers <=? JSMap.size (players l))%nat = false)
    by (apply Nat.leb_gt; exact Room).
  rewrite F.
  set (p := mkPlayer uuid clientId playerName _ false 0 0 _ _ None).
  set (s1 := update_lobby lobbyId _ s).
  assert (H1 : JSMap.get lobbyId (lobbies s1)
               = Some (with_players (players l ++ [(uuid, p)]) l)).
  { subst s1. rewrite get_update_lobby_same, Hl. simpl.
    now rewrite set_fresh by exact Fresh. }
  exists (with_players (players l ++ [(uuid, p)]) l). split.
  { destruct (JSMap.get clientId (clients s1)); [|exact H1].
    autorewrite with frame. exact H1. }
  simpl. split.
  { unfold JSMap.size. rewrite length_app. simpl. lia. }
  intros O.
  assert (O' : colors_in_join_order (players l ++ [(uuid, p)]))
    by (apply colors_in_join_order_app; [exact O | reflexivity]).
  split; [exact O'|].
  apply colors_in_join_order_NoDup; [exact O'|].
  unfold JSMap.size in *. rewrite length_app. simpl.
  unfold CONFIG.maxPlayers in Room. lia.
Qed.

(** The claim C6 as it stands fails: after a player has left, the next one
    to join is given the colour of a player still present. *)
Lemma join_color_clash :
  exists l,
    JSMap.get "LOBBY1"
      (lobbies (run (fun _ => 0) (fun _ => 0%Z) initial color_clash_trace)) = Some l /\
    JSMap.keys (players l) = ["p2"; "p3"] /\
    (JSMap.size (players l) <= List.length playerColors)%nat /\
    roster_colors (players l) = [0xaa4444; 0xaa4444]%Z /\
    ~ NoDup (roster_colors (players l)).
Proof.
  eexists. split; [vm_compute; reflexivity|].
  split; [reflexivity|]. split; [simpl; lia|]. split; [reflexivity|].
  simpl. intros N. inversion N as [|x r Hin _]. apply Hin. now left.
Qed.

(** ** Countdown *)

Lemma timer_active_clear h h' s :
  timer_active h' (clearTimer h s) = if (h =? h')%nat then None else timer_active h' s.
Proof.
  unfold timer_active, clearTimer. simpl.
  induction (timers s) as [|[h0 t0] r IH]; simpl.
  - now destruct (h =? h')%nat.
  - destruct (h0 =? h)%nat eqn:E; simpl.
    + apply Nat.eqb_eq in E. subst h0. rewrite IH.
      destruct (h =? h')%nat; reflexivity.
    + destruct (h0 =? h')%nat eqn:E'; [|exact IH].
      apply Nat.eqb_eq in E'. subst h0. rewrite Nat.eqb_sym, E. reflexivity.
Qed.

Lemma timer_active_In h t s : timer_active h s = Some t -> In (h, t) (timers s).
Proof.
  unfold timer_active.
  destruct (find _ (timers s)) as [[h0 t0]|] eqn:F; [|discriminate].
  intros [= <-]. apply find_some in F. destruct F as [I E].
  apply Nat.eqb_eq in E. simpl in E. now subst h0.
Qed.

Lemma find_app {A : Type} (f : A -> bool) (l1 l2 : list A) :
  find f (l1 ++ l2) = match find f l1 with Some a => Some a | None => find f l2 end.
Proof.
  induction l1 as [|a r IH]; simpl; [reflexivity|].
  destruct (f a); [reflexivity | exact IH].
Qed.

Lemma timer_active_setTimer h t s :
  handles_fresh s ->
  timer_active h (snd (setTimer t s)) =
  if (h =? nextHandle s)%nat then Some t else timer_active h s.
Proof.
  intros F. unfold setTimer, timer_active. simpl.
  rewrite find_app.
  destruct (find (fun ht => (fst ht =? h)%nat) (timers s)) as [[h0 t0]|] eqn:E.
  - apply find_some in E. destruct E as [I E]. apply Nat.eqb_eq in E. simpl in E.
    subst h0. apply F in I.
    destruct (h =? nextHandle s)%nat eqn:N; [apply Nat.eqb_eq in N; lia | reflexivity].
  - simpl. rewrite (Nat.eqb_sym (nextHandle s) h).
    destruct (h =? nextHandle s)%nat; reflexivity.
Qed.

Lemma handles_fresh_setTimer t s : handles_fresh s -> handles_fresh (snd (setTimer t s)).
Proof.
  intros F h t' I. simpl in *. apply in_app_or in I. destruct I as [I|[[= <- <-]|[]]].
  - apply F in I. lia.
  - lia.
Qed.

Lemma handles_fresh_clearTimer h s : handles_fresh s -> handles_fresh (clearTimer h s).
Proof.
  intros F h' t I. simpl in *. apply filter_In in I. destruct I as [I _].
  now apply F in I.
Qed.

(** Functions that leave the timers alone keep [handles_fresh]. *)
Lemma handles_fresh_frame s s' :
  timers s' = timers s -> nextHandle s' = nextHandle s ->
  handles_fresh s -> handles_fresh s'.
Proof. unfold handles_fresh. intros -> ->. auto. Qed.

Lemma timer_active_frame h s s' : timers s' = timers s -> timer_active h s' = timer_active h s.
Proof. unfold timer_active. now intros ->. Qed.

Lemma generateFood_get rnd lobbyId s :
  JSMap.get lobbyId (lobbies (generateFood rnd lobbyId s)) =
  option_map
    (with_foodItems
       (map (fun i => randomFood rnd (randomCalls s + 2 * i)) (seq 0 CONFIG.foodCount)))
    (JSMap.get lobbyId (lobbies s)).
Proof.
  unfold generateFood.
  destruct (JSMap.get lobbyId (lobbies s)) eqn:E.
  - unfold with_randomCalls. cbn [lobbies]. rewrite get_update_lobby_same, E. reflexivity.
  - rewrite E. reflexivity.
Qed.

Lemma generateFood_timers rnd lobbyId s :
  timers (generateFood rnd lobbyId s) = timers s /\
  nextHandle (generateFood rnd lobbyId s) = nextHandle s.
Proof.
  unfold generateFood. destruct (JSMap.get lobbyId (lobbies s)); split; reflexivity.
Qed.

Lemma startGame_spec rnd lobbyId s l :
  JSMap.get lobbyId (lobbies s) = Some l ->
  gameState_of lobbyId (startGame rnd lobbyId s) = Some GPlaying /\
  timers (startGame rnd lobbyId s) = (timers s ++ [(nextHandle s, TickTimer lobbyId)])%list.
Proof.
  intros Hl. unfold startGame, gameState_of. rewrite Hl.
  set (s1 := update_lobby lobbyId (with_gameState GPlaying) s).
  set (s2 := initializeGamePositions lobbyId s1).
  set (s3 := generateFood rnd lobbyId s2).
  assert (H1 : JSMap.get lobbyId (lobbies s1) = Some (with_gameState GPlaying l)).
  { subst s1. now rewrite get_update_lobby_same, Hl. }
  assert (H2 : exists l2, JSMap.get lobbyId (lobbies s2) = Some l2 /\ gameState l2 = GPlaying).
  { subst s2. unfold initializeGamePositions. rewrite get_update_lobby_same, H1.
    eexists. split; reflexivity. }
  destruct H2 as (l2 & H2 & G2).
  assert (H3 : exists l3, JSMap.get lobbyId (lobbies s3) = Some l3 /\ gameState l3 = GPlaying).
  { subst s3. rewrite generateFood_get, H2. eexists. split; [reflexivity | exact G2]. }
  destruct H3 as (l3 & H3 & G3).
  rewrite H3.
  set (s4 := broadcastToLobby _ _ s3).
  assert (H4 : JSMap.get lobbyId (lobbies s4) = Some l3).
  { subst s4. now rewrite broadcastToLobby_lobbies. }
  unfold startGameTick. rewrite H4.
  cbn [setTimer]. rewrite get_update_lobby_same. cbn [lobbies]. rewrite H4.
  split; [simpl; now rewrite G3|].
  cbn [update_lobby with_lobbies timers]. subst s4. autorewrite with frame.
  subst s3. rewrite (proj1 (generateFood_timers _ _ _)), (proj2 (generateFood_timers _ _ _)).
  reflexivity.
Qed.

Lemma broadcastToLobby_sent lobbyId m s :
  sent (broadcastToLobby lobbyId m s) = (sent s ++ to_all (audience lobbyId s) m)%list.
Proof.
  unfold broadcastToLobby, audience, to_all.
  destruct (JSMap.get lobbyId (lobbies s)); simpl; [reflexivity|].
  now rewrite app_nil_r.
Qed.

Lemma audience_frame lobbyId s s' :
  lobbies s' = lobbies s -> clients s' = clients s ->
  audience lobbyId s' = audience lobbyId s.
Proof. unfold audience. now intros -> ->. Qed.

(** The audience depends on the roster only. *)
Lemma audience_update_lobby lobbyId lobbyId' f s :
  (forall l, players (f l) = players l) ->
  audience lobbyId' (update_lobby lobbyId f s) = audience lobbyId' s.
Proof.
  intros P. unfold audience. rewrite get_update_lobby. cbn [clients update_lobby with_lobbies].
  destruct (lobbyId =? lobbyId'); [|reflexivity].
  destruct (JSMap.get lobbyId' (lobbies s)); simpl; [now rewrite P | reflexivity].
Qed.

Lemma startCountdown_counting lobbyId s l :
  JSMap.get lobbyId (lobbies s) = Some l ->
  handles_fresh s ->
  let s0 := startCountdown lobbyId s in
  counting lobbyId (nextHandle s) CONFIG.countdownTime s0 /\
  sent s0 = (sent s ++ to_all (audience lobbyId s) (countdown_msg CONFIG.countdownTime))%list /\
  audience lobbyId s0 = audience lobbyId s.
Proof.
  intros Hl F. unfold startCountdown. rewrite Hl.
  set (s1 := update_lobby lobbyId _ s).
  set (s2 := broadcastToLobby lobbyId _ s1).
  cbn [setTimer]. cbv zeta.
  set (s3 := mkServer _ _ _ _ _ _ _).
  assert (A1 : audience lobbyId s1 = audience lobbyId s)
    by (apply audience_update_lobby; reflexivity).
  assert (F3 : handles_fresh s3).
  { apply (handles_fresh_setTimer (CountdownTimer lobbyId) s2).
    apply (handles_fresh_frame s); [| | exact F]; subst s2 s1;
      now autorewrite with frame. }
  split; [|split].
  - split; [|split].
    + apply (handles_fresh_frame s3); [reflexivity | reflexivity | exact F3].
    + rewrite (timer_active_frame _ s3) by reflexivity.
      assert (F2 : handles_fresh s2).
      { apply (handles_fresh_frame s); [| | exact F]; subst s2 s1;
          now autorewrite with frame. }
      pose proof (timer_active_setTimer (nextHandle s2) (CountdownTimer lobbyId) s2 F2) as T.
      rewrite Nat.eqb_refl in T. cbn [setTimer snd] in T.
      replace (nextHandle s) with (nextHandle s2)
        by (subst s2 s1; now autorewrite with frame).
      exact T.
    + eexists. split.
      * rewrite get_update_lobby_same. subst s3. cbn [lobbies].
        subst s2. rewrite broadcastToLobby_lobbies. subst s1.
        rewrite get_update_lobby_same, Hl. reflexivity.
      * simpl. repeat split. f_equal. subst s2 s1. now autorewrite with frame.
  - cbn [update_lobby with_lobbies sent]. subst s3. cbn [sent]. subst s2.
    rewrite broadcastToLobby_sent, A1. reflexivity.
  - rewrite audience_update_lobby by reflexivity.
    rewrite (audience_frame lobbyId s2 s3) by reflexivity.
    subst s2. rewrite (audience_frame lobbyId s1); [exact A1 | |]; now autorewrite with frame.
Qed.

Lemma timer_active_extend h s s' extra :
  timers s' = (timers s ++ extra)%list ->
  timer_active h s' =
  match timer_active h s with
  | Some t => Some t
  | None => option_map snd (find (fun ht => (fst ht =? h)%nat) extra)
  end.
Proof.
  unfold timer_active. intros ->. rewrite find_app.
  destruct (find _ (timers s)); [reflexivity|].
  now destruct (find _ extra).
Qed.

Lemma fire_continue rnd clock lobbyId h c dt s :
  counting lobbyId h c s -> (1 < c)%Z ->
  let s' := fire rnd clock h dt s in
  counting lobbyId h (c - 1) s' /\
  sent s' = (sent s ++ to_all (audience lobbyId s) (countdown_msg (c - 1)))%list /\
  audience lobbyId s' = audience lobbyId s.
Proof.
  intros (F & T & l & Hl & G & C & I) Hc. unfold fire. rewrite T.
  unfold countdownTick. rewrite Hl, C.
  assert (P : (0 <? c - 1)%Z = true) by (apply Z.ltb_lt; lia). rewrite P.
  set (s1 := update_lobby lobbyId _ s).
  assert (A1 : audience lobbyId s1 = audience lobbyId s)
    by (apply audience_update_lobby; reflexivity).
  split; [|split].
  - split; [|split].
    + apply (handles_fresh_frame s); [| | exact F]; subst s1; now autorewrite with frame.
    + rewrite (timer_active_frame _ s); [exact T|]. subst s1. now autorewrite with frame.
    + exists (with_countdown (c - 1) l). split.
      * rewrite broadcastToLobby_lobbies. subst s1.
        now rewrite get_update_lobby_same, Hl.
      * simpl. auto.
  - now rewrite broadcastToLobby_sent, A1.
  - rewrite (audience_frame lobbyId s1); [exact A1 | |]; now autorewrite with frame.
Qed.

Lemma fire_finish rnd clock lobbyId h c dt s :
  counting lobbyId h c s -> (c <= 1)%Z ->
  let s' := fire rnd clock h dt s in
  gameState_of lobbyId s' = Some GPlaying /\ timer_active h s' = None.
Proof.
  intros (F & T & l & Hl & G & C & I) Hc. unfold fire. rewrite T.
  unfold countdownTick. rewrite Hl, C, I.
  assert (P : (0 <? c - 1)%Z = false) by (apply Z.ltb_ge; lia). rewrite P.
  set (s1 := update_lobby lobbyId _ s).
  assert (H1 : JSMap.get lobbyId (lobbies (clearTimer h s1))
               = Some (with_countdown (c - 1) l)).
  { subst s1. cbn [clearTimer with_timers lobbies].
    now rewrite get_update_lobby_same, Hl. }
  destruct (startGame_spec rnd lobbyId _ _ H1) as [E1 E2].
  split; [exact E1|].
  rewrite (timer_active_extend h (clearTimer h s1) _ _ E2).
  rewrite timer_active_clear, Nat.eqb_refl.
  apply timer_active_In in T. apply F in T. cbn.
  destruct (nextHandle s =? h)%nat eqn:E; [apply Nat.eqb_eq in E; lia | reflexivity].
Qed.

Lemma fire_inactive rnd clock h dt s :
  timer_active h s = None -> fire rnd clock h dt s = s.
Proof. unfold fire. now intros ->. Qed.

Lemma fireTimes_S rnd clock h k s :
  fireTimes rnd clock h (S k) s = fire rnd clock h 0 (fireTimes rnd clock h k s).
Proof. reflexivity. Qed.

Lemma fireTimes_counting rnd clock lobbyId h s k :
  forall c, counting lobbyId h c s -> (Z.of_nat k < c)%Z ->
  counting lobbyId h (c - Z.of_nat k) (fireTimes rnd clock h k s) /\
  audience lobbyId (fireTimes rnd clock h k s) = audience lobbyId s.
Proof.
  induction k as [|k IH]; intros c Cn Hk.
  - simpl. rewrite Z.sub_0_r. auto.
  - destruct (IH c Cn ltac:(lia)) as [Ck Ak].
    rewrite fireTimes_S.
    destruct (fire_continue rnd clock lobbyId h _ 0 _ Ck ltac:(lia)) as (C' & _ & A').
    split.
    + replace (c - Z.of_nat (S k))%Z with (c - Z.of_nat k - 1)%Z by lia. exact C'.
    + now rewrite A'.
Qed.

Lemma fireTimes_inactive rnd clock h s k :
  timer_active h s = None -> fireTimes rnd clock h k s = s.
Proof.
  intros T. induction k as [|k IH]; [reflexivity|].
  rewrite fireTimes_S, IH. now apply fire_inactive.
Qed.

Lemma fireTimes_add rnd clock h s j k :
  fireTimes rnd clock h (j + k) s = fireTimes rnd clock h j (fireTimes rnd clock h k s).
Proof.
  induction j as [|j IH]; [reflexivity|].
  change (S j + k)%nat with (S (j + k)). now rewrite !fireTimes_S, IH.
Qed.

(** C5. A countdown started with the configured value [N] broadcasts [N];
    each of the next [N - 1] firings of its one-second interval broadcasts
    the remaining count and leaves the lobby counting down; the [N]-th
    firing clears the interval and puts the lobby in state [playing]; the
    interval never fires again, so the transition happens once. *)
Theorem countdown_reaches_playing rnd clock lobbyId s l :
  JSMap.get lobbyId (lobbies s) = Some l ->
  handles_fresh s ->
  let N := Z.to_nat CONFIG.countdownTime in
  let h := nextHandle s in
  let after k := fireTimes rnd clock h k (startCountdown lobbyId s) in
  gameState_of lobbyId (after 0%nat) = Some GCountdown /\
  timer_active h (after 0%nat) = Some (CountdownTimer lobbyId) /\
  sent (after 0%nat)
    = (sent s ++ to_all (audience lobbyId s) (countdown_msg (Z.of_nat N)))%list /\
  (forall k, (0 < k < N)%nat ->
     gameState_of lobbyId (after k) = Some GCountdown /\
     timer_active h (after k) = Some (CountdownTimer lobbyId) /\
     sent (after k)
       = (sent (after (k - 1)%nat)
          ++ to_all (audience lobbyId s) (countdown_msg (Z.of_nat (N - k))))%list) /\
  gameState_of lobbyId (after N) = Some GPlaying /\
  timer_active h (after N) = None /\
  (forall k, (N <= k)%nat -> after k = after N).
Proof.
  intros Hl F N h after.
  destruct (startCountdown_counting lobbyId s l Hl F) as (C0 & S0 & A0).
  fold h in C0.
  assert (St : forall c s', counting lobbyId h c s' ->
                            gameState_of lobbyId s' = Some GCountdown).
  { intros c s' (_ & _ & l' & Hl' & G' & _). unfold gameState_of. rewrite Hl'. simpl.
    now rewrite G'. }
  assert (Tm : forall c s', counting lobbyId h c s' ->
                            timer_active h s' = Some (CountdownTimer lobbyId)).
  { intros c s' (_ & T' & _). exact T'. }
  split; [exact (St _ _ C0)|]. split; [exact (Tm _ _ C0)|]. split; [exact S0|].
  split; [|].
  - intros k Hk. subst after. cbv beta.
    destruct k as [|k]; [lia|]. replace (S k - 1)%nat with k by lia.
    destruct (fireTimes_counting rnd clock lobbyId h _ k _ C0) as [Ck Ak].
    { subst N. unfold CONFIG.countdownTime in *. lia. }
    rewrite fireTimes_S.
    destruct (fire_continue rnd clock lobbyId h _ 0 _ Ck) as (C' & S' & A').
    { subst N. unfold CONFIG.countdownTime in *. lia. }
    split; [exact (St _ _ C')|]. split; [exact (Tm _ _ C')|].
    rewrite S', Ak, A0. do 3 f_equal.
    subst N. unfold CONFIG.countdownTime in *. lia.
  - assert (Fin : gameState_of lobbyId (after N) = Some GPlaying /\
                  timer_active h (after N) = None).
    { subst after. cbv beta.
      replace N with (S (N - 1)) by (subst N; unfold CONFIG.countdownTime; lia).
      destruct (fireTimes_counting rnd clock lobbyId h _ (N - 1) _ C0) as [Ck _].
      { subst N. unfold CONFIG.countdownTime. lia. }
      rewrite fireTimes_S.
      apply (fire_finish rnd clock lobbyId h _ 0 _ Ck).
      subst N. unfold CONFIG.countdownTime. lia. }
    destruct Fin as [G T]. split; [exact G|]. split; [exact T|].
    intros k Hk. subst after. cbv beta.
    replace k with ((k - N) + N)%nat by lia.
    rewrite fireTimes_add. now apply fireTimes_inactive.
Qed.

(** ** Food *)

Lemma respawn_iter rnd lobbyId food eater s l n :
  JSMap.get lobbyId (lobbies s) = Some l ->
  let batch := map (fun j => randomFood rnd (randomCalls s + 2 * j)) (seq 0 n) in
  let s' := Nat.iter n (respawnOne rnd lobbyId food eater) s in
  JSMap.get lobbyId (lobbies s') = Some (with_foodItems (foodItems l ++ batch) l) /\
  (forall lobbyId', lobbyId' <> lobbyId ->
     JSMap.get lobbyId' (lobbies s') = JSMap.get lobbyId' (lobbies s)) /\
  clients s' = clients s /\ timers s' = timers s /\
  randomCalls s' = (randomCalls s + 2 * n)%nat /\
  sent s' = (sent s ++
             flat_map (fun nf => to_all (audience lobbyId s)
                                   (food_eaten (vx food) (vy food) eater (Some nf)))
                      batch)%list.
Proof.
  intros Hl. induction n as [|n IH].
  - simpl. rewrite !app_nil_r. rewrite Hl.
    split; [now destruct l|]. repeat split. lia.
  - cbv zeta in *. destruct IH as (IH1 & IH2 & IH3 & IH4 & IH5 & IH6).
    change (Nat.iter (S n) (respawnOne rnd lobbyId food eater) s)
      with (respawnOne rnd lobbyId food eater
              (Nat.iter n (respawnOne rnd lobbyId food eater) s)).
    set (sn := Nat.iter n (respawnOne rnd lobbyId food eater) s) in *.
    rewrite seq_S, map_app, flat_map_app. simpl. rewrite app_nil_r.
    unfold respawnOne. rewrite IH5.
    set (nf := randomFood rnd (randomCalls s + 2 * n)).
    set (s1 := update_lobby lobbyId _ (with_randomCalls _ sn)).
    assert (A1 : audience lobbyId s1 = audience lobbyId s).
    { subst s1. rewrite audience_update_lobby by reflexivity.
      unfold audience. cbn [with_randomCalls lobbies clients].
      rewrite IH1, IH3, Hl. reflexivity. }
    split; [|split; [|split; [|split; [|split]]]].
    + rewrite broadcastToLobby_lobbies. subst s1. rewrite get_update_lobby_same.
      cbn [with_randomCalls lobbies]. rewrite IH1. simpl.
      unfold with_foodItems. simpl. now rewrite <- app_assoc.
    + intros k Hk. rewrite broadcastToLobby_lobbies. subst s1.
      rewrite get_update_lobby. cbn [with_randomCalls lobbies].
      destruct (lobbyId =? k) eqn:E; [apply String.eqb_eq in E; congruence|].
      now apply IH2.
    + rewrite broadcastToLobby_clients. exact IH3.
    + rewrite broadcastToLobby_timers. exact IH4.
    + unfold broadcastToLobby. destruct (JSMap.get lobbyId (lobbies s1)); simpl; lia.
    + rewrite broadcastToLobby_sent, A1. subst s1.
      cbn [update_lobby with_lobbies with_randomCalls sent].
      rewrite IH6. now rewrite <- app_assoc.
Qed.

Lemma randomFood_in_map rnd k :
  (forall j, 0 <= rnd j < 1) -> in_map_extents (randomFood rnd k).
Proof.
  intros H. unfold in_map_extents, randomFood, CONFIG.mapWidth, CONFIG.mapHeight. simpl.
  pose proof (H k). pose proof (H (S k)). lra.
Qed.

Lemma foodLoop_visits rnd lobbyId playerId k s :
  foodLoop rnd lobbyId playerId k s
  = fold_left (fun s i => foodStep rnd lobbyId playerId i s) (rev (seq 0 k)) s.
Proof.
  revert s. induction k as [|k IH]; intros s; [reflexivity|].
  rewrite seq_S, rev_app_distr. simpl. apply IH.
Qed.

Lemma fold_left_pointwise {A B : Type} (f g : A -> B -> A) (bs : list B) :
  (forall a b, f a b = g a b) -> forall a, fold_left f bs a = fold_left g bs a.
Proof.
  intros E. induction bs as [|b bs IH]; intros a; [reflexivity|].
  simpl. now rewrite E, IH.
Qed.

(** C8. The food pass visits, for every player of the roster in roster
    order, every index of the food list as it stands when the turn of that
    player begins, from the last to the first.  At a visit, when the player
    and the item are not closer than the player's size plus the food radius
    nothing changes; when they are, the player grows by [growthRate], the
    item is removed from the lobby's food, a [food_eaten] message with the
    item's position and the eater's id is broadcast, and, when fewer than
    [foodCount * respawnThreshold] items remain, [respawnAmount] new items
    are appended, the [j]-th at
    [((2 r - 1) * mapWidth, (2 r' - 1) * mapHeight)] for the next two
    values [r], [r'] of [Math.random] (a position within the map extents),
    each announced by its own [food_eaten] message carrying the eaten
    position and the new item; otherwise nothing is added. *)
Theorem food_pickup rnd lobbyId s :
  (forall k, 0 <= rnd k < 1) ->
  checkFoodCollisions rnd lobbyId s
  = fold_left (fun s playerId =>
                 fold_left (fun s i => foodStep rnd lobbyId playerId i s)
                           (rev (seq 0 (List.length (food_of lobbyId s)))) s)
              (JSMap.keys (roster_of lobbyId s)) s /\
  forall s0 l0 playerId p i food,
    JSMap.get lobbyId (lobbies s0) = Some l0 ->
    JSMap.get playerId (players l0) = Some p ->
    nth_error (foodItems l0) i = Some food ->
    let s' := foodStep rnd lobbyId playerId i s0 in
    (~ in_reach p food -> s' = s0) /\
    (in_reach p food ->
     let remaining := splice1 i (foodItems l0) in
     let batch :=
       if Rlt_dec (INR (List.length remaining))
                  (INR CONFIG.foodCount * CONFIG.respawnThreshold)
       then map (fun j => randomFood rnd (randomCalls s0 + 2 * j))
                (seq 0 CONFIG.respawnAmount)
       else [] in
     let eaten := food_eaten (vx food) (vy food) (p_id p) in
     JSMap.get playerId (roster_of lobbyId s')
       = Some (with_size (p_size p + CONFIG.growthRate) p) /\
     (forall q, q <> playerId ->
        JSMap.get q (roster_of lobbyId s') = JSMap.get q (players l0)) /\
     food_of lobbyId s' = (remaining ++ batch)%list /\
     sent s' = (sent s0 ++ to_all (audience lobbyId s0) (eaten None)
                  ++ flat_map (fun nf => to_all (audience lobbyId s0) (eaten (Some nf)))
                              batch)%list /\
     randomCalls s' = (randomCalls s0 + 2 * List.length batch)%nat /\
     (forall j nf, nth_error batch j = Some nf ->
        vx nf = (rnd (randomCalls s0 + 2 * j)%nat * 2 - 1) * CONFIG.mapWidth /\
        vy nf = (rnd (S (randomCalls s0 + 2 * j)) * 2 - 1) * CONFIG.mapHeight /\
        in_map_extents nf)).
Proof.
  intros Hr. split.
  { unfold checkFoodCollisions, roster_of.
    destruct (JSMap.get lobbyId (lobbies s)); [|reflexivity].
    apply fold_left_pointwise. intros s0 playerId. unfold food_of.
    destruct (JSMap.get lobbyId (lobbies s0)); [apply foodLoop_visits | reflexivity]. }
  intros s0 l0 playerId p i food Hl0 Hp Hf s'. subst s'. unfold foodStep, in_reach.
  rewrite Hl0, Hp, Hf. split.
  { intros Far. destruct (Rlt_dec _ _) as [C|_]; [contradiction | reflexivity]. }
  intros Near. destruct (Rlt_dec _ _) as [_|N]; [|contradiction].
  set (grow := fun p => with_size (p_size p + CONFIG.growthRate) p).
  set (s1 := update_player lobbyId playerId grow s0).
  set (s2 := broadcastToLobby lobbyId _ s1).
  set (s3 := update_lobby lobbyId _ s2).
  set (l1 := with_players (JSMap.update playerId grow (players l0)) l0).
  set (remaining := splice1 i (foodItems l0)).
  assert (H1 : JSMap.get lobbyId (lobbies s1) = Some l1).
  { subst s1. unfold update_player. now rewrite get_update_lobby_same, Hl0. }
  assert (A1 : audience lobbyId s1 = audience lobbyId s0).
  { unfold audience. rewrite H1, Hl0. subst s1 l1.
    cbn [update_player update_lobby with_lobbies clients with_players players].
    unfold recipients. generalize (players l0) as r.
    induction r as [|[k q] r IH]; [reflexivity|]. simpl.
    destruct (k =? playerId); simpl; [reflexivity | now rewrite IH]. }
  assert (H3 : JSMap.get lobbyId (lobbies s3) = Some (with_foodItems remaining l1)).
  { subst s3 s2. rewrite get_update_lobby_same, broadcastToLobby_lobbies, H1. reflexivity. }
  assert (S3 : sent s3 = (sent s0 ++ to_all (audience lobbyId s0)
                                      (food_eaten (vx food) (vy food) (p_id p) None))%list).
  { subst s3 s2. cbn [update_lobby with_lobbies sent].
    rewrite broadcastToLobby_sent, A1. reflexivity. }
  assert (A3 : audience lobbyId s3 = audience lobbyId s0).
  { subst s3. rewrite audience_update_lobby by reflexivity.
    subst s2. rewrite (audience_frame lobbyId s1); [exact A1| |]; now autorewrite with frame. }
  assert (R3 : randomCalls s3 = randomCalls s0).
  { subst s3 s2. cbn [update_lobby with_lobbies randomCalls].
    unfold broadcastToLobby. rewrite H1. reflexivity. }
  assert (P1 : JSMap.get playerId (players l1) = Some (grow p)).
  { subst l1. cbn [with_players players]. now rewrite get_update_same, Hp. }
  assert (O1 : forall q, q <> playerId -> JSMap.get q (players l1) = JSMap.get q (players l0)).
  { intros q Hq. subst l1. cbn [with_players players]. rewrite get_update.
    destruct (String.eqb_spec playerId q); [congruence | reflexivity]. }
  cbv zeta. unfold roster_of, food_of.
  destruct (Rlt_dec _ _) as [Lt|Ge].
  - destruct (respawn_iter rnd lobbyId food (p_id p) s3 _ CONFIG.respawnAmount H3)
      as (E1 & _ & _ & _ & E5 & E6).
    rewrite E1, E5, E6, S3, A3, R3. cbn [players foodItems with_foodItems].
    split; [exact P1|]. split; [exact O1|]. split; [reflexivity|].
    split; [now rewrite <- app_assoc|].
    split; [now rewrite length_map, length_seq|].
    intros j nf Hj. rewrite nth_error_map in Hj.
    destruct (nth_error (seq 0 CONFIG.respawnAmount) j) as [j'|] eqn:Ej; [|discriminate].
    injection Hj as <-.
    assert (j' = j).
    { rewrite nth_error_seq in Ej. destruct (j <? _)%nat; [|discriminate].
      injection Ej as <-. reflexivity. }
    subst j'. split; [reflexivity|]. split; [reflexivity|].
    now apply randomFood_in_map.
  - rewrite H3, S3, R3. cbn [players foodItems with_foodItems].
    split; [exact P1|]. split; [exact O1|]. split; [now rewrite app_nil_r|].
    split; [simpl; now rewrite app_nil_r|].
    split; [simpl; lia|]. intros [|j] nf; discriminate.
Qed.

(** ** Absorption *)

Lemma recipients_update cs k (f : player -> player) roster :
  (forall p, p_clientId (f p) = p_clientId p) ->
  recipients cs (JSMap.update k f roster) = recipients cs roster.
Proof.
  intros P. unfold recipients.
  induction roster as [|[k0 q] r IH]; [reflexivity|]. simpl.
  destruct (k0 =? k); simpl; [now rewrite P | now rewrite IH].
Qed.

(** The open flag of the connections decides the recipients. *)
Lemma recipients_clients_update cs k (f : client -> client) roster :
  (forall c, c_open (f c) = c_open c) ->
  recipients (JSMap.update k f cs) roster = recipients cs roster.
Proof.
  intros P. unfold recipients. apply flat_map_ext. intros [k0 q]. simpl.
  rewrite get_update. destruct (k =? p_clientId q); [|reflexivity].
  destruct (JSMap.get (p_clientId q) cs); simpl; [now rewrite P | reflexivity].
Qed.

Lemma endGame_spec lobbyId winnerId s l :
  JSMap.get lobbyId (lobbies s) = Some l ->
  gameState l = GPlaying ->
  let s' := endGame lobbyId winnerId s in
  let winner := match winnerId with
                | Some w => JSMap.get w (players l)
                | None => None
                end in
  clients s' = clients s /\
  JSMap.get lobbyId (lobbies s') = Some (with_gameTickInterval None l) /\
  (forall k, k <> lobbyId -> JSMap.get k (lobbies s') = JSMap.get k (lobbies s)) /\
  sent s' = (sent s ++ to_all (audience lobbyId s)
                         (game_over winnerId
                            match winner with Some w => p_size w | None => 0 end))%list /\
  timers s' = (match gameTickInterval l with
               | Some h => timers (clearTimer h s)
               | None => timers s
               end ++ [(nextHandle s, TeardownTimer lobbyId)])%list /\
  nextHandle s' = S (nextHandle s).
Proof.
  intros Hl G. unfold endGame. rewrite Hl, G. cbn [game_state_eqb negb].
  set (s1 := match gameTickInterval l with Some h => _ | None => s end).
  assert (H1 : JSMap.get lobbyId (lobbies s1) = Some (with_gameTickInterval None l)).
  { subst s1. destruct (gameTickInterval l) eqn:E.
    - rewrite get_update_lobby_same. cbn [clearTimer with_timers lobbies]. now rewrite Hl.
    - rewrite Hl. destruct l; simpl in *; now subst. }
  assert (O1 : forall k, k <> lobbyId -> JSMap.get k (lobbies s1) = JSMap.get k (lobbies s)).
  { intros k Hk. subst s1. destruct (gameTickInterval l); [|reflexivity].
    rewrite get_update_lobby. cbn [clearTimer with_timers lobbies].
    destruct (lobbyId =? k) eqn:E; [apply String.eqb_eq in E; congruence | reflexivity]. }
  assert (C1 : clients s1 = clients s) by (subst s1; now destruct (gameTickInterval l)).
  assert (S1 : sent s1 = sent s) by (subst s1; now destruct (gameTickInterval l)).
  assert (N1 : nextHandle s1 = nextHandle s) by (subst s1; now destruct (gameTickInterval l)).
  assert (A1 : audience lobbyId s1 = audience lobbyId s).
  { unfold audience. rewrite H1, Hl, C1. reflexivity. }
  cbn [setTimer snd clients lobbies sent timers nextHandle].
  autorewrite with frame. rewrite broadcastToLobby_sent, A1, C1, S1, N1.
  repeat split; try assumption.
  f_equal. subst s1. now destruct (gameTickInterval l).
Qed.

(** What [absorbPlayer] does when it finds the connection of the absorbed
    player. *)
Lemma absorbPlayer_spec lobbyId absorberId absorbeId s l k c :
  JSMap.get lobbyId (lobbies s) = Some l ->
  connection_of s absorbeId k c ->
  let s' := absorbPlayer lobbyId absorberId absorbeId s in
  let roster' := JSMap.delete absorbeId (players l) in
  let reached := recipients (clients s) roster' in
  exists l' over,
    JSMap.get lobbyId (lobbies s') = Some l' /\
    players l' = roster' /\ gameState l' = gameState l /\
    clients s' = JSMap.update k detach (clients s) /\
    audience lobbyId s' = reached /\
    sent s' = (sent s ++ to_all reached (player_eaten absorbeId (Some absorberId))
                      ++ (if c_open c then [(k, you_were_eliminated)] else [])
                      ++ over)%list /\
    (forall cm, In cm over -> In (fst cm) reached /\ is_game_over (snd cm) = true).
Proof.
  intros Hl (Hf & Hg & Hid). unfold absorbPlayer. rewrite Hl, Hf.
  set (s1 := update_lobby lobbyId _ s).
  set (s2 := with_clients _ s1).
  set (s3 := broadcastToLobby lobbyId _ s2).
  set (s4 := sendToClient (c_id c) you_were_eliminated s3).
  set (l1 := with_players (JSMap.delete absorbeId (players l)) l).
  assert (H2 : JSMap.get lobbyId (lobbies s2) = Some l1).
  { subst s2 s1. cbn [with_clients lobbies]. now rewrite get_update_lobby_same, Hl. }
  assert (C2 : clients s2 = JSMap.update k detach (clients s)) by reflexivity.
  assert (A2 : audience lobbyId s2 = recipients (clients s) (JSMap.delete absorbeId (players l))).
  { unfold audience. rewrite H2, C2. subst l1. cbn [players with_players].
    now apply recipients_clients_update. }
  assert (H4 : JSMap.get lobbyId (lobbies s4) = Some l1).
  { subst s4 s3. now autorewrite with frame. }
  assert (C4 : clients s4 = JSMap.update k detach (clients s)).
  { subst s4 s3. now autorewrite with frame. }
  assert (A4 : audience lobbyId s4 = recipients (clients s) (JSMap.delete absorbeId (players l))).
  { rewrite <- A2. unfold audience. rewrite H4, H2, C4, C2. reflexivity. }
  assert (S4 : sent s4 =
               (sent s
                  ++ to_all (recipients (clients s) (JSMap.delete absorbeId (players l)))
                            (player_eaten absorbeId (Some absorberId))
                  ++ (if c_open c then [(k, you_were_eliminated)] else []))%list).
  { subst s4. rewrite sendToClient_eq. unfold deliverable.
    replace (clients s3) with (JSMap.update k detach (clients s))
      by (subst s3; now autorewrite with frame).
    rewrite Hid, get_update_same, Hg. simpl.
    destruct (c_open c).
    - cbn [with_sent sent]. subst s3. rewrite broadcastToLobby_sent, A2.
      subst s2 s1. cbn [with_clients update_lobby with_lobbies sent].
      now rewrite <- app_assoc.
    - subst s3. rewrite broadcastToLobby_sent, A2.
      subst s2 s1. cbn [with_clients update_lobby with_lobbies sent].
      now rewrite app_nil_r. }
  rewrite H4.
  destruct ((JSMap.size (players l1) <=? 1)%nat && game_state_eqb (gameState l1) GPlaying)
    eqn:E.
  - apply andb_prop in E. destruct E as [_ G].
    assert (G1 : gameState l1 = GPlaying) by (destruct (gameState l1); now try discriminate).
    destruct (endGame_spec lobbyId (firstId (players l1)) s4 l1 H4 G1)
      as (E1 & E2 & _ & E4 & _).
    eexists. eexists. split; [exact E2|].
    split; [reflexivity|]. split; [reflexivity|].
    split; [now rewrite E1|].
    split; [unfold audience; rewrite E2, E1, C4; cbn [players with_gameTickInterval];
            now apply recipients_clients_update|].
    split; [rewrite E4, S4, A4, <- !app_assoc; reflexivity|].
    intros [k0 m0] I. unfold to_all in I. apply in_map_iff in I.
    destruct I as (x & [= <- <-] & I). split; [exact I | reflexivity].
  - exists l1, []. split; [exact H4|].
    split; [reflexivity|]. split; [reflexivity|]. split; [exact C4|].
    split; [exact A4|]. split; [rewrite S4, app_nil_r; reflexivity|].
    intros cm [].
Qed.

Lemma received_by_app k l1 l2 :
  received_by k (l1 ++ l2) = (received_by k l1 ++ received_by k l2)%list.
Proof. unfold received_by. now rewrite filter_app, map_app. Qed.

Lemma received_by_none k log :
  (forall cm, In cm log -> fst cm <> k) -> received_by k log = [].
Proof.
  unfold received_by. induction log as [|cm r IH]; intros H; [reflexivity|]. simpl.
  destruct (fst cm =? k) eqn:E.
  - apply String.eqb_eq in E. exfalso. apply (H cm); [now left | exact E].
  - apply IH. intros x I. apply H. now right.
Qed.

Lemma of_kind_app f l1 l2 : of_kind f (l1 ++ l2) = (of_kind f l1 ++ of_kind f l2)%list.
Proof. apply filter_app. Qed.

Lemma of_kind_all f log :
  (forall cm, In cm log -> f (snd cm) = true) -> of_kind f log = log.
Proof.
  unfold of_kind. induction log as [|cm r IH]; intros H; [reflexivity|]. simpl.
  rewrite (H cm) by now left. f_equal. apply IH. intros x I. apply H. now right.
Qed.

Lemma of_kind_none f log :
  (forall cm, In cm log -> f (snd cm) = false) -> of_kind f log = [].
Proof.
  unfold of_kind. induction log as [|cm r IH]; intros H; [reflexivity|]. simpl.
  rewrite (H cm) by now left. apply IH. intros x I. apply H. now right.
Qed.

Lemma In_to_all cm cs m : In cm (to_all cs m) -> In (fst cm) cs /\ snd cm = m.
Proof.
  unfold to_all. intros I. apply in_map_iff in I. destruct I as (x & <- & I). auto.
Qed.

(** A multicast reaches only connections that own a player of the
    roster. *)
Lemma recipients_owner cs roster k :
  In k (recipients cs roster) -> exists q p, In (q, p) roster /\ p_clientId p = k.
Proof.
  unfold recipients. intros I. apply in_flat_map in I.
  destruct I as ([q p] & I & H). simpl in H.
  destruct (JSMap.get (p_clientId p) cs) as [c|]; [|contradiction].
  destruct (c_open c); [|contradiction].
  destruct H as [<-|[]]. eauto.
Qed.

(** When the absorbed player is the one its connection records and that
    connection owns no other player of the roster, the connection is not
    among the recipients of the [player_eaten] broadcast (nor of any later
    broadcast of the call): the only message it receives is
    [you_were_eliminated]. *)
Theorem eliminated_connection_gets_notice_only lobbyId absorberId absorbeId s l k c :
  JSMap.get lobbyId (lobbies s) = Some l ->
  connection_of s absorbeId k c ->
  c_open c = true ->
  (forall q p, In (q, p) (JSMap.delete absorbeId (players l)) -> p_clientId p <> k) ->
  let s' := absorbPlayer lobbyId absorberId absorbeId s in
  ~ In k (audience lobbyId s') /\
  exists delta,
    sent s' = (sent s ++ delta)%list /\
    received_by k delta = [you_were_eliminated].
Proof.
  intros Hl Hc Ho Hown s'.
  destruct (absorbPlayer_spec lobbyId absorberId absorbeId s l k c Hl Hc)
    as (l' & over & E1 & E2 & E3 & E4 & E5 & E6 & E7).
  fold s' in E1, E4, E5, E6.
  assert (NR : ~ In k (recipients (clients s) (JSMap.delete absorbeId (players l)))).
  { intros I. apply recipients_owner in I. destruct I as (q & p & I & E).
    exact (Hown q p I E). }
  split; [now rewrite E5|].
  eexists. split; [exact E6|].
  rewrite Ho, !received_by_app.
  rewrite (received_by_none k (to_all _ _)).
  2:{ intros cm I. apply In_to_all in I. intros <-. tauto. }
  rewrite (received_by_none k over).
  2:{ intros cm I. apply E7 in I. intros <-. tauto. }
  unfold received_by. simpl. now rewrite String.eqb_refl.
Qed.

Lemma nth_error_set_nth {A : Type} i (x a : A) l :
  nth_error l i = Some a -> nth_error (set_nth i x l) i = Some x.
Proof.
  revert i. induction l as [|b r IH]; intros [|i]; simpl; try discriminate; auto.
Qed.

Lemma connection_of_frame s s' playerId k c :
  clients s' = clients s -> connection_of s playerId k c -> connection_of s' playerId k c.
Proof. unfold connection_of. now intros ->. Qed.

(** The absorption branch of [collidePair], for the larger player [a] in
    cell [x] of [playerList]. *)
Lemma absorbInto_spec lobbyId x playerList s l a b k c :
  JSMap.get lobbyId (lobbies s) = Some l ->
  nth_error playerList x = Some a ->
  JSMap.get (p_id a) (players l) = Some a ->
  p_id a <> p_id b ->
  connection_of s (p_id b) k c ->
  c_open c = true ->
  let s' := snd (absorbInto lobbyId x a b (playerList, s)) in
  exists l' a' c' delta,
    JSMap.get lobbyId (lobbies s') = Some l' /\
    JSMap.get (p_id a) (players l') = Some a' /\
    p_size a' = p_size a + p_size b * (5 / 10) /\
    JSMap.get (p_id b) (players l') = None /\
    JSMap.get k (clients s') = Some c' /\ c_playerId c' = None /\
    sent s' = (sent s ++ delta)%list /\
    of_kind is_player_eaten delta
      = to_all (audience lobbyId s') (player_eaten (p_id b) (Some (p_id a))) /\
    of_kind is_you_were_eliminated delta = [(k, you_were_eliminated)].
Proof.
  intros Hl Hx Ha Hab Hc Ho. unfold absorbInto.
  set (f1 := fun p => with_size (p_size p + p_size b * (5 / 10)) p).
  set (f2 := fun p => with_input _ p).
  assert (W1 : writeObj lobbyId x f1 (playerList, s)
               = (set_nth x (f1 a) playerList, update_player lobbyId (p_id a) f1 s)).
  { unfold writeObj. cbn [fst snd]. now rewrite Hx. }
  rewrite W1.
  assert (W2 : forall pl0 s0, nth_error pl0 x = Some (f1 a) ->
               writeObj lobbyId x f2 (pl0, s0)
               = (set_nth x (f2 (f1 a)) pl0, update_player lobbyId (p_id a) f2 s0)).
  { intros pl0 s0 H0. unfold writeObj. cbn [fst snd]. now rewrite H0. }
  rewrite W2 by (apply (nth_error_set_nth x (f1 a) a playerList Hx)).
  cbn [fst snd].
  set (s2 := update_player lobbyId (p_id a) f2 (update_player lobbyId (p_id a) f1 s)).
  set (r2 := JSMap.update (p_id a) f2 (JSMap.update (p_id a) f1 (players l))).
  assert (H2 : JSMap.get lobbyId (lobbies s2) = Some (with_players r2 l)).
  { subst s2. unfold update_player. rewrite !get_update_lobby_same, Hl. reflexivity. }
  assert (C2 : clients s2 = clients s) by reflexivity.
  assert (S2 : sent s2 = sent s) by reflexivity.
  destruct (absorbPlayer_spec lobbyId (p_id a) (p_id b) s2 _ k c H2
              (connection_of_frame s s2 _ _ _ C2 Hc))
    as (l' & over & E1 & E2 & E3 & E4 & E5 & E6 & E7).
  cbv zeta. cbn [snd].
  exists l', (f2 (f1 a)), (detach c).
  eexists. split; [exact E1|].
  split.
  { rewrite E2. cbn [players with_players]. rewrite get_delete.
    destruct (p_id b =? p_id a) eqn:E;
      [apply String.eqb_eq in E; congruence|].
    subst r2. now rewrite !get_update_same, Ha. }
  split; [reflexivity|].
  split; [rewrite E2, get_delete, String.eqb_refl; reflexivity|].
  split.
  { rewrite E4, C2, get_update_same. destruct Hc as (_ & -> & _). reflexivity. }
  split; [reflexivity|].
  split; [rewrite E6, S2; reflexivity|].
  rewrite Ho, !of_kind_app. split.
  - rewrite (of_kind_all _ (to_all _ _)).
    2:{ intros cm I. apply In_to_all in I. destruct I as [_ ->]. reflexivity. }
    rewrite (of_kind_none _ over).
    2:{ intros cm I. apply E7 in I. destruct I as [_ I].
        destruct (snd cm); try discriminate; reflexivity. }
    simpl. rewrite app_nil_r, E5, C2. reflexivity.
  - rewrite (of_kind_none _ (to_all _ _)).
    2:{ intros cm I. apply In_to_all in I. destruct I as [_ ->]. reflexivity. }
    rewrite (of_kind_none _ over).
    2:{ intros cm I. apply E7 in I. destruct I as [_ I].
        destruct (snd cm); try discriminate; reflexivity. }
    reflexivity.
Qed.

(** Two players [a] (size 2) and [b] (size 1) of a playing lobby sit in
    the cells [i] and [j] of [playerList], in either order, closer than the
    sum of their sizes.  When [b] is the player its connection records and
    that connection is open, resolving the pair
    leaves [a] in the roster with size 2.5, removes [b] from the roster,
    detaches the connection of [b] from any player, multicasts
    [player_eaten{eaten: b, by: a}] once to the lobby, and sends
    [you_were_eliminated] once, to the connection of [b]. *)
Theorem absorption_two_to_one lobbyId i j playerList s l a b k c :
  JSMap.get lobbyId (lobbies s) = Some l ->
  gameState l = GPlaying ->
  (nth_error playerList i = Some a /\ nth_error playerList j = Some b) \/
  (nth_error playerList i = Some b /\ nth_error playerList j = Some a) ->
  JSMap.get (p_id a) (players l) = Some a ->
  JSMap.get (p_id b) (players l) = Some b ->
  p_id a <> "" -> p_id b <> "" -> p_id a <> p_id b ->
  p_size a = 2 -> p_size b = 1 ->
  sqrt ((p_x a - p_x b) * (p_x a - p_x b) + (p_y a - p_y b) * (p_y a - p_y b))
    < p_size a + p_size b ->
  connection_of s (p_id b) k c ->
  c_open c = true ->
  let s' := snd (collidePair lobbyId i j (playerList, s)) in
  exists l' a' c' delta,
    JSMap.get lobbyId (lobbies s') = Some l' /\
    JSMap.get (p_id a) (players l') = Some a' /\
    p_size a' = 25 / 10 /\
    JSMap.get (p_id b) (players l') = None /\
    JSMap.get k (clients s') = Some c' /\ c_playerId c' = None /\
    sent s' = (sent s ++ delta)%list /\
    of_kind is_player_eaten delta
      = to_all (audience lobbyId s') (player_eaten (p_id b) (Some (p_id a))) /\
    of_kind is_you_were_eliminated delta = [(k, you_were_eliminated)].
Proof.
  intros Hl G Cells Ha Hb Na Nb Nab Sa Sb Touch Hc Ho.
  assert (Ea : (p_id a =? "") = false) by now apply String.eqb_neq.
  assert (Eb : (p_id b =? "") = false) by now apply String.eqb_neq.
  assert (Fin : forall x,
             nth_error playerList x = Some a ->
             let s' := snd (absorbInto lobbyId x a b (playerList, s)) in
             exists l' a' c' delta,
               JSMap.get lobbyId (lobbies s') = Some l' /\
               JSMap.get (p_id a) (players l') = Some a' /\
               p_size a' = 25 / 10 /\
               JSMap.get (p_id b) (players l') = None /\
               JSMap.get k (clients s') = Some c' /\ c_playerId c' = None /\
               sent s' = (sent s ++ delta)%list /\
               of_kind is_player_eaten delta
                 = to_all (audience lobbyId s') (player_eaten (p_id b) (Some (p_id a))) /\
               of_kind is_you_were_eliminated delta = [(k, you_were_eliminated)]).
  { intros x Hx.
    destruct (absorbInto_spec lobbyId x playerList s l a b k c Hl Hx Ha Nab Hc Ho)
      as (l' & a' & c' & delta & E1 & E2 & E3 & E4 & E5 & E6 & E7 & E8 & E9).
    exists l', a', c', delta. repeat split; try assumption.
    rewrite E3, Sa, Sb. lra. }
  unfold collidePair. cbn [fst snd].
  destruct Cells as [[Hi Hj]|[Hi Hj]]; rewrite Hi, Hj.
  - rewrite Ea, Eb. cbn [orb].
    destruct (Rlt_dec _ _) as [_|N]; [|contradiction].
    destruct (Rgt_dec _ _) as [_|N].
    + now apply Fin.
    + exfalso. apply N. rewrite Sa, Sb. unfold CONFIG.absorptionThreshold. lra.
  - rewrite Ea, Eb. cbn [orb].
    destruct (Rlt_dec _ _) as [_|N].
    2:{ exfalso. apply N.
        replace (p_size b + p_size a) with (p_size a + p_size b) by ring.
        replace ((p_x b - p_x a) * (p_x b - p_x a) + (p_y b - p_y a) * (p_y b - p_y a))
          with ((p_x a - p_x b) * (p_x a - p_x b) + (p_y a - p_y b) * (p_y a - p_y b))
          by ring.
        exact Touch. }
    destruct (Rgt_dec (p_size b) _) as [A|_].
    + exfalso. rewrite Sa, Sb in A. unfold CONFIG.absorptionThreshold in A. lra.
    + destruct (Rgt_dec _ _) as [_|N]; [now apply Fin|].
      exfalso. apply N. rewrite Sa, Sb. unfold CONFIG.absorptionThreshold. lra.
Qed.


(** ** What the tick keeps *)

Lemma keeps_size_ok : keeps size_ok.
Proof.
  intros p H. unfold size_ok in *. repeat split; simpl; intros; try assumption. lra.
Qed.

Lemma keeps_fresh_stamp now : keeps (fresh_stamp now).
Proof.
  intros p [H T]. unfold fresh_stamp, size_ok in *.
  repeat split; simpl; intros; try assumption; try lra; auto.
Qed.

Lemma roster_all_update Q k f roster :
  (forall p, Q p -> Q (f p)) -> roster_all Q roster -> roster_all Q (JSMap.update k f roster).
Proof.
  intros F A. unfold roster_all.
  apply (In_update (fun _ p => Q p)); [exact A|]. intros v I. apply F. exact (A _ _ I).
Qed.

Lemma roster_all_delete Q k roster :
  roster_all Q roster -> roster_all Q (JSMap.delete k roster).
Proof. intros A k0 p I. apply In_delete in I. exact (A _ _ I). Qed.

Lemma evolves_refl r : evolves r r.
Proof. intros k p H. exists p. split; [exact H | lra]. Qed.

Lemma evolves_trans r0 r1 r2 : evolves r0 r1 -> evolves r1 r2 -> evolves r0 r2.
Proof.
  intros E1 E2 k p2 H2. destruct (E2 _ _ H2) as (p1 & H1 & L1).
  destruct (E1 _ _ H1) as (p0 & H0 & L0). exists p0. split; [exact H0 | lra].
Qed.

Lemma evolves_update Q k f roster :
  roster_all Q roster -> (forall p, Q p -> p_size p <= p_size (f p)) ->
  evolves roster (JSMap.update k f roster).
Proof.
  intros A F k' p1 H. rewrite get_update in H.
  destruct (k =? k').
  - destruct (JSMap.get k' roster) as [p0|] eqn:E; [|discriminate].
    injection H as <-. exists p0. split; [reflexivity|].
    apply F. apply get_In in E. exact (A _ _ E).
  - exists p1. split; [exact H | lra].
Qed.

Lemma evolves_delete k roster : evolves roster (JSMap.delete k roster).
Proof.
  intros k' p1 H. rewrite get_delete in H.
  destruct (k =? k'); [discriminate|]. exists p1. split; [exact H | lra].
Qed.

Lemma quiet_refl s : quiet s s.
Proof. exists []. split; [now rewrite app_nil_r | reflexivity]. Qed.

Lemma quiet_trans s0 s1 s2 : quiet s0 s1 -> quiet s1 s2 -> quiet s0 s2.
Proof.
  intros (d1 & E1 & K1) (d2 & E2 & K2). exists (d1 ++ d2)%list. split.
  - now rewrite E2, E1, app_assoc.
  - now rewrite of_kind_app, K1, K2.
Qed.

Lemma quiet_frame s s' : sent s' = sent s -> quiet s s'.
Proof. intros E. exists []. split; [now rewrite app_nil_r | reflexivity]. Qed.

Lemma quiet_broadcast lobbyId m s :
  is_player_disconnected m = false -> quiet s (broadcastToLobby lobbyId m s).
Proof.
  intros K. eexists. split; [apply broadcastToLobby_sent|].
  apply of_kind_none. intros cm I. apply In_to_all in I. destruct I as [_ ->]. exact K.
Qed.

Lemma quiet_send clientId m s :
  is_player_disconnected m = false -> quiet s (sendToClient clientId m s).
Proof.
  intros K. rewrite sendToClient_eq. destruct (deliverable clientId s).
  - eexists. split; [reflexivity|]. cbn. now rewrite K.
  - apply quiet_refl.
Qed.

Lemma sim_refl Q lobbyId s : sim Q lobbyId s s.
Proof.
  intros A. split; [reflexivity|]. split; [exact A|].
  split; [|split; [apply quiet_refl | reflexivity]].
  intros l' H. exists l'. split; [exact H | apply evolves_refl].
Qed.

Lemma sim_trans Q lobbyId s0 s1 s2 :
  sim Q lobbyId s0 s1 -> sim Q lobbyId s1 s2 -> sim Q lobbyId s0 s2.
Proof.
  intros H1 H2 A0.
  destruct (H1 A0) as (O1 & A1 & E1 & K1 & C1).
  destruct (H2 A1) as (O2 & A2 & E2 & K2 & C2).
  split.
  - intros k Hk. now rewrite O2, O1.
  - split; [exact A2|].
    split; [|split; [exact (quiet_trans _ _ _ K1 K2) | now rewrite C2, C1]].
    intros l2 G2. destruct (E2 _ G2) as (l1 & G1 & V1).
    destruct (E1 _ G1) as (l0 & G0 & V0). exists l0. split; [exact G0|].
    exact (evolves_trans _ _ _ V0 V1).
Qed.

(** A step that leaves the lobbies alone and logs nothing, or only
    messages other than [player_disconnected]. *)
Lemma sim_frame Q lobbyId s s' :
  lobbies s' = lobbies s -> quiet s s' -> clockCalls s' = clockCalls s ->
  sim Q lobbyId s s'.
Proof.
  intros L K C A. split; [intros; now rewrite L|].
  split; [unfold lobby_all; now rewrite L|]. split; [|split; [exact K | exact C]].
  intros l' H. rewrite L in H. exists l'. split; [exact H | apply evolves_refl].
Qed.

Lemma sim_broadcast Q lobbyId lobbyId' m s :
  is_player_disconnected m = false -> sim Q lobbyId s (broadcastToLobby lobbyId' m s).
Proof.
  intros K. apply sim_frame;
    [apply broadcastToLobby_lobbies | now apply quiet_broadcast|].
  unfold broadcastToLobby. now destruct (JSMap.get lobbyId' (lobbies s)).
Qed.

Lemma sim_send Q lobbyId clientId m s :
  is_player_disconnected m = false -> sim Q lobbyId s (sendToClient clientId m s).
Proof.
  intros K. apply sim_frame; [apply sendToClient_lobbies | now apply quiet_send|].
  rewrite sendToClient_eq. now destruct (deliverable clientId s).
Qed.

(** A write to the lobby that changes the roster in an allowed way. *)
Lemma sim_update_lobby Q lobbyId f s :
  (forall l, roster_all Q (players l) ->
             roster_all Q (players (f l)) /\ evolves (players l) (players (f l))) ->
  sim Q lobbyId s (update_lobby lobbyId f s).
Proof.
  intros F A. split.
  - intros k Hk. rewrite get_update_lobby.
    destruct (lobbyId =? k) eqn:E; [apply String.eqb_eq in E; congruence | reflexivity].
  - split; [|split; [|split; [now apply quiet_frame | reflexivity]]].
    + intros l' H. rewrite get_update_lobby_same in H.
      destruct (JSMap.get lobbyId (lobbies s)) as [l|] eqn:E; [|discriminate].
      injection H as <-. apply F. now apply A.
    + intros l' H. rewrite get_update_lobby_same in H.
      destruct (JSMap.get lobbyId (lobbies s)) as [l|] eqn:E; [|discriminate].
      injection H as <-. exists l. split; [reflexivity|]. apply F. now apply A.
Qed.

Lemma sim_update_player Q lobbyId playerId f s :
  (forall p, Q p -> Q (f p) /\ p_size p <= p_size (f p)) ->
  sim Q lobbyId s (update_player lobbyId playerId f s).
Proof.
  intros F. apply sim_update_lobby. intros l A. cbn [with_players players]. split.
  - apply roster_all_update; [|exact A]. intros p H. now apply F.
  - apply (evolves_update Q); [exact A|]. intros p H. now apply F.
Qed.

Lemma sim_delete_player Q lobbyId playerId s :
  sim Q lobbyId s
    (update_lobby lobbyId
       (fun l => with_players (JSMap.delete playerId (players l)) l) s).
Proof.
  apply sim_update_lobby. intros l A. cbn [with_players players]. split.
  - now apply roster_all_delete.
  - apply evolves_delete.
Qed.

Lemma sim_same_roster Q lobbyId f s :
  (forall l, players (f l) = players l) ->
  sim Q lobbyId s (update_lobby lobbyId f s).
Proof.
  intros F. apply sim_update_lobby. intros l A. rewrite F.
  split; [exact A | apply evolves_refl].
Qed.

Lemma sim_iter Q lobbyId (f : server -> server) n s :
  (forall s0, sim Q lobbyId s0 (f s0)) -> sim Q lobbyId s (Nat.iter n f s).
Proof.
  intros F. induction n as [|n IH]; [apply sim_refl|].
  eapply sim_trans; [exact IH|]. apply F.
Qed.

Lemma sim_endGame Q lobbyId winnerId s : sim Q lobbyId s (endGame lobbyId winnerId s).
Proof.
  unfold endGame. destruct (JSMap.get lobbyId (lobbies s)) as [l|]; [|apply sim_refl].
  destruct (negb _); [apply sim_refl|].
  eapply sim_trans; [|apply sim_frame; [reflexivity | now apply quiet_frame | reflexivity]].
  eapply sim_trans; [|now apply sim_broadcast].
  destruct (gameTickInterval l) as [h|]; [|apply sim_refl].
  eapply sim_trans; [apply (sim_frame Q lobbyId s (clearTimer h s));
                     [reflexivity | now apply quiet_frame | reflexivity]|].
  now apply sim_same_roster.
Qed.

Lemma sim_absorbPlayer Q lobbyId absorberId absorbeId s :
  sim Q lobbyId s (absorbPlayer lobbyId absorberId absorbeId s).
Proof.
  unfold absorbPlayer. destruct (JSMap.get lobbyId (lobbies s)); [|apply sim_refl].
  match goal with
  | |- sim _ _ _ (match JSMap.get _ (lobbies ?x) with _ => _ end) =>
      assert (H : sim Q lobbyId s x); [|set (s1 := x) in *]
  end.
  { destruct (find _ (clients s)) as [[k c]|]; [|apply sim_refl].
    eapply sim_trans; [|now apply sim_send].
    eapply sim_trans; [|now apply sim_broadcast].
    eapply sim_trans; [apply sim_delete_player|].
    apply sim_frame; [reflexivity | now apply quiet_frame | reflexivity]. }
  eapply sim_trans; [exact H|].
  destruct (JSMap.get lobbyId (lobbies s1)); [|apply sim_refl].
  destruct (_ && _); [apply sim_endGame | apply sim_refl].
Qed.

Lemma sim_respawnOne Q rnd lobbyId food eater s :
  sim Q lobbyId s (respawnOne rnd lobbyId food eater s).
Proof.
  unfold respawnOne.
  eapply sim_trans; [|now apply sim_broadcast].
  eapply sim_trans; [|now apply sim_same_roster].
  apply sim_frame; [reflexivity | now apply quiet_frame | reflexivity].
Qed.

Lemma sim_foodStep Q rnd lobbyId playerId i s :
  keeps Q -> sim Q lobbyId s (foodStep rnd lobbyId playerId i s).
Proof.
  intros K. unfold foodStep.
  destruct (JSMap.get lobbyId (lobbies s)) as [l|]; [|apply sim_refl].
  destruct (JSMap.get playerId (players l)) as [p|]; [|apply sim_refl].
  destruct (nth_error (foodItems l) i) as [food|]; [|apply sim_refl].
  destruct (Rlt_dec _ _); [|apply sim_refl].
  match goal with
  | |- sim _ _ _ (if _ then Nat.iter _ _ ?x else _) =>
      assert (H : sim Q lobbyId s x)
  end.
  { eapply sim_trans; [|now apply sim_same_roster].
    eapply sim_trans; [|now apply sim_broadcast].
    apply sim_update_player. intros q Hq. simpl. split.
    - apply (K q Hq). unfold CONFIG.growthRate. lra.
    - unfold CONFIG.growthRate. lra. }
  destruct (Rlt_dec _ _); [|exact H].
  eapply sim_trans; [exact H|]. apply sim_iter. intros s0. apply sim_respawnOne.
Qed.

Lemma sim_foodLoop Q rnd lobbyId playerId k s :
  keeps Q -> sim Q lobbyId s (foodLoop rnd lobbyId playerId k s).
Proof.
  intros K. revert s. induction k as [|k IH]; intros s; [apply sim_refl|].
  simpl. eapply sim_trans; [now apply sim_foodStep | apply IH].
Qed.

Lemma sim_fold {B : Type} Q lobbyId (f : server -> B -> server) (bs : list B) s :
  (forall s0 b, sim Q lobbyId s0 (f s0 b)) -> sim Q lobbyId s (fold_left f bs s).
Proof.
  intros F. revert s. induction bs as [|b r IH]; intros s; [apply sim_refl|].
  simpl. eapply sim_trans; [apply F | apply IH].
Qed.

Lemma sim_checkFoodCollisions Q rnd lobbyId s :
  keeps Q -> sim Q lobbyId s (checkFoodCollisions rnd lobbyId s).
Proof.
  intros K. unfold checkFoodCollisions.
  destruct (JSMap.get lobbyId (lobbies s)); [|apply sim_refl].
  apply sim_fold. intros s0 b.
  destruct (JSMap.get lobbyId (lobbies s0)); [now apply sim_foodLoop | apply sim_refl].
Qed.

Lemma Forall_set_nth {A : Type} (P : A -> Prop) i x l :
  P x -> Forall P l -> Forall P (set_nth i x l).
Proof.
  intros Hx H. revert i. induction H as [|b r Hb Hr IH]; intros [|i]; simpl;
    constructor; auto.
Qed.

Lemma Forall_nth_error {A : Type} (P : A -> Prop) l i x :
  Forall P l -> nth_error l i = Some x -> P x.
Proof.
  intros H E. apply nth_error_In in E. rewrite Forall_forall in H. auto.
Qed.

Lemma pass_ok_writeObj Q lobbyId s0 i f st :
  (forall p, Q p -> Q (f p) /\ p_size p <= p_size (f p)) ->
  pass_ok Q lobbyId s0 st -> pass_ok Q lobbyId s0 (writeObj lobbyId i f st).
Proof.
  intros F [A S]. unfold writeObj.
  destruct (nth_error (fst st) i) as [p|] eqn:E; [|now split].
  split; cbn [fst snd].
  - apply Forall_set_nth; [|exact A]. apply F. exact (Forall_nth_error _ _ _ _ A E).
  - eapply sim_trans; [exact S|]. now apply sim_update_player.
Qed.

Lemma pass_ok_absorbInto Q lobbyId s0 i big small st :
  keeps Q -> Q small ->
  pass_ok Q lobbyId s0 st -> pass_ok Q lobbyId s0 (absorbInto lobbyId i big small st).
Proof.
  intros K Hs P. unfold absorbInto.
  assert (Pos : 0 <= p_size small * (5 / 10)).
  { destruct (K small Hs) as [H _]. unfold CONFIG.playerStartSize in H. lra. }
  match goal with
  | |- pass_ok _ _ _ (fst ?x, _) => assert (P2 : pass_ok Q lobbyId s0 x)
  end.
  { apply pass_ok_writeObj.
    - intros p Hp. simpl. split; [apply (K p Hp) | lra].
    - apply pass_ok_writeObj; [|exact P].
      intros p Hp. simpl. split; [apply (K p Hp); lra | lra]. }
  destruct P2 as [A2 S2]. split; cbn [fst snd]; [exact A2|].
  eapply sim_trans; [exact S2 | apply sim_absorbPlayer].
Qed.

Lemma pass_ok_bounce Q lobbyId s0 i j a b st :
  keeps Q ->
  pass_ok Q lobbyId s0 st -> pass_ok Q lobbyId s0 (bounce lobbyId i j a b st).
Proof.
  intros K P. unfold bounce.
  repeat (apply pass_ok_writeObj;
          [intros p Hp; simpl; split; [apply (K p Hp) | lra]|]).
  exact P.
Qed.

Lemma pass_ok_collidePair Q lobbyId s0 i j st :
  keeps Q ->
  pass_ok Q lobbyId s0 st -> pass_ok Q lobbyId s0 (collidePair lobbyId i j st).
Proof.
  intros K P. unfold collidePair.
  destruct (nth_error (fst st) i) as [a|] eqn:Ea; [|exact P].
  destruct (nth_error (fst st) j) as [b|] eqn:Eb; [|exact P].
  destruct (_ || _); [exact P|].
  destruct (Rlt_dec _ _); [|exact P].
  destruct P as [A S].
  assert (Qa : Q a) by exact (Forall_nth_error _ _ _ _ A Ea).
  assert (Qb : Q b) by exact (Forall_nth_error _ _ _ _ A Eb).
  destruct (Rgt_dec _ _); [apply pass_ok_absorbInto; [assumption.. | now split]|].
  destruct (Rgt_dec _ _); [apply pass_ok_absorbInto; [assumption.. | now split]|].
  apply pass_ok_bounce; [assumption | now split].
Qed.

Lemma fold_left_inv {A B : Type} (f : A -> B -> A) (P : A -> Prop) l a :
  P a -> (forall a0 b, P a0 -> P (f a0 b)) -> P (fold_left f l a).
Proof.
  intros Ha F. revert a Ha. induction l as [|b r IH]; intros a Ha; [exact Ha|].
  simpl. apply IH. now apply F.
Qed.

Lemma sim_checkPlayerCollisions Q lobbyId s :
  keeps Q -> sim Q lobbyId s (checkPlayerCollisions lobbyId s).
Proof.
  intros K A. unfold checkPlayerCollisions.
  destruct (JSMap.get lobbyId (lobbies s)) as [l|] eqn:E; [|now apply sim_refl].
  match goal with
  | |- context [fold_left ?f ?l ?a] =>
      assert (P : pass_ok Q lobbyId s (fold_left f l a))
  end.
  { apply fold_left_inv.
    - split; [|apply sim_refl]. cbn [fst]. apply Forall_forall. intros p I.
      unfold JSMap.values in I. apply in_map_iff in I. destruct I as ([k q] & <- & I).
      exact (A l E k q I).
    - intros st i P. apply fold_left_inv; [exact P|].
      intros st' j P'. now apply pass_ok_collidePair. }
  destruct P as [_ S]. now apply S.
Qed.

Lemma sim_grows_only Q lobbyId s s' : sim Q lobbyId s s' -> grows_only Q lobbyId s s'.
Proof. intros H A. destruct (H A) as (O & A' & E & _). auto. Qed.

Lemma grows_only_trans Q lobbyId s0 s1 s2 :
  grows_only Q lobbyId s0 s1 -> grows_only Q lobbyId s1 s2 -> grows_only Q lobbyId s0 s2.
Proof.
  intros H1 H2 A0.
  destruct (H1 A0) as (O1 & A1 & E1). destruct (H2 A1) as (O2 & A2 & E2).
  split; [intros k Hk; now rewrite O2, O1|]. split; [exact A2|].
  intros l2 G2. destruct (E2 _ G2) as (l1 & G1 & V1).
  destruct (E1 _ G1) as (l0 & G0 & V0). exists l0. split; [exact G0|].
  exact (evolves_trans _ _ _ V0 V1).
Qed.

Lemma grows_only_frame Q lobbyId s s' :
  lobbies s' = lobbies s -> grows_only Q lobbyId s s'.
Proof.
  intros L A. split; [intros; now rewrite L|].
  split; [unfold lobby_all; now rewrite L|].
  intros l' H. rewrite L in H. exists l'. split; [exact H | apply evolves_refl].
Qed.

(** *** Movement *)

Lemma movePlayer_size deltaTime p : p_size (movePlayer deltaTime p) = p_size p.
Proof.
  unfold movePlayer.
  repeat match goal with
         | |- context [if ?c then _ else _] => destruct c
         end; reflexivity.
Qed.

(** A player whose stored input is zero is left where it is. *)
Lemma movePlayer_idle deltaTime p :
  vx (p_input p) = 0 -> vy (p_input p) = 0 -> movePlayer deltaTime p = p.
Proof.
  intros X Y. unfold movePlayer.
  destruct (Req_dec_T (vx (p_input p)) 0); [|contradiction].
  destruct (Req_dec_T (vy (p_input p)) 0); [|contradiction]. reflexivity.
Qed.

Lemma movePlayers_In clock deltaTime n roster k p1 :
  In (k, p1) (movePlayers clock deltaTime n roster) ->
  exists p0 i, In (k, p0) roster /\ (n <= i < n + List.length roster)%nat /\
               p1 = with_lastUpdate (Some (clock i)) (movePlayer deltaTime p0).
Proof.
  revert n. induction roster as [|[k0 q] r IH]; intros n; simpl; [tauto|].
  intros [[= <- <-]|I].
  - exists q, n. split; [now left|]. split; [lia | reflexivity].
  - destruct (IH _ I) as (p0 & i & I0 & R & E). exists p0, i.
    split; [now right|]. split; [lia | exact E].
Qed.

Lemma movePlayers_get clock deltaTime n roster k p1 :
  JSMap.get k (movePlayers clock deltaTime n roster) = Some p1 ->
  exists p0 i, JSMap.get k roster = Some p0 /\
               p1 = with_lastUpdate (Some (clock i)) (movePlayer deltaTime p0).
Proof.
  revert n. induction roster as [|[k0 q] r IH]; intros n; simpl; [discriminate|].
  destruct (k0 =? k); [|apply IH].
  intros [= <-]. eauto.
Qed.

Lemma movePlayers_evolves clock deltaTime n roster :
  evolves roster (movePlayers clock deltaTime n roster).
Proof.
  intros k p1 H. apply movePlayers_get in H. destruct H as (p0 & i & H & ->).
  exists p0. split; [exact H|]. simpl. rewrite movePlayer_size. lra.
Qed.

Lemma get_moveAll clock lobbyId deltaTime s k :
  JSMap.get k (lobbies (moveAll clock lobbyId deltaTime s)) =
  if lobbyId =? k then
    option_map (fun l => with_players
                           (movePlayers clock deltaTime (clockCalls s) (players l)) l)
               (JSMap.get k (lobbies s))
  else JSMap.get k (lobbies s).
Proof.
  unfold moveAll. destruct (JSMap.get lobbyId (lobbies s)) eqn:E.
  - cbn [with_clockCalls lobbies]. apply get_update_lobby.
  - destruct (lobbyId =? k) eqn:N; [|reflexivity].
    apply String.eqb_eq in N. subst k. now rewrite E.
Qed.

Lemma grows_only_moveAll clock lobbyId deltaTime s :
  grows_only size_ok lobbyId s (moveAll clock lobbyId deltaTime s).
Proof.
  intros A. split; [|split].
  - intros k Hk. rewrite get_moveAll.
    destruct (lobbyId =? k) eqn:N; [apply String.eqb_eq in N; congruence | reflexivity].
  - intros l' H. rewrite get_moveAll, String.eqb_refl in H.
    destruct (JSMap.get lobbyId (lobbies s)) as [l|] eqn:E; [|discriminate].
    injection H as <-.
    cbn [players with_players]. intros k p1 I.
    apply movePlayers_In in I. destruct I as (p0 & i & I0 & _ & ->).
    unfold size_ok. simpl. rewrite movePlayer_size. exact (A l E k p0 I0).
  - intros l' H. rewrite get_moveAll, String.eqb_refl in H.
    destruct (JSMap.get lobbyId (lobbies s)) as [l|] eqn:E; [|discriminate].
    injection H as <-.
    exists l. split; [reflexivity|]. apply movePlayers_evolves.
Qed.

(** After the movement every player of the lobby carries a reading of the
    clock taken during this tick. *)
Lemma moveAll_stamps clock lobbyId deltaTime s l now :
  JSMap.get lobbyId (lobbies s) = Some l ->
  (forall i, (clockCalls s <= i < clockCalls s + JSMap.size (players l))%nat ->
             (now - clock i <= 5000)%Z) ->
  lobby_all size_ok lobbyId s ->
  lobby_all (fresh_stamp now) lobbyId (moveAll clock lobbyId deltaTime s).
Proof.
  intros E C A l' H. rewrite get_moveAll, String.eqb_refl, E in H. injection H as <-.
  cbn [players with_players]. intros k p1 I.
  apply movePlayers_In in I. destruct I as (p0 & i & I0 & R & ->).
  split.
  - unfold size_ok. simpl. rewrite movePlayer_size. exact (A l E k p0 I0).
  - simpl. intros t [= <-]. now apply C.
Qed.

Lemma grows_only_refl Q lobbyId s : grows_only Q lobbyId s s.
Proof. now apply grows_only_frame. Qed.

Lemma grows_only_fold {B : Type} Q lobbyId (f : server -> B -> server) (bs : list B) s :
  (forall s0 b, grows_only Q lobbyId s0 (f s0 b)) -> grows_only Q lobbyId s (fold_left f bs s).
Proof.
  intros F. revert s. induction bs as [|b r IH]; intros s; [apply grows_only_refl|].
  simpl. eapply grows_only_trans; [apply F | apply IH].
Qed.

Lemma grows_only_cleanUp Q clock lobbyId s : grows_only Q lobbyId s (cleanUp clock lobbyId s).
Proof.
  unfold cleanUp.
  eapply grows_only_trans;
    [apply (grows_only_frame Q lobbyId s (with_clockCalls (S (clockCalls s)) s) eq_refl)|].
  destruct (JSMap.get lobbyId _); [|apply grows_only_refl].
  unfold reapInactive. apply grows_only_fold. intros s0 [k p].
  destruct (inactive _ _); [|apply grows_only_refl].
  eapply grows_only_trans; [apply sim_grows_only, sim_delete_player|].
  apply grows_only_frame, broadcastToLobby_lobbies.
Qed.

Lemma reapInactive_none lobbyId now roster s :
  (forall k p, In (k, p) roster -> inactive now p = false) ->
  reapInactive lobbyId now roster s = s.
Proof.
  unfold reapInactive. revert s.
  induction roster as [|[k p] r IH]; intros s H; [reflexivity|]. simpl.
  rewrite (H k p) by now left. apply IH. intros k0 p0 I. apply (H k0 p0). now right.
Qed.

Lemma fresh_stamp_active now p : fresh_stamp now p -> inactive now p = false.
Proof.
  intros [_ T]. unfold inactive. destruct (p_lastUpdate p) as [t|]; [|reflexivity].
  apply Z.ltb_ge. now apply T.
Qed.

Lemma sim_checkGameEnd Q lobbyId s : sim Q lobbyId s (checkGameEnd lobbyId s).
Proof.
  unfold checkGameEnd. destruct (JSMap.get lobbyId (lobbies s)); [|apply sim_refl].
  destruct (_ && _); [apply sim_endGame | apply sim_refl].
Qed.

Lemma sim_broadcastGameState Q lobbyId s : sim Q lobbyId s (broadcastGameState lobbyId s).
Proof.
  unfold broadcastGameState. destruct (JSMap.get lobbyId (lobbies s)); [|apply sim_refl].
  destruct (negb _); [apply sim_refl | now apply sim_broadcast].
Qed.

Lemma grows_only_updateGameState rnd clock lobbyId deltaTime s :
  grows_only size_ok lobbyId s (updateGameState rnd clock lobbyId deltaTime s).
Proof.
  unfold updateGameState.
  destruct (JSMap.get lobbyId (lobbies s)); [|apply grows_only_refl].
  destruct (negb _); [apply grows_only_refl|].
  destruct (_ <? _)%nat; [apply sim_grows_only, sim_endGame|].
  eapply grows_only_trans; [apply grows_only_moveAll|].
  eapply grows_only_trans;
    [apply sim_grows_only, sim_checkFoodCollisions, keeps_size_ok|].
  eapply grows_only_trans;
    [apply sim_grows_only, sim_checkPlayerCollisions, keeps_size_ok|].
  eapply grows_only_trans; [apply grows_only_cleanUp|].
  apply sim_grows_only, sim_checkGameEnd.
Qed.

Lemma grows_only_gameTick rnd clock lobbyId deltaTime s :
  grows_only size_ok lobbyId s (gameTick rnd clock lobbyId deltaTime s).
Proof.
  unfold gameTick. destruct (JSMap.get lobbyId (lobbies s)) as [l|]; [|apply grows_only_refl].
  destruct (negb _).
  - destruct (gameTickInterval l); [now apply grows_only_frame | apply grows_only_refl].
  - eapply grows_only_trans; [apply grows_only_updateGameState|].
    apply sim_grows_only, sim_broadcastGameState.
Qed.

(** When the clean-up reading of the clock is at most 5000 ms after the
    readings of the movement loop of the same tick, the clean-up loop finds
    no inactive player, whatever the time stamps were before the tick. *)
Lemma cleanUp_reaps_nobody rnd clock lobbyId deltaTime s l :
  JSMap.get lobbyId (lobbies s) = Some l ->
  lobby_all size_ok lobbyId s ->
  (forall i, (clockCalls s <= i < clockCalls s + JSMap.size (players l))%nat ->
             (clock (clockCalls s + JSMap.size (players l))%nat - clock i <= 5000)%Z) ->
  let s3 := checkPlayerCollisions lobbyId
              (checkFoodCollisions rnd lobbyId (moveAll clock lobbyId deltaTime s)) in
  cleanUp clock lobbyId s3 = with_clockCalls (S (clockCalls s3)) s3.
Proof.
  intros E A C s3.
  set (now := clock (clockCalls s + JSMap.size (players l))%nat) in *.
  set (s1 := moveAll clock lobbyId deltaTime s) in *.
  assert (A1 : lobby_all (fresh_stamp now) lobbyId s1)
    by (apply (moveAll_stamps clock lobbyId deltaTime s l now E C A)).
  assert (C1 : clockCalls s1 = (clockCalls s + JSMap.size (players l))%nat).
  { subst s1. unfold moveAll. now rewrite E. }
  assert (S13 : sim (fresh_stamp now) lobbyId s1 s3).
  { eapply sim_trans; [apply sim_checkFoodCollisions, keeps_fresh_stamp|].
    apply sim_checkPlayerCollisions, keeps_fresh_stamp. }
  destruct (S13 A1) as (_ & A3 & _ & _ & C3).
  unfold cleanUp. cbn [with_clockCalls lobbies].
  destruct (JSMap.get lobbyId (lobbies s3)) as [l3|] eqn:E3; [|reflexivity].
  rewrite C3, C1. fold now.
  apply reapInactive_none. intros k p I. apply fresh_stamp_active. exact (A3 l3 E3 k p I).
Qed.

(** ** Sizes never fall below the start size *)

Lemma sizes_ok_frame s s' : lobbies s' = lobbies s -> sizes_ok s -> sizes_ok s'.
Proof. unfold sizes_ok, lobby_all. now intros ->. Qed.

Lemma sizes_ok_update_lobby lobbyId f s :
  (forall l, roster_all size_ok (players l) -> roster_all size_ok (players (f l))) ->
  sizes_ok s -> sizes_ok (update_lobby lobbyId f s).
Proof.
  intros F A k l' H. rewrite get_update_lobby in H.
  destruct (lobbyId =? k).
  - destruct (JSMap.get k (lobbies s)) as [l|] eqn:E; [|discriminate].
    injection H as <-. apply F. exact (A k l E).
  - exact (A k l' H).
Qed.

Lemma sizes_ok_same_roster lobbyId f s :
  (forall l, players (f l) = players l) ->
  sizes_ok s -> sizes_ok (update_lobby lobbyId f s).
Proof. intros F. apply sizes_ok_update_lobby. intros l. now rewrite F. Qed.

Lemma sizes_ok_update_player lobbyId playerId f s :
  (forall p, size_ok p -> size_ok (f p)) ->
  sizes_ok s -> sizes_ok (update_player lobbyId playerId f s).
Proof.
  intros F. apply sizes_ok_update_lobby. intros l A. cbn [players with_players].
  now apply roster_all_update.
Qed.

Lemma sizes_ok_grows_only lobbyId s s' :
  grows_only size_ok lobbyId s s' -> sizes_ok s -> sizes_ok s'.
Proof.
  intros G A. destruct (G (A lobbyId)) as (O & A' & _).
  intros k. destruct (String.eqb_spec k lobbyId) as [->|N]; [exact A'|].
  intros l' H. rewrite (O k N) in H. exact (A k l' H).
Qed.

Lemma sizes_ok_broadcastToLobby lobbyId m s :
  sizes_ok s -> sizes_ok (broadcastToLobby lobbyId m s).
Proof. apply sizes_ok_frame, broadcastToLobby_lobbies. Qed.

Lemma sizes_ok_sendToClient clientId m s :
  sizes_ok s -> sizes_ok (sendToClient clientId m s).
Proof. apply sizes_ok_frame, sendToClient_lobbies. Qed.

Lemma sizes_ok_broadcastLobbyUpdate lobbyId s :
  sizes_ok s -> sizes_ok (broadcastLobbyUpdate lobbyId s).
Proof. apply sizes_ok_frame, broadcastLobbyUpdate_lobbies. Qed.

Lemma sizes_ok_endGame lobbyId winnerId s :
  sizes_ok s -> sizes_ok (endGame lobbyId winnerId s).
Proof. apply (sizes_ok_grows_only lobbyId), sim_grows_only, sim_endGame. Qed.

Lemma sizes_ok_createLobby code s : sizes_ok s -> sizes_ok (createLobby code s).
Proof.
  intros A k l' H. unfold createLobby in H. cbn [with_lobbies lobbies] in H.
  destruct (String.eqb_spec code k) as [->|N].
  - rewrite get_set_same in H. injection H as <-. intros q p [].
  - rewrite get_set_other in H by exact N. exact (A k l' H).
Qed.

Lemma sizes_ok_handleJoinLobby clientId lobbyId playerName uuid s :
  sizes_ok s -> sizes_ok (handleJoinLobby clientId lobbyId playerName uuid s).
Proof.
  intros A. unfold handleJoinLobby.
  destruct (JSMap.get lobbyId (lobbies s)) as [l|]; [|now apply sizes_ok_sendToClient].
  destruct (negb _); [now apply sizes_ok_sendToClient|].
  destruct (_ <=? _)%nat; [now apply sizes_ok_sendToClient|].
  match goal with
  | |- sizes_ok (match JSMap.get _ (clients ?x) with _ => _ end) =>
      assert (A1 : sizes_ok x)
  end.
  { apply sizes_ok_update_lobby; [|exact A]. intros l0 R. cbn [players with_players].
    unfold roster_all. apply (In_set (fun _ p => size_ok p)); [exact R|].
    unfold size_ok. simpl. lra. }
  destruct (JSMap.get clientId _); [|exact A1].
  apply sizes_ok_broadcastLobbyUpdate, sizes_ok_sendToClient.
  match goal with
  | |- sizes_ok (with_clients _ ?x) => apply (sizes_ok_frame x); [reflexivity|]
  end.
  exact A1.
Qed.

Lemma sizes_ok_startCountdown lobbyId s :
  sizes_ok s -> sizes_ok (startCountdown lobbyId s).
Proof.
  intros A. unfold startCountdown.
  destruct (JSMap.get lobbyId (lobbies s)); [|exact A]. cbn [setTimer].
  apply sizes_ok_same_roster; [reflexivity|].
  apply (sizes_ok_frame (broadcastToLobby lobbyId (countdown_msg CONFIG.countdownTime)
                           (update_lobby lobbyId
                              (fun l => with_countdown CONFIG.countdownTime
                                          (with_gameState GCountdown l)) s)));
    [reflexivity|].
  apply sizes_ok_broadcastToLobby. now apply sizes_ok_same_roster.
Qed.

Lemma sizes_ok_handleToggleReady clientId lobbyId s :
  sizes_ok s -> sizes_ok (handleToggleReady clientId lobbyId s).
Proof.
  intros A. unfold handleToggleReady.
  destruct (JSMap.get clientId (clients s)) as [c|]; [|exact A].
  destruct (negb _); [exact A|].
  destruct (c_playerId c) as [playerId|]; [|exact A].
  destruct (JSMap.get lobbyId (lobbies s)) as [l|]; [|exact A].
  destruct (JSMap.get playerId (players l)); [|exact A].
  unfold checkGameStart.
  match goal with
  | |- sizes_ok (match JSMap.get _ (lobbies ?x) with _ => _ end) =>
      assert (A1 : sizes_ok x); [|set (s1 := x) in *]
  end.
  { apply sizes_ok_broadcastLobbyUpdate. now apply sizes_ok_update_player. }
  destruct (JSMap.get lobbyId (lobbies s1)); [|exact A1].
  destruct (negb _); [exact A1|].
  destruct (_ && _); [now apply sizes_ok_startCountdown | exact A1].
Qed.

Lemma sizes_ok_handlePlayerInput clientId lobbyId input s :
  sizes_ok s -> sizes_ok (handlePlayerInput clientId lobbyId input s).
Proof.
  intros A. unfold handlePlayerInput.
  destruct (JSMap.get lobbyId (lobbies s)) as [l|]; [|exact A].
  destruct (negb _); [exact A|].
  destruct (JSMap.get clientId (clients s)) as [c|]; [|exact A].
  destruct (negb _); [exact A|].
  destruct (c_playerId c) as [playerId|]; [|exact A].
  destruct (JSMap.get playerId (players l)); [|exact A].
  destruct (Rlt_dec _ _); now apply sizes_ok_update_player.
Qed.

Lemma sizes_ok_clearTimer h s : sizes_ok s -> sizes_ok (clearTimer h s).
Proof. now apply sizes_ok_frame. Qed.

Lemma sizes_ok_handleRequestLobby clientId s :
  sizes_ok s -> sizes_ok (handleRequestLobby clientId s).
Proof.
  intros A. unfold handleRequestLobby.
  destruct (JSMap.get clientId (clients s)) as [c|]; [|exact A].
  destruct (negb _); [exact A|].
  destruct (c_lobbyId c) as [lobbyId|]; [|exact A].
  destruct (JSMap.get lobbyId (lobbies s)) as [l|]; [|exact A].
  apply sizes_ok_broadcastLobbyUpdate, sizes_ok_broadcastToLobby.
  apply sizes_ok_update_lobby.
  { intros l0 _. cbn [players with_players]. intros k p I.
    apply in_map_iff in I. destruct I as ([k0 p0] & [= <- <-] & _).
    unfold size_ok. simpl. lra. }
  apply sizes_ok_same_roster; [reflexivity|].
  destruct (gameTickInterval l).
  - apply sizes_ok_same_roster; [reflexivity|]. apply sizes_ok_clearTimer.
    destruct (countdownInterval l); [|exact A].
    apply sizes_ok_same_roster; [reflexivity|]. now apply sizes_ok_clearTimer.
  - destruct (countdownInterval l); [|exact A].
    apply sizes_ok_same_roster; [reflexivity|]. now apply sizes_ok_clearTimer.
Qed.

Lemma sizes_ok_delete_player lobbyId playerId s :
  sizes_ok s ->
  sizes_ok (update_lobby lobbyId
              (fun l => with_players (JSMap.delete playerId (players l)) l) s).
Proof.
  apply sizes_ok_update_lobby. intros l A. cbn [players with_players].
  now apply roster_all_delete.
Qed.

Lemma sizes_ok_handleClientDisconnect clientId s :
  sizes_ok s -> sizes_ok (handleClientDisconnect clientId s).
Proof.
  intros A. unfold handleClientDisconnect.
  destruct (JSMap.get clientId (clients s)) as [c|]; [|exact A].
  match goal with
  | |- sizes_ok (with_clients _ ?x) => apply (sizes_ok_frame x); [reflexivity|]
  end.
  destruct (c_lobbyId c) as [lobbyId|]; [|exact A].
  destruct (negb _); [exact A|].
  destruct (JSMap.get lobbyId (lobbies s)); [|exact A].
  destruct (c_playerId c) as [playerId|]; [|exact A].
  destruct (negb _); [exact A|].
  match goal with
  | |- sizes_ok (match JSMap.get _ (lobbies ?x) with _ => _ end) =>
      assert (A1 : sizes_ok x); [|set (s1 := x) in *]
  end.
  { apply sizes_ok_broadcastToLobby. now apply sizes_ok_delete_player. }
  destruct (JSMap.get lobbyId (lobbies s1)); [|exact A1].
  destruct (_ && _); [now apply sizes_ok_endGame | exact A1].
Qed.

Lemma sizes_ok_generateFood rnd lobbyId s :
  sizes_ok s -> sizes_ok (generateFood rnd lobbyId s).
Proof.
  intros A. unfold generateFood. destruct (JSMap.get lobbyId (lobbies s)); [|exact A].
  match goal with
  | |- sizes_ok (with_randomCalls _ ?x) => apply (sizes_ok_frame x); [reflexivity|]
  end.
  now apply sizes_ok_same_roster.
Qed.

Lemma sizes_ok_initializeGamePositions lobbyId s :
  sizes_ok s -> sizes_ok (initializeGamePositions lobbyId s).
Proof.
  apply sizes_ok_update_lobby. intros l _. cbn [players with_players].
  intros k p I. apply in_map_iff in I. destruct I as ([i [k0 p0]] & [= <- <-] & _).
  unfold size_ok. simpl. lra.
Qed.

Lemma sizes_ok_startGame rnd lobbyId s : sizes_ok s -> sizes_ok (startGame rnd lobbyId s).
Proof.
  intros A. unfold startGame. destruct (JSMap.get lobbyId (lobbies s)); [|exact A].
  match goal with
  | |- sizes_ok (startGameTick _ ?x) => assert (A1 : sizes_ok x); [|set (s1 := x) in *]
  end.
  { match goal with
    | |- sizes_ok (match JSMap.get _ (lobbies ?x) with _ => _ end) =>
        assert (A0 : sizes_ok x); [|set (s0 := x) in *]
    end.
    { apply sizes_ok_generateFood, sizes_ok_initializeGamePositions.
      now apply sizes_ok_same_roster. }
    destruct (JSMap.get lobbyId (lobbies s0)); [|exact A0].
    now apply sizes_ok_broadcastToLobby. }
  unfold startGameTick. destruct (JSMap.get lobbyId (lobbies s1)); [|exact A1].
  cbn [setTimer]. apply sizes_ok_same_roster; [reflexivity|].
  now apply (sizes_ok_frame s1).
Qed.

Lemma sizes_ok_countdownTick rnd lobbyId s :
  sizes_ok s -> sizes_ok (countdownTick rnd lobbyId s).
Proof.
  intros A. unfold countdownTick.
  destruct (JSMap.get lobbyId (lobbies s)) as [l|]; [|exact A].
  assert (A1 : sizes_ok (update_lobby lobbyId (with_countdown (countdown l - 1)) s))
    by now apply sizes_ok_same_roster.
  destruct (0 <? _)%Z; [now apply sizes_ok_broadcastToLobby|].
  apply sizes_ok_startGame.
  destruct (countdownInterval l); [now apply sizes_ok_clearTimer | exact A1].
Qed.

Lemma sizes_ok_teardown lobbyId s : sizes_ok s -> sizes_ok (teardown lobbyId s).
Proof.
  intros A. unfold teardown. destruct (JSMap.get lobbyId (lobbies s)) as [l|]; [|exact A].
  match goal with
  | |- sizes_ok (with_lobbies _ ?x) => assert (A1 : sizes_ok x); [|set (s1 := x) in *]
  end.
  { apply fold_left_inv; [exact A|]. intros s0 [k p] A0. cbn [snd].
    destruct (JSMap.get (p_clientId p) (clients s0)); [|exact A0].
    match goal with
    | |- sizes_ok (with_clients _ ?x) => apply (sizes_ok_frame x); [reflexivity|]
    end.
    now apply sizes_ok_sendToClient. }
  intros k l' H. cbn [with_lobbies lobbies] in H. rewrite get_delete in H.
  destruct (lobbyId =? k); [discriminate|]. exact (A1 k l' H).
Qed.

Lemma sizes_ok_gameTick rnd clock lobbyId deltaTime s :
  sizes_ok s -> sizes_ok (gameTick rnd clock lobbyId deltaTime s).
Proof. apply (sizes_ok_grows_only lobbyId), grows_only_gameTick. Qed.

Lemma sizes_ok_fire rnd clock handle deltaTime s :
  sizes_ok s -> sizes_ok (fire rnd clock handle deltaTime s).
Proof.
  intros A. unfold fire. destruct (timer_active handle s) as [[lobbyId|lobbyId|lobbyId]|].
  - now apply sizes_ok_countdownTick.
  - now apply sizes_ok_gameTick.
  - now apply sizes_ok_teardown, sizes_ok_clearTimer.
  - exact A.
Qed.

Lemma sizes_ok_handleClientMessage clientId message fresh s :
  sizes_ok s -> sizes_ok (handleClientMessage clientId message fresh s).
Proof.
  intros A. unfold handleClientMessage.
  destruct (JSMap.get clientId (clients s)) as [c|]; [|exact A].
  destruct message as [|lobbyId name| |lobbyId input| | |].
  - now apply sizes_ok_sendToClient, sizes_ok_createLobby.
  - destruct lobbyId as [lid|]; [|now apply sizes_ok_sendToClient].
    destruct (truthy _); [now apply sizes_ok_handleJoinLobby
                         | now apply sizes_ok_sendToClient].
  - destruct (c_lobbyId c); [|now apply sizes_ok_sendToClient].
    destruct (truthy _); [now apply sizes_ok_handleToggleReady
                         | now apply sizes_ok_sendToClient].
  - destruct lobbyId; [|exact A]. destruct input; [|exact A].
    destruct (truthy _); [now apply sizes_ok_handlePlayerInput | exact A].
  - now apply sizes_ok_handleRequestLobby.
  - now apply sizes_ok_sendToClient.
  - exact A.
Qed.

Lemma sizes_ok_step rnd clock s e : sizes_ok s -> sizes_ok (step rnd clock s e).
Proof.
  intros A. destruct e as [clientId|clientId m fresh|clientId|clientId|handle deltaTime];
    cbn [step].
  - now apply (sizes_ok_frame s).
  - now apply sizes_ok_handleClientMessage.
  - now apply (sizes_ok_frame s).
  - apply sizes_ok_handleClientDisconnect. now apply (sizes_ok_frame s).
  - now apply sizes_ok_fire.
Qed.

Lemma sizes_ok_reachable rnd clock s : reachable rnd clock s -> sizes_ok s.
Proof.
  intros [es ->]. unfold run. apply fold_left_inv.
  - intros k l H. discriminate.
  - intros s e. apply sizes_ok_step.
Qed.

(** C4. In every state the server can reach, every player of every lobby
    has a size of at least [playerStartSize]; and a simulation tick of a
    lobby from such a state leaves every player that is still in the roster
    afterwards with a size at least as large as it had before (the tick
    changes sizes by the food increment and the absorption gain only). *)
Theorem size_never_decreases rnd clock s :
  reachable rnd clock s ->
  (forall lobbyId l playerId p,
     JSMap.get lobbyId (lobbies s) = Some l ->
     JSMap.get playerId (players l) = Some p ->
     CONFIG.playerStartSize <= p_size p) /\
  (forall lobbyId deltaTime l' playerId p',
     JSMap.get lobbyId (lobbies (gameTick rnd clock lobbyId deltaTime s)) = Some l' ->
     JSMap.get playerId (players l') = Some p' ->
     exists l p,
       JSMap.get lobbyId (lobbies s) = Some l /\
       JSMap.get playerId (players l) = Some p /\
       p_size p <= p_size p').
Proof.
  intros Re. pose proof (sizes_ok_reachable rnd clock s Re) as A. split.
  - intros lobbyId l playerId p Hl Hp. apply get_In in Hp. exact (A lobbyId l Hl _ _ Hp).
  - intros lobbyId deltaTime l' playerId p' Hl' Hp'.
    destruct (grows_only_gameTick rnd clock lobbyId deltaTime s (A lobbyId)) as (_ & _ & E).
    destruct (E l' Hl') as (l & Hl & V). destruct (V _ _ Hp') as (p & Hp & Le).
    exists l, p. auto.
Qed.

(** *** Food out of reach *)

Lemma foodStep_out_of_reach rnd lobbyId playerId i s l p :
  JSMap.get lobbyId (lobbies s) = Some l ->
  JSMap.get playerId (players l) = Some p ->
  (forall food, In food (foodItems l) -> ~ in_reach p food) ->
  foodStep rnd lobbyId playerId i s = s.
Proof.
  intros Hl Hp Far. unfold foodStep. rewrite Hl, Hp.
  destruct (nth_error (foodItems l) i) as [food|] eqn:E; [|reflexivity].
  destruct (Rlt_dec _ _) as [C|_]; [|reflexivity].
  exfalso. exact (Far food (nth_error_In _ _ E) C).
Qed.

Lemma foodLoop_out_of_reach rnd lobbyId playerId k s l :
  JSMap.get lobbyId (lobbies s) = Some l ->
  (forall p food, JSMap.get playerId (players l) = Some p ->
                  In food (foodItems l) -> ~ in_reach p food) ->
  foodLoop rnd lobbyId playerId k s = s.
Proof.
  intros Hl Far. induction k as [|k IH]; [reflexivity|]. simpl.
  destruct (JSMap.get playerId (players l)) as [p|] eqn:Hp.
  - rewrite (foodStep_out_of_reach rnd lobbyId playerId k s l p Hl Hp); [exact IH|].
    intros food I. now apply Far.
  - unfold foodStep. rewrite Hl, Hp. exact IH.
Qed.

(** When no food item is in reach of any player the food pass changes
    nothing. *)
Lemma checkFoodCollisions_out_of_reach rnd lobbyId s l :
  JSMap.get lobbyId (lobbies s) = Some l ->
  (forall playerId p food, JSMap.get playerId (players l) = Some p ->
                           In food (foodItems l) -> ~ in_reach p food) ->
  checkFoodCollisions rnd lobbyId s = s.
Proof.
  intros Hl Far. unfold checkFoodCollisions. rewrite Hl.
  induction (JSMap.keys (players l)) as [|k r IH]; [reflexivity|]. simpl.
  rewrite Hl. rewrite (foodLoop_out_of_reach rnd lobbyId k _ s l Hl); [exact IH|].
  intros p food. apply Far.
Qed.

Lemma out_of_reach_x p food :
  p_size p + CONFIG.foodSize <= Rabs (p_x p - vx food) -> ~ in_reach p food.
Proof.
  unfold in_reach. intros H T.
  set (dx := p_x p - vx food) in *. set (dy := p_y p - vy food) in *.
  assert (L : Rabs dx <= sqrt (dx * dx + dy * dy)).
  { rewrite <- sqrt_Rsqr_abs. apply sqrt_le_1_alt. unfold Rsqr. nra. }
  lra.
Qed.

Lemma far_food_far p food :
  p_x p <= 5 -> p_size p + CONFIG.foodSize <= 5 ->
  In food far_food -> ~ in_reach p food.
Proof.
  intros X S I. apply out_of_reach_x. unfold far_food in I.
  apply in_map_iff in I. destruct I as (i & <- & _). cbn [vx].
  pose proof (pos_INR i). rewrite Rabs_left by lra. lra.
Qed.

(** Discharges "no food item of [far_food] is in reach of a player of this
    roster". *)
Ltac out_of_reach :=
  let k := fresh "k" in
  let p := fresh "p" in
  let food := fresh "food" in
  let Hp := fresh "Hp" in
  let Hin := fresh "Hin" in
  intros k p food Hp Hin; cbn [players foodItems] in Hp, Hin;
  simpl JSMap.get in Hp;
  repeat match type of Hp with
         | (if ?c then _ else _) = _ => destruct c
         end;
  try discriminate; injection Hp as <-;
  (apply far_food_far;
   [cbn [p_x]; lra | cbn [p_size]; unfold CONFIG.foodSize; lra | exact Hin]).

(** ** Evaluation on concrete states *)

(** Reduction that leaves real arithmetic and the two functions that decide
    on real numbers alone. *)
Ltac crunch :=
  cbv -[Rplus Rmult Rminus Rdiv Rinv Ropp IZR INR sqrt cos sin atan PI Rmin Rmax
        Rlt_dec Rgt_dec Req_dec_T Rle_dec movePlayer collidePair Rlt Rgt Rle Rge
        far_food checkFoodCollisions].

Lemma collidePair_absorbs lobbyId i j st a b :
  nth_error (fst st) i = Some a -> nth_error (fst st) j = Some b ->
  (p_id a =? "") = false -> (p_id b =? "") = false ->
  touching a b ->
  p_size a > p_size b * CONFIG.absorptionThreshold ->
  collidePair lobbyId i j st = absorbInto lobbyId i a b st.
Proof.
  intros Ha Hb Na Nb T G. unfold collidePair. rewrite Ha, Hb, Na, Nb. cbn [orb].
  destruct (Rlt_dec _ _) as [_|N]; [|contradiction].
  destruct (Rgt_dec _ _) as [_|N]; [reflexivity | contradiction].
Qed.

Lemma collidePair_apart lobbyId i j st a b :
  nth_error (fst st) i = Some a -> nth_error (fst st) j = Some b ->
  ~ touching a b ->
  collidePair lobbyId i j st = st.
Proof.
  intros Ha Hb T. unfold collidePair. rewrite Ha, Hb.
  destruct (_ || _); [reflexivity|].
  destruct (Rlt_dec _ _) as [C|_]; [contradiction | reflexivity].
Qed.

Lemma sqrt_unit_step : sqrt ((0 - 1) * (0 - 1) + (0 - 0) * (0 - 0)) = 1.
Proof. replace ((0 - 1) * (0 - 1) + (0 - 0) * (0 - 0)) with 1 by lra. apply sqrt_1. Qed.


Ltac crunch_term t :=
  let t' := eval cbv -[Rplus Rmult Rminus Rdiv Rinv Ropp IZR INR sqrt cos sin atan PI
                       Rmin Rmax Rlt_dec Rgt_dec Req_dec_T Rle_dec movePlayer collidePair
                       Rlt Rgt Rle Rge far_food checkFoodCollisions] in t in
  change t with t'.

Lemma gameTick_playing rnd clock lobbyId deltaTime s l :
  JSMap.get lobbyId (lobbies s) = Some l ->
  gameState l = GPlaying ->
  (CONFIG.minPlayersToStart <= JSMap.size (players l))%nat ->
  gameTick rnd clock lobbyId deltaTime s =
  broadcastGameState lobbyId
    (checkGameEnd lobbyId
       (cleanUp clock lobbyId
          (checkPlayerCollisions lobbyId
             (checkFoodCollisions rnd lobbyId (moveAll clock lobbyId deltaTime s))))).
Proof.
  intros E G N. unfold gameTick, updateGameState. rewrite E, G. cbn [game_state_eqb negb].
  apply Nat.ltb_ge in N. now rewrite N.
Qed.


(** C1: the failing input.  In the lobby of [duel] a tick lets [A] absorb
    [B]: the roster drops to [A] alone and [game_over] is sent to [A]'s
    connection twice, first by [absorbPlayer] and again by the end-of-tick
    check of [updateGameState], and two teardown timers are pending. *)
Theorem game_over_sent_twice :
  let s' := gameTick (fun _ => 0) (fun _ => 0%Z) "LOBBY1" (1 / 60) duel in
  exists size,
    size = 25 / 10 /\
    sent s' =
      [ ("cA", player_eaten "B" (Some "A"));
        ("cB", you_were_eliminated);
        ("cA", game_over (Some "A") size);
        ("cA", game_over (Some "A") size);
        ("cA", game_update [("A", 0, 0, size)]) ] /\
    timers s' = [ (2%nat, TeardownTimer "LOBBY1"); (3%nat, TeardownTimer "LOBBY1") ] /\
    gameState_of "LOBBY1" s' = Some GPlaying.
Proof.
  exists (2 + 1 * (5 / 10)). split; [lra|].
  erewrite gameTick_playing;
    [|reflexivity|reflexivity|unfold CONFIG.minPlayersToStart; simpl; lia].
  unfold duel.
  match goal with |- context [moveAll ?c ?l ?d ?s] => crunch_term (moveAll c l d s) end.
  rewrite !movePlayer_idle by reflexivity.
  erewrite checkFoodCollisions_out_of_reach; [|reflexivity|out_of_reach].
  match goal with |- context [checkPlayerCollisions ?l ?s] =>
    crunch_term (checkPlayerCollisions l s) end.
  erewrite collidePair_absorbs;
    [| reflexivity | reflexivity | reflexivity | reflexivity
     | unfold touching; cbn [p_x p_y p_size]; rewrite sqrt_unit_step; lra
     | cbn [p_size]; unfold CONFIG.absorptionThreshold; lra ].
  crunch. repeat split.
Qed.

Lemma apart_x a b :
  p_size a + p_size b <= Rabs (p_x a - p_x b) -> ~ touching a b.
Proof.
  unfold touching. intros H T.
  set (dx := p_x a - p_x b) in *. set (dy := p_y a - p_y b) in *.
  assert (L : Rabs dx <= sqrt (dx * dx + dy * dy)).
  { rewrite <- sqrt_Rsqr_abs. apply sqrt_le_1_alt. unfold Rsqr. nra. }
  lra.
Qed.

(** C2: the failing input.  Both players of [idle_room] carry a time stamp
    of 0 and every reading of the clock during the tick is 10000: they
    have been idle for ten seconds.  The tick removes neither of them and
    sends no [player_disconnected]: the movement loop has given both the
    current time before the clean-up loop looks at it. *)
Theorem idle_players_survive_tick :
  let s' := gameTick (fun _ => 0) (fun _ => 10000%Z) "LOBBY1" (1 / 60) idle_room in
  (forall p, In p (JSMap.values
                     match JSMap.get "LOBBY1" (lobbies idle_room) with
                     | Some l => players l
                     | None => []
                     end) ->
             inactive 10000 p = true) /\
  option_map (fun l => JSMap.keys (players l)) (JSMap.get "LOBBY1" (lobbies s'))
    = Some ["A"; "B"] /\
  option_map (fun l => map p_lastUpdate (JSMap.values (players l)))
             (JSMap.get "LOBBY1" (lobbies s'))
    = Some [Some 10000%Z; Some 10000%Z] /\
  sent s' =
    [ ("cA", game_update [("A", -5, 0, 1); ("B", 5, 0, 1)]);
      ("cB", game_update [("A", -5, 0, 1); ("B", 5, 0, 1)]) ].
Proof.
  split.
  { intros p. simpl. intros [<-|[<-|[]]]; reflexivity. }
  erewrite gameTick_playing;
    [|reflexivity|reflexivity|unfold CONFIG.minPlayersToStart; simpl; lia].
  unfold idle_room.
  match goal with |- context [moveAll ?c ?l ?d ?s] => crunch_term (moveAll c l d s) end.
  rewrite !movePlayer_idle by reflexivity.
  erewrite checkFoodCollisions_out_of_reach; [|reflexivity|out_of_reach].
  match goal with |- context [checkPlayerCollisions ?l ?s] =>
    crunch_term (checkPlayerCollisions l s) end.
  erewrite collidePair_apart;
    [| reflexivity | reflexivity
     | apply apart_x; cbn [p_x p_size];
       replace (-5 - 5) with (-10) by lra; rewrite Rabs_left by lra; lra ].
  crunch. repeat split.
Qed.

(** ** The stored input vector *)

Lemma normalised_is_unit x y :
  0 < sqrt (x * x + y * y) ->
  sqrt (x / sqrt (x * x + y * y) * (x / sqrt (x * x + y * y))
        + y / sqrt (x * x + y * y) * (y / sqrt (x * x + y * y))) = 1.
Proof.
  intros L. set (n := sqrt (x * x + y * y)) in *.
  assert (Sq : n * n = x * x + y * y) by (apply sqrt_sqrt; nra).
  replace (x / n * (x / n) + y / n * (y / n)) with 1.
  - apply sqrt_1.
  - field_simplify_eq; [lra | lra].
Qed.

(** Vectors of moderate size are well within the range of the doubles. *)
Lemma pow2_500_bounds : / 2 ^ 500 <= 1 /\ 1024 <= 2 ^ 500.
Proof.
  assert (P : 1024 <= 2 ^ 500).
  { change 500%nat with (10 + 490)%nat. rewrite pow_add.
    assert (1 <= 2 ^ 490) by (apply pow_R1_Rle; lra).
    assert (E : 2 ^ 10 = 1024) by (simpl; lra).
    rewrite E. nra. }
  split; [|exact P].
  rewrite <- Rinv_1. apply Rinv_le_contravar; lra.
Qed.

Lemma moderate_in_double_range x y :
  1 <= Rmax (Rabs x) (Rabs y) <= 1024 -> in_double_range (mkVec x y).
Proof.
  intros [L U]. right. cbn [vx vy].
  destruct pow2_500_bounds as [P Q]. split; lra.
Qed.

(** C7 (amended). When [handlePlayerInput] stores the input of a message
    whose vector is in the range of the doubles ([in_double_range]), the
    vector it stores is the zero vector or has unit length (in doubles: up
    to the rounding of the square root and of the two divisions). *)
Theorem stored_input_unit_or_zero clientId lobbyId input s l c playerId p :
  in_double_range input ->
  JSMap.get lobbyId (lobbies s) = Some l ->
  gameState l = GPlaying ->
  JSMap.get clientId (clients s) = Some c ->
  c_playerId c = Some playerId ->
  playerId <> "" ->
  JSMap.get playerId (players l) = Some p ->
  exists l' p',
    JSMap.get lobbyId (lobbies (handlePlayerInput clientId lobbyId input s)) = Some l' /\
    JSMap.get playerId (players l') = Some p' /\
    unit_or_zero (p_input p').
Proof.
  intros _ Hl G Hc Hp N Hq. unfold handlePlayerInput.
  rewrite Hl, G, Hc, Hp, Hq. cbn [game_state_eqb negb truthy].
  apply String.eqb_neq in N. rewrite N. cbn [negb].
  destruct (Rlt_dec _ _) as [L|Z]; unfold update_player;
    rewrite get_update_lobby_same, Hl; cbn [option_map];
    eexists; eexists; (split; [reflexivity|]); cbn [players with_players];
    rewrite get_update_same, Hq; cbn [option_map]; (split; [reflexivity|]);
    cbn [p_input with_input vx vy].
  - right. now apply normalised_is_unit.
  - left. split; reflexivity.
Qed.

(** Outside that range the doubles decide otherwise.  A component too
    large to be squared makes the length infinite and the stored vector
    zero; one too small to be squared makes the length zero, with the same
    result; a square among the subnormal numbers loses its digits, and the
    stored vector is longer than a unit vector by six percent; an infinite
    component (the JSON number [1e999]) is stored as NaN.  Within the range
    the stored components are the correctly rounded ones up to the last
    digit: [(3, 4)] is stored as the doubles next to 0.6 and 0.8, and
    [(1, 1)] and [(3, 3)] differ in the last digit. *)
Section Doubles.
Import PrimFloat.

Lemma normalise_moderate :
  Double.normalise 3 4 = (0x1.3333333333333p-1, 0x1.999999999999ap-1)%float.
Proof. reflexivity. Qed.

Lemma normalise_overflow : Double.normalise 0x1p600 0 = (0, 0)%float.
Proof. reflexivity. Qed.

Lemma normalise_underflow : Double.normalise 0x1p-600 0 = (0, 0)%float.
Proof. reflexivity. Qed.

Lemma normalise_subnormal :
  (0x1.0fp0 <? fst (Double.normalise 0x3p-538 0))%float = true.
Proof. reflexivity. Qed.

Lemma normalise_infinite : Double.normalise infinity 0 = (nan, 0%float).
Proof. reflexivity. Qed.

Lemma normalise_last_digit :
  Double.normalise 1 1 = (0x1.6a09e667f3bccp-1, 0x1.6a09e667f3bccp-1)%float /\
  Double.normalise 3 3 = (0x1.6a09e667f3bcdp-1, 0x1.6a09e667f3bcdp-1)%float.
Proof. split; reflexivity. Qed.

End Doubles.

Lemma sqrt_eq_1 v : 0 <= v -> sqrt v = 1 -> v = 1.
Proof. intros P E. rewrite <- (sqrt_sqrt v P), E. lra. Qed.

(** The movement of a player that runs into the left edge: the position is
    clamped and the stored input is multiplied by [-0.8]. *)
Lemma movePlayer_left_edge :
  exists x y,
    -20 <= x <= -19 /\ y = 0 /\
    movePlayer (1 / 60)
      (mkPlayer "A" "cA" "ann" 0x44aa88 true (-19) 0 1 (mkVec (-1) 0) (Some 0%Z))
    = mkPlayer "A" "cA" "ann" 0x44aa88 true x y 1 (mkVec (-1 * - (8 / 10)) 0) (Some 0%Z).
Proof.
  assert (S1 : sqrt (1 / 1) = 1) by (replace (1 / 1) with 1 by lra; apply sqrt_1).
  assert (S2 : sqrt (-1 * -1 + 0 * 0) = 1)
    by (replace (-1 * -1 + 0 * 0) with 1 by lra; apply sqrt_1).
  unfold movePlayer.
  cbn [p_input vx vy p_size p_x p_y with_pos with_input p_id p_clientId p_name p_color
       p_ready p_lastUpdate].
  rewrite S1, S2.
  destruct (Req_dec_T (-1) 0) as [E|_]; [lra|]. cbn [orb].
  destruct (Rlt_dec 0 1) as [_|N]; [|lra].
  cbn [p_input vx vy p_size p_x p_y with_pos with_input p_id p_clientId p_name p_color
       p_ready p_lastUpdate].
  unfold CONFIG.forceMagnitude, CONFIG.mapWidth, CONFIG.mapHeight.
  repeat match goal with
         | |- context [Rlt_dec ?a ?b] =>
             destruct (Rlt_dec a b); simpl in *; try (exfalso; lra)
         end.
  eexists. eexists. split; [|split; [|reflexivity]].
  - simpl. unfold Rmax. destruct (Rle_dec _ _); lra.
  - simpl. lra.
Qed.

(** The claim C7 as it stands fails: a tick turns the unit input of a
    player that reaches the edge of the map into a vector of length 0.8. *)
Lemma tick_breaks_unit_input :
  let s' := gameTick (fun _ => 0) (fun _ => 0%Z) "LOBBY1" (1 / 60) edge_room in
  (forall l p, JSMap.get "LOBBY1" (lobbies edge_room) = Some l ->
               In p (JSMap.values (players l)) -> unit_or_zero (p_input p)) /\
  exists l' p',
    JSMap.get "LOBBY1" (lobbies s') = Some l' /\
    JSMap.get "A" (players l') = Some p' /\
    p_input p' = mkVec (-1 * - (8 / 10)) 0 /\
    ~ unit_or_zero (p_input p').
Proof.
  split.
  { intros l p [= <-]. simpl. intros [<-|[<-|[]]]; simpl.
    - right. simpl. replace (-1 * -1 + 0 * 0) with 1 by lra. apply sqrt_1.
    - left. split; reflexivity. }
  destruct movePlayer_left_edge as (x & y & Hx & Hy & E).
  erewrite gameTick_playing;
    [|reflexivity|reflexivity|unfold CONFIG.minPlayersToStart; simpl; lia].
  unfold edge_room.
  match goal with |- context [moveAll ?c ?l ?d ?s] => crunch_term (moveAll c l d s) end.
  rewrite E.
  rewrite (movePlayer_idle (1 / 60)
             (mkPlayer "B" "cB" "bob" 0xaa4444 true 5 0 1 (mkVec 0 0) (Some 0%Z)))
    by reflexivity.
  erewrite checkFoodCollisions_out_of_reach; [|reflexivity|out_of_reach].
  match goal with |- context [checkPlayerCollisions ?l ?s] =>
    crunch_term (checkPlayerCollisions l s) end.
  erewrite collidePair_apart;
    [| reflexivity | reflexivity
     | apply apart_x; cbn [p_x p_size]; rewrite Rabs_left by lra; lra ].
  crunch. eexists. eexists. split; [reflexivity|]. split; [reflexivity|].
  split; [reflexivity|].
  intros [[Z _]|U]; cbn [p_input vx vy] in *; [lra|].
  apply sqrt_eq_1 in U; lra.
Qed.

(** ** A connection that joined twice *)

(** Nothing prevents a connection from joining the same lobby twice: it
    then owns two players of the roster, records only the later one as its
    [playerId], and the game starts once both are ready. *)
Lemma twin_reachable :
  let s := run (fun _ => 0) (fun _ => 0%Z) initial twin_trace in
  reachable (fun _ => 0) (fun _ => 0%Z) s /\
  gameState_of "LOBBY1" s = Some GPlaying /\
  option_map (fun l => map (fun kp => (fst kp, p_clientId (snd kp))) (players l))
             (JSMap.get "LOBBY1" (lobbies s))
    = Some [("A", "cA"); ("P1", "c1"); ("P2", "c1")] /\
  map (fun kc => (fst kc, c_playerId (snd kc))) (clients s)
    = [("cA", Some "A"); ("c1", Some "P2")].
Proof.
  split; [now exists twin_trace|].
  unfold twin_trace. crunch. repeat split.
Qed.

(** C3: the failing input.  In [twin_room] the connection [c1] joined
    twice, so that it owns [P1] and [P2] and records [P2].  [A] (size 2)
    touches [P1] (size 1), and resolving the pair makes [A] grow to 2.5;
    but [absorbPlayer] looks for a connection whose [playerId] is [P1],
    finds none, and so [P1] stays in the roster, no [player_eaten] is
    broadcast and no [you_were_eliminated] is sent: the log is unchanged. *)
Theorem stale_player_not_removed :
  let playerList :=
    match JSMap.get "LOBBY1" (lobbies twin_room) with
    | Some l => JSMap.values (players l)
    | None => []
    end in
  let s' := snd (collidePair "LOBBY1" 0 1 (playerList, twin_room)) in
  option_map (fun p => (p_id p, p_size p)) (nth_error playerList 0) = Some ("A", 2) /\
  option_map (fun p => (p_id p, p_size p)) (nth_error playerList 1) = Some ("P1", 1) /\
  gameState_of "LOBBY1" twin_room = Some GPlaying /\
  option_map (fun l => map (fun kp => (fst kp, p_size (snd kp))) (players l))
             (JSMap.get "LOBBY1" (lobbies s'))
    = Some [("A", 2 + 1 * (5 / 10)); ("P1", 1); ("P2", 1)] /\
  sent s' = sent twin_room.
Proof.
  split; [reflexivity|]. split; [reflexivity|]. split; [reflexivity|].
  cbv zeta. unfold twin_room.
  match goal with
  | |- context [collidePair ?l ?i ?j (?pl, ?s)] =>
      crunch_term pl; crunch_term s
  end.
  erewrite collidePair_absorbs;
    [| reflexivity | reflexivity | reflexivity | reflexivity
     | unfold touching; cbn [p_x p_y p_size fst]; rewrite sqrt_unit_step; lra
     | cbn [p_size]; unfold CONFIG.absorptionThreshold; lra ].
  crunch. split; reflexivity.
Qed.

(** C10: the failing input.  In [twin_room] the connection [c1] joined
    twice and owns [P1] and [P2].  When [P2], the player it records, is
    absorbed, [c1] still owns [P1] in the roster, so the lobby multicast
    reaches it: [c1] receives the [player_eaten] broadcast of its own
    elimination and then [you_were_eliminated]. *)
Theorem twin_receives_own_elimination :
  let s' := absorbPlayer "LOBBY1" "A" "P2" twin_room in
  sent twin_room = [] /\
  sent s' = [ ("cA", player_eaten "P2" (Some "A"));
              ("c1", player_eaten "P2" (Some "A"));
              ("c1", you_were_eliminated) ] /\
  received_by "c1" (sent s') = [ player_eaten "P2" (Some "A"); you_were_eliminated ].
Proof.
  split; [reflexivity|]. unfold twin_room. crunch. split; reflexivity.
Qed.

(** ** The theorems at work on the example states *)

Lemma join_lobby_failures_witness :
  deliverable "cB" waiting_room = true /\
  only_reports "cB" (error "Lobby not found") waiting_room
    (handleJoinLobby "cB" "NOPE" "bob" "B" waiting_room).
Proof.
  split; [reflexivity|].
  apply (proj1 (join_lobby_failures "cB" "NOPE" "bob" "B" waiting_room eq_refl)).
  reflexivity.
Defined.

Lemma join_roster_and_colors_witness :
  exists l',
    JSMap.get "LOBBY1" (lobbies (handleJoinLobby "cB" "LOBBY1" "bob" "B" waiting_room))
      = Some l' /\
    JSMap.size (players l') = 2%nat /\
    NoDup (roster_colors (players l')).
Proof.
  destruct (join_roster_and_colors "cB" "LOBBY1" "bob" "B" waiting_room waiting_lobby)
    as (_ & l' & H1 & H2 & H3).
  - reflexivity.
  - reflexivity.
  - unfold CONFIG.maxPlayers. simpl. lia.
  - reflexivity.
  - exists l'. split; [exact H1|]. split; [exact H2|].
    apply H3. intros [|[|i]] p; simpl; intros E; try discriminate.
    injection E as <-. reflexivity.
Defined.

Lemma countdown_reaches_playing_witness :
  gameState_of "LOBBY1"
    (fireTimes (fun _ => 0) (fun _ => 0%Z) 0 3 (startCountdown "LOBBY1" waiting_room))
  = Some GPlaying.
Proof.
  refine (proj1 (proj2 (proj2 (proj2 (proj2
            (countdown_reaches_playing (fun _ => 0) (fun _ => 0%Z) "LOBBY1" waiting_room
               waiting_lobby _ _)))))).
  - reflexivity.
  - intros h t [].
Defined.

Lemma food_pickup_witness :
  let s' := foodStep (fun _ => 0) "LOBBY1" "A" 0 feast in
  option_map p_size (JSMap.get "A" (roster_of "LOBBY1" s')) = Some (1 + CONFIG.growthRate) /\
  food_of "LOBBY1" s'
    = (firstn 29 far_food
         ++ map (fun j => randomFood (fun _ => 0) (200 + 2 * j)) (seq 0 CONFIG.respawnAmount))%list /\
  randomCalls s' = 220%nat.
Proof.
  assert (Hr : forall k : nat, 0 <= (fun _ : nat => 0) k < 1) by (intros k; lra).
  assert (Near : in_reach feast_A (mkVec 0 0)).
  { unfold in_reach. simpl. replace ((0 - 0) * (0 - 0) + (0 - 0) * (0 - 0)) with 0 by lra.
    rewrite sqrt_0. unfold CONFIG.foodSize. lra. }
  destruct (proj2 (proj2 (food_pickup (fun _ => 0) "LOBBY1" feast Hr)
                     feast feast_lobby "A" feast_A 0%nat (mkVec 0 0)
                     eq_refl eq_refl eq_refl) Near)
    as (H1 & _ & H3 & _ & H5 & _).
  assert (L : List.length (splice1 0 (foodItems feast_lobby)) = 29%nat) by reflexivity.
  destruct (Rlt_dec _ _) as [_|N].
  - cbv zeta. split; [now rewrite H1|]. split; [exact H3|].
    rewrite H5, length_map, length_seq. reflexivity.
  - exfalso. apply N. rewrite L. unfold CONFIG.foodCount, CONFIG.respawnThreshold.
    rewrite !INR_IZR_INZ. simpl. lra.
Defined.

Lemma absorption_two_to_one_witness :
  exists l' a' c',
    JSMap.get "LOBBY1"
      (lobbies (snd (collidePair "LOBBY1" 0 1 ([duel_A; duel_B], duel)))) = Some l' /\
    JSMap.get "A" (players l') = Some a' /\ p_size a' = 25 / 10 /\
    JSMap.get "B" (players l') = None /\
    JSMap.get "cB" (clients (snd (collidePair "LOBBY1" 0 1 ([duel_A; duel_B], duel))))
      = Some c' /\
    c_playerId c' = None.
Proof.
  destruct (absorption_two_to_one "LOBBY1" 0 1 [duel_A; duel_B] duel duel_lobby
              duel_A duel_B "cB" (mkClient "cB" true (Some "B") (Some "LOBBY1")))
    as (l' & a' & c' & delta & H1 & H2 & H3 & H4 & H5 & H6 & _).
  - reflexivity.
  - reflexivity.
  - left. split; reflexivity.
  - reflexivity.
  - reflexivity.
  - discriminate.
  - discriminate.
  - discriminate.
  - reflexivity.
  - reflexivity.
  - simpl. rewrite sqrt_unit_step. lra.
  - repeat split.
  - reflexivity.
  - exists l', a', c'. repeat split; assumption.
Defined.

Lemma eliminated_connection_gets_notice_only_witness :
  exists delta,
    sent (absorbPlayer "LOBBY1" "A" "B" duel) = (sent duel ++ delta)%list /\
    received_by "cB" delta = [you_were_eliminated].
Proof.
  refine (proj2 (eliminated_connection_gets_notice_only "LOBBY1" "A" "B" duel duel_lobby
                   "cB" (mkClient "cB" true (Some "B") (Some "LOBBY1")) _ _ _ _)).
  - reflexivity.
  - repeat split.
  - reflexivity.
  - simpl. intros q p [[= <- <-]|[]]. discriminate.
Defined.

Lemma stored_input_unit_or_zero_witness :
  exists l' p',
    JSMap.get "LOBBY1" (lobbies (handlePlayerInput "cA" "LOBBY1" (mkVec 3 4) duel))
      = Some l' /\
    JSMap.get "A" (players l') = Some p' /\
    unit_or_zero (p_input p').
Proof.
  assert (M : in_double_range (mkVec 3 4)).
  { apply moderate_in_double_range. rewrite !Rabs_right by lra.
    unfold Rmax. destruct (Rle_dec 3 4); lra. }
  apply (stored_input_unit_or_zero "cA" "LOBBY1" (mkVec 3 4) duel duel_lobby
           (mkClient "cA" true (Some "A") (Some "LOBBY1")) "A" duel_A M);
    try reflexivity.
  discriminate.
Defined.

Lemma size_never_decreases_witness :
  exists l p,
    JSMap.get "LOBBY1" (lobbies (run (fun _ => 0) (fun _ => 0%Z) initial twin_trace))
      = Some l /\
    JSMap.get "P1" (players l) = Some p /\
    CONFIG.playerStartSize <= p_size p.
Proof.
  eexists. eexists. split; [unfold twin_trace; crunch; reflexivity|].
  split; [reflexivity|].
  refine (proj1 (size_never_decreases (fun _ => 0) (fun _ => 0%Z)
                   (run (fun _ => 0) (fun _ => 0%Z) initial twin_trace)
                   (ex_intro _ twin_trace eq_refl)) "LOBBY1" _ "P1" _ _ _).
  - unfold twin_trace. crunch. reflexivity.
  - reflexivity.
Defined.

(** ** Timer handles stay fresh *)

Lemma hf_broadcastToLobby lobbyId m s :
  handles_fresh s -> handles_fresh (broadcastToLobby lobbyId m s).
Proof. apply handles_fresh_frame; now autorewrite with frame. Qed.

Lemma hf_sendToClient clientId m s :
  handles_fresh s -> handles_fresh (sendToClient clientId m s).
Proof. apply handles_fresh_frame; now autorewrite with frame. Qed.

Lemma hf_broadcastLobbyUpdate lobbyId s :
  handles_fresh s -> handles_fresh (broadcastLobbyUpdate lobbyId s).
Proof. apply handles_fresh_frame; now autorewrite with frame. Qed.

Lemma hf_update_lobby lobbyId f s :
  handles_fresh s -> handles_fresh (update_lobby lobbyId f s).
Proof. now apply handles_fresh_frame. Qed.

Lemma hf_update_player lobbyId playerId f s :
  handles_fresh s -> handles_fresh (update_player lobbyId playerId f s).
Proof. now apply handles_fresh_frame. Qed.

Lemma hf_with_clients c s : handles_fresh s -> handles_fresh (with_clients c s).
Proof. now apply handles_fresh_frame. Qed.

Lemma hf_with_lobbies l s : handles_fresh s -> handles_fresh (with_lobbies l s).
Proof. now apply handles_fresh_frame. Qed.

Lemma hf_with_randomCalls n s : handles_fresh s -> handles_fresh (with_randomCalls n s).
Proof. now apply handles_fresh_frame. Qed.

Lemma hf_with_clockCalls n s : handles_fresh s -> handles_fresh (with_clockCalls n s).
Proof. now apply handles_fresh_frame. Qed.

Lemma hf_iter (f : server -> server) n s :
  (forall s0, handles_fresh s0 -> handles_fresh (f s0)) ->
  handles_fresh s -> handles_fresh (Nat.iter n f s).
Proof. intros F H. induction n as [|n IH]; [exact H | now apply F]. Qed.

(** Peels one layer off a goal [handles_fresh (f ... s)]. *)
Ltac hf_step :=
  match goal with
  | H : handles_fresh ?s |- handles_fresh ?s => exact H
  | |- handles_fresh (broadcastToLobby _ _ _) => apply hf_broadcastToLobby
  | |- handles_fresh (broadcastLobbyUpdate _ _) => apply hf_broadcastLobbyUpdate
  | |- handles_fresh (sendToClient _ _ _) => apply hf_sendToClient
  | |- handles_fresh (update_lobby _ _ _) => apply hf_update_lobby
  | |- handles_fresh (update_player _ _ _ _) => apply hf_update_player
  | |- handles_fresh (with_clients _ _) => apply hf_with_clients
  | |- handles_fresh (with_lobbies _ _) => apply hf_with_lobbies
  | |- handles_fresh (with_randomCalls _ _) => apply hf_with_randomCalls
  | |- handles_fresh (with_clockCalls _ _) => apply hf_with_clockCalls
  | |- handles_fresh (clearTimer _ _) => apply handles_fresh_clearTimer
  | |- handles_fresh (snd (setTimer _ _)) => apply handles_fresh_setTimer
  | |- handles_fresh (match ?x with _ => _ end) => destruct x
  end.

Ltac hf := repeat hf_step.

Lemma hf_endGame lobbyId winnerId s :
  handles_fresh s -> handles_fresh (endGame lobbyId winnerId s).
Proof. intros H. unfold endGame. hf. Qed.

Lemma hf_absorbPlayer lobbyId a b s :
  handles_fresh s -> handles_fresh (absorbPlayer lobbyId a b s).
Proof.
  intros H. unfold absorbPlayer.
  destruct (JSMap.get lobbyId (lobbies s)); [|exact H].
  match goal with
  | |- handles_fresh (match JSMap.get _ (lobbies ?x) with _ => _ end) =>
      assert (H1 : handles_fresh x) by hf; set (s1 := x) in *
  end.
  destruct (JSMap.get lobbyId (lobbies s1)); [|exact H1].
  destruct (_ && _); [now apply hf_endGame | exact H1].
Qed.

Lemma hf_foodStep rnd lobbyId playerId i s :
  handles_fresh s -> handles_fresh (foodStep rnd lobbyId playerId i s).
Proof.
  intros H. unfold foodStep.
  destruct (JSMap.get lobbyId (lobbies s)) as [l|]; [|exact H].
  destruct (JSMap.get playerId (players l)); [|exact H].
  destruct (nth_error (foodItems l) i); [|exact H].
  destruct (Rlt_dec _ _); [|exact H].
  destruct (Rlt_dec _ _); [|hf].
  apply hf_iter; [|hf]. intros s0 H0. unfold respawnOne. hf.
Qed.

Lemma hf_foodLoop rnd lobbyId playerId k s :
  handles_fresh s -> handles_fresh (foodLoop rnd lobbyId playerId k s).
Proof.
  revert s. induction k as [|k IH]; intros s H; [exact H|].
  simpl. now apply IH, hf_foodStep.
Qed.

Lemma hf_checkFoodCollisions rnd lobbyId s :
  handles_fresh s -> handles_fresh (checkFoodCollisions rnd lobbyId s).
Proof.
  intros H. unfold checkFoodCollisions.
  destruct (JSMap.get lobbyId (lobbies s)); [|exact H].
  apply fold_left_inv; [exact H|]. intros s0 b H0.
  destruct (JSMap.get lobbyId (lobbies s0)); [now apply hf_foodLoop | exact H0].
Qed.

Lemma hf_writeObj lobbyId i f st :
  handles_fresh (snd st) -> handles_fresh (snd (writeObj lobbyId i f st)).
Proof.
  intros H. unfold writeObj. destruct (nth_error (fst st) i); [|exact H].
  cbn [snd]. hf.
Qed.

Lemma hf_collidePair lobbyId i j st :
  handles_fresh (snd st) -> handles_fresh (snd (collidePair lobbyId i j st)).
Proof.
  intros H. unfold collidePair.
  destruct (nth_error (fst st) i); [|exact H].
  destruct (nth_error (fst st) j); [|exact H].
  destruct (_ || _); [exact H|].
  destruct (Rlt_dec _ _); [|exact H].
  destruct (Rgt_dec _ _); [|destruct (Rgt_dec _ _)].
  - unfold absorbInto. cbn [snd]. now apply hf_absorbPlayer, hf_writeObj, hf_writeObj.
  - unfold absorbInto. cbn [snd]. now apply hf_absorbPlayer, hf_writeObj, hf_writeObj.
  - unfold bounce. now repeat apply hf_writeObj.
Qed.

Lemma hf_checkPlayerCollisions lobbyId s :
  handles_fresh s -> handles_fresh (checkPlayerCollisions lobbyId s).
Proof.
  intros H. unfold checkPlayerCollisions.
  destruct (JSMap.get lobbyId (lobbies s)); [|exact H].
  apply (fold_left_inv _ (fun st => handles_fresh (snd st))); [exact H|].
  intros st i H0.
  apply (fold_left_inv _ (fun st => handles_fresh (snd st))); [exact H0|].
  intros st' j H1. now apply hf_collidePair.
Qed.

Lemma hf_gameTick rnd clock lobbyId deltaTime s :
  handles_fresh s -> handles_fresh (gameTick rnd clock lobbyId deltaTime s).
Proof.
  intros H. unfold gameTick.
  destruct (JSMap.get lobbyId (lobbies s)) as [l|]; [|exact H].
  destruct (negb _); [hf|].
  unfold broadcastGameState.
  match goal with
  | |- handles_fresh (match JSMap.get _ (lobbies ?x) with _ => _ end) =>
      assert (H1 : handles_fresh x); [|set (s1 := x) in *; hf]
  end.
  unfold updateGameState.
  destruct (JSMap.get lobbyId (lobbies s)); [|exact H].
  destruct (negb _); [exact H|].
  destruct (_ <? _)%nat; [now apply hf_endGame|].
  unfold checkGameEnd.
  match goal with
  | |- handles_fresh (match JSMap.get _ (lobbies ?x) with _ => _ end) =>
      assert (H2 : handles_fresh x); [|set (s2 := x) in *]
  end.
  { unfold cleanUp.
    match goal with
    | |- handles_fresh (match JSMap.get _ (lobbies (with_clockCalls _ ?x)) with _ => _ end) =>
        assert (H3 : handles_fresh x); [|set (s3 := x) in *]
    end.
    { apply hf_checkPlayerCollisions, hf_checkFoodCollisions.
      unfold moveAll. hf. }
    destruct (JSMap.get lobbyId _); [|hf].
    unfold reapInactive. apply fold_left_inv; [hf|].
    intros s0 [k p] H0. cbn [fst snd]. hf. }
  destruct (JSMap.get lobbyId (lobbies s2)); [|exact H2].
  destruct (_ && _); [now apply hf_endGame | exact H2].
Qed.

Lemma hf_startGame rnd lobbyId s :
  handles_fresh s -> handles_fresh (startGame rnd lobbyId s).
Proof.
  intros H. unfold startGame. destruct (JSMap.get lobbyId (lobbies s)); [|exact H].
  unfold startGameTick.
  match goal with
  | |- handles_fresh (match JSMap.get _ (lobbies ?x) with _ => _ end) =>
      assert (H1 : handles_fresh x); [|set (s1 := x) in *]
  end.
  { match goal with
    | |- handles_fresh (match JSMap.get _ (lobbies ?x) with _ => _ end) =>
        assert (H0 : handles_fresh x); [|set (s0 := x) in *; hf]
    end.
    unfold generateFood, initializeGamePositions. hf. }
  destruct (JSMap.get lobbyId (lobbies s1)); [|exact H1].
  cbn [setTimer]. apply hf_update_lobby.
  exact (handles_fresh_setTimer (TickTimer lobbyId) s1 H1).
Qed.

Lemma hf_startCountdown lobbyId s :
  handles_fresh s -> handles_fresh (startCountdown lobbyId s).
Proof.
  intros H. unfold startCountdown. destruct (JSMap.get lobbyId (lobbies s)); [|exact H].
  cbn [setTimer]. apply hf_update_lobby.
  match goal with
  | |- handles_fresh (mkServer _ _ (timers ?x ++ _) _ _ _ _) =>
      apply (handles_fresh_setTimer (CountdownTimer lobbyId) x)
  end.
  hf.
Qed.

Lemma hf_teardown lobbyId s : handles_fresh s -> handles_fresh (teardown lobbyId s).
Proof.
  intros H. unfold teardown. destruct (JSMap.get lobbyId (lobbies s)); [|exact H].
  apply hf_with_lobbies, fold_left_inv; [exact H|].
  intros s0 [k p] H0. cbn [snd]. hf.
Qed.

Lemma hf_step rnd clock s e : handles_fresh s -> handles_fresh (step rnd clock s e).
Proof.
  intros H. destruct e as [clientId|clientId m fresh|clientId|clientId|handle deltaTime];
    cbn [step].
  - hf.
  - unfold handleClientMessage.
    destruct (JSMap.get clientId (clients s)) as [c|]; [|exact H].
    destruct m as [|lobbyId name| |lobbyId input| | |].
    + unfold createLobby. hf.
    + destruct lobbyId; [|hf]. destruct (truthy _); [|hf].
      unfold handleJoinLobby. hf.
    + destruct (c_lobbyId c) as [lid|]; [|hf]. destruct (truthy _); [|hf].
      unfold handleToggleReady.
      destruct (JSMap.get clientId (clients s)) as [c'|]; [|exact H].
      destruct (negb _); [exact H|].
      destruct (c_playerId c'); [|exact H].
      destruct (JSMap.get lid (lobbies s)) as [l|]; [|exact H].
      destruct (JSMap.get _ (players l)); [|exact H].
      unfold checkGameStart.
      match goal with
      | |- handles_fresh (match JSMap.get _ (lobbies ?x) with _ => _ end) =>
          assert (H1 : handles_fresh x) by hf; set (sB := x) in *
      end.
      destruct (JSMap.get lid (lobbies sB)); [|exact H1].
      destruct (negb _); [exact H1|].
      destruct (_ && _); [now apply hf_startCountdown | exact H1].
    + destruct lobbyId; [|exact H]. destruct input; [|exact H].
      destruct (truthy _); [|exact H].
      unfold handlePlayerInput.
      destruct (JSMap.get _ (lobbies s)) as [l|]; [|exact H].
      destruct (negb _); [exact H|].
      destruct (JSMap.get clientId (clients s)) as [c'|]; [|exact H].
      destruct (negb _); [exact H|].
      destruct (c_playerId c'); [|exact H].
      destruct (JSMap.get _ (players l)); [|exact H].
      destruct (Rlt_dec _ _); hf.
    + unfold handleRequestLobby.
      destruct (JSMap.get clientId (clients s)) as [c'|]; [|exact H].
      destruct (negb _); [exact H|].
      destruct (c_lobbyId c'); [|exact H].
      destruct (JSMap.get _ (lobbies s)) as [l|]; [|exact H].
      hf.
    + hf.
    + exact H.
  - unfold setOpen. hf.
  - unfold handleClientDisconnect.
    assert (H0 : handles_fresh (setOpen clientId false s)) by (unfold setOpen; hf).
    set (sA := setOpen clientId false s) in *.
    destruct (JSMap.get clientId (clients sA)) as [c|]; [|exact H0].
    apply hf_with_clients.
    destruct (c_lobbyId c) as [lid|]; [|exact H0].
    destruct (negb _); [exact H0|].
    destruct (JSMap.get lid (lobbies sA)); [|exact H0].
    destruct (c_playerId c); [|exact H0].
    destruct (negb _); [exact H0|].
    match goal with
    | |- handles_fresh (match JSMap.get _ (lobbies ?x) with _ => _ end) =>
        assert (H1 : handles_fresh x) by hf; set (sB := x) in *
    end.
    destruct (JSMap.get lid (lobbies sB)); [|exact H1].
    destruct (_ && _); [now apply hf_endGame | exact H1].
  - unfold fire. destruct (timer_active handle s) as [[lid|lid|lid]|]; [| | |exact H].
    + unfold countdownTick. destruct (JSMap.get lid (lobbies s)) as [l|]; [|exact H].
      destruct (0 <? _)%Z; [hf|]. apply hf_startGame. hf.
    + now apply hf_gameTick.
    + now apply hf_teardown, handles_fresh_clearTimer.
Qed.

(** In every state the server can reach, timer handles are fresh. *)
Lemma handles_fresh_reachable rnd clock s : reachable rnd clock s -> handles_fresh s.
Proof.
  intros [es ->]. unfold run. apply fold_left_inv.
  - intros h t [].
  - intros s e. apply hf_step.
Qed.

(** ** Around the end of a game and the clean-up loop *)

(** The teardown scheduled by [endGame] removes the lobby from the
    registry. *)
Lemma teardown_removes_lobby lobbyId s :
  JSMap.get lobbyId (lobbies (teardown lobbyId s)) = None.
Proof.
  unfold teardown. destruct (JSMap.get lobbyId (lobbies s)) eqn:E; [|exact E].
  cbn [with_lobbies lobbies]. now rewrite get_delete, String.eqb_refl.
Qed.

(** When the roster drops to one player because the other one
    disconnects, [game_over] is sent once. *)
Lemma disconnect_ends_game_once :
  let s' := step (fun _ => 0) (fun _ => 0%Z) duel (Close "cB") in
  sent s' = [ ("cA", player_eaten "B" None); ("cA", game_over (Some "A") 2) ] /\
  timers s' = [ (2%nat, TeardownTimer "LOBBY1") ].
Proof. unfold duel. crunch. split; reflexivity. Qed.

(** The clean-up loop itself does what its comment says: a player whose
    time stamp is more than 5000 ms old when the loop runs is no longer in
    the roster afterwards. *)
Lemma reapInactive_removes lobbyId now roster :
  forall s k,
    JSMap.get k (roster_of lobbyId s) = None \/
    (JSMap.get lobbyId (lobbies s) <> None /\
     exists p, In (k, p) roster /\ inactive now p = true) ->
    JSMap.get k (roster_of lobbyId (reapInactive lobbyId now roster s)) = None.
Proof.
  unfold reapInactive.
  induction roster as [|[k0 p0] r IH]; intros s k H; simpl.
  - destruct H as [H|(_ & p & [] & _)]. exact H.
  - apply IH. cbn [fst snd].
    assert (Del : forall k',
               JSMap.get k' (roster_of lobbyId s) = None \/ k' = k0 ->
               JSMap.get k'
                 (roster_of lobbyId
                    (broadcastToLobby lobbyId (player_disconnected k0)
                       (update_lobby lobbyId
                          (fun l => with_players (JSMap.delete k0 (players l)) l) s)))
               = None).
    { intros k' Hk. unfold roster_of in *.
      rewrite broadcastToLobby_lobbies, get_update_lobby_same.
      destruct (JSMap.get lobbyId (lobbies s)) as [l|]; [|reflexivity].
      cbn [option_map players with_players]. rewrite get_delete.
      destruct (String.eqb_spec k0 k') as [->|N]; [reflexivity|].
      destruct Hk as [Hk|Hk]; [exact Hk | congruence]. }
    assert (Ex : JSMap.get lobbyId (lobbies s) <> None ->
                 JSMap.get lobbyId
                   (lobbies
                      (broadcastToLobby lobbyId (player_disconnected k0)
                         (update_lobby lobbyId
                            (fun l => with_players (JSMap.delete k0 (players l)) l) s)))
                 <> None).
    { intros E. rewrite broadcastToLobby_lobbies, get_update_lobby_same.
      destruct (JSMap.get lobbyId (lobbies s)); [discriminate | contradiction]. }
    destruct H as [H|(E & p & [[= -> ->]|I] & A)].
    + left. destruct (inactive now p0); [apply Del; now left | exact H].
    + left. rewrite A. apply Del. now right.
    + destruct (inactive now p0).
      * right. split; [now apply Ex|]. eauto.
      * right. split; [exact E|]. eauto.
Qed.

(** * Further properties of the server *)

(** ** The dispatcher and the lobby registry *)

(** X1. A [create_lobby] request of a registered connection registers an
    empty lobby in state [lobby] under the generated code, replacing any
    lobby already registered under that code; the other lobbies, the
    connections (the requester is not made a member) and the timers are
    untouched, and the requester is told the code if its socket is open. *)
Theorem create_lobby_registers_empty_lobby clientId code s c :
  JSMap.get clientId (clients s) = Some c ->
  let s' := handleClientMessage clientId create_lobby code s in
  JSMap.get code (lobbies s') = Some DEFAULT_LOBBY /\
  (forall k, k <> code -> JSMap.get k (lobbies s') = JSMap.get k (lobbies s)) /\
  clients s' = clients s /\ timers s' = timers s /\
  sent s' = (sent s ++ if c_open c then [(clientId, lobby_created code)] else [])%list.
Proof.
  intros Hc s'. subst s'. unfold handleClientMessage. rewrite Hc.
  autorewrite with frame. unfold createLobby. cbn [with_lobbies lobbies clients timers].
  split; [apply get_set_same|].
  split; [intros k Hk; now apply get_set_other|].
  split; [reflexivity|]. split; [reflexivity|].
  rewrite sendToClient_eq. unfold deliverable. cbn [with_lobbies clients]. rewrite Hc.
  destruct (c_open c); [reflexivity | now rewrite app_nil_r].
Qed.

Lemma create_lobby_registers_empty_lobby_witness :
  JSMap.get "LOBBY1"
    (lobbies (handleClientMessage "cB" create_lobby "LOBBY1" waiting_room))
  = Some DEFAULT_LOBBY.
Proof.
  refine (proj1 (create_lobby_registers_empty_lobby "cB" "LOBBY1" waiting_room _ _)).
  reflexivity.
Defined.

(** X2. The requests the dispatcher turns down.  A message of a connection
    that is not registered is dropped.  For a registered connection with an
    open socket: a [join_lobby] without a lobby code, a [toggle_ready] of a
    connection that is in no lobby and a message of an unknown type are
    answered by an error of their own and change nothing else; a message
    without a type and a [player_input] without a lobby code or without an
    input are dropped without an answer. *)
Theorem dispatcher_rejections clientId fresh s :
  (JSMap.get clientId (clients s) = None ->
   forall m, handleClientMessage clientId m fresh s = s) /\
  (forall c, JSMap.get clientId (clients s) = Some c -> c_open c = true ->
     (forall lobbyId name, truthy lobbyId = false ->
        only_reports clientId (error "Lobby ID is required") s
          (handleClientMessage clientId (join_lobby lobbyId name) fresh s)) /\
     (truthy (c_lobbyId c) = false ->
        only_reports clientId (error "Not in a lobby") s
          (handleClientMessage clientId toggle_ready fresh s)) /\
     only_reports clientId (error "Unknown message type") s
       (handleClientMessage clientId unknown_type fresh s) /\
     handleClientMessage clientId no_type fresh s = s /\
     (forall lobbyId input, truthy lobbyId = false \/ input = None ->
        handleClientMessage clientId (player_input lobbyId input) fresh s = s)).
Proof.
  split.
  { intros Hc m. unfold handleClientMessage. now rewrite Hc. }
  intros c Hc Ho.
  assert (D : deliverable clientId s = true) by (unfold deliverable; now rewrite Hc).
  unfold handleClientMessage. rewrite Hc.
  split; [|split; [|split; [|split]]].
  - intros lobbyId name T. destruct lobbyId as [lid|].
    + rewrite T. now apply sendToClient_only_reports.
    + now apply sendToClient_only_reports.
  - intros T. destruct (c_lobbyId c) as [lid|].
    + rewrite T. now apply sendToClient_only_reports.
    + now apply sendToClient_only_reports.
  - now apply sendToClient_only_reports.
  - reflexivity.
  - intros lobbyId input [T| ->].
    + destruct lobbyId as [lid|]; [|reflexivity].
      destruct input; [now rewrite T | reflexivity].
    + now destruct lobbyId.
Qed.

Lemma dispatcher_rejections_witness :
  only_reports "cB" (error "Not in a lobby") waiting_room
    (handleClientMessage "cB" toggle_ready "" waiting_room).
Proof.
  refine (proj1 (proj2 (proj2 (dispatcher_rejections "cB" "" waiting_room) _ _ _)) _);
    reflexivity.
Defined.

(** ** Joining *)

Lemma recipients_set_client cs k c c' roster :
  JSMap.get k cs = Some c -> c_open c' = c_open c ->
  recipients (JSMap.set k c' cs) roster = recipients cs roster.
Proof.
  intros Hc Ho. unfold recipients. apply flat_map_ext. intros [k0 q]. simpl.
  destruct (String.eqb_spec k (p_clientId q)) as [<-|N].
  - now rewrite get_set_same, Hc, Ho.
  - now rewrite get_set_other.
Qed.

(** X3. A successful join binds the connection to the new player and to
    the lobby (a binding it had before is overwritten, the player of that
    binding stays in the roster), stores the new player with the start
    values, and sends first [welcome] to the joiner, then one
    [lobby_update] listing the whole new roster to every open connection of
    the roster, the joiner included. *)
Theorem join_binds_connection clientId lobbyId playerName uuid s l c :
  JSMap.get clientId (clients s) = Some c ->
  JSMap.get lobbyId (lobbies s) = Some l ->
  gameState l = GLobby ->
  (JSMap.size (players l) < CONFIG.maxPlayers)%nat ->
  let s' := handleJoinLobby clientId lobbyId playerName uuid s in
  let p := mkPlayer uuid clientId playerName
             (nth (JSMap.size (players l) mod List.length playerColors) playerColors 0%Z)
             false 0 0 CONFIG.playerStartSize (mkVec 0 0) None in
  let roster' := JSMap.set uuid p (players l) in
  JSMap.get clientId (clients s')
    = Some (mkClient (c_id c) (c_open c) (Some uuid) (Some lobbyId)) /\
  (forall k, k <> clientId -> JSMap.get k (clients s') = JSMap.get k (clients s)) /\
  JSMap.get lobbyId (lobbies s') = Some (with_players roster' l) /\
  JSMap.get uuid roster' = Some p /\
  (forall k, k <> uuid -> JSMap.get k roster' = JSMap.get k (players l)) /\
  sent s' =
    (sent s
       ++ (if c_open c then [(clientId, welcome clientId uuid lobbyId)] else [])
       ++ to_all (recipients (clients s) roster')
            (lobby_update
               (map (fun q => (p_id q, p_name q, p_ready q, p_color q))
                    (JSMap.values roster'))))%list.
Proof.
  intros Hc Hl G Room s' p roster'. subst s'. unfold handleJoinLobby.
  rewrite Hl, G. simpl negb. cbv iota.
  assert (F : (CONFIG.maxPlayers <=? JSMap.size (players l))%nat = false)
    by (apply Nat.leb_gt; exact Room).
  rewrite F. fold p.
  set (s1 := update_lobby lobbyId _ s).
  assert (H1 : JSMap.get lobbyId (lobbies s1) = Some (with_players roster' l)).
  { subst s1. now rewrite get_update_lobby_same, Hl. }
  assert (C1 : clients s1 = clients s) by reflexivity.
  rewrite C1, Hc.
  set (c' := mkClient (c_id c) (c_open c) (Some uuid) (Some lobbyId)).
  set (s2 := with_clients _ s1).
  set (s3 := sendToClient clientId _ s2).
  assert (C3 : clients s3 = JSMap.set clientId c' (clients s)).
  { subst s3 s2. now autorewrite with frame. }
  assert (H3 : JSMap.get lobbyId (lobbies s3) = Some (with_players roster' l)).
  { subst s3 s2. now autorewrite with frame. }
  assert (S3 : sent s3 = (sent s ++ if c_open c
                                    then [(clientId, welcome clientId uuid lobbyId)]
                                    else [])%list).
  { subst s3. rewrite sendToClient_eq. unfold deliverable. subst s2.
    cbn [with_clients clients]. rewrite get_set_same. subst c'. cbn [c_open].
    destruct (c_open c); [reflexivity | now rewrite app_nil_r]. }
  unfold broadcastLobbyUpdate. rewrite H3. autorewrite with frame.
  rewrite C3, H3, broadcastToLobby_sent, S3.
  split; [apply get_set_same|].
  split; [intros k Hk; now apply get_set_other|].
  split; [reflexivity|].
  split; [apply get_set_same|].
  split; [intros k Hk; now apply get_set_other|].
  unfold audience. rewrite H3, C3. cbn [players with_players].
  rewrite (recipients_set_client _ _ c) by (exact Hc || reflexivity).
  now rewrite <- app_assoc.
Qed.

Lemma join_binds_connection_witness :
  JSMap.get "cB" (clients (handleJoinLobby "cB" "LOBBY1" "bob" "B" waiting_room))
  = Some (mkClient "cB" true (Some "B") (Some "LOBBY1")).
Proof.
  refine (proj1 (join_binds_connection "cB" "LOBBY1" "bob" "B" waiting_room waiting_lobby
                   (mkClient "cB" true None None) _ _ _ _)).
  - reflexivity.
  - reflexivity.
  - reflexivity.
  - unfold CONFIG.maxPlayers. simpl. lia.
Defined.

(** ** Readiness *)

Lemma startCountdown_eq lobbyId s l :
  JSMap.get lobbyId (lobbies s) = Some l ->
  let s' := startCountdown lobbyId s in
  JSMap.get lobbyId (lobbies s')
    = Some (with_countdownInterval (Some (nextHandle s))
              (with_countdown CONFIG.countdownTime (with_gameState GCountdown l))) /\
  (forall k, k <> lobbyId -> JSMap.get k (lobbies s') = JSMap.get k (lobbies s)) /\
  clients s' = clients s /\
  timers s' = (timers s ++ [(nextHandle s, CountdownTimer lobbyId)])%list /\
  nextHandle s' = S (nextHandle s) /\
  sent s' = (sent s ++ to_all (audience lobbyId s)
                         (countdown_msg CONFIG.countdownTime))%list.
Proof.
  intros Hl. unfold startCountdown. rewrite Hl.
  set (s1 := update_lobby lobbyId _ s).
  set (s2 := broadcastToLobby lobbyId _ s1).
  cbn [setTimer]. cbv zeta.
  assert (A1 : audience lobbyId s1 = audience lobbyId s)
    by (apply audience_update_lobby; reflexivity).
  assert (N2 : nextHandle s2 = nextHandle s) by (subst s2 s1; now autorewrite with frame).
  assert (T2 : timers s2 = timers s) by (subst s2 s1; now autorewrite with frame).
  assert (C2 : clients s2 = clients s) by (subst s2 s1; now autorewrite with frame).
  split; [|split; [|split; [|split; [|split]]]].
  - rewrite get_update_lobby_same. cbn [lobbies]. subst s2.
    rewrite broadcastToLobby_lobbies. subst s1. rewrite get_update_lobby_same, Hl.
    cbn [option_map]. now rewrite N2.
  - intros k Hk. rewrite get_update_lobby. cbn [lobbies]. subst s2.
    rewrite broadcastToLobby_lobbies. subst s1. rewrite get_update_lobby.
    destruct (String.eqb_spec lobbyId k); [congruence | reflexivity].
  - exact C2.
  - cbn [update_lobby with_lobbies timers]. now rewrite T2, N2.
  - cbn [update_lobby with_lobbies nextHandle]. now rewrite N2.
  - cbn [update_lobby with_lobbies sent]. subst s2. now rewrite broadcastToLobby_sent, A1.
Qed.

Lemma recipients_toggled cs playerId roster :
  recipients cs (toggled playerId roster) = recipients cs roster.
Proof. now apply recipients_update. Qed.

(** X4. A [toggle_ready] of a connection whose player is in the lobby flips
    the ready flag of that player and of no other, and reports the new
    roster to the lobby.  The countdown starts exactly when, after the
    flip, the lobby is in state [lobby], holds at least
    [minPlayersToStart] players and all of them are ready: then the lobby
    is in state [countdown] with the count at [countdownTime], one
    countdown interval has been scheduled and the count has been
    announced; otherwise state, count and timers are as before. *)
Theorem toggle_ready_starts_countdown clientId lobbyId s c playerId l p :
  JSMap.get clientId (clients s) = Some c ->
  c_playerId c = Some playerId -> playerId <> "" ->
  JSMap.get lobbyId (lobbies s) = Some l ->
  JSMap.get playerId (players l) = Some p ->
  let s' := handleToggleReady clientId lobbyId s in
  let roster' := toggled playerId (players l) in
  let go := game_state_eqb (gameState l) GLobby && quorum roster' in
  let update := lobby_update (map (fun q => (p_id q, p_name q, p_ready q, p_color q))
                                  (JSMap.values roster')) in
  JSMap.get playerId roster' = Some (with_ready (negb (p_ready p)) p) /\
  (forall k, k <> playerId -> JSMap.get k roster' = JSMap.get k (players l)) /\
  JSMap.get lobbyId (lobbies s')
    = Some (if go then counting_down (nextHandle s) (with_players roster' l)
            else with_players roster' l) /\
  (forall k, k <> lobbyId -> JSMap.get k (lobbies s') = JSMap.get k (lobbies s)) /\
  clients s' = clients s /\
  timers s' = (timers s ++ if go then [(nextHandle s, CountdownTimer lobbyId)] else [])%list /\
  sent s' = (sent s ++ to_all (audience lobbyId s) update
                    ++ if go then to_all (audience lobbyId s)
                                    (countdown_msg CONFIG.countdownTime)
                       else [])%list.
Proof.
  intros Hc Hp Ne Hl Hq s' roster' go update. subst s'.
  unfold handleToggleReady. rewrite Hc, Hp, Hl, Hq.
  assert (T : truthy (Some playerId) = true).
  { simpl. destruct (String.eqb_spec playerId ""); [contradiction | reflexivity]. }
  rewrite T. simpl negb. cbv iota.
  set (s1 := update_player lobbyId playerId _ s).
  assert (H1 : JSMap.get lobbyId (lobbies s1) = Some (with_players roster' l)).
  { subst s1. unfold update_player. now rewrite get_update_lobby_same, Hl. }
  assert (O1 : forall k, k <> lobbyId -> JSMap.get k (lobbies s1) = JSMap.get k (lobbies s)).
  { intros k Hk. subst s1. unfold update_player. rewrite get_update_lobby.
    destruct (String.eqb_spec lobbyId k); [congruence | reflexivity]. }
  assert (A1 : audience lobbyId s1 = audience lobbyId s).
  { unfold audience. rewrite H1, Hl. cbn [players with_players].
    subst roster'. now rewrite recipients_toggled. }
  set (s2 := broadcastLobbyUpdate lobbyId s1).
  assert (S2 : sent s2 = (sent s ++ to_all (audience lobbyId s) update)%list).
  { subst s2. unfold broadcastLobbyUpdate. rewrite H1, broadcastToLobby_sent, A1.
    reflexivity. }
  assert (H2 : lobbies s2 = lobbies s1) by (subst s2; now autorewrite with frame).
  assert (C2 : clients s2 = clients s) by (subst s2 s1; now autorewrite with frame).
  assert (T2 : timers s2 = timers s) by (subst s2 s1; now autorewrite with frame).
  assert (N2 : nextHandle s2 = nextHandle s) by (subst s2 s1; now autorewrite with frame).
  assert (A2 : audience lobbyId s2 = audience lobbyId s).
  { rewrite <- A1. apply audience_frame; [exact H2 | now rewrite C2]. }
  split; [subst roster'; unfold toggled; now rewrite get_update_same, Hq|].
  split.
  { intros k Hk. subst roster'. unfold toggled. rewrite get_update.
    destruct (String.eqb_spec playerId k); [congruence | reflexivity]. }
  unfold checkGameStart. rewrite H2, H1. cbn [gameState with_players players].
  subst go. unfold quorum, JSMap.size, JSMap.values.
  rewrite length_map.
  destruct (game_state_eqb (gameState l) GLobby) eqn:G; simpl negb; cbv iota;
    cbn [andb].
  - destruct ((CONFIG.minPlayersToStart <=? List.length roster')%nat
               && forallb p_ready (map snd roster')) eqn:Q.
    + destruct (startCountdown_eq lobbyId s2 (with_players roster' l))
        as (E1 & E2 & E3 & E4 & _ & E6); [now rewrite H2|].
      rewrite E1, E3, E4, E6, N2, T2, C2, S2, A2, <- app_assoc.
      repeat split. intros k Hk. rewrite E2, H2 by exact Hk. now apply O1.
    + rewrite H2, H1, C2, T2, S2, !app_nil_r. repeat split.
      intros k Hk. now apply O1.
  - rewrite H2, H1, C2, T2, S2, !app_nil_r. repeat split.
    intros k Hk. now apply O1.
Qed.

Lemma toggle_ready_starts_countdown_witness :
  gameState_of "LOBBY1" (handleToggleReady "cA" "LOBBY1" waiting_room) = Some GLobby.
Proof.
  unfold gameState_of.
  rewrite (proj1 (proj2 (proj2
             (toggle_ready_starts_countdown "cA" "LOBBY1" waiting_room
                (mkClient "cA" true (Some "A") (Some "LOBBY1")) "A" waiting_lobby
                (mkPlayer "A" "cA" "ann" 0x44aa88 false 0 0 1 (mkVec 0 0) None)
                eq_refl eq_refl ltac:(discriminate) eq_refl eq_refl)))).
  reflexivity.
Defined.

Lemma update_twice {V : Type} k (f : V -> V) (m : list (string * V)) :
  (forall v, f (f v) = v) -> JSMap.update k f (JSMap.update k f m) = m.
Proof.
  intros F. induction m as [|[k0 v] r IH]; [reflexivity|]. simpl.
  destruct (k0 =? k) eqn:E; simpl; rewrite E; [now rewrite F | now rewrite IH].
Qed.

Lemma toggled_twice playerId roster : toggled playerId (toggled playerId roster) = roster.
Proof.
  apply update_twice. intros [i c n k r x y z inp t]. unfold with_ready. simpl.
  now rewrite negb_involutive.
Qed.

(** What [handleToggleReady] does to the registries when the player of the
    connection is in the lobby. *)
Lemma handleToggleReady_roster clientId lobbyId s c playerId l p :
  JSMap.get clientId (clients s) = Some c ->
  c_playerId c = Some playerId -> playerId <> "" ->
  JSMap.get lobbyId (lobbies s) = Some l ->
  JSMap.get playerId (players l) = Some p ->
  let s' := handleToggleReady clientId lobbyId s in
  clients s' = clients s /\
  exists l', JSMap.get lobbyId (lobbies s') = Some l' /\
             players l' = toggled playerId (players l).
Proof.
  intros Hc Hp Ne Hl Hq. unfold handleToggleReady. rewrite Hc, Hp, Hl, Hq.
  assert (T : truthy (Some playerId) = true).
  { simpl. destruct (String.eqb_spec playerId ""); [contradiction | reflexivity]. }
  rewrite T. simpl negb. cbv iota.
  set (s1 := update_player lobbyId playerId _ s).
  set (s2 := broadcastLobbyUpdate lobbyId s1).
  assert (H2 : JSMap.get lobbyId (lobbies s2)
               = Some (with_players (toggled playerId (players l)) l)).
  { subst s2 s1. autorewrite with frame. unfold update_player.
    now rewrite get_update_lobby_same, Hl. }
  assert (C2 : clients s2 = clients s) by (subst s2 s1; now autorewrite with frame).
  unfold checkGameStart. rewrite H2.
  destruct (negb _); [split; [exact C2 | eexists; split; [exact H2 | reflexivity]]|].
  destruct (_ && _); [|split; [exact C2 | eexists; split; [exact H2 | reflexivity]]].
  destruct (startCountdown_eq lobbyId s2 _ H2) as (E1 & _ & E3 & _).
  split; [now rewrite E3|]. eexists. split; [exact E1 | reflexivity].
Qed.

(** X5. Two [toggle_ready] requests of the same connection in a row leave
    the roster of the lobby as it was, whether or not the first one started
    the countdown. *)
Theorem toggle_ready_twice clientId lobbyId s c playerId l p :
  JSMap.get clientId (clients s) = Some c ->
  c_playerId c = Some playerId -> playerId <> "" ->
  JSMap.get lobbyId (lobbies s) = Some l ->
  JSMap.get playerId (players l) = Some p ->
  roster_of lobbyId
    (handleToggleReady clientId lobbyId (handleToggleReady clientId lobbyId s))
  = players l.
Proof.
  intros Hc Hp Ne Hl Hq.
  destruct (handleToggleReady_roster clientId lobbyId s c playerId l p Hc Hp Ne Hl Hq)
    as (C1 & l1 & H1 & P1).
  assert (Hq1 : JSMap.get playerId (players l1) = Some (with_ready (negb (p_ready p)) p)).
  { rewrite P1. unfold toggled. now rewrite get_update_same, Hq. }
  rewrite <- C1 in Hc.
  destruct (handleToggleReady_roster clientId lobbyId _ c playerId l1 _ Hc Hp Ne H1 Hq1)
    as (_ & l2 & H2 & P2).
  unfold roster_of. rewrite H2, P2, P1. apply toggled_twice.
Qed.

Lemma toggle_ready_twice_witness :
  roster_of "LOBBY1"
    (handleToggleReady "cA" "LOBBY1" (handleToggleReady "cA" "LOBBY1" waiting_room))
  = players waiting_lobby.
Proof.
  apply (toggle_ready_twice "cA" "LOBBY1" waiting_room
           (mkClient "cA" true (Some "A") (Some "LOBBY1")) "A" waiting_lobby
           (mkPlayer "A" "cA" "ann" 0x44aa88 false 0 0 1 (mkVec 0 0) None));
    solve [reflexivity | discriminate].
Defined.

Lemma counting_handleToggleReady clientId lobbyId h c s :
  counting lobbyId h c s -> counting lobbyId h c (handleToggleReady clientId lobbyId s).
Proof.
  intros Cn. unfold handleToggleReady.
  destruct (JSMap.get clientId (clients s)) as [cl|]; [|exact Cn].
  destruct (negb (truthy (c_playerId cl))); [exact Cn|].
  destruct (c_playerId cl) as [playerId|]; [|exact Cn].
  destruct (JSMap.get lobbyId (lobbies s)) as [l0|] eqn:Hl0; [|exact Cn].
  destruct (JSMap.get playerId (players l0)); [|exact Cn].
  destruct Cn as (F & T & l & Hl & G & C & I).
  rewrite Hl0 in Hl. injection Hl as ->.
  set (s1 := update_player lobbyId playerId _ s).
  set (s2 := broadcastLobbyUpdate lobbyId s1).
  assert (H2 : JSMap.get lobbyId (lobbies s2)
               = Some (with_players (toggled playerId (players l)) l)).
  { subst s2 s1. autorewrite with frame. unfold update_player.
    now rewrite get_update_lobby_same, Hl0. }
  unfold checkGameStart. rewrite H2. cbn [gameState with_players]. rewrite G.
  simpl negb. cbv iota.
  split; [|split].
  - apply (handles_fresh_frame s); [| | exact F]; subst s2 s1; now autorewrite with frame.
  - rewrite (timer_active_frame _ s); [exact T|]. subst s2 s1. now autorewrite with frame.
  - eexists. split; [exact H2|]. simpl. auto.
Qed.

(** X6. Withdrawing readiness does not stop a countdown: a lobby that is
    counting down from [c] on its interval is still doing so after any
    [toggle_ready], and the [c]-th firing of the interval from then on puts
    it in state [playing]. *)
Theorem toggle_ready_keeps_countdown rnd clock clientId lobbyId h c s :
  counting lobbyId h c s -> (0 < c)%Z ->
  let s' := handleToggleReady clientId lobbyId s in
  counting lobbyId h c s' /\
  gameState_of lobbyId (fireTimes rnd clock h (Z.to_nat c) s') = Some GPlaying.
Proof.
  intros Cn Pos s'.
  assert (Cn' : counting lobbyId h c s') by now apply counting_handleToggleReady.
  split; [exact Cn'|].
  replace (Z.to_nat c) with (S (Z.to_nat c - 1)) by lia.
  rewrite fireTimes_S.
  destruct (fireTimes_counting rnd clock lobbyId h s' (Z.to_nat c - 1) c Cn') as [Ck _];
    [lia|].
  apply (fire_finish rnd clock lobbyId h _ 0 _ Ck). lia.
Qed.

Lemma toggle_ready_keeps_countdown_witness :
  gameState_of "LOBBY1"
    (fireTimes (fun _ => 0) (fun _ => 0%Z) 0 3
       (handleToggleReady "cA" "LOBBY1" (startCountdown "LOBBY1" waiting_room)))
  = Some GPlaying.
Proof.
  refine (proj2 (toggle_ready_keeps_countdown (fun _ => 0) (fun _ => 0%Z) "cA" "LOBBY1"
                   0 3 (startCountdown "LOBBY1" waiting_room) _ _)).
  - apply (startCountdown_counting "LOBBY1" waiting_room waiting_lobby eq_refl).
    intros h t [].
  - lia.
Defined.

(** ** Input *)

Lemma sqrt_scaled k x y :
  0 < k -> sqrt (k * x * (k * x) + k * y * (k * y)) = k * sqrt (x * x + y * y).
Proof.
  intros Hk.
  replace (k * x * (k * x) + k * y * (k * y)) with (k * k * (x * x + y * y)) by ring.
  rewrite sqrt_mult by nra. rewrite sqrt_square by lra. reflexivity.
Qed.

(** X7. Within the range of the doubles ([in_double_range]) only the
    direction of a [player_input] counts: an input vector and a positive
    multiple of it, both in that range, leave the server in the same state
    (in doubles: up to the rounding of the square root and of the two
    divisions, that is the last digit of the stored components; outside
    the range the magnitude does count, see [normalise_overflow] and
    [normalise_underflow]). *)
Theorem input_magnitude_is_irrelevant clientId lobbyId x y k s :
  0 < k ->
  in_double_range (mkVec x y) ->
  in_double_range (mkVec (k * x) (k * y)) ->
  handlePlayerInput clientId lobbyId (mkVec (k * x) (k * y)) s
  = handlePlayerInput clientId lobbyId (mkVec x y) s.
Proof.
  intros Hk _ _. unfold handlePlayerInput.
  destruct (JSMap.get lobbyId (lobbies s)) as [l|]; [|reflexivity].
  destruct (negb _); [reflexivity|].
  destruct (JSMap.get clientId (clients s)) as [c|]; [|reflexivity].
  destruct (negb _); [reflexivity|].
  destruct (c_playerId c) as [playerId|]; [|reflexivity].
  destruct (JSMap.get playerId (players l)); [|reflexivity].
  cbn [vx vy]. rewrite (sqrt_scaled k x y Hk).
  pose proof (sqrt_pos (x * x + y * y)) as P.
  destruct (Rlt_dec 0 (k * sqrt (x * x + y * y))) as [A|A];
    destruct (Rlt_dec 0 (sqrt (x * x + y * y))) as [B|B].
  - do 3 f_equal; field; lra.
  - exfalso. apply B. nra.
  - exfalso. apply A. nra.
  - reflexivity.
Qed.

Lemma input_magnitude_is_irrelevant_witness :
  handlePlayerInput "cA" "LOBBY1" (mkVec (5 * 3) (5 * 4)) duel
  = handlePlayerInput "cA" "LOBBY1" (mkVec 3 4) duel.
Proof.
  apply (input_magnitude_is_irrelevant "cA" "LOBBY1" 3 4 5 duel).
  - lra.
  - apply moderate_in_double_range. rewrite !Rabs_right by lra.
    unfold Rmax. destruct (Rle_dec 3 4); lra.
  - apply moderate_in_double_range. rewrite !Rabs_right by lra.
    unfold Rmax. destruct (Rle_dec (5 * 3) (5 * 4)); lra.
Defined.

Lemma keys_update {V : Type} k (f : V -> V) (m : list (string * V)) :
  JSMap.keys (JSMap.update k f m) = JSMap.keys m.
Proof.
  induction m as [|[k0 v] r IH]; [reflexivity|]. simpl.
  destruct (k0 =? k); simpl; [reflexivity | now rewrite IH].
Qed.

Lemma with_players_same l : with_players (players l) l = l.
Proof. now destruct l. Qed.

Lemma with_input_same p : with_input (p_input p) p = p.
Proof. now destruct p. Qed.

(** X8. A [player_input] sends nothing and changes no connection, no timer
    and no other lobby; it is dropped unless the lobby is in state
    [playing]; in the lobby it leaves every field but the roster alone,
    the roster keeps its players and their order, and the only thing that
    can differ is the stored input of the player the connection is bound
    to. *)
Theorem input_touches_only_own_input clientId lobbyId input s :
  let s' := handlePlayerInput clientId lobbyId input s in
  clients s' = clients s /\ timers s' = timers s /\ sent s' = sent s /\
  (gameState_of lobbyId s <> Some GPlaying -> s' = s) /\
  (forall k, k <> lobbyId -> JSMap.get k (lobbies s') = JSMap.get k (lobbies s)) /\
  (forall l, JSMap.get lobbyId (lobbies s) = Some l ->
     exists roster',
       JSMap.get lobbyId (lobbies s') = Some (with_players roster' l) /\
       JSMap.keys roster' = JSMap.keys (players l) /\
       forall q p, JSMap.get q (players l) = Some p ->
         exists i, JSMap.get q roster' = Some (with_input i p) /\
                   (i <> p_input p ->
                    exists c, JSMap.get clientId (clients s) = Some c /\
                              c_playerId c = Some q)).
Proof.
  intros s'.
  assert (Same : s' = s ->
    clients s' = clients s /\ timers s' = timers s /\ sent s' = sent s /\
    (gameState_of lobbyId s <> Some GPlaying -> s' = s) /\
    (forall k, k <> lobbyId -> JSMap.get k (lobbies s') = JSMap.get k (lobbies s)) /\
    (forall l, JSMap.get lobbyId (lobbies s) = Some l ->
       exists roster',
         JSMap.get lobbyId (lobbies s') = Some (with_players roster' l) /\
         JSMap.keys roster' = JSMap.keys (players l) /\
         forall q p, JSMap.get q (players l) = Some p ->
           exists i, JSMap.get q roster' = Some (with_input i p) /\
                     (i <> p_input p ->
                      exists c, JSMap.get clientId (clients s) = Some c /\
                                c_playerId c = Some q))).
  { intros ->. repeat split; try reflexivity.
    intros l Hl. exists (players l). rewrite with_players_same.
    split; [exact Hl|]. split; [reflexivity|].
    intros q p Hq. exists (p_input p). rewrite with_input_same.
    split; [exact Hq|]. intros N. now contradiction N. }
  subst s'. unfold handlePlayerInput in *.
  destruct (JSMap.get lobbyId (lobbies s)) as [l|] eqn:Hl; [|now apply Same].
  destruct (game_state_eqb (gameState l) GPlaying) eqn:G; simpl negb in *; cbv iota in *;
    [|now apply Same].
  destruct (JSMap.get clientId (clients s)) as [c|] eqn:Hc; [|now apply Same].
  destruct (negb _); [now apply Same|].
  destruct (c_playerId c) as [playerId|] eqn:Hp; [|now apply Same].
  destruct (JSMap.get playerId (players l)) as [p0|]; [|now apply Same].
  clear Same p0.
  assert (Upd : forall v,
    let s' := update_player lobbyId playerId (with_input v) s in
    clients s' = clients s /\ timers s' = timers s /\ sent s' = sent s /\
    (gameState_of lobbyId s <> Some GPlaying -> s' = s) /\
    (forall k, k <> lobbyId -> JSMap.get k (lobbies s') = JSMap.get k (lobbies s)) /\
    (forall l0, Some l = Some l0 ->
       exists roster',
         JSMap.get lobbyId (lobbies s') = Some (with_players roster' l0) /\
         JSMap.keys roster' = JSMap.keys (players l0) /\
         forall q p, JSMap.get q (players l0) = Some p ->
           exists i, JSMap.get q roster' = Some (with_input i p) /\
                     (i <> p_input p ->
                      exists c0, Some c = Some c0 /\ c_playerId c0 = Some q))).
  { intros v s'. subst s'. unfold update_player.
    split; [reflexivity|]. split; [reflexivity|]. split; [reflexivity|].
    split.
    { intros N. exfalso. apply N. unfold gameState_of. rewrite Hl. simpl.
      now destruct (gameState l). }
    split.
    { intros k Hk. rewrite get_update_lobby.
      destruct (String.eqb_spec lobbyId k); [congruence | reflexivity]. }
    intros l0 [= <-]. eexists. split; [now rewrite get_update_lobby_same, Hl|].
    split; [apply keys_update|].
    intros q p Hq. rewrite get_update, Hq.
    destruct (String.eqb_spec playerId q) as [->|N].
    - exists v. split; [reflexivity|]. intros _. now exists c.
    - exists (p_input p). rewrite with_input_same. split; [reflexivity|].
      intros N'. now contradiction N'. }
  destruct (Rlt_dec 0 _); apply Upd.
Qed.

(** ** Back to the lobby *)

Lemma recipients_map_players cs (f : player -> player) roster :
  (forall p, p_clientId (f p) = p_clientId p) ->
  recipients cs (map (fun kp : string * player => (fst kp, f (snd kp))) roster)
  = recipients cs roster.
Proof.
  intros P. unfold recipients.
  induction roster as [|[k q] r IH]; [reflexivity|]. simpl.
  now rewrite P, IH.
Qed.

(** The lobby, the timers and the log after [handleRequestLobby]. *)
Lemma handleRequestLobby_eq clientId s c lobbyId l :
  JSMap.get clientId (clients s) = Some c ->
  c_lobbyId c = Some lobbyId -> lobbyId <> "" ->
  JSMap.get lobbyId (lobbies s) = Some l ->
  let s' := handleRequestLobby clientId s in
  let roster' := map (fun kp : string * player => (fst kp, reset_player (snd kp)))
                     (players l) in
  JSMap.get lobbyId (lobbies s')
    = Some (mkLobby roster' GLobby [] CONFIG.countdownTime None None) /\
  (forall k, k <> lobbyId -> JSMap.get k (lobbies s') = JSMap.get k (lobbies s)) /\
  clients s' = clients s /\
  (forall h, interval_of l h -> timer_active h s' = None) /\
  (forall h, ~ interval_of l h -> timer_active h s' = timer_active h s) /\
  sent s' = (sent s ++ to_all (audience lobbyId s) force_lobby
                    ++ to_all (audience lobbyId s)
                         (lobby_update
                            (map (fun q => (p_id q, p_name q, p_ready q, p_color q))
                                 (JSMap.values roster'))))%list.
Proof.
  intros Hc Hi Ne Hl. unfold handleRequestLobby. rewrite Hc, Hi, Hl.
  assert (T : truthy (Some lobbyId) = true).
  { simpl. destruct (String.eqb_spec lobbyId ""); [contradiction | reflexivity]. }
  rewrite T. simpl negb. cbv iota.
  set (s1 := match countdownInterval l with Some h => _ | None => s end).
  set (s2 := match gameTickInterval l with Some h => _ | None => s1 end).
  assert (H1 : JSMap.get lobbyId (lobbies s1) = Some (with_countdownInterval None l)).
  { subst s1. destruct (countdownInterval l) eqn:E.
    - rewrite get_update_lobby_same. cbn [clearTimer with_timers lobbies]. now rewrite Hl.
    - rewrite Hl. destruct l; simpl in *; now subst. }
  assert (H2 : JSMap.get lobbyId (lobbies s2)
               = Some (with_gameTickInterval None (with_countdownInterval None l))).
  { subst s2. destruct (gameTickInterval l) eqn:E.
    - rewrite get_update_lobby_same. cbn [clearTimer with_timers lobbies]. now rewrite H1.
    - rewrite H1. destruct l; simpl in *; now subst. }
  assert (O2 : forall k, k <> lobbyId -> JSMap.get k (lobbies s2) = JSMap.get k (lobbies s)).
  { intros k Hk. subst s2 s1.
    destruct (gameTickInterval l), (countdownInterval l);
      repeat (rewrite get_update_lobby; cbn [clearTimer with_timers lobbies]);
      destruct (String.eqb_spec lobbyId k); congruence. }
  assert (C2 : clients s2 = clients s).
  { subst s2 s1. now destruct (gameTickInterval l), (countdownInterval l). }
  assert (S2 : sent s2 = sent s).
  { subst s2 s1. now destruct (gameTickInterval l), (countdownInterval l). }
  assert (T2a : forall h, interval_of l h -> timer_active h s2 = None).
  { intros h [E|E]; subst s2 s1; rewrite E.
    - destruct (gameTickInterval l) as [h2|].
      + rewrite (timer_active_frame _ (clearTimer h2 _)) by reflexivity.
        rewrite timer_active_clear. destruct (h2 =? h)%nat; [reflexivity|].
        rewrite (timer_active_frame _ (clearTimer h s)) by reflexivity.
        now rewrite timer_active_clear, Nat.eqb_refl.
      + rewrite (timer_active_frame _ (clearTimer h s)) by reflexivity.
        now rewrite timer_active_clear, Nat.eqb_refl.
    - rewrite (timer_active_frame _ (clearTimer h _)) by reflexivity.
      now rewrite timer_active_clear, Nat.eqb_refl. }
  assert (T2b : forall h, ~ interval_of l h -> timer_active h s2 = timer_active h s).
  { intros h N. unfold interval_of in N. subst s2 s1.
    destruct (gameTickInterval l) as [h2|], (countdownInterval l) as [h1|];
      repeat (match goal with
              | |- context [timer_active ?h' (update_lobby ?a ?b ?x)] =>
                  rewrite (timer_active_frame h' x (update_lobby a b x)) by reflexivity
              end; rewrite timer_active_clear);
      repeat match goal with
             | |- context [(?a =? h)%nat] =>
                 destruct (Nat.eqb_spec a h); [subst; exfalso; apply N; auto|]
             end; reflexivity. }
  set (s3 := update_lobby lobbyId _ s2).
  set (s4 := update_lobby lobbyId _ s3).
  set (roster' := map _ (players l)).
  assert (H4 : JSMap.get lobbyId (lobbies s4)
               = Some (mkLobby roster' GLobby [] CONFIG.countdownTime None None)).
  { subst s4 s3. now rewrite !get_update_lobby_same, H2. }
  assert (A4 : audience lobbyId s4 = audience lobbyId s).
  { unfold audience. rewrite H4, Hl. cbn [players].
    replace (clients s4) with (clients s) by (now rewrite <- C2).
    subst roster'. now apply recipients_map_players. }
  set (s5 := broadcastToLobby lobbyId force_lobby s4).
  assert (A5 : audience lobbyId s5 = audience lobbyId s).
  { rewrite <- A4. subst s5. apply audience_frame; now autorewrite with frame. }
  unfold broadcastLobbyUpdate.
  replace (JSMap.get lobbyId (lobbies s5)) with (JSMap.get lobbyId (lobbies s4))
    by (subst s5; now autorewrite with frame).
  rewrite H4. cbn [players]. autorewrite with frame.
  split; [subst s5; autorewrite with frame; exact H4|].
  split.
  { intros k Hk. subst s5. autorewrite with frame. subst s4 s3.
    rewrite !get_update_lobby.
    destruct (String.eqb_spec lobbyId k); [congruence | now apply O2]. }
  split; [subst s5; autorewrite with frame; exact C2|].
  split.
  { intros h I. rewrite (timer_active_frame _ s2); [now apply T2a|].
    subst s5. now autorewrite with frame. }
  split.
  { intros h I. rewrite (timer_active_frame _ s2); [now apply T2b|].
    subst s5. now autorewrite with frame. }
  rewrite broadcastToLobby_sent, A5. subst s5. rewrite broadcastToLobby_sent, A4.
  replace (sent s4) with (sent s) by (now rewrite <- S2).
  now rewrite <- app_assoc.
Qed.

(** X9. A [request_lobby] of a connection that is in a lobby resets that
    lobby, whatever state it is in: the lobby is in state [lobby] with no
    food and the count at [countdownTime], every player of the roster is
    kept, in the same order, with the start values and not ready, the two
    intervals stored in the lobby are cancelled (firing them has no effect
    any more), and the lobby is sent [force_lobby], then a [lobby_update]
    with the reset roster. *)
Theorem request_lobby_resets rnd clock clientId s c lobbyId l :
  JSMap.get clientId (clients s) = Some c ->
  c_lobbyId c = Some lobbyId -> lobbyId <> "" ->
  JSMap.get lobbyId (lobbies s) = Some l ->
  let s' := handleRequestLobby clientId s in
  exists l',
    JSMap.get lobbyId (lobbies s') = Some l' /\
    gameState l' = GLobby /\ foodItems l' = [] /\ countdown l' = CONFIG.countdownTime /\
    countdownInterval l' = None /\ gameTickInterval l' = None /\
    JSMap.keys (players l') = JSMap.keys (players l) /\
    (forall q p, JSMap.get q (players l) = Some p ->
                 JSMap.get q (players l') = Some (reset_player p)) /\
    (forall h dt, interval_of l h -> fire rnd clock h dt s' = s') /\
    sent s' = (sent s ++ to_all (audience lobbyId s) force_lobby
                      ++ to_all (audience lobbyId s)
                           (lobby_update
                              (map (fun q => (p_id q, p_name q, false, p_color q))
                                   (JSMap.values (players l)))))%list.
Proof.
  intros Hc Hi Ne Hl s'.
  destruct (handleRequestLobby_eq clientId s c lobbyId l Hc Hi Ne Hl)
    as (E1 & _ & _ & E4 & _ & E6).
  fold s' in E1, E4, E6.
  eexists. split; [exact E1|]. cbn [gameState foodItems countdown countdownInterval
                                    gameTickInterval players].
  repeat (split; [reflexivity|]).
  split.
  { unfold JSMap.keys. rewrite map_map. reflexivity. }
  split.
  { intros q p. generalize (players l). intros r.
    induction r as [|[k0 p0] r IH]; [discriminate|]. simpl.
    destruct (k0 =? q); [now intros [= ->] | exact IH]. }
  split.
  { intros h dt I. apply fire_inactive. now apply E4. }
  rewrite E6. do 4 f_equal. unfold JSMap.values. rewrite !map_map. reflexivity.
Qed.

Lemma request_lobby_resets_witness :
  gameState_of "LOBBY1" (handleRequestLobby "cA" duel) = Some GLobby.
Proof.
  destruct (request_lobby_resets (fun _ => 0) (fun _ => 0%Z) "cA" duel
              (mkClient "cA" true (Some "A") (Some "LOBBY1")) "LOBBY1" duel_lobby
              eq_refl eq_refl ltac:(discriminate) eq_refl)
    as (l' & H & G & _).
  unfold gameState_of. rewrite H. simpl. now rewrite G.
Defined.

(** X10. A reset does not cancel the teardown that [endGame] has
    scheduled: when a lobby with a pending teardown is reset by
    [request_lobby], it is back in state [lobby], and the teardown, when it
    fires, still removes it from the registry. *)
Theorem reset_does_not_cancel_teardown rnd clock clientId s c lobbyId l h dt :
  JSMap.get clientId (clients s) = Some c ->
  c_lobbyId c = Some lobbyId -> lobbyId <> "" ->
  JSMap.get lobbyId (lobbies s) = Some l ->
  timer_active h s = Some (TeardownTimer lobbyId) ->
  ~ interval_of l h ->
  let s' := handleRequestLobby clientId s in
  gameState_of lobbyId s' = Some GLobby /\
  JSMap.get lobbyId (lobbies (fire rnd clock h dt s')) = None.
Proof.
  intros Hc Hi Ne Hl T N s'.
  destruct (handleRequestLobby_eq clientId s c lobbyId l Hc Hi Ne Hl)
    as (E1 & _ & _ & _ & E5 & _).
  fold s' in E1, E5. split.
  - unfold gameState_of. now rewrite E1.
  - unfold fire. rewrite (E5 h N), T. apply teardown_removes_lobby.
Qed.

Lemma reset_does_not_cancel_teardown_witness :
  let s := endGame "LOBBY1" (Some "A") duel in
  JSMap.get "LOBBY1" (lobbies s) <> None /\
  JSMap.get "LOBBY1"
    (lobbies (fire (fun _ => 0) (fun _ => 0%Z) 2 0 (handleRequestLobby "cA" s))) = None.
Proof.
  split; [discriminate|].
  refine (proj2 (reset_does_not_cancel_teardown (fun _ => 0) (fun _ => 0%Z) "cA"
                   (endGame "LOBBY1" (Some "A") duel)
                   (mkClient "cA" true (Some "A") (Some "LOBBY1")) "LOBBY1"
                   (with_gameTickInterval None duel_lobby) 2 0
                   eq_refl eq_refl ltac:(discriminate) eq_refl eq_refl _)).
  intros [I|I]; discriminate I.
Defined.

(** ** Leaving *)

Lemma get_delete_same {V : Type} k (m : list (string * V)) :
  JSMap.get k (JSMap.delete k m) = None.
Proof. now rewrite get_delete, String.eqb_refl. Qed.

Lemma get_delete_other {V : Type} k k' (m : list (string * V)) :
  k <> k' -> JSMap.get k' (JSMap.delete k m) = JSMap.get k' m.
Proof.
  intros N. rewrite get_delete. destruct (String.eqb_spec k k'); [contradiction | reflexivity].
Qed.

(** X11. The close of a connection removes the connection from the
    registry and leaves the others alone.  If the connection was bound to a
    player of a registered lobby, that player, and no other, is deleted
    from the roster, and the connections that own the players left are told
    [player_eaten] with no eater; if the lobby is playing and at most one
    player is left, [game_over] follows (with the player left as winner, if
    there is one) and the teardown is scheduled; otherwise nothing else is
    sent and the timers are unchanged.  The state of the lobby does not
    change.  If the connection was not bound to a lobby, to a player, or
    the lobby is not registered, lobbies, timers and log are unchanged. *)
Theorem disconnect_removes_player clientId s c :
  JSMap.get clientId (clients s) = Some c ->
  let s' := handleClientDisconnect clientId s in
  JSMap.get clientId (clients s') = None /\
  (forall k, k <> clientId -> JSMap.get k (clients s') = JSMap.get k (clients s)) /\
  (forall lobbyId playerId l,
     c_lobbyId c = Some lobbyId -> lobbyId <> "" ->
     c_playerId c = Some playerId -> playerId <> "" ->
     JSMap.get lobbyId (lobbies s) = Some l ->
     let roster' := JSMap.delete playerId (players l) in
     let reached := recipients (clients s) roster' in
     let over := game_state_eqb (gameState l) GPlaying
                 && (JSMap.size roster' <=? 1)%nat in
     (exists l', JSMap.get lobbyId (lobbies s') = Some l' /\
                 players l' = roster' /\ gameState l' = gameState l) /\
     (forall k, k <> lobbyId -> JSMap.get k (lobbies s') = JSMap.get k (lobbies s)) /\
     sent s' = (sent s ++ to_all reached (player_eaten playerId None)
                       ++ if over then to_all reached (game_over_for roster') else [])%list /\
     (if over then In (nextHandle s, TeardownTimer lobbyId) (timers s')
      else timers s' = timers s)) /\
  (truthy (c_lobbyId c) = false \/ truthy (c_playerId c) = false \/
   (forall lobbyId, c_lobbyId c = Some lobbyId -> JSMap.get lobbyId (lobbies s) = None) ->
   lobbies s' = lobbies s /\ timers s' = timers s /\ sent s' = sent s).
Proof.
  intros Hc s'. subst s'. unfold handleClientDisconnect. rewrite Hc.
  cbn [with_clients clients lobbies timers sent].
  set (s1 := match c_lobbyId c with Some _ => _ | None => s end).
  assert (C1 : clients s1 = clients s).
  { subst s1. destruct (c_lobbyId c) as [lid|]; [|reflexivity].
    destruct (negb _); [reflexivity|].
    destruct (JSMap.get lid (lobbies s)) as [l|]; [|reflexivity].
    destruct (c_playerId c) as [pid|]; [|reflexivity].
    destruct (negb _); [reflexivity|].
    match goal with
    | |- clients (match JSMap.get _ (lobbies ?x) with _ => _ end) = _ =>
        set (s2 := x);
        assert (C2 : clients s2 = clients s) by (subst s2; now autorewrite with frame)
    end.
    destruct (JSMap.get lid (lobbies s2)) as [l2|] eqn:H2; [|exact C2].
    destruct (_ && _) eqn:E; [|exact C2].
    apply andb_prop in E. destruct E as [G _].
    assert (G2 : gameState l2 = GPlaying) by (destruct (gameState l2); now try discriminate).
    now rewrite (proj1 (endGame_spec lid _ s2 l2 H2 G2)). }
  rewrite C1.
  split; [apply get_delete_same|].
  split; [intros k Hk; now apply get_delete_other|].
  split.
  - intros lobbyId playerId l Hi Ne Hp Ne' Hl.
    set (roster' := JSMap.delete playerId (players l)).
    set (reached := recipients (clients s) roster').
    set (over := game_state_eqb (gameState l) GPlaying && (JSMap.size roster' <=? 1)%nat).
    subst s1. rewrite Hi, Hp, Hl.
    assert (T : truthy (Some lobbyId) = true).
    { simpl. destruct (String.eqb_spec lobbyId ""); [contradiction | reflexivity]. }
    assert (T' : truthy (Some playerId) = true).
    { simpl. destruct (String.eqb_spec playerId ""); [contradiction | reflexivity]. }
    rewrite T, T'. simpl negb. cbv iota.
    set (s2 := update_lobby lobbyId _ s).
    set (s3 := broadcastToLobby lobbyId _ s2).
    assert (H3 : JSMap.get lobbyId (lobbies s3) = Some (with_players roster' l)).
    { subst s3 s2. autorewrite with frame. now rewrite get_update_lobby_same, Hl. }
    assert (O3 : forall k, k <> lobbyId ->
                           JSMap.get k (lobbies s3) = JSMap.get k (lobbies s)).
    { intros k Hk. subst s3 s2. autorewrite with frame. rewrite get_update_lobby.
      destruct (String.eqb_spec lobbyId k); [congruence | reflexivity]. }
    assert (A2 : audience lobbyId s2 = reached).
    { unfold audience. subst s2. now rewrite get_update_lobby_same, Hl. }
    assert (S3 : sent s3 = (sent s ++ to_all reached (player_eaten playerId None))%list).
    { subst s3. now rewrite broadcastToLobby_sent, A2. }
    assert (A3 : audience lobbyId s3 = reached).
    { rewrite <- A2. subst s3. apply audience_frame; now autorewrite with frame. }
    assert (T3 : timers s3 = timers s) by (subst s3 s2; now autorewrite with frame).
    assert (N3 : nextHandle s3 = nextHandle s) by (subst s3 s2; now autorewrite with frame).
    rewrite H3. cbn [gameState players with_players]. fold over.
    destruct over eqn:E.
    + apply andb_prop in E. destruct E as [G _].
      assert (G3 : gameState (with_players roster' l) = GPlaying).
      { simpl. destruct (gameState l); now try discriminate. }
      destruct (endGame_spec lobbyId (firstId roster') s3 _ H3 G3)
        as (_ & E2 & E3 & E4 & E5 & _).
      split; [eexists; split; [exact E2|]; split; reflexivity|].
      split; [intros k Hk; rewrite E3 by exact Hk; now apply O3|].
      split.
      * rewrite E4, S3, A3, <- app_assoc. unfold game_over_for.
        cbn [players with_players]. now destruct (firstId roster').
      * rewrite E5, N3. apply in_or_app. right. now left.
    + split; [eexists; split; [exact H3|]; split; reflexivity|].
      split; [exact O3|]. split; [now rewrite S3, app_nil_r | exact T3].
  - intros H. subst s1.
    destruct (c_lobbyId c) as [lid|] eqn:Hi; [|now repeat split].
    destruct (truthy (Some lid)) eqn:T; simpl negb; cbv iota; [|now repeat split].
    destruct (JSMap.get lid (lobbies s)) as [l|] eqn:Hl; [|now repeat split].
    destruct (c_playerId c) as [pid|] eqn:Hp; [|now repeat split].
    destruct (truthy (Some pid)) eqn:T'; simpl negb; cbv iota; [|now repeat split].
    exfalso. destruct H as [H|[H|H]]; try discriminate.
    specialize (H lid eq_refl). congruence.
Qed.

Lemma disconnect_removes_player_witness :
  JSMap.get "cB" (clients (handleClientDisconnect "cB" duel)) = None.
Proof.
  exact (proj1 (disconnect_removes_player "cB" duel
                  (mkClient "cB" true (Some "B") (Some "LOBBY1")) eq_refl)).
Defined.

(** ** Teardown *)

(** The body of the loop of the teardown callback. *)
Lemma teardown_one (kp : string * player) s :
  registry_ok s ->
  let k0 := p_clientId (snd kp) in
  let s' :=
    match JSMap.get k0 (clients s) with
    | Some c =>
        with_clients
          (JSMap.update k0 (fun c => mkClient (c_id c) false (c_playerId c) (c_lobbyId c))
             (clients (sendToClient (c_id c) prepare_reconnect s)))
          (sendToClient (c_id c) prepare_reconnect s)
    | None => s
    end in
  registry_ok s' /\ lobbies s' = lobbies s /\ timers s' = timers s /\
  JSMap.keys (clients s') = JSMap.keys (clients s) /\
  (forall k, deliverable k s' = deliverable k s && negb (k0 =? k)) /\
  sent s' = (sent s ++ if deliverable k0 s then [(k0, prepare_reconnect)] else [])%list.
Proof.
  intros R k0 s'. subst s'. unfold deliverable.
  destruct (JSMap.get k0 (clients s)) as [c|] eqn:Hc.
  - rewrite (R _ _ Hc). unfold registry_ok.
    cbn [with_clients clients lobbies timers sent]. autorewrite with frame.
    split.
    { intros k c'. rewrite get_update.
      destruct (String.eqb_spec k0 k) as [<-|N]; [|apply R].
      rewrite Hc. intros [= <-]. simpl. now apply R. }
    split; [reflexivity|]. split; [reflexivity|]. split; [apply keys_update|].
    split.
    { intros k. rewrite get_update.
      destruct (String.eqb_spec k0 k) as [<-|N].
      - rewrite Hc. simpl. now rewrite andb_false_r.
      - now rewrite andb_true_r. }
    rewrite sendToClient_eq. unfold deliverable. rewrite Hc.
    destruct (c_open c); [reflexivity | now rewrite app_nil_r].
  - split; [exact R|]. split; [reflexivity|]. split; [reflexivity|].
    split; [reflexivity|]. split; [|now rewrite app_nil_r].
    intros k. destruct (String.eqb_spec k0 k) as [<-|N].
    + now rewrite Hc.
    + now rewrite andb_true_r.
Qed.

Lemma teardown_loop roster :
  forall s, registry_ok s ->
  let s' :=
    fold_left (fun s (kp : string * player) =>
        match JSMap.get (p_clientId (snd kp)) (clients s) with
        | Some c =>
            let s := sendToClient (c_id c) prepare_reconnect s in
            with_clients
              (JSMap.update (p_clientId (snd kp))
                 (fun c => mkClient (c_id c) false (c_playerId c) (c_lobbyId c))
                 (clients s)) s
        | None => s
        end) roster s in
  lobbies s' = lobbies s /\ timers s' = timers s /\
  JSMap.keys (clients s') = JSMap.keys (clients s) /\
  (forall k, deliverable k s' = deliverable k s && negb (owner k roster)) /\
  exists told,
    sent s' = (sent s ++ to_all told prepare_reconnect)%list /\ NoDup told /\
    forall k, In k told <-> deliverable k s = true /\ owner k roster = true.
Proof.
  induction roster as [|kp r IH]; intros s R; cbn [fold_left].
  - split; [reflexivity|]. split; [reflexivity|]. split; [reflexivity|].
    split; [intros k; simpl; now rewrite andb_true_r|].
    exists []. split; [simpl; now rewrite app_nil_r|]. split; [constructor|].
    intros k. simpl. intuition discriminate.
  - destruct (teardown_one kp s R) as (R1 & L1 & T1 & K1 & D1 & S1).
    cbv zeta in *.
    set (s1 := match JSMap.get (p_clientId (snd kp)) (clients s) with
               | Some c => _ | None => s end) in *.
    destruct (IH s1 R1) as (L2 & T2 & K2 & D2 & told & S2 & N2 & M2).
    split; [now rewrite L2|]. split; [now rewrite T2|]. split; [now rewrite K2|].
    split.
    { intros k. rewrite D2, D1. cbn [owner existsb].
      rewrite negb_orb, andb_assoc. reflexivity. }
    exists ((if deliverable (p_clientId (snd kp)) s then [p_clientId (snd kp)] else [])
            ++ told)%list.
    split.
    { rewrite S2, S1. unfold to_all. rewrite map_app, <- app_assoc.
      now destruct (deliverable (p_clientId (snd kp)) s). }
    assert (Out : ~ In (p_clientId (snd kp)) told).
    { intros I. apply M2 in I. destruct I as [I _].
      rewrite D1, String.eqb_refl, andb_false_r in I. discriminate. }
    split.
    { destruct (deliverable (p_clientId (snd kp)) s); [|exact N2].
      constructor; assumption. }
    intros k. rewrite in_app_iff, M2, D1. cbn [owner existsb].
    destruct (String.eqb_spec (p_clientId (snd kp)) k) as [<-|N]; simpl.
    + rewrite andb_false_r.
      destruct (deliverable (p_clientId (snd kp)) s); simpl; intuition discriminate.
    + rewrite andb_true_r. split.
      * intros [I|I]; [|exact I].
        destruct (deliverable (p_clientId (snd kp)) s); simpl in I; intuition.
      * intros I. now right.
Qed.

(** ** The start of a game *)

Lemma radius_5 : Rmin CONFIG.mapWidth CONFIG.mapHeight / 3 = 5.
Proof.
  unfold CONFIG.mapWidth, CONFIG.mapHeight. rewrite Rmin_right by lra. lra.
Qed.

Lemma nth_error_indexed {A B : Type} (f : nat * A -> B) (l : list A) :
  forall a i x, nth_error l i = Some x ->
  nth_error (map f (combine (seq a (List.length l)) l)) i = Some (f ((a + i)%nat, x)).
Proof.
  induction l as [|y r IH]; intros a [|i] x; simpl; try discriminate.
  - intros [= ->]. now rewrite Nat.add_0_r.
  - intros H. rewrite (IH (S a) i x H). do 3 f_equal. lia.
Qed.

Lemma length_indexed {A B : Type} (f : nat * A -> B) (l : list A) a :
  List.length (map f (combine (seq a (List.length l)) l)) = List.length l.
Proof. rewrite length_map, length_combine, length_seq. apply Nat.min_id. Qed.

Lemma initializeGamePositions_eq lobbyId s l :
  JSMap.get lobbyId (lobbies s) = Some l ->
  let s' := initializeGamePositions lobbyId s in
  clients s' = clients s /\ timers s' = timers s /\ sent s' = sent s /\
  nextHandle s' = nextHandle s /\ randomCalls s' = randomCalls s /\
  (forall k, k <> lobbyId -> JSMap.get k (lobbies s') = JSMap.get k (lobbies s)) /\
  exists roster',
    JSMap.get lobbyId (lobbies s') = Some (with_players roster' l) /\
    List.length roster' = List.length (players l) /\
    forall i k p, nth_error (players l) i = Some (k, p) ->
      nth_error roster' i = Some (k, start_position (List.length (players l)) i p).
Proof.
  intros Hl. unfold initializeGamePositions.
  repeat (split; [reflexivity|]).
  split.
  { intros k Hk. rewrite get_update_lobby.
    destruct (String.eqb_spec lobbyId k); [congruence | reflexivity]. }
  eexists. split; [rewrite get_update_lobby_same, Hl; reflexivity|].
  split; [apply length_indexed|].
  intros i k p H. rewrite (nth_error_indexed _ _ 0%nat i (k, p) H).
  cbn [fst snd Nat.add]. unfold start_position, with_input, with_size, with_pos.
  cbn [p_id p_clientId p_name p_color p_ready p_lastUpdate]. rewrite radius_5.
  reflexivity.
Qed.

Lemma start_position_on_circle n i p :
  p_x (start_position n i p) * p_x (start_position n i p)
  + p_y (start_position n i p) * p_y (start_position n i p) = 25.
Proof.
  unfold start_position. cbn [p_x p_y].
  pose proof (sin2_cos2 (2 * PI / INR n * INR i)) as H. unfold Rsqr in H. nra.
Qed.

Lemma start_position_inside n i p : inside_map (start_position n i p).
Proof.
  unfold inside_map, start_position, CONFIG.mapWidth, CONFIG.mapHeight. cbn [p_x p_y].
  pose proof (COS_bound (2 * PI / INR n * INR i)).
  pose proof (SIN_bound (2 * PI / INR n * INR i)). lra.
Qed.

(** X13. [initializeGamePositions] keeps the players of the roster and
    their order and rewrites position, size and input of every one of
    them: the [i]-th of [n] players stands at the angle [2 * PI / n * i] on
    the circle of radius 5 around the centre (so all are at distance 5 from
    the centre, inside the map, and the first one is at [(5, 0)]), with the
    start size and a zero input; identity, owner, name, colour and ready
    flag are kept.  Nothing else changes and nothing is sent. *)
Theorem initial_positions_on_circle lobbyId s l :
  JSMap.get lobbyId (lobbies s) = Some l ->
  let s' := initializeGamePositions lobbyId s in
  let n := List.length (players l) in
  clients s' = clients s /\ timers s' = timers s /\ sent s' = sent s /\
  (forall k, k <> lobbyId -> JSMap.get k (lobbies s') = JSMap.get k (lobbies s)) /\
  exists roster',
    JSMap.get lobbyId (lobbies s') = Some (with_players roster' l) /\
    JSMap.keys roster' = JSMap.keys (players l) /\
    (forall i k p, nth_error (players l) i = Some (k, p) ->
       nth_error roster' i = Some (k, start_position n i p)) /\
    (forall k p', In (k, p') roster' ->
       p_x p' * p_x p' + p_y p' * p_y p' = 25 /\ inside_map p' /\
       p_size p' = CONFIG.playerStartSize /\ p_input p' = mkVec 0 0) /\
    (forall k p, nth_error (players l) 0 = Some (k, p) ->
       exists p', nth_error roster' 0 = Some (k, p') /\ p_x p' = 5 /\ p_y p' = 0).
Proof.
  intros Hl s' n.
  destruct (initializeGamePositions_eq lobbyId s l Hl)
    as (E1 & E2 & E3 & _ & _ & E4 & roster' & H1 & Len & Nth).
  fold s' in E1, E2, E3, E4, H1.
  split; [exact E1|]. split; [exact E2|]. split; [exact E3|]. split; [exact E4|].
  exists roster'. split; [exact H1|].
  assert (Back : forall k p', In (k, p') roster' ->
                 exists i p, nth_error (players l) i = Some (k, p) /\
                             p' = start_position n i p).
  { intros k p' I. apply In_nth_error in I. destruct I as [i I].
    destruct (nth_error (players l) i) as [[k0 p0]|] eqn:E.
    - rewrite (Nth _ _ _ E) in I. injection I as <- <-. eauto.
    - apply nth_error_None in E. rewrite <- Len in E.
      apply nth_error_None in E. congruence. }
  split.
  { unfold JSMap.keys. apply (nth_ext _ _ "" ""); [now rewrite !length_map|].
    intros i Hi. rewrite length_map in Hi.
    destruct (nth_error (players l) i) as [[k0 p0]|] eqn:E.
    - rewrite (nth_error_nth _ _ _ (map_nth_error fst _ _ (Nth _ _ _ E))).
      now rewrite (nth_error_nth _ _ _ (map_nth_error fst _ _ E)).
    - apply nth_error_None in E. lia. }
  split; [exact Nth|].
  split.
  { intros k p' I. destruct (Back k p' I) as (i & p & _ & ->).
    split; [apply start_position_on_circle|].
    split; [apply start_position_inside|]. split; reflexivity. }
  intros k p H. eexists. split; [exact (Nth _ _ _ H)|].
  unfold start_position. cbn [p_x p_y INR]. rewrite Rmult_0_r, cos_0, sin_0. lra.
Qed.

Lemma initial_positions_on_circle_witness :
  exists roster',
    roster_of "LOBBY1" (initializeGamePositions "LOBBY1" duel) = roster' /\
    forall k p', In (k, p') roster' -> p_x p' * p_x p' + p_y p' * p_y p' = 25.
Proof.
  destruct (initial_positions_on_circle "LOBBY1" duel duel_lobby eq_refl)
    as (_ & _ & _ & _ & roster' & H & _ & _ & C & _).
  exists roster'. split.
  - unfold roster_of. now rewrite H.
  - intros k p' I. exact (proj1 (C k p' I)).
Defined.

(** X14. [generateFood] replaces the food of the lobby by exactly
    [foodCount] new items and consumes two random values for each; when
    [Math.random] returns values in [[0, 1)], every item lies within the
    map extents.  Roster, state, connections, timers and log are
    untouched. *)
Theorem generateFood_fills_map rnd lobbyId s l :
  (forall j, 0 <= rnd j < 1) ->
  JSMap.get lobbyId (lobbies s) = Some l ->
  let s' := generateFood rnd lobbyId s in
  exists food,
    JSMap.get lobbyId (lobbies s') = Some (with_foodItems food l) /\
    List.length food = CONFIG.foodCount /\
    Forall in_map_extents food /\
    (forall i, (i < CONFIG.foodCount)%nat ->
               nth_error food i = Some (randomFood rnd (randomCalls s + 2 * i))) /\
    randomCalls s' = (randomCalls s + 2 * CONFIG.foodCount)%nat /\
    clients s' = clients s /\ timers s' = timers s /\ sent s' = sent s.
Proof.
  intros Rn Hl s'. subst s'.
  eexists. split; [rewrite generateFood_get, Hl; reflexivity|].
  split; [now rewrite length_map, length_seq|].
  split.
  { apply Forall_forall. intros f I. apply in_map_iff in I.
    destruct I as (i & <- & _). now apply randomFood_in_map. }
  split.
  { intros i Hi. rewrite nth_error_map, nth_error_seq.
    apply Nat.ltb_lt in Hi. now rewrite Hi. }
  unfold generateFood. rewrite Hl. repeat split.
Qed.

Lemma generateFood_fills_map_witness :
  exists food,
    JSMap.get "LOBBY1" (lobbies (generateFood (fun _ => 1 / 2) "LOBBY1" waiting_room))
      = Some (with_foodItems food waiting_lobby) /\
    List.length food = 100%nat.
Proof.
  destruct (generateFood_fills_map (fun _ => 1 / 2) "LOBBY1" waiting_room waiting_lobby)
    as (food & H & L & _).
  - intros _. lra.
  - reflexivity.
  - exists food. split; [exact H | exact L].
Defined.

Lemma recipients_by_owner cs r1 r2 :
  map (fun kp : string * player => p_clientId (snd kp)) r1
  = map (fun kp : string * player => p_clientId (snd kp)) r2 ->
  recipients cs r1 = recipients cs r2.
Proof.
  unfold recipients. revert r2.
  induction r1 as [|kp r1 IH]; intros [|kp2 r2]; simpl; try discriminate; [reflexivity|].
  intros [= E1 E2]. now rewrite E1, (IH r2 E2).
Qed.

Lemma recipients_start_positions cs roster roster' :
  List.length roster' = List.length roster ->
  (forall i k p, nth_error roster i = Some (k, p) ->
     nth_error roster' i = Some (k, start_position (List.length roster) i p)) ->
  recipients cs roster' = recipients cs roster.
Proof.
  intros Len Nth. apply recipients_by_owner.
  apply (nth_ext _ _ "" ""); [now rewrite !length_map|].
  intros i Hi. rewrite length_map in Hi.
  destruct (nth_error roster i) as [[k p]|] eqn:E.
  - rewrite (nth_error_nth _ _ _
               (map_nth_error (fun kp => p_clientId (snd kp)) _ _ (Nth _ _ _ E))).
    now rewrite (nth_error_nth _ _ _
                   (map_nth_error (fun kp => p_clientId (snd kp)) _ _ E)).
  - apply nth_error_None in E. lia.
Qed.

(** The lobby, the timers and the log after [startGame]. *)
Lemma startGame_eq rnd lobbyId s l :
  JSMap.get lobbyId (lobbies s) = Some l ->
  let s' := startGame rnd lobbyId s in
  let n := List.length (players l) in
  exists l',
    JSMap.get lobbyId (lobbies s') = Some l' /\
    gameState l' = GPlaying /\
    gameTickInterval l' = Some (nextHandle s) /\
    timers s' = (timers s ++ [(nextHandle s, TickTimer lobbyId)])%list /\
    List.length (foodItems l') = CONFIG.foodCount /\
    (forall i k p, nth_error (players l) i = Some (k, p) ->
       nth_error (players l') i = Some (k, start_position n i p)) /\
    List.length (players l') = n /\
    clients s' = clients s /\
    sent s' = (sent s ++ to_all (audience lobbyId s)
                           (game_start
                              (map (fun p => (p_id p, p_x p, p_y p, p_size p))
                                   (JSMap.values (players l')))
                              (foodItems l')))%list /\
    (forall k, k <> lobbyId -> JSMap.get k (lobbies s') = JSMap.get k (lobbies s)).
Proof.
  intros Hl s' n. subst s'. unfold startGame. rewrite Hl.
  set (s1 := update_lobby lobbyId (with_gameState GPlaying) s).
  assert (H1 : JSMap.get lobbyId (lobbies s1) = Some (with_gameState GPlaying l)).
  { subst s1. now rewrite get_update_lobby_same, Hl. }
  destruct (initializeGamePositions_eq lobbyId s1 _ H1)
    as (C2 & T2 & S2 & N2 & _ & O2 & roster' & H2 & Len & Nth).
  cbv zeta in *. cbn [players with_gameState] in Len, Nth.
  set (s2 := initializeGamePositions lobbyId s1) in *.
  set (s3 := generateFood rnd lobbyId s2).
  set (food := map (fun i => randomFood rnd (randomCalls s2 + 2 * i))
                   (seq 0 CONFIG.foodCount)).
  set (l3 := with_foodItems food (with_players roster' (with_gameState GPlaying l))).
  assert (H3 : JSMap.get lobbyId (lobbies s3) = Some l3).
  { subst s3. now rewrite generateFood_get, H2. }
  assert (F3 : clients s3 = clients s /\ timers s3 = timers s /\ sent s3 = sent s
               /\ nextHandle s3 = nextHandle s).
  { subst s3. unfold generateFood. rewrite H2.
    cbn [with_randomCalls update_lobby with_lobbies clients timers sent nextHandle].
    rewrite C2, T2, S2, N2. subst s1. repeat split. }
  destruct F3 as (C3 & T3 & S3 & N3).
  rewrite H3.
  set (s4 := broadcastToLobby lobbyId _ s3).
  assert (H4 : JSMap.get lobbyId (lobbies s4) = Some l3).
  { subst s4. now rewrite broadcastToLobby_lobbies. }
  assert (A3 : audience lobbyId s3 = audience lobbyId s).
  { unfold audience. rewrite H3, Hl, C3. subst l3. cbn [players with_foodItems with_players].
    now apply recipients_start_positions. }
  unfold startGameTick. rewrite H4. cbn [setTimer].
  exists (with_gameTickInterval (Some (nextHandle s4)) l3).
  assert (N4 : nextHandle s4 = nextHandle s) by (subst s4; now autorewrite with frame).
  split; [rewrite get_update_lobby_same; cbn [lobbies]; now rewrite H4|].
  split; [reflexivity|]. split; [cbn; now rewrite N4|].
  split.
  { cbn [update_lobby with_lobbies timers]. subst s4. autorewrite with frame.
    now rewrite T3, N3. }
  split.
  { subst l3 food. cbn [foodItems with_gameTickInterval with_foodItems].
    now rewrite length_map, length_seq. }
  split; [exact Nth|]. split; [exact Len|].
  split; [cbn [update_lobby with_lobbies clients]; subst s4; now autorewrite with frame|].
  split.
  { cbn [update_lobby with_lobbies sent]. subst s4.
    now rewrite broadcastToLobby_sent, A3, S3. }
  intros k Hk. rewrite get_update_lobby. cbn [lobbies].
  destruct (String.eqb_spec lobbyId k) as [E|_]; [congruence|].
  subst s4. rewrite broadcastToLobby_lobbies. subst s3. unfold generateFood. rewrite H2.
  cbn [with_randomCalls lobbies]. rewrite get_update_lobby.
  destruct (String.eqb_spec lobbyId k) as [E|_]; [congruence|].
  rewrite (O2 k Hk). subst s1. rewrite get_update_lobby.
  destruct (String.eqb_spec lobbyId k) as [E|_]; [congruence | reflexivity].
Qed.


(** X15. [startGame] puts a registered lobby, whatever its state, in state
    [playing]: the players are placed on the start circle, the food is
    replaced by [foodCount] fresh items, one tick interval is scheduled and
    stored in the lobby, and the one [game_start] message sent to the lobby
    carries exactly the positions, sizes and food the lobby now holds. *)
Theorem startGame_announces_state rnd lobbyId s l :
  JSMap.get lobbyId (lobbies s) = Some l ->
  let s' := startGame rnd lobbyId s in
  let n := List.length (players l) in
  exists l',
    JSMap.get lobbyId (lobbies s') = Some l' /\
    gameState l' = GPlaying /\
    gameTickInterval l' = Some (nextHandle s) /\
    timers s' = (timers s ++ [(nextHandle s, TickTimer lobbyId)])%list /\
    List.length (foodItems l') = CONFIG.foodCount /\
    (forall i k p, nth_error (players l) i = Some (k, p) ->
       nth_error (players l') i = Some (k, start_position n i p)) /\
    List.length (players l') = n /\
    clients s' = clients s /\
    sent s' = (sent s ++ to_all (audience lobbyId s)
                           (game_start
                              (map (fun p => (p_id p, p_x p, p_y p, p_size p))
                                   (JSMap.values (players l')))
                              (foodItems l')))%list.
Proof.
  intros Hl s' n.
  destruct (startGame_eq rnd lobbyId s l Hl)
    as (l' & E1 & E2 & E3 & E4 & E5 & E6 & E7 & E8 & E9 & _).
  exists l'. repeat (split; [assumption|]). assumption.
Qed.

Lemma startGame_announces_state_witness :
  gameState_of "LOBBY1" (startGame (fun _ => 0) "LOBBY1" waiting_room) = Some GPlaying.
Proof.
  destruct (startGame_announces_state (fun _ => 0) "LOBBY1" waiting_room waiting_lobby
              eq_refl) as (l' & H & G & _).
  unfold gameState_of. rewrite H. simpl. now rewrite G.
Defined.

(** ** Movement *)


(** X16. A player whose stored input is not zero is inside the map after
    the movement step, whatever the elapsed time and wherever it was
    before: the step clamps the position to the map extents.  (A player
    with a zero input is not moved and not clamped.) *)
Theorem moving_player_stays_in_map deltaTime p :
  vx (p_input p) <> 0 \/ vy (p_input p) <> 0 ->
  inside_map (movePlayer deltaTime p) /\
  p_size (movePlayer deltaTime p) = p_size p.
Proof.
  intros H. split; [|apply movePlayer_size].
  unfold movePlayer, inside_map, CONFIG.mapWidth, CONFIG.mapHeight.
  assert (C : (if Req_dec_T (vx (p_input p)) 0 then false else true)
              || (if Req_dec_T (vy (p_input p)) 0 then false else true) = true).
  { destruct (Req_dec_T (vx (p_input p)) 0), (Req_dec_T (vy (p_input p)) 0);
      try reflexivity. destruct H; contradiction. }
  rewrite C.
  destruct (Rlt_dec 0 _); cbn [p_x p_y with_pos with_input];
    repeat match goal with
           | |- context [Rlt_dec ?a ?b] =>
               destruct (Rlt_dec a b); cbn [p_x p_y with_pos with_input] in *
           end;
    unfold Rmax, Rmin;
    repeat match goal with
           | |- context [Rle_dec ?a ?b] => destruct (Rle_dec a b)
           end; lra.
Qed.

Lemma moving_player_stays_in_map_witness :
  inside_map
    (movePlayer 1000 (mkPlayer "A" "cA" "ann" 0x44aa88 true (-19) 0 1 (mkVec (-1) 0) None)).
Proof.
  refine (proj1 (moving_player_stays_in_map 1000 _ _)). left. simpl. lra.
Defined.



(** ** Collisions between players *)

Lemma writeObj_eq lobbyId i f pl s p :
  nth_error pl i = Some p ->
  writeObj lobbyId i f (pl, s) = (set_nth i (f p) pl, update_player lobbyId (p_id p) f s).
Proof. intros H. unfold writeObj. cbn [fst snd]. now rewrite H. Qed.

Lemma nth_error_set_nth_other {A : Type} i j (x : A) l :
  i <> j -> nth_error (set_nth i x l) j = nth_error l j.
Proof.
  revert i j. induction l as [|b r IH]; intros [|i] [|j] N; simpl; try reflexivity.
  - contradiction.
  - apply IH. congruence.
Qed.

(** The elastic branch on the cells [i] and [j] that hold [a] and [b]. *)
Lemma bounce_eq lobbyId i j pl s l a b :
  JSMap.get lobbyId (lobbies s) = Some l ->
  nth_error pl i = Some a -> nth_error pl j = Some b -> i <> j ->
  JSMap.get (p_id a) (players l) = Some a ->
  JSMap.get (p_id b) (players l) = Some b ->
  p_id a <> p_id b ->
  let st' := bounce lobbyId i j a b (pl, s) in
  let ma := p_size a / (p_size a + p_size b) in
  let mb := p_size b / (p_size a + p_size b) in
  exists ia ib roster',
    let a' := with_input ia
                (with_pos (p_x a + vx (separation a b) * mb)
                          (p_y a + vy (separation a b) * mb) a) in
    let b' := with_input ib
                (with_pos (p_x b - vx (separation a b) * ma)
                          (p_y b - vy (separation a b) * ma) b) in
    nth_error (fst st') i = Some a' /\ nth_error (fst st') j = Some b' /\
    (forall x, x <> i -> x <> j -> nth_error (fst st') x = nth_error pl x) /\
    JSMap.get lobbyId (lobbies (snd st')) = Some (with_players roster' l) /\
    JSMap.keys roster' = JSMap.keys (players l) /\
    JSMap.get (p_id a) roster' = Some a' /\ JSMap.get (p_id b) roster' = Some b' /\
    (forall q, q <> p_id a -> q <> p_id b ->
       JSMap.get q roster' = JSMap.get q (players l)) /\
    (forall k, k <> lobbyId ->
       JSMap.get k (lobbies (snd st')) = JSMap.get k (lobbies s)) /\
    clients (snd st') = clients s /\ timers (snd st') = timers s /\
    sent (snd st') = sent s.
Proof.
  intros Hl Hi Hj Nij Ha Hb Nab. unfold bounce. cbv zeta.
  fold (distance a b).
  match goal with
  | |- context [writeObj _ j ?g4 (writeObj _ i ?g3 (writeObj _ j ?g2 (writeObj _ i ?g1 _)))] =>
      set (f1 := g1); set (f2 := g2); set (f3 := g3); set (f4 := g4)
  end.
  rewrite (writeObj_eq lobbyId i f1 pl s a Hi).
  rewrite (writeObj_eq lobbyId j f2 _ _ b)
    by (rewrite nth_error_set_nth_other by exact Nij; exact Hj).
  rewrite (writeObj_eq lobbyId i f3 _ _ (f1 a)).
  2:{ rewrite nth_error_set_nth_other by congruence.
      now apply (nth_error_set_nth i (f1 a) a). }
  rewrite (writeObj_eq lobbyId j f4 _ _ (f2 b)).
  2:{ rewrite nth_error_set_nth_other by exact Nij.
      apply (nth_error_set_nth j (f2 b) b).
      rewrite nth_error_set_nth_other by exact Nij. exact Hj. }
  cbn [fst snd].
  change (p_id (f1 a)) with (p_id a). change (p_id (f2 b)) with (p_id b).
  exists (p_input (f3 (f1 a))), (p_input (f4 (f2 b))).
  exists (JSMap.update (p_id b) f4 (JSMap.update (p_id a) f3
            (JSMap.update (p_id b) f2 (JSMap.update (p_id a) f1 (players l))))).
  cbv zeta.
  assert (Nba : p_id b <> p_id a) by congruence.
  assert (Eab : (p_id a =? p_id b) = false) by now apply String.eqb_neq.
  assert (Eba : (p_id b =? p_id a) = false) by now apply String.eqb_neq.
  split.
  { rewrite nth_error_set_nth_other by congruence.
    erewrite nth_error_set_nth; [reflexivity|].
    rewrite nth_error_set_nth_other by congruence.
    now apply (nth_error_set_nth i (f1 a) a). }
  split.
  { erewrite nth_error_set_nth; [reflexivity|].
    rewrite nth_error_set_nth_other by exact Nij.
    apply (nth_error_set_nth j (f2 b) b).
    rewrite nth_error_set_nth_other by exact Nij. exact Hj. }
  split.
  { intros x Hxi Hxj. rewrite !nth_error_set_nth_other by congruence. reflexivity. }
  split.
  { unfold update_player. rewrite !get_update_lobby_same, Hl. reflexivity. }
  split; [now rewrite !keys_update|].
  split.
  { rewrite get_update, Eba, get_update_same, get_update, Eba, get_update_same, Ha.
    reflexivity. }
  split.
  { rewrite get_update_same, get_update, Eab, get_update_same, get_update, Eab, Hb.
    reflexivity. }
  split.
  { intros q Na Nb. rewrite !get_update.
    destruct (String.eqb_spec (p_id a) q); [congruence|].
    destruct (String.eqb_spec (p_id b) q); [congruence|]. reflexivity. }
  split.
  { intros k Hk. unfold update_player. rewrite !get_update_lobby.
    destruct (String.eqb_spec lobbyId k); [congruence | reflexivity]. }
  repeat split.
Qed.

Lemma collidePair_bounces lobbyId i j st a b :
  nth_error (fst st) i = Some a -> nth_error (fst st) j = Some b ->
  p_id a <> "" -> p_id b <> "" ->
  touching a b -> similar_size a b ->
  collidePair lobbyId i j st = bounce lobbyId i j a b st.
Proof.
  intros Hi Hj Na Nb T [Sa Sb]. unfold collidePair. rewrite Hi, Hj.
  apply String.eqb_neq in Na, Nb. rewrite Na, Nb. cbn [orb].
  destruct (Rlt_dec _ _) as [_|N]; [|contradiction].
  destruct (Rgt_dec _ _) as [A|_]; [exfalso; unfold Rgt in A; lra|].
  destruct (Rgt_dec _ _) as [A|_]; [exfalso; unfold Rgt in A; lra|].
  reflexivity.
Qed.

(** X18. Two touching players of similar size (neither is more than
    [absorptionThreshold] times the other) bounce: both stay in the roster
    with their sizes, nobody else is touched, nothing is sent, and the
    separation conserves the centre of mass of the pair: the sum of the
    positions weighted by the sizes is the same before and after. *)
Theorem bounce_keeps_centre_of_mass lobbyId i j pl s l a b :
  JSMap.get lobbyId (lobbies s) = Some l ->
  nth_error pl i = Some a -> nth_error pl j = Some b -> i <> j ->
  JSMap.get (p_id a) (players l) = Some a ->
  JSMap.get (p_id b) (players l) = Some b ->
  p_id a <> "" -> p_id b <> "" -> p_id a <> p_id b ->
  0 < p_size a -> 0 < p_size b ->
  touching a b -> similar_size a b ->
  let st' := collidePair lobbyId i j (pl, s) in
  exists l' a' b',
    JSMap.get lobbyId (lobbies (snd st')) = Some l' /\
    JSMap.keys (players l') = JSMap.keys (players l) /\
    JSMap.get (p_id a) (players l') = Some a' /\
    JSMap.get (p_id b) (players l') = Some b' /\
    nth_error (fst st') i = Some a' /\ nth_error (fst st') j = Some b' /\
    p_size a' = p_size a /\ p_size b' = p_size b /\
    p_size a * p_x a' + p_size b * p_x b' = p_size a * p_x a + p_size b * p_x b /\
    p_size a * p_y a' + p_size b * p_y b' = p_size a * p_y a + p_size b * p_y b /\
    (forall q, q <> p_id a -> q <> p_id b ->
       JSMap.get q (players l') = JSMap.get q (players l)) /\
    clients (snd st') = clients s /\ timers (snd st') = timers s /\
    sent (snd st') = sent s.
Proof.
  intros Hl Hi Hj Nij Ha Hb Na Nb Nab Pa Pb T S st'. subst st'.
  rewrite (collidePair_bounces lobbyId i j (pl, s) a b Hi Hj Na Nb T S).
  destruct (bounce_eq lobbyId i j pl s l a b Hl Hi Hj Nij Ha Hb Nab)
    as (ia & ib & roster' & E1 & E2 & _ & E4 & E5 & E6 & E7 & E8 & _ & E10 & E11 & E12).
  cbv zeta in *.
  eexists. eexists. eexists.
  split; [exact E4|]. split; [exact E5|]. split; [exact E6|]. split; [exact E7|].
  split; [exact E1|]. split; [exact E2|].
  cbn [p_size p_x p_y with_input with_pos].
  split; [reflexivity|]. split; [reflexivity|].
  split; [field; lra|]. split; [field; lra|].
  split; [exact E8|]. auto.
Qed.

Lemma clinch_touching : touching clinch_A clinch_B.
Proof.
  unfold touching, clinch_A, clinch_B. cbn [p_x p_y p_size].
  rewrite sqrt_unit_step. lra.
Qed.

Lemma clinch_similar : similar_size clinch_A clinch_B.
Proof.
  unfold similar_size, clinch_A, clinch_B, CONFIG.absorptionThreshold.
  cbn [p_size]. lra.
Qed.

Lemma bounce_keeps_centre_of_mass_witness :
  exists l',
    JSMap.get "LOBBY1"
      (lobbies (snd (collidePair "LOBBY1" 0 1 ([clinch_A; clinch_B], clinch)))) = Some l' /\
    JSMap.keys (players l') = ["A"; "B"].
Proof.
  destruct (bounce_keeps_centre_of_mass "LOBBY1" 0 1 [clinch_A; clinch_B] clinch
              clinch_lobby clinch_A clinch_B)
    as (l' & a' & b' & H & K & _); try reflexivity; try discriminate.
  - simpl. lra.
  - simpl. lra.
  - exact clinch_touching.
  - exact clinch_similar.
  - exists l'. split; [exact H | exact K].
Defined.

Lemma atan2_polar x y :
  x <> 0 \/ y <> 0 ->
  cos (atan2 y x) = x / sqrt (x * x + y * y) /\
  sin (atan2 y x) = y / sqrt (x * x + y * y).
Proof.
  intros H.
  assert (P : 0 < x * x + y * y) by (destruct H; nra).
  assert (Q : 0 < sqrt (x * x + y * y)) by now apply sqrt_lt_R0.
  assert (Root : forall t, 0 < t -> t * t = x * x -> 
                 sqrt (1 + (y / x)²) = sqrt (x * x + y * y) / t).
  { intros t Ht E. apply sqrt_lem_1.
    - unfold Rsqr. assert (0 <= y / x * (y / x)) by nra. lra.
    - apply Rlt_le, Rdiv_lt_0_compat; assumption.
    - unfold Rsqr.
      replace (sqrt (x * x + y * y) / t * (sqrt (x * x + y * y) / t))
        with (sqrt (x * x + y * y) * sqrt (x * x + y * y) / (t * t)) by (field; lra).
      rewrite sqrt_sqrt by lra. rewrite E. field. intros ->. nra. }
  unfold atan2.
  destruct (Rlt_dec 0 x) as [Px|Nx].
  - rewrite cos_atan, sin_atan, (Root x Px eq_refl). split; field; lra.
  - destruct (Rlt_dec x 0) as [Lx|Zx].
    + assert (R' := Root (- x) ltac:(lra) ltac:(ring)).
      destruct (Rlt_dec y 0).
      * unfold Rminus. rewrite cos_plus, sin_plus, cos_neg, sin_neg, cos_PI, sin_PI.
        rewrite cos_atan, sin_atan, R'. split; field; lra.
      * rewrite neg_cos, neg_sin, cos_atan, sin_atan, R'. split; field; lra.
    + assert (x = 0) by lra. subst x.
      assert (Y : sqrt (0 * 0 + y * y) = Rabs y).
      { replace (0 * 0 + y * y) with (y²) by (unfold Rsqr; ring). apply sqrt_Rsqr_abs. }
      rewrite Y.
      destruct (Rlt_dec 0 y) as [Py|Ny].
      * rewrite cos_PI2, sin_PI2, Rabs_right by lra. split; field; lra.
      * destruct (Rlt_dec y 0) as [Ly|Zy].
        -- rewrite cos_neg, sin_neg, cos_PI2, sin_PI2, Rabs_left by lra. split; field; lra.
        -- exfalso. destruct H; lra.
Qed.

Lemma atan2_origin : atan2 0 0 = 0.
Proof.
  unfold atan2. repeat (destruct (Rlt_dec _ _); [exfalso; lra|]). reflexivity.
Qed.

(** Two points moved apart by [h] along the angle [atan2 dy dx] of their
    difference are [h] further apart. *)
Lemma pushed_apart_distance dx dy h :
  0 <= h ->
  let d := sqrt (dx * dx + dy * dy) in
  let dx' := dx + cos (atan2 dy dx) * h in
  let dy' := dy + sin (atan2 dy dx) * h in
  sqrt (dx' * dx' + dy' * dy') = d + h.
Proof.
  intros Hh d dx' dy'.
  destruct (Req_dec_T dx 0) as [Zx|Nx]; [destruct (Req_dec_T dy 0) as [Zy|Ny]|].
  - subst dx dy dx' dy' d. rewrite atan2_origin, cos_0, sin_0.
    replace (0 * 0 + 0 * 0) with 0 by ring. rewrite sqrt_0.
    replace ((0 + 1 * h) * (0 + 1 * h) + (0 + 0 * h) * (0 + 0 * h)) with (h * h) by ring.
    rewrite sqrt_square by exact Hh. ring.
  - destruct (atan2_polar dx dy (or_intror Ny)) as [C S].
    assert (P : 0 < dx * dx + dy * dy) by nra.
    assert (Q : 0 < d) by now apply sqrt_lt_R0.
    assert (D2 : d * d = dx * dx + dy * dy) by (apply sqrt_sqrt; lra).
    subst dx' dy'. rewrite C, S. fold d.
    replace ((dx + dx / d * h) * (dx + dx / d * h) + (dy + dy / d * h) * (dy + dy / d * h))
      with ((dx * dx + dy * dy) * ((1 + h / d) * (1 + h / d))) by (field; lra).
    rewrite <- D2.
    replace (d * d * ((1 + h / d) * (1 + h / d))) with ((d + h) * (d + h)) by (field; lra).
    apply sqrt_square. lra.
  - destruct (atan2_polar dx dy (or_introl Nx)) as [C S].
    assert (P : 0 < dx * dx + dy * dy) by nra.
    assert (Q : 0 < d) by now apply sqrt_lt_R0.
    assert (D2 : d * d = dx * dx + dy * dy) by (apply sqrt_sqrt; lra).
    subst dx' dy'. rewrite C, S. fold d.
    replace ((dx + dx / d * h) * (dx + dx / d * h) + (dy + dy / d * h) * (dy + dy / d * h))
      with ((dx * dx + dy * dy) * ((1 + h / d) * (1 + h / d))) by (field; lra).
    rewrite <- D2.
    replace (d * d * ((1 + h / d) * (1 + h / d))) with ((d + h) * (d + h)) by (field; lra).
    apply sqrt_square. lra.
Qed.

(** X19. The bounce of two touching players of similar size pushes them
    apart by half their overlap only: afterwards the distance between the
    centres is the mean of the old distance and the sum of the sizes, so
    the two are further apart than before and still overlap. *)
Theorem bounce_halves_overlap lobbyId i j pl s l a b :
  JSMap.get lobbyId (lobbies s) = Some l ->
  nth_error pl i = Some a -> nth_error pl j = Some b -> i <> j ->
  JSMap.get (p_id a) (players l) = Some a ->
  JSMap.get (p_id b) (players l) = Some b ->
  p_id a <> "" -> p_id b <> "" -> p_id a <> p_id b ->
  0 < p_size a -> 0 < p_size b ->
  touching a b -> similar_size a b ->
  let st' := collidePair lobbyId i j (pl, s) in
  exists a' b',
    JSMap.get (p_id a) (roster_of lobbyId (snd st')) = Some a' /\
    JSMap.get (p_id b) (roster_of lobbyId (snd st')) = Some b' /\
    distance a' b' = (distance a b + (p_size a + p_size b)) / 2 /\
    distance a b < distance a' b' < p_size a' + p_size b'.
Proof.
  intros Hl Hi Hj Nij Ha Hb Na Nb Nab Pa Pb T S st'. subst st'.
  rewrite (collidePair_bounces lobbyId i j (pl, s) a b Hi Hj Na Nb T S).
  destruct (bounce_eq lobbyId i j pl s l a b Hl Hi Hj Nij Ha Hb Nab)
    as (ia & ib & roster' & _ & _ & _ & E4 & _ & E6 & E7 & _).
  cbv zeta in *. unfold roster_of. rewrite E4. cbn [players with_players].
  eexists. eexists. split; [exact E6|]. split; [exact E7|].
  assert (D : distance
                (with_input ia
                   (with_pos (p_x a + vx (separation a b) * (p_size b / (p_size a + p_size b)))
                      (p_y a + vy (separation a b) * (p_size b / (p_size a + p_size b))) a))
                (with_input ib
                   (with_pos (p_x b - vx (separation a b) * (p_size a / (p_size a + p_size b)))
                      (p_y b - vy (separation a b) * (p_size a / (p_size a + p_size b))) b))
              = distance a b + (p_size a + p_size b - distance a b) * (5 / 10)).
  { assert (Hh : 0 <= (p_size a + p_size b - distance a b) * (5 / 10)).
    { unfold touching in T. fold (distance a b) in T. lra. }
    pose proof (pushed_apart_distance (p_x a - p_x b) (p_y a - p_y b) _ Hh) as PA.
    cbv zeta in PA. unfold distance in *. cbn [p_x p_y with_input with_pos].
    unfold separation. cbn [vx vy]. rewrite <- PA. f_equal. field. lra. }
  rewrite D. cbn [p_size with_input with_pos].
  unfold touching in T. fold (distance a b) in T.
  split; [lra|]. lra.
Qed.

Lemma bounce_halves_overlap_witness :
  exists a' b',
    JSMap.get "A" (roster_of "LOBBY1"
                     (snd (collidePair "LOBBY1" 0 1 ([clinch_A; clinch_B], clinch))))
      = Some a' /\
    JSMap.get "B" (roster_of "LOBBY1"
                     (snd (collidePair "LOBBY1" 0 1 ([clinch_A; clinch_B], clinch))))
      = Some b' /\
    distance a' b' = (distance clinch_A clinch_B + (1 + 1)) / 2.
Proof.
  destruct (bounce_halves_overlap "LOBBY1" 0 1 [clinch_A; clinch_B] clinch
              clinch_lobby clinch_A clinch_B)
    as (a' & b' & Ha & Hb & D & _); try reflexivity; try discriminate.
  - simpl. lra.
  - simpl. lra.
  - exact clinch_touching.
  - exact clinch_similar.
  - exists a', b'. split; [exact Ha|]. split; [exact Hb | exact D].
Defined.

(** X20. When no two players of the roster touch, the pass over the pairs
    of players changes nothing at all: no position, no input, no size, no
    message. *)
Theorem no_contact_no_change lobbyId s l :
  JSMap.get lobbyId (lobbies s) = Some l ->
  (forall i j a b, (i < j)%nat ->
     nth_error (JSMap.values (players l)) i = Some a ->
     nth_error (JSMap.values (players l)) j = Some b -> ~ touching a b) ->
  checkPlayerCollisions lobbyId s = s.
Proof.
  intros Hl Apart. unfold checkPlayerCollisions. rewrite Hl.
  set (pl := JSMap.values (players l)) in *.
  assert (P : forall i j, (i < j)%nat -> collidePair lobbyId i j (pl, s) = (pl, s)).
  { intros i j Lt.
    destruct (nth_error pl i) as [a|] eqn:Ei; [destruct (nth_error pl j) as [b|] eqn:Ej|].
    - apply (collidePair_apart lobbyId i j (pl, s) a b Ei Ej). now apply (Apart i j).
    - unfold collidePair. cbn [fst]. now rewrite Ei, Ej.
    - unfold collidePair. cbn [fst]. now rewrite Ei. }
  assert (Inner : forall i js, (forall j, In j js -> (i < j)%nat) ->
                  fold_left (fun st j => collidePair lobbyId i j st) js (pl, s) = (pl, s)).
  { intros i js. induction js as [|j js IH]; intros H; [reflexivity|]. simpl.
    rewrite (P i j) by (apply H; now left). apply IH. intros j' I. apply H. now right. }
  assert (Outer : forall is_, 
            fold_left (fun st i =>
                         fold_left (fun st j => collidePair lobbyId i j st)
                                   (seq (S i) (List.length pl - S i)) st) is_ (pl, s)
            = (pl, s)).
  { induction is_ as [|i is_ IH]; [reflexivity|]. simpl.
    rewrite Inner; [exact IH|]. intros j I. apply in_seq in I. lia. }
  now rewrite Outer.
Qed.

Lemma no_contact_no_change_witness : checkPlayerCollisions "LOBBY1" idle_room = idle_room.
Proof.
  eapply (no_contact_no_change "LOBBY1" idle_room); [reflexivity|].
  intros [|[|i]] [|[|[|j]]] a b Lt; simpl; intros Ha Hb; try discriminate; try lia.
  injection Ha as <-. injection Hb as <-. unfold touching. cbn [p_x p_y p_size].
  intros T.
  assert (S : sqrt ((-5 - 5) * (-5 - 5) + (0 - 0) * (0 - 0)) = 10).
  { replace ((-5 - 5) * (-5 - 5) + (0 - 0) * (0 - 0)) with (10 * 10) by lra.
    apply sqrt_square. lra. }
  rewrite S in T. lra.
Defined.

(** X21. When no food item is within the reach of any player of the
    roster, the food pass changes nothing: nobody grows, no item is removed
    or added, no random value is consumed and nothing is sent. *)
Theorem no_food_in_reach_no_change rnd lobbyId s l :
  JSMap.get lobbyId (lobbies s) = Some l ->
  (forall playerId p food, JSMap.get playerId (players l) = Some p ->
                           In food (foodItems l) -> ~ in_reach p food) ->
  checkFoodCollisions rnd lobbyId s = s.
Proof. apply checkFoodCollisions_out_of_reach. Qed.

Lemma no_food_in_reach_no_change_witness :
  checkFoodCollisions (fun _ => 0) "LOBBY1" idle_room = idle_room.
Proof.
  eapply (no_food_in_reach_no_change (fun _ => 0) "LOBBY1" idle_room); [reflexivity|].
  unfold idle_room. out_of_reach.
Defined.

(** ** What a running game leaves alone *)

Lemma in_play_refl l : in_play l l.
Proof.
  unfold in_play. split; [reflexivity|]. split; [reflexivity|]. split; [reflexivity|].
  split; [apply incl_refl|]. split; [apply Nat.le_refl | exact (fun H => H)].
Qed.

Lemma in_play_trans l0 l1 l2 : in_play l0 l1 -> in_play l1 l2 -> in_play l0 l2.
Proof.
  intros (A1 & A2 & A3 & A4 & A5 & A6) (B1 & B2 & B3 & B4 & B5 & B6).
  unfold in_play. split; [congruence|]. split; [congruence|]. split; [congruence|].
  split; [eapply incl_tran; eassumption|]. split; [lia|].
  intros H. now apply B6, A6.
Qed.

Lemma steady_refl s : steady s s.
Proof. intros k. destruct (JSMap.get k (lobbies s)); [apply in_play_refl | exact I]. Qed.

Lemma steady_trans s0 s1 s2 : steady s0 s1 -> steady s1 s2 -> steady s0 s2.
Proof.
  intros A B k. specialize (A k). specialize (B k).
  destruct (JSMap.get k (lobbies s0)), (JSMap.get k (lobbies s1)),
    (JSMap.get k (lobbies s2)); try contradiction; try exact I.
  eapply in_play_trans; eassumption.
Qed.

Lemma steady_frame s s' : lobbies s' = lobbies s -> steady s s'.
Proof. intros E k. rewrite E. apply steady_refl. Qed.

Lemma steady_update_lobby lobbyId f s :
  (forall l, in_play l (f l)) -> steady s (update_lobby lobbyId f s).
Proof.
  intros F k. rewrite get_update_lobby.
  destruct (lobbyId =? k); [|apply steady_refl].
  destruct (JSMap.get k (lobbies s)); simpl; [apply F | exact I].
Qed.

Lemma keys_delete_incl {V : Type} k (m : list (string * V)) :
  incl (JSMap.keys (JSMap.delete k m)) (JSMap.keys m).
Proof.
  intros x I. unfold JSMap.keys, JSMap.delete in *. apply in_map_iff in I.
  destruct I as (kv & <- & I). apply filter_In in I. apply in_map. tauto.
Qed.

Lemma size_delete_le {V : Type} k (m : list (string * V)) :
  (JSMap.size (JSMap.delete k m) <= JSMap.size m)%nat.
Proof. apply filter_length_le. Qed.

Lemma size_update {V : Type} k (f : V -> V) (m : list (string * V)) :
  JSMap.size (JSMap.update k f m) = JSMap.size m.
Proof.
  unfold JSMap.size. rewrite <- (length_map fst (JSMap.update k f m)).
  change (map fst (JSMap.update k f m)) with (JSMap.keys (JSMap.update k f m)).
  rewrite keys_update. apply length_map.
Qed.

(** A change of the roster that adds no player. *)
Lemma in_play_roster r' l :
  incl (JSMap.keys r') (JSMap.keys (players l)) ->
  (JSMap.size r' <= JSMap.size (players l))%nat ->
  in_play l (with_players r' l).
Proof.
  intros A B. unfold in_play. cbn [with_players gameState countdown countdownInterval players].
  repeat (split; [reflexivity|]). split; [exact A|]. split; [exact B|].
  unfold stock_ok. cbn [with_players foodItems]. exact (fun H => H).
Qed.

Lemma in_play_tick_interval h l : in_play l (with_gameTickInterval h l).
Proof.
  unfold in_play, stock_ok.
  cbn [with_gameTickInterval gameState countdown countdownInterval players foodItems].
  repeat (split; [reflexivity|]). split; [apply incl_refl|].
  split; [apply Nat.le_refl | exact (fun H => H)].
Qed.

Lemma steady_update_player lobbyId playerId f s :
  steady s (update_player lobbyId playerId f s).
Proof.
  apply steady_update_lobby. intros l. apply in_play_roster.
  - rewrite keys_update. apply incl_refl.
  - now rewrite size_update.
Qed.

Lemma steady_delete_player lobbyId playerId s :
  steady s (update_lobby lobbyId
              (fun l => with_players (JSMap.delete playerId (players l)) l) s).
Proof.
  apply steady_update_lobby. intros l. apply in_play_roster.
  - apply keys_delete_incl.
  - apply size_delete_le.
Qed.

Lemma steady_iter (f : server -> server) n s :
  (forall s0, steady s0 (f s0)) -> steady s (Nat.iter n f s).
Proof.
  intros F. induction n as [|n IH]; [apply steady_refl|].
  simpl. eapply steady_trans; [exact IH | apply F].
Qed.

Lemma steady_fold {B : Type} (f : server -> B -> server) (bs : list B) s :
  (forall s0 b, steady s0 (f s0 b)) -> steady s (fold_left f bs s).
Proof.
  intros F. revert s. induction bs as [|b bs IH]; intros s; [apply steady_refl|].
  simpl. eapply steady_trans; [apply F | apply IH].
Qed.

(** Splits a goal [steady s (f x)] into [steady s x] and a step. *)
Ltac steady_step :=
  match goal with
  | |- steady ?s ?s => apply steady_refl
  | |- steady ?s (broadcastToLobby _ _ ?x) =>
      apply (steady_trans s x); [|apply steady_frame; now autorewrite with frame]
  | |- steady ?s (broadcastLobbyUpdate _ ?x) =>
      apply (steady_trans s x); [|apply steady_frame; now autorewrite with frame]
  | |- steady ?s (sendToClient _ _ ?x) =>
      apply (steady_trans s x); [|apply steady_frame; now autorewrite with frame]
  | |- steady ?s (update_player _ _ _ ?x) =>
      apply (steady_trans s x); [|apply steady_update_player]
  | |- steady ?s (update_lobby _ (fun l => with_players (JSMap.delete _ (players l)) l) ?x) =>
      apply (steady_trans s x); [|apply steady_delete_player]
  | |- steady ?s (update_lobby _ (with_gameTickInterval _) ?x) =>
      apply (steady_trans s x);
      [|apply steady_update_lobby; intros ?; apply in_play_tick_interval]
  | |- steady ?s (with_clients _ ?x) =>
      apply (steady_trans s x); [|now apply steady_frame]
  | |- steady ?s (with_randomCalls _ ?x) =>
      apply (steady_trans s x); [|now apply steady_frame]
  | |- steady ?s (with_clockCalls _ ?x) =>
      apply (steady_trans s x); [|now apply steady_frame]
  | |- steady ?s (clearTimer _ ?x) =>
      apply (steady_trans s x); [|now apply steady_frame]
  | |- steady ?s (snd (setTimer _ ?x)) =>
      apply (steady_trans s x); [|now apply steady_frame]
  | |- steady _ (match ?c with _ => _ end) => destruct c
  | |- steady _ (if ?c then _ else _) => destruct c
  end.

Lemma steady_endGame lobbyId winnerId s : steady s (endGame lobbyId winnerId s).
Proof. unfold endGame. repeat steady_step. Qed.

Lemma steady_absorbPlayer lobbyId a b s : steady s (absorbPlayer lobbyId a b s).
Proof.
  unfold absorbPlayer.
  destruct (JSMap.get lobbyId (lobbies s)); [|apply steady_refl].
  match goal with
  | |- steady s (match JSMap.get _ (lobbies ?x) with _ => _ end) =>
      assert (H1 : steady s x) by (repeat steady_step); set (s1 := x) in *
  end.
  destruct (JSMap.get lobbyId (lobbies s1)); [|exact H1].
  destruct (_ && _); [|exact H1].
  eapply steady_trans; [exact H1 | apply steady_endGame].
Qed.

Lemma steady_at lobbyId s s' l l' :
  JSMap.get lobbyId (lobbies s) = Some l ->
  JSMap.get lobbyId (lobbies s') = Some l' ->
  in_play l l' ->
  (forall k, k <> lobbyId -> JSMap.get k (lobbies s') = JSMap.get k (lobbies s)) ->
  steady s s'.
Proof.
  intros Hl Hl' P O k. destruct (String.eqb_spec k lobbyId) as [->|N].
  - now rewrite Hl, Hl'.
  - rewrite (O k N). apply steady_refl.
Qed.

Lemma length_splice1 {A : Type} i (l : list A) x :
  nth_error l i = Some x -> S (List.length (splice1 i l)) = List.length l.
Proof.
  revert i. induction l as [|a r IH]; intros [|i]; simpl; try discriminate.
  - reflexivity.
  - intros H. now rewrite (IH i H).
Qed.

Lemma respawn_threshold n :
  INR n < INR CONFIG.foodCount * CONFIG.respawnThreshold <-> (n < 30)%nat.
Proof.
  replace (INR CONFIG.foodCount * CONFIG.respawnThreshold) with (INR 30).
  - split; [apply INR_lt | apply lt_INR].
  - unfold CONFIG.foodCount, CONFIG.respawnThreshold. rewrite !INR_IZR_INZ. simpl. lra.
Qed.

Lemma steady_foodStep rnd lobbyId playerId i s :
  steady s (foodStep rnd lobbyId playerId i s).
Proof.
  unfold foodStep.
  destruct (JSMap.get lobbyId (lobbies s)) as [l|] eqn:Hl; [|apply steady_refl].
  destruct (JSMap.get playerId (players l)) as [p|]; [|apply steady_refl].
  destruct (nth_error (foodItems l) i) as [food|] eqn:Hf; [|apply steady_refl].
  destruct (Rlt_dec _ _) as [_|_]; [|apply steady_refl].
  set (grow := fun p => with_size (p_size p + CONFIG.growthRate) p).
  set (s1 := update_player lobbyId playerId grow s).
  set (s2 := broadcastToLobby lobbyId _ s1).
  set (s3 := update_lobby lobbyId _ s2).
  set (l3 := with_foodItems (splice1 i (foodItems l))
               (with_players (JSMap.update playerId grow (players l)) l)).
  assert (H3 : JSMap.get lobbyId (lobbies s3) = Some l3).
  { subst s3 s2 s1. rewrite get_update_lobby_same, broadcastToLobby_lobbies.
    unfold update_player. now rewrite get_update_lobby_same, Hl. }
  assert (O3 : forall k, k <> lobbyId -> JSMap.get k (lobbies s3) = JSMap.get k (lobbies s)).
  { intros k Hk. subst s3 s2 s1. rewrite get_update_lobby, broadcastToLobby_lobbies.
    unfold update_player. rewrite get_update_lobby.
    destruct (String.eqb_spec lobbyId k); [congruence | reflexivity]. }
  pose proof (length_splice1 i (foodItems l) food Hf) as Len.
  assert (Same : forall food', 
            (stock_ok l -> (30 <= List.length food' <= CONFIG.foodCount)%nat) ->
            in_play l (with_foodItems food' l3)).
  { intros food' St. unfold in_play, stock_ok. subst l3.
    cbn [with_foodItems with_players gameState countdown countdownInterval players foodItems].
    repeat (split; [reflexivity|]).
    split; [rewrite keys_update; apply incl_refl|].
    split; [now rewrite size_update | exact St]. }
  destruct (Rlt_dec _ _) as [Lt|Ge].
  - destruct (respawn_iter rnd lobbyId food (p_id p) s3 l3 CONFIG.respawnAmount H3)
      as (E1 & E2 & _).
    apply (steady_at lobbyId s _ l _ Hl E1).
    + replace (with_foodItems _ l3) with (with_foodItems (foodItems l3 ++ map
                 (fun j => randomFood rnd (randomCalls s3 + 2 * j))
                 (seq 0 CONFIG.respawnAmount)) l3) by reflexivity.
      apply Same. unfold stock_ok. intros St. apply respawn_threshold in Lt.
      rewrite length_app, length_map, length_seq. subst l3. cbn [foodItems with_foodItems].
      unfold CONFIG.respawnAmount, CONFIG.foodCount in *. lia.
    + intros k Hk. rewrite E2 by exact Hk. now apply O3.
  - apply (steady_at lobbyId s _ l l3 Hl H3).
    + replace l3 with (with_foodItems (splice1 i (foodItems l)) l3) by reflexivity.
      apply Same. unfold stock_ok. intros St.
      assert (~ (List.length (splice1 i (foodItems l)) < 30)%nat)
        by (intros C; apply Ge; now apply respawn_threshold).
      unfold CONFIG.foodCount in *. lia.
    + exact O3.
Qed.

Lemma steady_foodLoop rnd lobbyId playerId k s :
  steady s (foodLoop rnd lobbyId playerId k s).
Proof.
  revert s. induction k as [|k IH]; intros s; [apply steady_refl|]. simpl.
  eapply steady_trans; [apply steady_foodStep | apply IH].
Qed.

Lemma steady_checkFoodCollisions rnd lobbyId s :
  steady s (checkFoodCollisions rnd lobbyId s).
Proof.
  unfold checkFoodCollisions.
  destruct (JSMap.get lobbyId (lobbies s)); [|apply steady_refl].
  apply steady_fold. intros s0 b.
  destruct (JSMap.get lobbyId (lobbies s0)); [apply steady_foodLoop | apply steady_refl].
Qed.

Lemma steady_writeObj lobbyId i f st :
  steady (snd st) (snd (writeObj lobbyId i f st)).
Proof.
  unfold writeObj. destruct (nth_error (fst st) i); [|apply steady_refl].
  apply steady_update_player.
Qed.

Lemma steady_collidePair lobbyId i j st :
  steady (snd st) (snd (collidePair lobbyId i j st)).
Proof.
  unfold collidePair.
  destruct (nth_error (fst st) i) as [a|]; [|apply steady_refl].
  destruct (nth_error (fst st) j) as [b|]; [|apply steady_refl].
  destruct (_ || _); [apply steady_refl|].
  destruct (Rlt_dec _ _); [|apply steady_refl].
  assert (Ab : forall x big small st0,
            steady (snd st0) (snd (absorbInto lobbyId x big small st0))).
  { intros x big small st0. unfold absorbInto. cbn [snd].
    eapply steady_trans; [|apply steady_absorbPlayer].
    eapply steady_trans; [|apply steady_writeObj]. apply steady_writeObj. }
  destruct (Rgt_dec _ _); [apply Ab|].
  destruct (Rgt_dec _ _); [apply Ab|].
  unfold bounce.
  eapply steady_trans; [|apply steady_writeObj].
  eapply steady_trans; [|apply steady_writeObj].
  eapply steady_trans; [|apply steady_writeObj]. apply steady_writeObj.
Qed.

Lemma steady_fold_pairs {B : Type} (f : list player * server -> B -> list player * server)
    (bs : list B) st :
  (forall st0 b, steady (snd st0) (snd (f st0 b))) ->
  steady (snd st) (snd (fold_left f bs st)).
Proof.
  intros F. revert st. induction bs as [|b bs IH]; intros st; [apply steady_refl|].
  simpl. eapply steady_trans; [apply F | apply IH].
Qed.

Lemma steady_checkPlayerCollisions lobbyId s :
  steady s (checkPlayerCollisions lobbyId s).
Proof.
  unfold checkPlayerCollisions.
  destruct (JSMap.get lobbyId (lobbies s)) as [l|]; [|apply steady_refl].
  apply (steady_fold_pairs _ _ (JSMap.values (players l), s)).
  intros st0 i. apply steady_fold_pairs. intros st1 j. apply steady_collidePair.
Qed.

Lemma keys_movePlayers clock deltaTime n roster :
  JSMap.keys (movePlayers clock deltaTime n roster) = JSMap.keys roster.
Proof.
  revert n. induction roster as [|[k p] r IH]; intros n; [reflexivity|].
  simpl. now rewrite IH.
Qed.

Lemma steady_moveAll clock lobbyId deltaTime s :
  steady s (moveAll clock lobbyId deltaTime s).
Proof.
  unfold moveAll. destruct (JSMap.get lobbyId (lobbies s)); [|apply steady_refl].
  steady_step. apply steady_update_lobby. intros l0. apply in_play_roster.
  - rewrite keys_movePlayers. apply incl_refl.
  - unfold JSMap.size. rewrite <- !(length_map fst).
    change (map fst (movePlayers clock deltaTime (clockCalls s) (players l0)))
      with (JSMap.keys (movePlayers clock deltaTime (clockCalls s) (players l0))).
    now rewrite keys_movePlayers.
Qed.

Lemma steady_cleanUp clock lobbyId s : steady s (cleanUp clock lobbyId s).
Proof.
  unfold cleanUp.
  match goal with
  | |- steady s (match JSMap.get _ (lobbies ?x) with _ => _ end) =>
      assert (H1 : steady s x) by (now apply steady_frame); set (s1 := x) in *
  end.
  destruct (JSMap.get lobbyId (lobbies s1)); [|exact H1].
  eapply steady_trans; [exact H1|]. unfold reapInactive.
  apply steady_fold. intros s0 kp. destruct (inactive _ _); repeat steady_step.
Qed.

Lemma steady_checkGameEnd lobbyId s : steady s (checkGameEnd lobbyId s).
Proof.
  unfold checkGameEnd. destruct (JSMap.get lobbyId (lobbies s)); [|apply steady_refl].
  destruct (_ && _); [apply steady_endGame | apply steady_refl].
Qed.

Lemma steady_updateGameState rnd clock lobbyId deltaTime s :
  steady s (updateGameState rnd clock lobbyId deltaTime s).
Proof.
  unfold updateGameState.
  destruct (JSMap.get lobbyId (lobbies s)); [|apply steady_refl].
  destruct (negb _); [apply steady_refl|].
  destruct (_ <? _)%nat; [apply steady_endGame|].
  eapply steady_trans; [|apply steady_checkGameEnd].
  eapply steady_trans; [|apply steady_cleanUp].
  eapply steady_trans; [|apply steady_checkPlayerCollisions].
  eapply steady_trans; [|apply steady_checkFoodCollisions].
  apply steady_moveAll.
Qed.

Lemma steady_broadcastGameState lobbyId s : steady s (broadcastGameState lobbyId s).
Proof. unfold broadcastGameState. repeat steady_step. Qed.

Lemma steady_gameTick rnd clock lobbyId deltaTime s :
  steady s (gameTick rnd clock lobbyId deltaTime s).
Proof.
  unfold gameTick.
  destruct (JSMap.get lobbyId (lobbies s)) as [l|]; [|apply steady_refl].
  destruct (negb _).
  - destruct (gameTickInterval l); [now apply steady_frame | apply steady_refl].
  - eapply steady_trans; [apply steady_updateGameState | apply steady_broadcastGameState].
Qed.

(** ** The invariant of the lobbies *)

Lemma lobby_ok_in_play l l' : in_play l l' -> lobby_ok l -> lobby_ok l'.
Proof.
  intros (G & _ & _ & _ & Sz & St) [A B]. split; [lia|].
  rewrite G. intros P. now apply St, B.
Qed.

Lemma lobbies_ok_steady s s' : steady s s' -> lobbies_ok s -> lobbies_ok s'.
Proof.
  intros St Ok k l' Hl'. specialize (St k). rewrite Hl' in St.
  destruct (JSMap.get k (lobbies s)) as [l|] eqn:Hl; [|contradiction].
  exact (lobby_ok_in_play l l' St (Ok k l Hl)).
Qed.

Lemma lobbies_ok_frame s s' : lobbies s' = lobbies s -> lobbies_ok s -> lobbies_ok s'.
Proof. unfold lobbies_ok. now intros ->. Qed.

Lemma lobbies_ok_update_lobby lobbyId f s :
  (forall l, lobby_ok l -> lobby_ok (f l)) ->
  lobbies_ok s -> lobbies_ok (update_lobby lobbyId f s).
Proof.
  intros F Ok k l'. rewrite get_update_lobby.
  destruct (lobbyId =? k); [|apply Ok].
  destruct (JSMap.get k (lobbies s)) as [l|] eqn:Hl; [|discriminate].
  intros [= <-]. apply F. now apply (Ok k).
Qed.

Lemma lobby_ok_DEFAULT : lobby_ok DEFAULT_LOBBY.
Proof. split; [unfold CONFIG.maxPlayers; simpl; lia | discriminate]. Qed.

Lemma lobbies_ok_createLobby code s : lobbies_ok s -> lobbies_ok (createLobby code s).
Proof.
  intros Ok k l. unfold createLobby. cbn [with_lobbies lobbies].
  destruct (String.eqb_spec code k) as [->|N].
  - rewrite get_set_same. intros [= <-]. apply lobby_ok_DEFAULT.
  - rewrite get_set_other by exact N. apply Ok.
Qed.

Lemma size_set_le {V : Type} k (v : V) (m : list (string * V)) :
  (JSMap.size (JSMap.set k v m) <= S (JSMap.size m))%nat.
Proof.
  unfold JSMap.size. induction m as [|[k0 v0] r IH]; simpl; [lia|].
  destruct (k0 =? k); simpl; lia.
Qed.

Lemma lobbies_ok_handleJoinLobby clientId lobbyId playerName uuid s :
  lobbies_ok s -> lobbies_ok (handleJoinLobby clientId lobbyId playerName uuid s).
Proof.
  intros Ok. unfold handleJoinLobby.
  destruct (JSMap.get lobbyId (lobbies s)) as [l|] eqn:Hl;
    [|apply (lobbies_ok_frame s); [now autorewrite with frame | exact Ok]].
  destruct (game_state_eqb (gameState l) GLobby) eqn:G; simpl negb; cbv iota;
    [|apply (lobbies_ok_frame s); [now autorewrite with frame | exact Ok]].
  destruct (CONFIG.maxPlayers <=? JSMap.size (players l))%nat eqn:Full;
    [apply (lobbies_ok_frame s); [now autorewrite with frame | exact Ok]|].
  apply Nat.leb_gt in Full.
  set (s1 := update_lobby lobbyId _ s).
  assert (Ok1 : lobbies_ok s1).
  { intros k l'. subst s1. rewrite get_update_lobby.
    destruct (String.eqb_spec lobbyId k) as [<-|N]; [|apply Ok].
    rewrite Hl. intros [= <-]. split.
    - cbn [players with_players].
      match goal with
      | |- (JSMap.size (JSMap.set ?k ?v ?m) <= _)%nat => pose proof (size_set_le k v m)
      end. lia.
    - cbn [gameState with_players]. intros P. rewrite P in G. discriminate. }
  destruct (JSMap.get clientId (clients s1)); [|exact Ok1].
  apply (lobbies_ok_frame s1); [now autorewrite with frame | exact Ok1].
Qed.

Lemma lobbies_ok_startCountdown lobbyId s :
  lobbies_ok s -> lobbies_ok (startCountdown lobbyId s).
Proof.
  intros Ok. unfold startCountdown.
  destruct (JSMap.get lobbyId (lobbies s)); [|exact Ok].
  cbn [setTimer]. apply lobbies_ok_update_lobby.
  { intros l0 [A B]. split; [exact A | exact B]. }
  match goal with
  | |- lobbies_ok (mkServer (clients ?x) _ _ _ _ _ _) =>
      apply (lobbies_ok_frame x); [reflexivity|]
  end.
  match goal with
  | |- lobbies_ok (broadcastToLobby _ _ ?x) =>
      apply (lobbies_ok_frame x); [now autorewrite with frame|]
  end.
  apply lobbies_ok_update_lobby; [|exact Ok].
  intros l0 [A _]. split; [exact A | discriminate].
Qed.

Lemma lobbies_ok_handleToggleReady clientId lobbyId s :
  lobbies_ok s -> lobbies_ok (handleToggleReady clientId lobbyId s).
Proof.
  intros Ok. unfold handleToggleReady.
  destruct (JSMap.get clientId (clients s)) as [c|]; [|exact Ok].
  destruct (negb _); [exact Ok|].
  destruct (c_playerId c) as [playerId|]; [|exact Ok].
  destruct (JSMap.get lobbyId (lobbies s)) as [l|]; [|exact Ok].
  destruct (JSMap.get playerId (players l)); [|exact Ok].
  set (s2 := broadcastLobbyUpdate lobbyId _).
  assert (Ok2 : lobbies_ok s2).
  { apply (lobbies_ok_steady s); [|exact Ok]. subst s2. repeat steady_step. }
  unfold checkGameStart.
  destruct (JSMap.get lobbyId (lobbies s2)); [|exact Ok2].
  destruct (negb _); [exact Ok2|].
  destruct (_ && _); [now apply lobbies_ok_startCountdown | exact Ok2].
Qed.

Lemma steady_handlePlayerInput clientId lobbyId input s :
  steady s (handlePlayerInput clientId lobbyId input s).
Proof. unfold handlePlayerInput. repeat steady_step. Qed.

Lemma lobbies_ok_clearTimer h s : lobbies_ok s -> lobbies_ok (clearTimer h s).
Proof. now apply lobbies_ok_frame. Qed.

Lemma lobbies_ok_handleRequestLobby clientId s :
  lobbies_ok s -> lobbies_ok (handleRequestLobby clientId s).
Proof.
  intros Ok. unfold handleRequestLobby.
  destruct (JSMap.get clientId (clients s)) as [c|]; [|exact Ok].
  destruct (negb _); [exact Ok|].
  destruct (c_lobbyId c) as [lobbyId|]; [|exact Ok].
  destruct (JSMap.get lobbyId (lobbies s)) as [l|]; [|exact Ok].
  set (s1 := match countdownInterval l with Some h => _ | None => s end).
  assert (Ok1 : lobbies_ok s1).
  { subst s1. destruct (countdownInterval l); [|exact Ok].
    apply lobbies_ok_update_lobby; [|now apply lobbies_ok_clearTimer].
    intros l0 [A B]. split; [exact A | exact B]. }
  set (s2 := match gameTickInterval l with Some h => _ | None => s1 end).
  assert (Ok2 : lobbies_ok s2).
  { subst s2. destruct (gameTickInterval l); [|exact Ok1].
    apply lobbies_ok_update_lobby; [|now apply lobbies_ok_clearTimer].
    intros l0 [A B]. split; [exact A | exact B]. }
  apply (lobbies_ok_frame
           (update_lobby lobbyId
              (fun l0 => with_players
                 (map (fun kp : string * player =>
                         (fst kp,
                          with_input (mkVec 0 0)
                            (with_ready false
                               (with_size CONFIG.playerStartSize (with_pos 0 0 (snd kp))))))
                      (players l0)) l0)
              (update_lobby lobbyId
                 (fun l0 => with_countdown CONFIG.countdownTime
                              (with_foodItems [] (with_gameState GLobby l0))) s2)));
    [now autorewrite with frame|].
  apply lobbies_ok_update_lobby.
  { intros l0 [A B]. split; [|exact B].
    cbn [players with_players]. unfold JSMap.size in *. now rewrite length_map. }
  apply lobbies_ok_update_lobby; [|exact Ok2].
  intros l0 [A _]. split; [exact A | discriminate].
Qed.

Lemma steady_handleClientDisconnect clientId s :
  steady s (handleClientDisconnect clientId s).
Proof.
  unfold handleClientDisconnect.
  destruct (JSMap.get clientId (clients s)) as [c|]; [|apply steady_refl].
  steady_step.
  destruct (c_lobbyId c) as [lobbyId|]; [|apply steady_refl].
  destruct (negb _); [apply steady_refl|].
  destruct (JSMap.get lobbyId (lobbies s)); [|apply steady_refl].
  destruct (c_playerId c) as [playerId|]; [|apply steady_refl].
  destruct (negb _); [apply steady_refl|].
  match goal with
  | |- steady s (match JSMap.get _ (lobbies ?x) with _ => _ end) =>
      assert (H1 : steady s x) by (repeat steady_step); set (s1 := x) in *
  end.
  destruct (JSMap.get lobbyId (lobbies s1)); [|exact H1].
  destruct (_ && _); [|exact H1].
  eapply steady_trans; [exact H1 | apply steady_endGame].
Qed.

Lemma lobbies_ok_startGame rnd lobbyId s :
  lobbies_ok s -> lobbies_ok (startGame rnd lobbyId s).
Proof.
  intros Ok. destruct (JSMap.get lobbyId (lobbies s)) as [l|] eqn:Hl.
  - destruct (startGame_eq rnd lobbyId s l Hl)
      as (l' & E1 & _ & _ & _ & E5 & _ & E7 & _ & _ & E10).
    intros k l0. destruct (String.eqb_spec k lobbyId) as [->|N].
    + rewrite E1. intros [= <-]. split.
      * unfold JSMap.size. rewrite E7. exact (proj1 (Ok lobbyId l Hl)).
      * intros _. unfold stock_ok. rewrite E5. unfold CONFIG.foodCount. lia.
    + rewrite (E10 k N). apply Ok.
  - unfold startGame. now rewrite Hl.
Qed.

Lemma lobbies_ok_countdownTick rnd lobbyId s :
  lobbies_ok s -> lobbies_ok (countdownTick rnd lobbyId s).
Proof.
  intros Ok. unfold countdownTick.
  destruct (JSMap.get lobbyId (lobbies s)) as [l|]; [|exact Ok].
  assert (Ok1 : lobbies_ok (update_lobby lobbyId (with_countdown (countdown l - 1)) s)).
  { apply lobbies_ok_update_lobby; [|exact Ok]. intros l0 [A B]. split; [exact A | exact B]. }
  destruct (0 <? countdown l - 1)%Z.
  - eapply lobbies_ok_frame; [|exact Ok1]. now autorewrite with frame.
  - apply lobbies_ok_startGame.
    destruct (countdownInterval l); [now apply lobbies_ok_clearTimer | exact Ok1].
Qed.

Lemma lobbies_ok_teardown lobbyId s : lobbies_ok s -> lobbies_ok (teardown lobbyId s).
Proof.
  intros Ok. unfold teardown.
  destruct (JSMap.get lobbyId (lobbies s)) as [l|]; [|exact Ok].
  set (s1 := fold_left _ (players l) s).
  assert (L1 : lobbies s1 = lobbies s).
  { subst s1. generalize (players l). intros r. revert s Ok.
    induction r as [|kp r IH]; intros s Ok; [reflexivity|]. simpl.
    destruct (JSMap.get (p_clientId (snd kp)) (clients s)).
    - rewrite IH.
      + cbn [with_clients lobbies]. now autorewrite with frame.
      + eapply lobbies_ok_frame; [|exact Ok]. cbn [with_clients lobbies].
        now autorewrite with frame.
    - now apply IH. }
  intros k l0. cbn [with_lobbies lobbies]. rewrite L1, get_delete.
  destruct (lobbyId =? k); [discriminate | apply Ok].
Qed.

Lemma lobbies_ok_step rnd clock s e : lobbies_ok s -> lobbies_ok (step rnd clock s e).
Proof.
  intros Ok. destruct e as [clientId|clientId m fresh|clientId|clientId|h dt]; simpl.
  - now apply (lobbies_ok_frame s).
  - unfold handleClientMessage.
    destruct (JSMap.get clientId (clients s)) as [c|]; [|exact Ok].
    destruct m as [|lid name| |lid input| | |].
    + apply (lobbies_ok_frame (createLobby fresh s)); [now autorewrite with frame|].
      now apply lobbies_ok_createLobby.
    + destruct lid as [lid|];
        [|apply (lobbies_ok_frame s); [now autorewrite with frame | exact Ok]].
      destruct (truthy _);
        [now apply lobbies_ok_handleJoinLobby
        |apply (lobbies_ok_frame s); [now autorewrite with frame | exact Ok]].
    + destruct (c_lobbyId c) as [lid|];
        [|apply (lobbies_ok_frame s); [now autorewrite with frame | exact Ok]].
      destruct (truthy _);
        [now apply lobbies_ok_handleToggleReady
        |apply (lobbies_ok_frame s); [now autorewrite with frame | exact Ok]].
    + destruct lid as [lid|]; [|exact Ok]. destruct input as [i|]; [|exact Ok].
      destruct (truthy _); [|exact Ok].
      apply (lobbies_ok_steady s); [apply steady_handlePlayerInput | exact Ok].
    + now apply lobbies_ok_handleRequestLobby.
    + apply (lobbies_ok_frame s); [now autorewrite with frame | exact Ok].
    + exact Ok.
  - now apply (lobbies_ok_frame s).
  - apply (lobbies_ok_steady (setOpen clientId false s));
      [apply steady_handleClientDisconnect | now apply (lobbies_ok_frame s)].
  - unfold fire. destruct (timer_active h s) as [[lid|lid|lid]|]; [| | |exact Ok].
    + now apply lobbies_ok_countdownTick.
    + apply (lobbies_ok_steady s); [apply steady_gameTick | exact Ok].
    + apply lobbies_ok_teardown. now apply lobbies_ok_clearTimer.
Qed.

Lemma lobbies_ok_reachable rnd clock s : reachable rnd clock s -> lobbies_ok s.
Proof.
  intros [es ->]. unfold run. apply fold_left_inv.
  - intros k l. discriminate.
  - intros s e. apply lobbies_ok_step.
Qed.

(** X22. No lobby ever holds more than [maxPlayers] players: in every
    state the server can reach, the roster of every registered lobby has at
    most [maxPlayers] entries. *)
Theorem roster_never_exceeds_cap rnd clock s :
  reachable rnd clock s ->
  forall k l, JSMap.get k (lobbies s) = Some l ->
              (JSMap.size (players l) <= CONFIG.maxPlayers)%nat.
Proof.
  intros Re k l Hl. exact (proj1 (lobbies_ok_reachable rnd clock s Re k l Hl)).
Qed.

Lemma roster_never_exceeds_cap_witness :
  exists l,
    JSMap.get "LOBBY1" (lobbies (run (fun _ => 0) (fun _ => 0%Z) initial twin_trace))
      = Some l /\
    (JSMap.size (players l) <= CONFIG.maxPlayers)%nat.
Proof.
  eexists. split; [unfold twin_trace; crunch; reflexivity|].
  refine (roster_never_exceeds_cap (fun _ => 0) (fun _ => 0%Z)
            (run (fun _ => 0) (fun _ => 0%Z) initial twin_trace)
            (ex_intro _ twin_trace eq_refl) "LOBBY1" _ _).
  unfold twin_trace. crunch. reflexivity.
Defined.

(** X23. A running game never runs out of food and never holds more than
    it started with: in every state the server can reach, a lobby in state
    [playing] holds at least [foodCount * respawnThreshold = 30] and at
    most [foodCount] food items. *)
Theorem playing_lobby_keeps_food rnd clock s :
  reachable rnd clock s ->
  forall k l, JSMap.get k (lobbies s) = Some l -> gameState l = GPlaying ->
              (30 <= List.length (foodItems l) <= CONFIG.foodCount)%nat.
Proof.
  intros Re k l Hl G. exact (proj2 (lobbies_ok_reachable rnd clock s Re k l Hl) G).
Qed.

Lemma playing_lobby_keeps_food_witness :
  exists l,
    JSMap.get "LOBBY1" (lobbies (run (fun _ => 0) (fun _ => 0%Z) initial twin_trace))
      = Some l /\
    (30 <= List.length (foodItems l) <= CONFIG.foodCount)%nat.
Proof.
  eexists. split; [unfold twin_trace; crunch; reflexivity|].
  refine (playing_lobby_keeps_food (fun _ => 0) (fun _ => 0%Z)
            (run (fun _ => 0) (fun _ => 0%Z) initial twin_trace)
            (ex_intro _ twin_trace eq_refl) "LOBBY1" _ _ _).
  - unfold twin_trace. crunch. reflexivity.
  - reflexivity.
Defined.

Lemma steady_gameState_of k s s' : steady s s' -> gameState_of k s' = gameState_of k s.
Proof.
  intros St. specialize (St k). unfold gameState_of.
  destruct (JSMap.get k (lobbies s)), (JSMap.get k (lobbies s')); try contradiction.
  - simpl. f_equal. exact (proj1 St).
  - reflexivity.
Qed.

(** X24. A tick never changes the state of a lobby: after the tick
    callback of any lobby, every lobby is registered exactly if it was
    before, in the same state and with the same count; a lobby in state
    [playing] stays so even when the tick has ended its game.  No player
    appears in a roster during a tick. *)
Theorem tick_never_changes_state rnd clock lobbyId deltaTime s :
  let s' := gameTick rnd clock lobbyId deltaTime s in
  forall k,
    gameState_of k s' = gameState_of k s /\
    option_map countdown (JSMap.get k (lobbies s'))
      = option_map countdown (JSMap.get k (lobbies s)) /\
    incl (JSMap.keys (roster_of k s')) (JSMap.keys (roster_of k s)).
Proof.
  intros s' k. pose proof (steady_gameTick rnd clock lobbyId deltaTime s) as St.
  fold s' in St. split; [now apply steady_gameState_of|].
  specialize (St k). unfold roster_of.
  destruct (JSMap.get k (lobbies s)), (JSMap.get k (lobbies s')); try contradiction.
  - destruct St as (_ & C & _ & K & _). simpl. split; [now rewrite C | exact K].
  - split; [reflexivity | apply incl_refl].
Qed.

(** ** How a lobby leaves the registry or the state [playing] *)

Lemma stays_refl k s : stays k s s.
Proof. split; auto. Qed.

Lemma stays_trans k s0 s1 s2 : stays k s0 s1 -> stays k s1 s2 -> stays k s0 s2.
Proof. intros [A B] [C D]. split; auto. Qed.

Lemma stays_frame k s s' : lobbies s' = lobbies s -> stays k s s'.
Proof. intros E. unfold stays, registered, gameState_of. rewrite E. auto. Qed.

Lemma stays_steady k s s' : steady s s' -> stays k s s'.
Proof.
  intros St. split.
  - unfold registered. specialize (St k).
    destruct (JSMap.get k (lobbies s)), (JSMap.get k (lobbies s')); try contradiction;
      auto; discriminate.
  - now rewrite (steady_gameState_of k s s' St).
Qed.

Lemma stays_update_lobby k lobbyId f s :
  (forall l, gameState l = GPlaying -> gameState (f l) = GPlaying) ->
  stays k s (update_lobby lobbyId f s).
Proof.
  intros F. unfold stays, registered, gameState_of. rewrite get_update_lobby.
  destruct (lobbyId =? k); [|auto].
  destruct (JSMap.get k (lobbies s)) as [l|]; simpl; split; auto; try discriminate.
  intros [= G]. now rewrite (F l G).
Qed.

Lemma stays_handleJoinLobby k clientId lobbyId playerName uuid s :
  stays k s (handleJoinLobby clientId lobbyId playerName uuid s).
Proof.
  unfold handleJoinLobby.
  destruct (JSMap.get lobbyId (lobbies s));
    [|apply stays_frame; now autorewrite with frame].
  destruct (negb _); [apply stays_frame; now autorewrite with frame|].
  destruct (_ <=? _)%nat; [apply stays_frame; now autorewrite with frame|].
  set (s1 := update_lobby lobbyId _ s).
  assert (S1 : stays k s s1) by (apply stays_update_lobby; auto).
  destruct (JSMap.get clientId (clients s1)); [|exact S1].
  eapply stays_trans; [exact S1|]. apply stays_frame. now autorewrite with frame.
Qed.

Lemma stays_handleToggleReady k clientId lobbyId s :
  stays k s (handleToggleReady clientId lobbyId s).
Proof.
  unfold handleToggleReady.
  destruct (JSMap.get clientId (clients s)) as [c|]; [|apply stays_refl].
  destruct (negb _); [apply stays_refl|].
  destruct (c_playerId c) as [playerId|]; [|apply stays_refl].
  destruct (JSMap.get lobbyId (lobbies s)) as [l|]; [|apply stays_refl].
  destruct (JSMap.get playerId (players l)); [|apply stays_refl].
  set (s2 := broadcastLobbyUpdate lobbyId _).
  assert (S2 : stays k s s2).
  { apply stays_steady. subst s2. repeat steady_step. }
  unfold checkGameStart.
  destruct (JSMap.get lobbyId (lobbies s2)) as [l2|] eqn:H2; [|exact S2].
  destruct (game_state_eqb (gameState l2) GLobby) eqn:G; simpl negb; cbv iota; [|exact S2].
  destruct (_ && _); [|exact S2].
  eapply stays_trans; [exact S2|].
  destruct (startCountdown_eq lobbyId s2 l2 H2) as (E1 & E2 & _).
  unfold stays, registered, gameState_of.
  destruct (String.eqb_spec k lobbyId) as [->|N].
  - rewrite E1, H2. simpl. split; [discriminate|].
    intros [= P]. rewrite P in G. discriminate.
  - rewrite (E2 k N). auto.
Qed.

Lemma stays_startGame rnd k lobbyId s : stays k s (startGame rnd lobbyId s).
Proof.
  destruct (JSMap.get lobbyId (lobbies s)) as [l|] eqn:Hl.
  - destruct (startGame_eq rnd lobbyId s l Hl)
      as (l' & E1 & E2 & _ & _ & _ & _ & _ & _ & _ & E10).
    unfold stays, registered, gameState_of.
    destruct (String.eqb_spec k lobbyId) as [->|N].
    + rewrite E1. simpl. rewrite E2. split; [discriminate | reflexivity].
    + rewrite (E10 k N). auto.
  - unfold startGame. rewrite Hl. apply stays_refl.
Qed.

Lemma stays_countdownTick rnd k lobbyId s : stays k s (countdownTick rnd lobbyId s).
Proof.
  unfold countdownTick.
  destruct (JSMap.get lobbyId (lobbies s)) as [l|]; [|apply stays_refl].
  assert (S1 : stays k s (update_lobby lobbyId (with_countdown (countdown l - 1)) s))
    by (apply stays_update_lobby; auto).
  destruct (0 <? countdown l - 1)%Z.
  - eapply stays_trans; [exact S1|]. apply stays_frame. now autorewrite with frame.
  - eapply stays_trans; [|apply stays_startGame].
    destruct (countdownInterval l); [|exact S1].
    eapply stays_trans; [exact S1 | now apply stays_frame].
Qed.

Lemma teardown_lobbies lobbyId s :
  lobbies (teardown lobbyId s) = JSMap.delete lobbyId (lobbies s).
Proof.
  unfold teardown. destruct (JSMap.get lobbyId (lobbies s)) as [l|] eqn:Hl.
  - cbn [with_lobbies lobbies]. f_equal.
    generalize (players l). intros r. clear Hl. revert s.
    induction r as [|kp r IH]; intros s; [reflexivity|]. simpl.
    destruct (JSMap.get (p_clientId (snd kp)) (clients s)); rewrite IH; [|reflexivity].
    cbn [with_clients lobbies]. now autorewrite with frame.
  - symmetry. unfold JSMap.delete. apply forallb_filter_id.
    induction (lobbies s) as [|[k0 v] r IH]; [reflexivity|]. simpl in *.
    destruct (k0 =? lobbyId); [discriminate|]. simpl. now apply IH.
Qed.

Lemma registered_frame k s s' : lobbies s' = lobbies s -> registered k s -> registered k s'.
Proof. unfold registered. now intros ->. Qed.

Lemma registered_update_lobby k lobbyId f s :
  registered k s -> registered k (update_lobby lobbyId f s).
Proof.
  unfold registered. rewrite get_update_lobby.
  destruct (lobbyId =? k); [|auto].
  destruct (JSMap.get k (lobbies s)); simpl; [discriminate | auto].
Qed.

Lemma registered_handleRequestLobby k clientId s :
  registered k s -> registered k (handleRequestLobby clientId s).
Proof.
  intros R. unfold handleRequestLobby.
  destruct (JSMap.get clientId (clients s)) as [c|]; [|exact R].
  destruct (negb _); [exact R|].
  destruct (c_lobbyId c) as [lobbyId|]; [|exact R].
  destruct (JSMap.get lobbyId (lobbies s)) as [l|]; [|exact R].
  set (s1 := match countdownInterval l with Some h => _ | None => s end).
  assert (R1 : registered k s1).
  { subst s1. destruct (countdownInterval l); [|exact R].
    apply registered_update_lobby. now apply (registered_frame k s). }
  set (s2 := match gameTickInterval l with Some h => _ | None => s1 end).
  assert (R2 : registered k s2).
  { subst s2. destruct (gameTickInterval l); [|exact R1].
    apply registered_update_lobby. now apply (registered_frame k s1). }
  match goal with
  | |- registered k (broadcastLobbyUpdate _ (broadcastToLobby _ _ ?x)) =>
      apply (registered_frame k x); [now autorewrite with frame|]
  end.
  now do 2 apply registered_update_lobby.
Qed.

(** X25. A registered lobby leaves the registry only when its teardown
    timeout fires, and a lobby in state [playing] leaves that state only by
    the teardown, by a [request_lobby], or by a [create_lobby] that reuses
    its code: under every other event a registered lobby stays registered
    and a playing lobby stays playing.  In particular neither the end of a
    game nor the departure of all players changes the state of a lobby or
    unregisters it. *)
Theorem lobby_left_only_by_reset_or_teardown rnd clock s e k :
  (registered k s ->
   registered k (step rnd clock s e) \/
   exists h dt, e = Fire h dt /\ timer_active h s = Some (TeardownTimer k)) /\
  (gameState_of k s = Some GPlaying ->
   gameState_of k (step rnd clock s e) = Some GPlaying \/
   (exists h dt, e = Fire h dt /\ timer_active h s = Some (TeardownTimer k)) \/
   (exists c fresh, e = Receive c request_lobby fresh) \/
   (exists c, e = Receive c create_lobby k)).
Proof.
  assert (Use : forall s', stays k s s' ->
            (registered k s -> registered k s' \/
               exists h dt, e = Fire h dt /\ timer_active h s = Some (TeardownTimer k)) /\
            (gameState_of k s = Some GPlaying ->
               gameState_of k s' = Some GPlaying \/
               (exists h dt, e = Fire h dt /\ timer_active h s = Some (TeardownTimer k)) \/
               (exists c fresh, e = Receive c request_lobby fresh) \/
               (exists c, e = Receive c create_lobby k))).
  { intros s' [A B]. split; intros H; left; auto. }
  destruct e as [clientId|clientId m fresh|clientId|clientId|h dt]; cbn [step].
  - apply Use. now apply stays_frame.
  - unfold handleClientMessage.
    destruct (JSMap.get clientId (clients s)) as [c|]; [|apply Use, stays_refl].
    destruct m as [|lid name| |lid input| | |].
    + destruct (String.eqb_spec fresh k) as [->|N].
      * split.
        -- intros _. left. unfold registered. autorewrite with frame.
           unfold createLobby. cbn [with_lobbies lobbies]. rewrite get_set_same. discriminate.
        -- intros _. right. right. right. now exists clientId.
      * apply Use. unfold stays, registered, gameState_of. autorewrite with frame.
        unfold createLobby. cbn [with_lobbies lobbies].
        rewrite get_set_other by exact N. auto.
    + destruct lid as [lid|]; [|apply Use, stays_frame; now autorewrite with frame].
      destruct (truthy _); [apply Use, stays_handleJoinLobby|].
      apply Use, stays_frame. now autorewrite with frame.
    + destruct (c_lobbyId c) as [lid|];
        [|apply Use, stays_frame; now autorewrite with frame].
      destruct (truthy _); [apply Use, stays_handleToggleReady|].
      apply Use, stays_frame. now autorewrite with frame.
    + destruct lid as [lid|]; [|apply Use, stays_refl].
      destruct input as [i|]; [|apply Use, stays_refl].
      destruct (truthy _); [|apply Use, stays_refl].
      apply Use, stays_steady, steady_handlePlayerInput.
    + split.
      * intros R. left. now apply registered_handleRequestLobby.
      * intros _. right. right. left. now exists clientId, fresh.
    + apply Use, stays_frame. now autorewrite with frame.
    + apply Use, stays_refl.
  - apply Use. now apply stays_frame.
  - apply Use. eapply stays_trans; [|apply stays_steady, steady_handleClientDisconnect].
    now apply stays_frame.
  - unfold fire. destruct (timer_active h s) as [[lid|lid|lid]|] eqn:T;
      [| | |apply Use, stays_refl].
    + apply Use, stays_countdownTick.
    + apply Use, stays_steady, steady_gameTick.
    + destruct (String.eqb_spec lid k) as [->|N].
      * split; intros _; [right | right; left]; now exists h, dt.
      * apply Use. unfold stays, registered, gameState_of.
        rewrite teardown_lobbies. cbn [clearTimer with_timers lobbies].
        rewrite get_delete_other by exact N. auto.
Qed.

Lemma lobby_left_only_by_reset_or_teardown_witness :
  gameState_of "LOBBY1" duel = Some GPlaying /\
  gameState_of "LOBBY1" (step (fun _ => 0) (fun _ => 0%Z) duel (Close "cB"))
  = Some GPlaying.
Proof.
  split; [reflexivity|].
  destruct (proj2 (lobby_left_only_by_reset_or_teardown (fun _ => 0) (fun _ => 0%Z)
                     duel (Close "cB") "LOBBY1") eq_refl)
    as [H|[(h & dt & E & _)|[(c & f & E)|(c & E)]]];
    [exact H | discriminate E | discriminate E | discriminate E].
Defined.

Lemma input_touches_only_own_input_witness :
  handlePlayerInput "cA" "LOBBY1" (mkVec 1 0) waiting_room = waiting_room.
Proof.
  refine (proj1 (proj2 (proj2 (proj2
            (input_touches_only_own_input "cA" "LOBBY1" (mkVec 1 0) waiting_room)))) _).
  discriminate.
Defined.

(** ** The broadcast layer *)

(** X26. A multicast to a lobby sends one copy of the message for every
    player of the roster whose connection is registered and open, in roster
    order: a connection receives as many copies as it owns players of the
    roster, none if its socket is not open, and a connection that owns no
    player of the roster receives none.  Nothing but the log changes. *)
Theorem broadcast_copies_per_owned_player lobbyId m s l :
  JSMap.get lobbyId (lobbies s) = Some l ->
  let s' := broadcastToLobby lobbyId m s in
  exists delta,
    sent s' = (sent s ++ delta)%list /\
    (forall cm, In cm delta -> snd cm = m) /\
    (forall k, List.length (received_by k delta)
               = if deliverable k s then List.length (owned_by k (players l)) else 0%nat) /\
    clients s' = clients s /\ lobbies s' = lobbies s /\ timers s' = timers s.
Proof.
  intros Hl s'. subst s'. exists (to_all (recipients (clients s) (players l)) m).
  split; [rewrite broadcastToLobby_sent; unfold audience; now rewrite Hl|].
  split; [intros cm I; now apply In_to_all in I|].
  split; [|now autorewrite with frame].
  intros k. unfold received_by, to_all, recipients, owned_by, deliverable.
  rewrite length_map.
  induction (players l) as [|[q p] r IH]; simpl.
  - now destruct (JSMap.get k (clients s)) as [c|]; [destruct (c_open c)|].
  - rewrite map_app, filter_app, length_app, IH. clear IH.
    destruct (String.eqb_spec (p_clientId p) k) as [->|N].
    + destruct (JSMap.get k (clients s)) as [c|]; [destruct (c_open c)|]; simpl;
        rewrite ?String.eqb_refl; reflexivity.
    + destruct (JSMap.get (p_clientId p) (clients s)) as [c0|];
        [destruct (c_open c0)|]; simpl.
      * apply String.eqb_neq in N. rewrite N. reflexivity.
      * reflexivity.
      * reflexivity.
Qed.

Lemma broadcast_copies_per_owned_player_witness :
  exists delta,
    sent (broadcastToLobby "LOBBY1" force_lobby twin_room) = (sent twin_room ++ delta)%list /\
    List.length (received_by "c1" delta) = 2%nat.
Proof.
  destruct (broadcast_copies_per_owned_player "LOBBY1" force_lobby twin_room _ eq_refl)
    as (delta & S & _ & C & _).
  exists delta. split; [exact S|]. rewrite (C "c1"). reflexivity.
Defined.

(** ** The tick as a whole *)

(** X27. The tick callback of a lobby in state [playing] always ends by
    sending the lobby a [game_update] with the roster as the tick has left
    it, whatever the tick did before, the end of the game included: the
    lobby is still registered and in state [playing], and the last entries
    of the log are one [game_update] for each connection the lobby
    reaches. *)
Theorem tick_ends_with_game_update rnd clock lobbyId deltaTime s :
  gameState_of lobbyId s = Some GPlaying ->
  let s' := gameTick rnd clock lobbyId deltaTime s in
  exists l' earlier,
    JSMap.get lobbyId (lobbies s') = Some l' /\ gameState l' = GPlaying /\
    sent s' = (earlier ++ to_all (audience lobbyId s') (game_update_for (players l')))%list.
Proof.
  intros G s'. subst s'. unfold gameState_of in G.
  destruct (JSMap.get lobbyId (lobbies s)) as [l|] eqn:Hl; [|discriminate].
  injection G as G. unfold gameTick. rewrite Hl, G. simpl negb. cbv iota.
  set (s1 := updateGameState rnd clock lobbyId deltaTime s).
  pose proof (steady_updateGameState rnd clock lobbyId deltaTime s lobbyId) as St.
  fold s1 in St. rewrite Hl in St.
  destruct (JSMap.get lobbyId (lobbies s1)) as [l1|] eqn:H1; [|contradiction].
  destruct St as (G1 & _). rewrite G in G1.
  unfold broadcastGameState. rewrite H1, G1. simpl negb. cbv iota.
  exists l1, (sent s1). autorewrite with frame. split; [exact H1|]. split; [exact G1|].
  rewrite broadcastToLobby_sent. unfold game_update_for.
  rewrite (audience_frame lobbyId s1 (broadcastToLobby lobbyId _ s1))
    by now autorewrite with frame.
  reflexivity.
Qed.

Lemma tick_ends_with_game_update_witness :
  exists l' earlier,
    JSMap.get "LOBBY1" (lobbies (gameTick (fun _ => 0) (fun _ => 0%Z) "LOBBY1" (1 / 60) duel))
      = Some l' /\
    sent (gameTick (fun _ => 0) (fun _ => 0%Z) "LOBBY1" (1 / 60) duel)
      = (earlier
           ++ to_all (audience "LOBBY1"
                        (gameTick (fun _ => 0) (fun _ => 0%Z) "LOBBY1" (1 / 60) duel))
                (game_update_for (players l')))%list.
Proof.
  destruct (tick_ends_with_game_update (fun _ => 0) (fun _ => 0%Z) "LOBBY1" (1 / 60) duel
              eq_refl) as (l' & earlier & H & _ & S).
  exists l', earlier. split; [exact H | exact S].
Defined.

(** X28. A tick of a lobby in state [playing] that holds fewer than
    [minPlayersToStart] players does nothing but end the game without a
    winner: nobody is moved, no food is eaten, the clock is not read, the
    tick interval is cancelled in the lobby, [game_over] with no winner and
    size 0 goes to the lobby (also when one player is left), and the
    teardown is scheduled. *)
Theorem tick_below_quorum_ends_without_winner rnd clock lobbyId deltaTime s l :
  JSMap.get lobbyId (lobbies s) = Some l ->
  gameState l = GPlaying ->
  (JSMap.size (players l) < CONFIG.minPlayersToStart)%nat ->
  let s' := updateGameState rnd clock lobbyId deltaTime s in
  JSMap.get lobbyId (lobbies s') = Some (with_gameTickInterval None l) /\
  (forall k, k <> lobbyId -> JSMap.get k (lobbies s') = JSMap.get k (lobbies s)) /\
  clients s' = clients s /\
  clockCalls s' = clockCalls s /\ randomCalls s' = randomCalls s /\
  sent s' = (sent s ++ to_all (audience lobbyId s) (game_over None 0))%list /\
  In (nextHandle s, TeardownTimer lobbyId) (timers s').
Proof.
  intros Hl G Few s'. subst s'. unfold updateGameState. rewrite Hl, G.
  simpl negb. cbv iota. apply Nat.ltb_lt in Few. rewrite Few.
  destruct (endGame_spec lobbyId None s l Hl G) as (E1 & E2 & E3 & E4 & E5 & _).
  cbv zeta in *.
  split; [exact E2|]. split; [exact E3|]. split; [exact E1|].
  split.
  { unfold endGame. rewrite Hl, G. simpl negb. cbv iota. cbn [setTimer snd clockCalls].
    unfold broadcastToLobby.
    destruct (gameTickInterval l);
      match goal with
      | |- context [JSMap.get lobbyId (lobbies ?x)] =>
          destruct (JSMap.get lobbyId (lobbies x))
      end; reflexivity. }
  split.
  { unfold endGame. rewrite Hl, G. simpl negb. cbv iota. cbn [setTimer snd randomCalls].
    unfold broadcastToLobby.
    destruct (gameTickInterval l);
      match goal with
      | |- context [JSMap.get lobbyId (lobbies ?x)] =>
          destruct (JSMap.get lobbyId (lobbies x))
      end; reflexivity. }
  split; [exact E4|].
  rewrite E5. apply in_or_app. right. now left.
Qed.

Lemma tick_below_quorum_ends_without_winner_witness :
  sent (updateGameState (fun _ => 0) (fun _ => 0%Z) "LOBBY1" (1 / 60) last_one)
  = [("cA", game_over None 0)].
Proof.
  assert (Few : (JSMap.size (players last_one_lobby) < CONFIG.minPlayersToStart)%nat)
    by (unfold CONFIG.minPlayersToStart; simpl; lia).
  rewrite (proj1 (proj2 (proj2 (proj2 (proj2 (proj2
             (tick_below_quorum_ends_without_winner (fun _ => 0) (fun _ => 0%Z)
                "LOBBY1" (1 / 60) last_one last_one_lobby eq_refl eq_refl Few))))))).
  reflexivity.
Defined.

(** ** The registry of connections *)

Lemma same_connections_refl s : same_connections s s.
Proof. split; [reflexivity | eauto]. Qed.

Lemma same_connections_trans s0 s1 s2 :
  same_connections s0 s1 -> same_connections s1 s2 -> same_connections s0 s2.
Proof.
  intros [A1 A2] [B1 B2]. split; [congruence|].
  intros k c2 H2. destruct (B2 k c2 H2) as (c1 & H1 & E1).
  destruct (A2 k c1 H1) as (c0 & H0 & E0). exists c0. split; [exact H0 | congruence].
Qed.

Lemma same_connections_frame s s' : clients s' = clients s -> same_connections s s'.
Proof. intros E. unfold same_connections. rewrite E. split; [reflexivity | eauto]. Qed.

Lemma same_connections_update k f s :
  (forall c, c_id (f c) = c_id c) ->
  same_connections s (with_clients (JSMap.update k f (clients s)) s).
Proof.
  intros F. split; cbn [with_clients clients]; [apply keys_update|].
  intros k0 c'. rewrite get_update. destruct (k =? k0); [|eauto].
  destruct (JSMap.get k0 (clients s)) as [c|]; [|discriminate].
  intros [= <-]. exists c. split; [reflexivity | apply F].
Qed.

Lemma keys_set_same {V : Type} k (v v' : V) (m : list (string * V)) :
  JSMap.get k m = Some v -> JSMap.keys (JSMap.set k v' m) = JSMap.keys m.
Proof.
  induction m as [|[k0 v0] r IH]; [discriminate|]. simpl.
  destruct (String.eqb_spec k0 k) as [->|N]; simpl; [reflexivity|].
  intros H. now rewrite IH.
Qed.

Lemma same_connections_set k c c' s :
  JSMap.get k (clients s) = Some c -> c_id c' = c_id c ->
  same_connections s (with_clients (JSMap.set k c' (clients s)) s).
Proof.
  intros Hc E. split; cbn [with_clients clients]; [now apply (keys_set_same k c)|].
  intros k0 c0. destruct (String.eqb_spec k k0) as [<-|N].
  - rewrite get_set_same. intros [= <-]. eauto.
  - rewrite get_set_other by exact N. eauto.
Qed.

Lemma same_connections_iter (f : server -> server) n s :
  (forall s0, same_connections s0 (f s0)) -> same_connections s (Nat.iter n f s).
Proof.
  intros F. induction n as [|n IH]; [apply same_connections_refl|].
  simpl. eapply same_connections_trans; [exact IH | apply F].
Qed.

Lemma same_connections_fold {B : Type} (f : server -> B -> server) (bs : list B) s :
  (forall s0 b, same_connections s0 (f s0 b)) -> same_connections s (fold_left f bs s).
Proof.
  intros F. revert s. induction bs as [|b bs IH]; intros s; [apply same_connections_refl|].
  simpl. eapply same_connections_trans; [apply F | apply IH].
Qed.

(** Splits a goal [same_connections s (f x)] into [same_connections s x]
    and a step. *)
Ltac conn_step :=
  match goal with
  | |- same_connections ?s ?s => apply same_connections_refl
  | |- same_connections ?s (broadcastToLobby _ _ ?x) =>
      apply (same_connections_trans s x);
      [|apply same_connections_frame; now autorewrite with frame]
  | |- same_connections ?s (broadcastLobbyUpdate _ ?x) =>
      apply (same_connections_trans s x);
      [|apply same_connections_frame; now autorewrite with frame]
  | |- same_connections ?s (sendToClient _ _ ?x) =>
      apply (same_connections_trans s x);
      [|apply same_connections_frame; now autorewrite with frame]
  | |- same_connections ?s (update_player _ _ _ ?x) =>
      apply (same_connections_trans s x); [|now apply same_connections_frame]
  | |- same_connections ?s (update_lobby _ _ ?x) =>
      apply (same_connections_trans s x); [|now apply same_connections_frame]
  | |- same_connections ?s (with_lobbies _ ?x) =>
      apply (same_connections_trans s x); [|now apply same_connections_frame]
  | |- same_connections ?s (with_randomCalls _ ?x) =>
      apply (same_connections_trans s x); [|now apply same_connections_frame]
  | |- same_connections ?s (with_clockCalls _ ?x) =>
      apply (same_connections_trans s x); [|now apply same_connections_frame]
  | |- same_connections ?s (clearTimer _ ?x) =>
      apply (same_connections_trans s x); [|now apply same_connections_frame]
  | |- same_connections ?s (snd (setTimer _ ?x)) =>
      apply (same_connections_trans s x); [|now apply same_connections_frame]
  | |- same_connections ?s (with_clients (JSMap.update _ _ (clients ?x)) ?x) =>
      apply (same_connections_trans s x);
      [|apply same_connections_update; intros ?; reflexivity]
  | |- same_connections _ (match ?c with _ => _ end) => destruct c
  | |- same_connections _ (if ?c then _ else _) => destruct c
  end.

Lemma sc_endGame lobbyId winnerId s : same_connections s (endGame lobbyId winnerId s).
Proof. unfold endGame. repeat conn_step. Qed.

Lemma sc_absorbPlayer lobbyId a b s : same_connections s (absorbPlayer lobbyId a b s).
Proof.
  unfold absorbPlayer.
  destruct (JSMap.get lobbyId (lobbies s)); [|apply same_connections_refl].
  match goal with
  | |- same_connections s (match JSMap.get _ (lobbies ?x) with _ => _ end) =>
      assert (H1 : same_connections s x); [|set (s1 := x) in *]
  end.
  { destruct (find _ (clients s)) as [[k c]|]; [|apply same_connections_refl].
    repeat conn_step. }
  destruct (JSMap.get lobbyId (lobbies s1)); [|exact H1].
  destruct (_ && _); [|exact H1].
  eapply same_connections_trans; [exact H1 | apply sc_endGame].
Qed.

Lemma sc_foodStep rnd lobbyId playerId i s :
  same_connections s (foodStep rnd lobbyId playerId i s).
Proof.
  unfold foodStep.
  destruct (JSMap.get lobbyId (lobbies s)) as [l|]; [|apply same_connections_refl].
  destruct (JSMap.get playerId (players l)); [|apply same_connections_refl].
  destruct (nth_error (foodItems l) i); [|apply same_connections_refl].
  destruct (Rlt_dec _ _); [|apply same_connections_refl].
  destruct (Rlt_dec _ _); [|repeat conn_step].
  eapply same_connections_trans; [|apply same_connections_iter].
  - repeat conn_step.
  - intros s0. unfold respawnOne. repeat conn_step.
Qed.

Lemma sc_foodLoop rnd lobbyId playerId k s :
  same_connections s (foodLoop rnd lobbyId playerId k s).
Proof.
  revert s. induction k as [|k IH]; intros s; [apply same_connections_refl|]. simpl.
  eapply same_connections_trans; [apply sc_foodStep | apply IH].
Qed.

Lemma sc_checkFoodCollisions rnd lobbyId s :
  same_connections s (checkFoodCollisions rnd lobbyId s).
Proof.
  unfold checkFoodCollisions.
  destruct (JSMap.get lobbyId (lobbies s)); [|apply same_connections_refl].
  apply same_connections_fold. intros s0 b.
  destruct (JSMap.get lobbyId (lobbies s0)); [apply sc_foodLoop | apply same_connections_refl].
Qed.

Lemma sc_writeObj lobbyId i f st :
  same_connections (snd st) (snd (writeObj lobbyId i f st)).
Proof.
  unfold writeObj. destruct (nth_error (fst st) i); [|apply same_connections_refl].
  now apply same_connections_frame.
Qed.

Lemma sc_collidePair lobbyId i j st :
  same_connections (snd st) (snd (collidePair lobbyId i j st)).
Proof.
  unfold collidePair.
  destruct (nth_error (fst st) i) as [a|]; [|apply same_connections_refl].
  destruct (nth_error (fst st) j) as [b|]; [|apply same_connections_refl].
  destruct (_ || _); [apply same_connections_refl|].
  destruct (Rlt_dec _ _); [|apply same_connections_refl].
  assert (Ab : forall x big small st0,
            same_connections (snd st0) (snd (absorbInto lobbyId x big small st0))).
  { intros x big small st0. unfold absorbInto. cbn [snd].
    eapply same_connections_trans; [|apply sc_absorbPlayer].
    eapply same_connections_trans; [|apply sc_writeObj]. apply sc_writeObj. }
  destruct (Rgt_dec _ _); [apply Ab|].
  destruct (Rgt_dec _ _); [apply Ab|].
  unfold bounce.
  eapply same_connections_trans; [|apply sc_writeObj].
  eapply same_connections_trans; [|apply sc_writeObj].
  eapply same_connections_trans; [|apply sc_writeObj]. apply sc_writeObj.
Qed.

Lemma sc_fold_pairs {B : Type} (f : list player * server -> B -> list player * server)
    (bs : list B) st :
  (forall st0 b, same_connections (snd st0) (snd (f st0 b))) ->
  same_connections (snd st) (snd (fold_left f bs st)).
Proof.
  intros F. revert st. induction bs as [|b bs IH]; intros st;
    [apply same_connections_refl|].
  simpl. eapply same_connections_trans; [apply F | apply IH].
Qed.

Lemma sc_checkPlayerCollisions lobbyId s :
  same_connections s (checkPlayerCollisions lobbyId s).
Proof.
  unfold checkPlayerCollisions.
  destruct (JSMap.get lobbyId (lobbies s)) as [l|]; [|apply same_connections_refl].
  apply (sc_fold_pairs _ _ (JSMap.values (players l), s)).
  intros st0 i. apply sc_fold_pairs. intros st1 j. apply sc_collidePair.
Qed.

Lemma sc_updateGameState rnd clock lobbyId deltaTime s :
  same_connections s (updateGameState rnd clock lobbyId deltaTime s).
Proof.
  unfold updateGameState.
  destruct (JSMap.get lobbyId (lobbies s)); [|apply same_connections_refl].
  destruct (negb _); [apply same_connections_refl|].
  destruct (_ <? _)%nat; [apply sc_endGame|].
  assert (M : same_connections s (moveAll clock lobbyId deltaTime s)).
  { unfold moveAll. repeat conn_step. }
  set (s1 := moveAll clock lobbyId deltaTime s) in *.
  assert (F : same_connections s1 (checkFoodCollisions rnd lobbyId s1))
    by apply sc_checkFoodCollisions.
  set (s2 := checkFoodCollisions rnd lobbyId s1) in *.
  assert (P : same_connections s2 (checkPlayerCollisions lobbyId s2))
    by apply sc_checkPlayerCollisions.
  set (s3 := checkPlayerCollisions lobbyId s2) in *.
  assert (C : same_connections s3 (cleanUp clock lobbyId s3)).
  { unfold cleanUp.
    match goal with
    | |- same_connections s3 (match JSMap.get _ (lobbies ?x) with _ => _ end) =>
        assert (H1 : same_connections s3 x) by (now apply same_connections_frame);
        set (s4 := x) in *
    end.
    destruct (JSMap.get lobbyId (lobbies s4)); [|exact H1].
    eapply same_connections_trans; [exact H1|]. unfold reapInactive.
    apply same_connections_fold. intros s0 kp. destruct (inactive _ _); repeat conn_step. }
  set (s4 := cleanUp clock lobbyId s3) in *.
  assert (E : same_connections s4 (checkGameEnd lobbyId s4)).
  { unfold checkGameEnd.
    destruct (JSMap.get lobbyId (lobbies s4)); [|apply same_connections_refl].
    destruct (_ && _); [apply sc_endGame | apply same_connections_refl]. }
  eauto using same_connections_trans.
Qed.

Lemma sc_gameTick rnd clock lobbyId deltaTime s :
  same_connections s (gameTick rnd clock lobbyId deltaTime s).
Proof.
  unfold gameTick.
  destruct (JSMap.get lobbyId (lobbies s)) as [l|]; [|apply same_connections_refl].
  destruct (negb _).
  - destruct (gameTickInterval l);
      [now apply same_connections_frame | apply same_connections_refl].
  - apply (same_connections_trans s (updateGameState rnd clock lobbyId deltaTime s));
      [apply sc_updateGameState|].
    unfold broadcastGameState. repeat conn_step.
Qed.

Lemma sc_startGame rnd lobbyId s : same_connections s (startGame rnd lobbyId s).
Proof.
  destruct (JSMap.get lobbyId (lobbies s)) as [l|] eqn:Hl.
  - destruct (startGame_eq rnd lobbyId s l Hl) as (l' & _ & _ & _ & _ & _ & _ & _ & C & _).
    now apply same_connections_frame.
  - unfold startGame. rewrite Hl. apply same_connections_refl.
Qed.

Lemma sc_countdownTick rnd lobbyId s : same_connections s (countdownTick rnd lobbyId s).
Proof.
  unfold countdownTick.
  destruct (JSMap.get lobbyId (lobbies s)) as [l|]; [|apply same_connections_refl].
  destruct (0 <? countdown l - 1)%Z; [repeat conn_step|].
  match goal with
  | |- same_connections s (startGame rnd lobbyId ?x) =>
      apply (same_connections_trans s x); [|apply sc_startGame]
  end.
  destruct (countdownInterval l); repeat conn_step.
Qed.

Lemma sc_teardown lobbyId s : same_connections s (teardown lobbyId s).
Proof.
  unfold teardown.
  destruct (JSMap.get lobbyId (lobbies s)) as [l|]; [|apply same_connections_refl].
  conn_step. apply same_connections_fold. intros s0 kp.
  destruct (JSMap.get (p_clientId (snd kp)) (clients s0)); [|apply same_connections_refl].
  cbv zeta. repeat conn_step.
Qed.

Lemma sc_handleJoinLobby clientId lobbyId playerName uuid s :
  same_connections s (handleJoinLobby clientId lobbyId playerName uuid s).
Proof.
  unfold handleJoinLobby.
  destruct (JSMap.get lobbyId (lobbies s)) as [l|]; [|repeat conn_step].
  destruct (negb _); [repeat conn_step|].
  destruct (_ <=? _)%nat; [repeat conn_step|].
  set (s1 := update_lobby lobbyId _ s).
  assert (S1 : same_connections s s1) by now apply same_connections_frame.
  destruct (JSMap.get clientId (clients s1)) as [c|] eqn:Hc; [|exact S1].
  do 2 conn_step. eapply same_connections_trans; [exact S1|].
  now apply (same_connections_set clientId c).
Qed.

Lemma sc_handleToggleReady clientId lobbyId s :
  same_connections s (handleToggleReady clientId lobbyId s).
Proof.
  unfold handleToggleReady.
  destruct (JSMap.get clientId (clients s)) as [c|]; [|apply same_connections_refl].
  destruct (negb _); [apply same_connections_refl|].
  destruct (c_playerId c) as [playerId|]; [|apply same_connections_refl].
  destruct (JSMap.get lobbyId (lobbies s)) as [l|]; [|apply same_connections_refl].
  destruct (JSMap.get playerId (players l)); [|apply same_connections_refl].
  set (s2 := broadcastLobbyUpdate lobbyId _).
  assert (S2 : same_connections s s2) by (subst s2; repeat conn_step).
  unfold checkGameStart.
  destruct (JSMap.get lobbyId (lobbies s2)) as [l2|] eqn:H2; [|exact S2].
  destruct (negb _); [exact S2|].
  destruct (_ && _); [|exact S2].
  eapply same_connections_trans; [exact S2|].
  destruct (startCountdown_eq lobbyId s2 l2 H2) as (_ & _ & C & _).
  now apply same_connections_frame.
Qed.

Lemma sc_handleRequestLobby clientId s :
  same_connections s (handleRequestLobby clientId s).
Proof.
  unfold handleRequestLobby.
  destruct (JSMap.get clientId (clients s)) as [c|]; [|apply same_connections_refl].
  destruct (negb _); [apply same_connections_refl|].
  destruct (c_lobbyId c) as [lobbyId|]; [|apply same_connections_refl].
  destruct (JSMap.get lobbyId (lobbies s)) as [l|]; [|apply same_connections_refl].
  do 4 conn_step.
  destruct (gameTickInterval l), (countdownInterval l); repeat conn_step.
Qed.

Lemma sc_handleClientMessage clientId m fresh s :
  same_connections s (handleClientMessage clientId m fresh s).
Proof.
  unfold handleClientMessage.
  destruct (JSMap.get clientId (clients s)) as [c|]; [|apply same_connections_refl].
  destruct m as [|lid name| |lid input| | |].
  - unfold createLobby. repeat conn_step.
  - destruct lid as [lid|]; [|repeat conn_step].
    destruct (truthy _); [apply sc_handleJoinLobby | repeat conn_step].
  - destruct (c_lobbyId c) as [lid|]; [|repeat conn_step].
    destruct (truthy _); [apply sc_handleToggleReady | repeat conn_step].
  - destruct lid as [lid|]; [|apply same_connections_refl].
    destruct input as [i|]; [|apply same_connections_refl].
    destruct (truthy _); [|apply same_connections_refl].
    unfold handlePlayerInput. repeat conn_step.
  - apply sc_handleRequestLobby.
  - repeat conn_step.
  - apply same_connections_refl.
Qed.

Lemma sc_fire rnd clock h dt s : same_connections s (fire rnd clock h dt s).
Proof.
  unfold fire. destruct (timer_active h s) as [[lid|lid|lid]|];
    [| | |apply same_connections_refl].
  - apply sc_countdownTick.
  - apply sc_gameTick.
  - eapply same_connections_trans; [|apply sc_teardown]. now apply same_connections_frame.
Qed.

Lemma handleClientDisconnect_clients clientId s :
  clients (handleClientDisconnect clientId s)
  = match JSMap.get clientId (clients s) with
    | Some _ => JSMap.delete clientId (clients s)
    | None => clients s
    end.
Proof.
  unfold handleClientDisconnect.
  destruct (JSMap.get clientId (clients s)) as [c|]; [|reflexivity].
  cbn [with_clients clients]. f_equal.
  destruct (c_lobbyId c) as [lid|]; [|reflexivity].
  destruct (negb _); [reflexivity|].
  destruct (JSMap.get lid (lobbies s)) as [l|]; [|reflexivity].
  destruct (c_playerId c) as [pid|]; [|reflexivity].
  destruct (negb _); [reflexivity|].
  match goal with
  | |- clients (match JSMap.get _ (lobbies ?x) with _ => _ end) = _ =>
      set (s2 := x);
      assert (C2 : clients s2 = clients s) by (subst s2; now autorewrite with frame)
  end.
  destruct (JSMap.get lid (lobbies s2)) as [l2|] eqn:H2; [|exact C2].
  destruct (_ && _) eqn:E; [|exact C2].
  apply andb_prop in E. destruct E as [G _].
  assert (G2 : gameState l2 = GPlaying) by (destruct (gameState l2); now try discriminate).
  now rewrite (proj1 (endGame_spec lid _ s2 l2 H2 G2)).
Qed.

Lemma delete_update {V : Type} k (f : V -> V) (m : list (string * V)) :
  JSMap.delete k (JSMap.update k f m) = JSMap.delete k m.
Proof.
  induction m as [|[k0 v] r IH]; [reflexivity|]. simpl.
  destruct (k0 =? k) eqn:E; simpl; rewrite E; simpl; [reflexivity | now rewrite IH].
Qed.

Lemma delete_absent {V : Type} k (m : list (string * V)) :
  JSMap.get k m = None -> JSMap.delete k m = m.
Proof.
  intros H. unfold JSMap.delete. apply forallb_filter_id.
  induction m as [|[k0 v] r IH]; [reflexivity|]. simpl in *.
  destruct (k0 =? k); [discriminate|]. simpl. now apply IH.
Qed.

(** X29. Connections enter the registry by a connection event and leave
    it by their own close event, and in no other way: a connection event
    registers the connection, open and bound to nothing, and touches no
    other; a close event removes that one connection from the registry and
    keeps the others in their order; after any other event (a message, a
    socket going down, a timer firing) the same connections are registered
    in the same order, each under the id it had. *)
Theorem connections_change_only_by_connect_and_close rnd clock s e :
  let s' := step rnd clock s e in
  match e with
  | Connect c =>
      JSMap.get c (clients s') = Some (mkClient c true None None) /\
      forall k, k <> c -> JSMap.get k (clients s') = JSMap.get k (clients s)
  | Close c =>
      JSMap.get c (clients s') = None /\
      JSMap.keys (clients s') = JSMap.keys (JSMap.delete c (clients s))
  | _ => same_connections s s'
  end.
Proof.
  destruct e as [c|c m fresh|c|c|h dt]; cbn [step].
  - cbn [with_clients clients]. split; [apply get_set_same|].
    intros k N. apply get_set_other. congruence.
  - apply sc_handleClientMessage.
  - unfold setOpen. apply same_connections_update. reflexivity.
  - rewrite handleClientDisconnect_clients. unfold setOpen. cbn [with_clients clients].
    rewrite get_update_same.
    destruct (JSMap.get c (clients s)) as [cl|] eqn:Hc; cbn [option_map].
    + rewrite delete_update. split; [apply get_delete_same | reflexivity].
    + rewrite get_update_same, Hc, keys_update, (delete_absent c _ Hc). auto.
  - apply sc_fire.
Qed.

Lemma registry_ok_same s s' : same_connections s s' -> registry_ok s -> registry_ok s'.
Proof.
  intros [K A] R k c' H'. destruct (A k c' H') as (c & H & E).
  rewrite E. now apply R.
Qed.

Lemma registry_ok_step rnd clock s e : registry_ok s -> registry_ok (step rnd clock s e).
Proof.
  intros R. destruct e as [c|c m fresh|c|c|h dt]; cbn [step].
  - intros k cl. cbn [with_clients clients].
    destruct (String.eqb_spec c k) as [<-|N].
    + rewrite get_set_same. now intros [= <-].
    + rewrite get_set_other by exact N. apply R.
  - eapply registry_ok_same; [apply sc_handleClientMessage | exact R].
  - eapply registry_ok_same; [|exact R].
    unfold setOpen. apply same_connections_update. reflexivity.
  - assert (R1 : registry_ok (setOpen c false s)).
    { eapply registry_ok_same; [|exact R].
      unfold setOpen. apply same_connections_update. reflexivity. }
    intros k cl. rewrite handleClientDisconnect_clients.
    destruct (JSMap.get c (clients (setOpen c false s))); [|apply R1].
    rewrite get_delete. destruct (c =? k); [discriminate | apply R1].
  - eapply registry_ok_same; [apply sc_fire | exact R].
Qed.

(** X30. In every state the server can reach, every registered connection
    is registered under its own id: the [id] field written when the
    connection is accepted is never changed, and no connection is ever
    stored under another key. *)
Theorem connections_keep_their_id rnd clock s :
  reachable rnd clock s ->
  forall k c, JSMap.get k (clients s) = Some c -> c_id c = k.
Proof.
  intros [es ->]. unfold run. apply fold_left_inv.
  - intros k c. discriminate.
  - intros s e. apply registry_ok_step.
Qed.

Lemma connections_keep_their_id_witness :
  exists c,
    JSMap.get "c1" (clients (run (fun _ => 0) (fun _ => 0%Z) initial twin_trace)) = Some c /\
    c_id c = "c1".
Proof.
  eexists. split; [unfold twin_trace; crunch; reflexivity|].
  refine (connections_keep_their_id (fun _ => 0) (fun _ => 0%Z)
            (run (fun _ => 0) (fun _ => 0%Z) initial twin_trace)
            (ex_intro _ twin_trace eq_refl) "c1" _ _).
  unfold twin_trace. crunch. reflexivity.
Defined.

(** ** The sockets a teardown closes *)

(** X12. In a state reached by events that generate no lobby code twice
    (so that the lobby registered under a code is the lobby object every
    teardown callback scheduled for that code holds), the teardown of a
    registered lobby removes it from the registry, leaves the other lobbies
    and the timers alone, unregisters no connection, and closes the socket
    of every connection that owns a player of the roster while the open
    state of the others is unchanged; each of the owners whose socket was
    open is sent [prepare_reconnect] once, and nobody else is sent
    anything. *)
Theorem teardown_closes_roster rnd clock es lobbyId l :
  NoDup (created_codes es) ->
  let s := run rnd clock initial es in
  JSMap.get lobbyId (lobbies s) = Some l ->
  let s' := teardown lobbyId s in
  JSMap.get lobbyId (lobbies s') = None /\
  (forall k, k <> lobbyId -> JSMap.get k (lobbies s') = JSMap.get k (lobbies s)) /\
  timers s' = timers s /\
  JSMap.keys (clients s') = JSMap.keys (clients s) /\
  (forall k, deliverable k s' = deliverable k s && negb (owner k (players l))) /\
  exists told,
    sent s' = (sent s ++ to_all told prepare_reconnect)%list /\ NoDup told /\
    forall k, In k told <-> deliverable k s = true /\ owner k (players l) = true.
Proof.
  intros _ s Hl s'. subst s'.
  assert (R : registry_ok s).
  { subst s. unfold run. apply fold_left_inv.
    - intros k c. discriminate.
    - intros s e. apply registry_ok_step. }
  split; [apply teardown_removes_lobby|].
  unfold teardown. rewrite Hl.
  destruct (teardown_loop (players l) s R) as (L & T & K & D & told & S & N & M).
  cbv zeta in *.
  set (s1 := fold_left _ (players l) s) in *.
  cbn [with_lobbies lobbies clients timers sent].
  split; [intros k Hk; rewrite L; now apply get_delete_other|].
  split; [exact T|]. split; [exact K|]. split; [exact D|].
  exists told. auto.
Qed.

Lemma teardown_closes_roster_witness :
  let s := run (fun _ => 0) (fun _ => 0%Z) initial over_trace in
  deliverable "cA" s = true /\
  deliverable "cA" (teardown "LOBBY1" s) = false.
Proof.
  intros s.
  assert (N : NoDup (created_codes over_trace)).
  { simpl. constructor; [intros [] | constructor]. }
  assert (E : exists l, JSMap.get "LOBBY1" (lobbies s) = Some l /\
                        owner "cA" (players l) = true /\ deliverable "cA" s = true).
  { subst s. unfold over_trace. crunch. eexists. repeat split. }
  destruct E as (l & E & O & D). split; [exact D|]. subst s.
  rewrite (proj1 (proj2 (proj2 (proj2 (proj2
             (teardown_closes_roster (fun _ => 0) (fun _ => 0%Z) over_trace "LOBBY1" l
                                     N E)))))).
  rewrite D, O. reflexivity.
Defined.
